(** * jsonquery: the standard library of query functions, embedded in Rocq

    The development follows the TypeScript sources:
    - [functions.ts] (the table [functions] of function builders, the helper
      [buildFunction] and the predicate [truthy]);
    - the JavaScript operations those builders rely on ([===], [<], [+],
      [String], [Number], [Math.round], [Array.prototype.*], ...), written
      out after ECMA-262.

    Data is modelled as the program has it at run time: primitive values,
    and references into a store of arrays and objects.  Numbers are IEEE 754
    binary64 values ([spec_float] at precision 53). *)

From Stdlib Require Import ZArith List String Ascii Bool Lia.
From Stdlib Require Import Floats.SpecFloat.
From stdpp Require Import base list.

Import ListNotations.
Abbreviation length := Datatypes.length.
Local Open Scope string_scope.
Local Open Scope Z_scope.

(** ** Numbers: binary64 *)

Module Num.

Definition number := spec_float.

Definition prec : Z := 53.
Definition emax : Z := 1024.

Definition NaN : number := S754_nan.
Definition Infinity : number := S754_infinity false.
Definition NegInfinity : number := S754_infinity true.
Definition zero : number := S754_zero false.
Definition neg_zero : number := S754_zero true.

(** The integer [z], rounded to nearest-even when it needs more than 53 bits. *)
Definition of_Z (z : Z) : number := binary_normalize prec emax z 0 false.

(** [m * 2^e], rounded. *)
Definition of_bin (m e : Z) : number := binary_normalize prec emax m e false.

(** The quotient [p / q] of two positive integers, correctly rounded. *)
Definition of_ratio (neg : bool) (p q : positive) : number :=
  let '(m, e, l) := SFdiv_core_binary prec emax (Zpos p) 0 (Zpos q) 0 in
  binary_round_aux prec emax neg m e l.

(** [d * 10^e10] for a non-negative integer [d], correctly rounded.  Beyond
    1e400 the value overflows; below [2^-(bits d) * 1e-400] it rounds to 0. *)
Definition of_decimal (neg : bool) (d : Z) (e10 : Z) : number :=
  match d with
  | Zpos p =>
      if 400 <? e10 then S754_infinity neg
      else if e10 <? - 401 - Z.log2 d then S754_zero neg
      else if 0 <=? e10 then of_ratio neg (p * Z.to_pos (10 ^ e10)) 1
      else of_ratio neg p (Z.to_pos (10 ^ (- e10)))
  | _ => S754_zero neg
  end.

Definition add : number -> number -> number := SFadd prec emax.
Definition sub : number -> number -> number := SFsub prec emax.
Definition mul : number -> number -> number := SFmul prec emax.
Definition div : number -> number -> number := SFdiv prec emax.
Definition opp : number -> number := SFopp.
Definition abs : number -> number := SFabs.
Definition eqb : number -> number -> bool := SFeqb.
Definition ltb : number -> number -> bool := SFltb.
Definition leb : number -> number -> bool := SFleb.

Definition is_nan (x : number) : bool :=
  match x with S754_nan => true | _ => false end.

Definition is_zero (x : number) : bool :=
  match x with S754_zero _ => true | _ => false end.

Definition number_eq_dec (x y : number) : {x = y} + {x <> y}.
Proof. repeat decide equality. Defined.

(** Same representation: on the canonical floats the operations produce, the
    same number with the same sign of zero. *)
Definition same (x y : number) : bool :=
  if number_eq_dec x y then true else false.

(** *** [Math.round]: the nearest integer, ties towards +Infinity.
    A result in [-0.5, -0] is [-0]. *)
Definition Math_round (x : number) : number :=
  match x with
  | S754_finite s m e =>
      if 0 <=? e then x
      else
        let den := 2 ^ (- e) in
        let num := if s then - Zpos m else Zpos m in
        (* floor (num / den + 1/2) *)
        let r := (2 * num + den) / (2 * den) in
        binary_normalize prec emax r 0 s
  | _ => x
  end.

(** *** [Math.min] and [Math.max] of two numbers ([-0] is below [+0]). *)
Definition min2 (x y : number) : number :=
  if is_nan x || is_nan y then NaN
  else if ltb x y then x
  else if ltb y x then y
  else match x with S754_zero true => x | _ => y end.

Definition max2 (x y : number) : number :=
  if is_nan x || is_nan y then NaN
  else if ltb x y then y
  else if ltb y x then x
  else match x with S754_zero false => x | _ => y end.

(** *** The remainder [%]: the sign of the dividend, exact. *)
Definition rem (n d : number) : number :=
  match n, d with
  | S754_nan, _ | _, S754_nan => NaN
  | S754_infinity _, _ => NaN
  | _, S754_zero _ => NaN
  | _, S754_infinity _ => n
  | S754_zero _, _ => n
  | S754_finite sn mn en, S754_finite _ md ed =>
      let e := Z.min en ed in
      let N := Zpos mn * 2 ^ (en - e) in
      let D := Zpos md * 2 ^ (ed - e) in
      let R := N mod D in
      binary_normalize prec emax (if sn then - R else R) e sn
  end.

(** *** [**]: only the cases ECMA-262 fixes exactly; the others are
    implementation-approximated and answered [None]. *)
Definition pow (b x : number) : option number :=
  match x, b with
  | S754_nan, _ => Some NaN
  | S754_zero _, _ => Some (of_Z 1)
  | _, S754_nan => Some NaN
  | _, _ => None
  end.

(** *** Decimal digits *)

Definition digit_char (d : Z) : ascii := ascii_of_N (48 + Z.to_N d).

Fixpoint digits_acc (fuel : nat) (z : Z) (acc : string) : string :=
  match fuel with
  | O => acc
  | S f =>
      let acc' := String (digit_char (z mod 10)) acc in
      if z <? 10 then acc' else digits_acc f (z / 10) acc'
  end.

(** The decimal digits of a non-negative integer. *)
Definition Z_to_string (z : Z) : string :=
  digits_acc (S (Z.to_nat (Z.log2 z))) z "".

Fixpoint zeros (n : nat) : string :=
  match n with O => "" | S k => String "0" (zeros k) end.

Fixpoint take_str (n : nat) (s : string) : string :=
  match n, s with
  | S k, String c r => String c (take_str k r)
  | _, _ => ""
  end.

Fixpoint drop_str (n : nat) (s : string) : string :=
  match n, s with
  | S k, String _ r => drop_str k r
  | _, _ => s
  end.

(** *** [Number::toString] (radix 10), ECMA-262 6.1.6.1.20 *)

(** [p/q / 10^n] as a fraction. *)
Definition scale10 (p q n : Z) : Z * Z :=
  if 0 <=? n then (p, q * 10 ^ n) else (p * 10 ^ (- n), q).

Definition ge_pow10 (p q n : Z) : bool :=
  let '(P, Q) := scale10 p q n in Q <=? P.

Fixpoint exp_up (fuel : nat) (p q n : Z) : Z :=
  match fuel with
  | O => n
  | S f => if ge_pow10 p q n then exp_up f p q (n + 1) else n
  end.

Fixpoint exp_down (fuel : nat) (p q n : Z) : Z :=
  match fuel with
  | O => n
  | S f => if ge_pow10 p q (n - 1) then n else exp_down f p q (n - 1)
  end.

(** The [n] with [10^(n-1) <= p/q < 10^n]. *)
Definition decimal_exponent (p q : Z) : Z :=
  let n0 := ((Z.log2 p - Z.log2 q) * 30103) / 100000 in
  exp_down 700 p q (exp_up 700 p q n0).

(** The shortest digit string [s] of [k] digits with [s * 10^(n-k)]
    rounding to [x]; of two candidates the closer one, then the even one. *)
Fixpoint shortest (fuel : nat) (x : number) (p q n k : Z) : Z * Z * Z :=
  let '(P, Q) := scale10 p q (n - k) in
  let lo := P / Q in
  let r := P mod Q in
  let ok s := same (of_decimal false s (n - k)) x in
  let pick :=
    if r =? 0 then (if ok lo then Some lo else None)
    else
      match ok lo, ok (lo + 1) with
      | true, true =>
          Some match 2 * r ?= Q with
               | Lt => lo
               | Gt => lo + 1
               | Eq => if Z.even lo then lo else lo + 1
               end
      | true, false => Some lo
      | false, true => Some (lo + 1)
      | false, false => None
      end in
  match pick, fuel with
  | Some s, _ => if s =? 10 ^ k then (1, n + 1, 1) else (s, n, k)
  | None, S f => shortest f x p q n (k + 1)
  | None, O => (lo, n, k)
  end.

Definition format_decimal (s n k : Z) : string :=
  let ds := Z_to_string s in
  if (k <=? n) && (n <=? 21) then ds ++ zeros (Z.to_nat (n - k))
  else if (0 <? n) && (n <=? 21) then
    take_str (Z.to_nat n) ds ++ "." ++ drop_str (Z.to_nat n) ds
  else if (-6 <? n) && (n <=? 0) then "0." ++ zeros (Z.to_nat (- n)) ++ ds
  else
    let e := n - 1 in
    let es := (if e <? 0 then "-" else "+") ++ Z_to_string (Z.abs e) in
    if k =? 1 then ds ++ "e" ++ es
    else take_str 1 ds ++ "." ++ drop_str 1 ds ++ "e" ++ es.

Definition Number_toString (x : number) : string :=
  match x with
  | S754_nan => "NaN"
  | S754_zero _ => "0"
  | S754_infinity s => if s then "-Infinity" else "Infinity"
  | S754_finite sg m e =>
      let p := if 0 <=? e then Zpos m * 2 ^ e else Zpos m in
      let q := if 0 <=? e then 1 else 2 ^ (- e) in
      let n := decimal_exponent p q in
      let '(s, n', k) := shortest 20 (S754_finite false m e) p q n 1 in
      (if sg then "-" else "") ++ format_decimal s n' k
  end.

(** *** [StringToNumber], ECMA-262 7.1.4.1.1 *)

Definition code (c : ascii) : Z := Z.of_N (N_of_ascii c).

(** White space and line terminators among the code units below 256. *)
Definition is_ws (c : ascii) : bool :=
  let n := code c in ((9 <=? n) && (n <=? 13)) || (n =? 32) || (n =? 160).

Definition is_digit (c : ascii) : bool := (48 <=? code c) && (code c <=? 57).

Fixpoint trim_start (s : string) : string :=
  match s with
  | String c r => if is_ws c then trim_start r else s
  | EmptyString => s
  end.

Fixpoint rev_str (s acc : string) : string :=
  match s with
  | String c r => rev_str r (String c acc)
  | EmptyString => acc
  end.

Definition trim_end (s : string) : string :=
  rev_str (trim_start (rev_str s "")) "".

Definition trim (s : string) : string := trim_end (trim_start s).

Fixpoint span_digits (s : string) : string * string :=
  match s with
  | String c r =>
      if is_digit c then let '(d, t) := span_digits r in (String c d, t)
      else ("", s)
  | EmptyString => ("", "")
  end.

Fixpoint digits_value (s : string) (acc : Z) : Z :=
  match s with
  | String c r => digits_value r (10 * acc + (code c - 48))
  | EmptyString => acc
  end.

(** The value of a digit in the given radix, if it is one. *)
Definition radix_digit (radix : Z) (c : ascii) : option Z :=
  let n := code c in
  let d := if (48 <=? n) && (n <=? 57) then n - 48
           else if (97 <=? n) && (n <=? 102) then n - 87
           else if (65 <=? n) && (n <=? 70) then n - 55
           else radix in
  if d <? radix then Some d else None.

Fixpoint radix_value (radix : Z) (s : string) (acc : Z) : option Z :=
  match s with
  | String c r =>
      match radix_digit radix c with
      | Some d => radix_value radix r (radix * acc + d)
      | None => None
      end
  | EmptyString => Some acc
  end.

(** [0x..], [0o..], [0b..] (no sign). *)
Definition parse_non_decimal (s : string) : option number :=
  match s with
  | String "0" (String c (String d r)) =>
      let radix := if ((c =? "x") || (c =? "X"))%char then 16
                   else if ((c =? "o") || (c =? "O"))%char then 8
                   else if ((c =? "b") || (c =? "B"))%char then 2
                   else 0 in
      if radix =? 0 then None
      else option_map of_Z (radix_value radix (String d r) 0)
  | _ => None
  end.

(** What follows the mantissa: nothing, or [e], a sign and digits. *)
Definition parse_exponent (s : string) : option Z :=
  match s with
  | EmptyString => Some 0
  | String c r =>
      if ((c =? "e") || (c =? "E"))%char then
        let '(neg, r') :=
          match r with
          | String "-" t => (true, t)
          | String "+" t => (false, t)
          | _ => (false, r)
          end in
        match span_digits r' with
        | (String _ _ as ds, EmptyString) =>
            Some (if neg then - digits_value ds 0 else digits_value ds 0)
        | _ => None
        end
      else None
  end.

(** [Infinity], or digits with an optional fraction and exponent. *)
Definition parse_decimal (neg : bool) (s : string) : option number :=
  if (s =? "Infinity")%string then Some (S754_infinity neg)
  else
    let '(ip, r1) := span_digits s in
    let '(fp, r2) :=
      match r1 with
      | String "." t => span_digits t
      | _ => ("", r1)
      end in
    match ip, fp with
    | EmptyString, EmptyString => None
    | _, _ =>
        match parse_exponent r2 with
        | Some e =>
            Some (of_decimal neg (digits_value (ip ++ fp) 0)
                    (e - Z.of_nat (String.length fp)))
        | None => None
        end
    end.

Definition StringToNumber (str : string) : number :=
  let s := trim str in
  match s with
  | EmptyString => zero
  | String c r =>
      match parse_non_decimal s with
      | Some x => x
      | None =>
          let res :=
            if (c =? "-")%char then parse_decimal true r
            else if (c =? "+")%char then parse_decimal false r
            else parse_decimal false s in
          match res with Some x => x | None => NaN end
      end
  end.

(** *** [ToIntegerOrInfinity], truncation towards zero; the infinities are
    answered as integers beyond every length. *)
Definition ToIntegerOrInfinity (x : number) : Z :=
  match x with
  | S754_nan | S754_zero _ => 0
  | S754_infinity s => if s then - 2 ^ 1100 else 2 ^ 1100
  | S754_finite s m e =>
      let a := if 0 <=? e then Zpos m * 2 ^ e else Zpos m / 2 ^ (- e) in
      if s then - a else a
  end.

End Num.

Import Num.

(** ** Values and the store

    A JavaScript value is a primitive or a reference to an array or an
    object; arrays and objects live in the store and are compared by
    reference.  Strings are sequences of code units, here the code units
    below 256.  An object keeps its own properties in insertion order. *)

Abbreviation loc := nat.

Inductive value :=
  | VUndefined
  | VNull
  | VBool (b : bool)
  | VNumber (x : number)
  | VString (s : string)
  | VRef (l : loc).

Inductive cell :=
  | CArray (items : list value)
  | CObject (props : list (string * value)).

Abbreviation heap := (list cell).

Definition value_eq_dec (x y : value) : {x = y} + {x <> y}.
Proof. repeat decide equality. Defined.

(** ** Outcomes

    A computation returns, throws a JavaScript exception, or leaves what is
    modelled here ([Beyond]): a member inherited from a built-in prototype
    is read, [__proto__] is assigned, the data is cyclic, or the host's
    answer is implementation-defined. *)

Inductive exn :=
  | TypeError (msg : string)
  | SyntaxError (msg : string).

Inductive outcome (A : Type) :=
  | Ret (a : A)
  | Throw (e : exn)
  | Beyond (why : string).

Arguments Ret {A} a.
Arguments Throw {A} e.
Arguments Beyond {A} why.

Definition obind {A B} (m : outcome A) (f : A -> outcome B) : outcome B :=
  match m with
  | Ret a => f a
  | Throw e => Throw e
  | Beyond w => Beyond w
  end.

Notation "'let?' x ':=' m 'in' k" := (obind m (fun x => k))
  (at level 10, x pattern, m at level 100, k at level 200, only parsing).

Fixpoint omap {A B} (f : A -> outcome B) (l : list A) : outcome (list B) :=
  match l with
  | [] => Ret []
  | a :: r => let? b := f a in let? bs := omap f r in Ret (b :: bs)
  end.

(** Computations on the store. *)
Definition M (A : Type) := heap -> outcome A * heap.

Definition ret {A} (a : A) : M A := fun h => (Ret a, h).

Definition bind {A B} (m : M A) (f : A -> M B) : M B :=
  fun h =>
    match m h with
    | (Ret a, h') => f a h'
    | (Throw e, h') => (Throw e, h')
    | (Beyond w, h') => (Beyond w, h')
    end.

Notation "'let*' x ':=' m 'in' k" := (bind m (fun x => k))
  (at level 10, x pattern, m at level 100, k at level 200, only parsing).

Definition throw {A} (e : exn) : M A := fun h => (Throw e, h).
Definition beyond {A} (w : string) : M A := fun h => (Beyond w, h).

(** A computation that only reads the store. *)
Definition lift {A} (f : heap -> outcome A) : M A := fun h => (f h, h).

(** A fresh array or object. *)
Definition alloc (c : cell) : M value :=
  fun h => (Ret (VRef (List.length h)), (h ++ [c])%list).

Definition read (l : loc) : M cell :=
  lift (fun h => match h !! l with
                 | Some c => Ret c
                 | None => Beyond "dangling reference"
                 end).

Definition write (l : loc) (c : cell) : M unit :=
  fun h => (Ret tt, <[l := c]> h).

Fixpoint mapM {A B} (f : A -> M B) (l : list A) : M (list B) :=
  match l with
  | [] => ret []
  | a :: r => let* b := f a in let* bs := mapM f r in ret (b :: bs)
  end.

Fixpoint foldM {A B} (f : B -> A -> M B) (b : B) (l : list A) : M B :=
  match l with
  | [] => ret b
  | a :: r => let* b' := f b a in foldM f b' r
  end.

Fixpoint forM_ {A} (f : A -> M unit) (l : list A) : M unit :=
  match l with
  | [] => ret tt
  | a :: r => let* _ := f a in forM_ f r
  end.

Fixpoint filterM {A} (f : A -> M bool) (l : list A) : M (list A) :=
  match l with
  | [] => ret []
  | a :: r =>
      let* b := f a in
      let* rs := filterM f r in
      ret (if b then a :: rs else rs)
  end.

(** ** Property keys and own properties *)

(** An array index: the canonical decimal form of an integer below 2^32 - 1. *)
Definition array_index (k : string) : option Z :=
  match span_digits k with
  | (String _ _ as ds, EmptyString) =>
      let n := digits_value ds 0 in
      if (Z_to_string n =? k)%string && (n <? 4294967295) then Some n else None
  | _ => None
  end.

Fixpoint props_get {A} (k : string) (props : list (string * A)) : option A :=
  match props with
  | [] => None
  | (k', v) :: r => if (k' =? k)%string then Some v else props_get k r
  end.

(** [obj[k] = v] on own data properties: an existing key keeps its place. *)
Fixpoint props_set {A} (k : string) (v : A) (props : list (string * A))
  : list (string * A) :=
  match props with
  | [] => [(k, v)]
  | (k', v') :: r =>
      if (k' =? k)%string then (k, v) :: r else (k', v') :: props_set k v r
  end.

Fixpoint insert_index {A} (i : Z) (kv : string * A)
  (l : list (Z * (string * A))) : list (Z * (string * A)) :=
  match l with
  | [] => [(i, kv)]
  | (j, kv') :: r =>
      if i <? j then (i, kv) :: l else (j, kv') :: insert_index i kv r
  end.

(** [OrdinaryOwnPropertyKeys]: array indices in ascending order, then the
    other keys in insertion order. *)
Definition ordered {A} (props : list (string * A)) : list (string * A) :=
  let idx :=
    fold_left (fun acc kv =>
                 match array_index (fst kv) with
                 | Some i => insert_index i kv acc
                 | None => acc
                 end) props [] in
  (map snd idx
     ++ List.filter (fun kv => match array_index (fst kv) with
                          | Some _ => false
                          | None => true
                          end) props)%list.

Definition chars (s : string) : list string :=
  map (fun c => String c EmptyString) (list_ascii_of_string s).

Definition index_keys (n : nat) : list string :=
  map (fun i => Z_to_string (Z.of_nat i)) (seq 0 n).

Definition len_value {A} (l : list A) : value :=
  VNumber (of_Z (Z.of_nat (List.length l))).

Definition array_own (items : list value) (k : string) : option value :=
  match array_index k with
  | Some i => nth_error items (Z.to_nat i)
  | None => if (k =? "length")%string then Some (len_value items) else None
  end.

Definition string_own (s : string) (k : string) : option value :=
  match array_index k with
  | Some i => option_map VString (nth_error (chars s) (Z.to_nat i))
  | None =>
      if (k =? "length")%string then Some (len_value (chars s)) else None
  end.

(** ** Members inherited from the built-in prototypes (ECMAScript 2023 with
    Annex B).  Their values are functions or prototype objects, which are
    not JSON data. *)

Definition object_prototype : list string :=
  ["constructor"; "__defineGetter__"; "__defineSetter__"; "hasOwnProperty";
   "__lookupGetter__"; "__lookupSetter__"; "isPrototypeOf";
   "propertyIsEnumerable"; "toString"; "valueOf"; "__proto__";
   "toLocaleString"].

Definition array_prototype : list string :=
  ["at"; "concat"; "copyWithin"; "entries"; "every"; "fill"; "filter";
   "find"; "findIndex"; "findLast"; "findLastIndex"; "flat"; "flatMap";
   "forEach"; "includes"; "indexOf"; "join"; "keys"; "lastIndexOf"; "map";
   "pop"; "push"; "reduce"; "reduceRight"; "reverse"; "shift"; "slice";
   "some"; "sort"; "splice"; "toReversed"; "toSorted"; "toSpliced";
   "unshift"; "values"; "with"].

Definition string_prototype : list string :=
  ["at"; "charAt"; "charCodeAt"; "codePointAt"; "concat"; "endsWith";
   "includes"; "indexOf"; "isWellFormed"; "lastIndexOf"; "localeCompare";
   "match"; "matchAll"; "normalize"; "padEnd"; "padStart"; "repeat";
   "replace"; "replaceAll"; "search"; "slice"; "split"; "startsWith";
   "substring"; "toLocaleLowerCase"; "toLocaleUpperCase"; "toLowerCase";
   "toUpperCase"; "toWellFormed"; "trim"; "trimEnd"; "trimStart";
   "anchor"; "big"; "blink"; "bold"; "fixed"; "fontcolor"; "fontsize";
   "italics"; "link"; "small"; "strike"; "sub"; "substr"; "sup";
   "trimLeft"; "trimRight"].

Definition number_prototype : list string :=
  ["toExponential"; "toFixed"; "toPrecision"].

Definition mem (k : string) (names : list string) : bool :=
  existsb (String.eqb k) names.

(** The built-in members a value of each kind inherits. *)
Definition inherits (v : cell + value) (k : string) : bool :=
  mem k object_prototype
  || match v with
     | inl (CArray _) => mem k array_prototype
     | inr (VString _) => mem k string_prototype
     | inr (VNumber _) => mem k number_prototype
     | _ => false
     end.

(** ** Type conversion (ECMA-262 7.1) and operators (ECMA-262 7.2, 13) *)

(** [ToBoolean]: the falsy values are [undefined], [null], [false], [+0],
    [-0], [NaN] and the empty string. *)
Definition ToBoolean (v : value) : bool :=
  match v with
  | VUndefined | VNull => false
  | VBool b => b
  | VNumber x => negb (is_zero x || is_nan x)
  | VString s => negb (s =? "")%string
  | VRef _ => true
  end.

Fixpoint join_strings (sep : string) (l : list string) : string :=
  match l with
  | [] => ""
  | [x] => x
  | x :: r => x ++ sep ++ join_strings sep r
  end.

(** [ToString].  An array converts as [join(",")] does; an object converts
    to ["[object Object]"], unless an own property hides [toString]: a JSON
    value is not callable, and the conversion throws. *)
Fixpoint ToString_fuel (fuel : nat) (h : heap) (v : value) : outcome string :=
  match v with
  | VUndefined => Ret "undefined"
  | VNull => Ret "null"
  | VBool b => Ret (if b then "true" else "false")
  | VNumber x => Ret (Number_toString x)
  | VString s => Ret s
  | VRef l =>
      match fuel with
      | O => Beyond "cyclic data"
      | S f =>
          match h !! l with
          | None => Beyond "dangling reference"
          | Some (CArray items) =>
              let? ss := omap (fun x => match x with
                                        | VUndefined | VNull => Ret ""
                                        | _ => ToString_fuel f h x
                                        end) items in
              Ret (join_strings "," ss)
          | Some (CObject props) =>
              match props_get "toString" props with
              | Some _ =>
                  Throw (TypeError "Cannot convert object to primitive value")
              | None => Ret "[object Object]"
              end
          end
      end
  end.

Definition ToString (h : heap) (v : value) : outcome string :=
  ToString_fuel (S (List.length h)) h v.

Definition ToPropertyKey := ToString.

(** [ToPrimitive]: for an array or object, [valueOf] answers the object
    itself, so [toString] decides under every hint. *)
Definition ToPrimitive (h : heap) (v : value) : outcome value :=
  match v with
  | VRef _ => let? s := ToString h v in Ret (VString s)
  | _ => Ret v
  end.

Definition ToNumber (h : heap) (v : value) : outcome number :=
  let? p := ToPrimitive h v in
  Ret match p with
      | VUndefined => NaN
      | VNull => zero
      | VBool b => if b then of_Z 1 else zero
      | VNumber x => x
      | VString s => StringToNumber s
      | VRef _ => NaN
      end.

(** [===] *)
Definition IsStrictlyEqual (a b : value) : bool :=
  match a, b with
  | VUndefined, VUndefined => true
  | VNull, VNull => true
  | VBool x, VBool y => Bool.eqb x y
  | VNumber x, VNumber y => Num.eqb x y
  | VString x, VString y => (x =? y)%string
  | VRef x, VRef y => Nat.eqb x y
  | _, _ => false
  end.

(** [SameValueZero], the comparison of [includes] and of [Set]. *)
Definition SameValueZero (a b : value) : bool :=
  match a, b with
  | VNumber x, VNumber y => (is_nan x && is_nan y) || Num.eqb x y
  | _, _ => IsStrictlyEqual a b
  end.

(** [IsLessThan]: [None] is the answer [undefined]. *)
Definition IsLessThan (h : heap) (x y : value) (LeftFirst : bool)
  : outcome (option bool) :=
  let? (px, py) :=
    if LeftFirst then
      let? px := ToPrimitive h x in let? py := ToPrimitive h y in Ret (px, py)
    else
      let? py := ToPrimitive h y in let? px := ToPrimitive h x in Ret (px, py)
  in
  match px, py with
  | VString sx, VString sy => Ret (Some (sx <? sy)%string)
  | _, _ =>
      let? nx := ToNumber h px in
      let? ny := ToNumber h py in
      Ret (if is_nan nx || is_nan ny then None else Some (Num.ltb nx ny))
  end.

Definition js_lt (h : heap) (a b : value) : outcome bool :=
  let? r := IsLessThan h a b true in
  Ret match r with Some true => true | _ => false end.

Definition js_gt (h : heap) (a b : value) : outcome bool :=
  let? r := IsLessThan h b a false in
  Ret match r with Some true => true | _ => false end.

Definition js_lte (h : heap) (a b : value) : outcome bool :=
  let? r := IsLessThan h b a false in
  Ret match r with Some false => true | _ => false end.

Definition js_gte (h : heap) (a b : value) : outcome bool :=
  let? r := IsLessThan h a b true in
  Ret match r with Some false => true | _ => false end.

(** [a + b]: concatenation as soon as one side is a string. *)
Definition js_add (h : heap) (a b : value) : outcome value :=
  let? pa := ToPrimitive h a in
  let? pb := ToPrimitive h b in
  match pa, pb with
  | VString _, _ | _, VString _ =>
      let? sa := ToString h pa in
      let? sb := ToString h pb in
      Ret (VString (sa ++ sb))
  | _, _ =>
      let? na := ToNumber h pa in
      let? nb := ToNumber h pb in
      Ret (VNumber (Num.add na nb))
  end.

(** The other arithmetic operators convert both sides to numbers. *)
Definition js_arith (op : number -> number -> number) (h : heap)
  (a b : value) : outcome value :=
  let? na := ToNumber h a in
  let? nb := ToNumber h b in
  Ret (VNumber (op na nb)).

(** ** Property access *)

Definition has {A} (o : option A) : bool :=
  match o with Some _ => true | None => false end.

Definition nullish (v : value) : bool :=
  match v with VUndefined | VNull => true | _ => false end.

Definition cannot_read : exn :=
  TypeError "Cannot read properties of undefined or null".

Definition not_a_function (name : string) : exn :=
  TypeError (name ++ " is not a function").

Definition not_iterable : exn := TypeError "value is not iterable".

Definition inherited_member {A} : outcome A :=
  Beyond "member inherited from a built-in prototype".

(** [v[k]] *)
Definition GetV (h : heap) (v : value) (k : string) : outcome value :=
  match v with
  | VUndefined | VNull => Throw cannot_read
  | VString s =>
      match string_own s k with
      | Some x => Ret x
      | None => if inherits (inr v) k then inherited_member else Ret VUndefined
      end
  | VRef l =>
      match h !! l with
      | None => Beyond "dangling reference"
      | Some c =>
          let own := match c with
                     | CArray items => array_own items k
                     | CObject props => props_get k props
                     end in
          match own with
          | Some x => Ret x
          | None =>
              if inherits (inl c) k then inherited_member else Ret VUndefined
          end
      end
  | _ => if inherits (inr v) k then inherited_member else Ret VUndefined
  end.

(** [v?.[k]] *)
Definition OptionalGet (h : heap) (v : value) (k : string) : outcome value :=
  if nullish v then Ret VUndefined else GetV h v k.

(** [v ?? null] *)
Definition or_null (v : value) : value :=
  if nullish v then VNull else v.

(** [Object.hasOwnProperty.call(v, k)] for a [v] that is not nullish. *)
Definition HasOwnProperty (h : heap) (v : value) (k : string) : outcome bool :=
  match v with
  | VString s => Ret (has (string_own s k))
  | VRef l =>
      match h !! l with
      | None => Beyond "dangling reference"
      | Some (CArray items) => Ret (has (array_own items k))
      | Some (CObject props) => Ret (has (props_get k props))
      end
  | _ => Ret false
  end.

(** [Array.isArray] *)
Definition isArray (h : heap) (v : value) : bool :=
  match v with
  | VRef l => match h !! l with Some (CArray _) => true | _ => false end
  | _ => false
  end.

(** The elements of [data] when it is an array; [data.name(...)] throws on
    every other value, which has no callable member [name]. *)
Definition array_method (name : string) (h : heap) (data : value)
  : outcome (list value) :=
  match data with
  | VUndefined | VNull => Throw cannot_read
  | VRef l =>
      match h !! l with
      | None => Beyond "dangling reference"
      | Some (CArray items) => Ret items
      | Some (CObject _) => Throw (not_a_function name)
      end
  | _ => Throw (not_a_function name)
  end.

(** The values an iteration over [data] yields: arrays and strings are the
    iterable values. *)
Definition iterate (h : heap) (data : value) : outcome (list value) :=
  match data with
  | VString s => Ret (map VString (chars s))
  | VRef l =>
      match h !! l with
      | None => Beyond "dangling reference"
      | Some (CArray items) => Ret items
      | Some (CObject _) => Throw not_iterable
      end
  | _ => Throw not_iterable
  end.

(** [Object.keys(data)] and [Object.values(data)] as lists. *)
Definition own_entries (h : heap) (data : value)
  : outcome (list (string * value)) :=
  match data with
  | VUndefined | VNull =>
      Throw (TypeError "Cannot convert undefined or null to object")
  | VString s => Ret (combine (index_keys (String.length s)) (map VString (chars s)))
  | VRef l =>
      match h !! l with
      | None => Beyond "dangling reference"
      | Some (CArray items) =>
          Ret (combine (index_keys (List.length items)) items)
      | Some (CObject props) => Ret (ordered props)
      end
  | _ => Ret []
  end.

(** [obj[k] = v] on an object of the store.  Assigning [__proto__] runs the
    inherited setter instead of creating a property. *)
Definition set_property (l : loc) (k : string) (v : value) : M unit :=
  if (k =? "__proto__")%string then beyond "assignment to __proto__"
  else
    let* c := read l in
    match c with
    | CObject props => write l (CObject (props_set k v props))
    | CArray _ => beyond "assignment to an array"
    end.

(** ** String and array methods *)

Definition relative_index (i len : Z) : Z :=
  if i <? 0 then Z.max (len + i) 0 else Z.min i len.

(** The elements from [from] up to [to], as [slice] selects them. *)
Definition slice_list {A} (l : list A) (from to : Z) : list A :=
  firstn (Z.to_nat (to - from)) (skipn (Z.to_nat from) l).

Definition slice_bounds (len : Z) (start : number) (end_ : option number)
  : Z * Z :=
  (relative_index (ToIntegerOrInfinity start) len,
   match end_ with
   | None => len
   | Some e => relative_index (ToIntegerOrInfinity e) len
   end).

Fixpoint includes (needle s : string) : bool :=
  String.prefix needle s
  || match s with
     | String _ r => includes needle r
     | EmptyString => false
     end.

Fixpoint split_aux (sep s cur : string) (skip : nat) : list string :=
  match s with
  | EmptyString => [rev_str cur ""]
  | String c r =>
      match skip with
      | S k => split_aux sep r cur k
      | O =>
          if String.prefix sep s
          then rev_str cur "" :: split_aux sep r "" (String.length sep - 1)
          else split_aux sep r (String c cur) 0
      end
  end.

(** [s.split(sep)] for a string separator. *)
Definition split_string (s sep : string) : list string :=
  match s, sep with
  | EmptyString, EmptyString => []
  | EmptyString, _ => [""]
  | _, EmptyString => chars s
  | _, _ => split_aux sep s "" 0
  end.

(** [s.split(/\s+/)] *)
Fixpoint split_ws (s cur : string) (in_ws : bool) : list string :=
  match s with
  | EmptyString => [rev_str cur ""]
  | String c r =>
      if is_ws c then
        if in_ws then split_ws r cur true
        else rev_str cur "" :: split_ws r "" true
      else split_ws r (String c cur) false
  end.

Definition Math_max (l : list number) : number := fold_left max2 l NegInfinity.
Definition Math_min (l : list number) : number := fold_left min2 l Infinity.

(** ** Regular expressions: the patterns made of literal characters with an
    optional leading [^] and trailing [$], without flags.  Other patterns
    follow the host's dialect and are not modelled. *)

Record RegExp := { re_start : bool; re_end : bool; re_literal : string }.

Definition syntax_character (c : ascii) : bool :=
  existsb (Ascii.eqb c)
    (list_ascii_of_string "^$\.*+?()[]{}|").

Definition all_literal (s : string) : bool :=
  forallb (fun c => negb (syntax_character c)) (list_ascii_of_string s).

Definition strip_suffix_dollar (s : string) : bool * string :=
  match rev_str s "" with
  | String "$" r => (true, rev_str r "")
  | _ => (false, s)
  end.

(** [new RegExp(pattern, flags)] *)
Definition RegExp_new (pattern flags : string) : outcome RegExp :=
  if negb (flags =? "")%string then Beyond "regular expression flags"
  else
    let '(st, p1) := match pattern with
                     | String "^" r => (true, r)
                     | _ => (false, pattern)
                     end in
    let '(en, lit) := strip_suffix_dollar p1 in
    if all_literal lit
    then Ret {| re_start := st; re_end := en; re_literal := lit |}
    else Beyond "regular expression syntax".

Definition suffix (a s : string) : bool :=
  String.prefix (rev_str a "") (rev_str s "").

(** [regex.test(s)] *)
Definition RegExp_test (re : RegExp) (s : string) : bool :=
  match re_start re, re_end re with
  | true, true => (re_literal re =? s)%string
  | true, false => String.prefix (re_literal re) s
  | false, true => suffix (re_literal re) s
  | false, false => includes (re_literal re) s
  end.

(** ** [Set]: insertion order, membership by [SameValueZero]; [-0] is
    stored as [+0]. *)

Definition Set_add (seen : list value) (v : value) : list value :=
  let v' := match v with
            | VNumber (S754_zero true) => VNumber zero
            | _ => v
            end in
  if existsb (SameValueZero v') seen then seen else (seen ++ [v'])%list.

Definition Set_from (items : list value) : list value :=
  fold_left Set_add items [].

(** ** [Array.prototype.sort]: [undefined] goes last without a call of the
    comparator; the order of the other elements follows the comparator.
    For a comparator that is consistent on the items, ECMA-262 requires the
    stable sort and leaves the order of the comparisons to the
    implementation: insertion from the right is one conforming choice.
    For a comparator that is not consistent the sort order itself is
    implementation-defined. *)

Definition SortCompare (comparefn : value -> value -> M Z) (x y : value)
  : M Z :=
  match x, y with
  | VUndefined, VUndefined => ret 0
  | VUndefined, _ => ret 1
  | _, VUndefined => ret (-1)
  | _, _ => comparefn x y
  end.

Fixpoint insert_sorted (comparefn : value -> value -> M Z) (x : value)
  (sorted : list value) : M (list value) :=
  match sorted with
  | [] => ret [x]
  | y :: r =>
      let* c := SortCompare comparefn x y in
      if 0 <? c then
        let* r' := insert_sorted comparefn x r in ret (y :: r')
      else ret (x :: sorted)
  end.

Fixpoint sort_list (comparefn : value -> value -> M Z) (l : list value)
  : M (list value) :=
  match l with
  | [] => ret []
  | x :: r =>
      let* s := sort_list comparefn r in insert_sorted comparefn x s
  end.

(** What a comparison of [x] with [y] answers on the store [h]. *)
Definition compared (comparefn : value -> value -> M Z) (h : heap)
  (x y : value) : option Z :=
  match SortCompare comparefn x y h with
  | (Ret c, _) => Some c
  | _ => None
  end.

Definition sign_is (s : Z) (o : option Z) : bool :=
  match o with
  | Some c => (Z.sgn c =? s)%Z
  | None => false
  end.

(** The conditions of a consistent comparator at [a], [b] and [c]: every
    comparison has an answer, [a] equals itself, equality is symmetric and
    transitive, and so are less and greater. *)
Definition consistent_at (cmp : value -> value -> option Z) (a b c : value)
  : bool :=
  sign_is 0 (cmp a a)
  && (sign_is (-1) (cmp a b) || sign_is 0 (cmp a b) || sign_is 1 (cmp a b))
  && implb (sign_is 0 (cmp a b)) (sign_is 0 (cmp b a))
  && implb (sign_is 0 (cmp a b) && sign_is 0 (cmp b c)) (sign_is 0 (cmp a c))
  && implb (sign_is (-1) (cmp a b) && sign_is (-1) (cmp b c))
       (sign_is (-1) (cmp a c))
  && implb (sign_is 1 (cmp a b) && sign_is 1 (cmp b c)) (sign_is 1 (cmp a c)).

Definition consistent (cmp : value -> value -> option Z) (items : list value)
  : bool :=
  forallb (fun a =>
             forallb (fun b => forallb (consistent_at cmp a b) items) items)
    items.

(** [items.sort(comparefn)] on the elements of an array.  An array of less
    than two elements is sorted without a comparison. *)
Definition Array_sort (comparefn : value -> value -> M Z) (items : list value)
  : M (list value) :=
  let* sorted := sort_list comparefn items in
  lift (fun h =>
          match items with
          | [] | [_] => Ret sorted
          | _ =>
              if consistent (compared comparefn h) items then Ret sorted
              else Beyond "sort order with a comparator that is not consistent"
          end).

(** ** Queries and evaluators *)

(** A query in JSON form: [["name", arg, ...]] calls a function; the
    arguments are queries or literal values, as the function reads them. *)
#[local] Set Warnings "-register-all".

Inductive json :=
  | JNull
  | JBool (b : bool)
  | JNumber (x : number)
  | JString (s : string)
  | JArray (items : list json)
  | JObject (entries : list (string * json)).

Definition Evaluator := value -> M value.

(** A literal argument used as a primitive value (a count, a separator, a
    direction, a pattern); an array or object in such a place is not
    modelled. *)
Definition literal (q : json) : outcome value :=
  match q with
  | JNull => Ret VNull
  | JBool b => Ret (VBool b)
  | JNumber x => Ret (VNumber x)
  | JString s => Ret (VString s)
  | JArray _ | JObject _ => Beyond "array or object as a literal argument"
  end.

(** [ToPropertyKey] of a literal of the query, which is a value a JSON
    parser made: an array converts as [join(",")] does and an object to
    ["[object Object]"], unless an own property hides [toString]: a JSON
    value is not callable, [valueOf] answers the object itself, and the
    conversion throws. *)
Fixpoint literal_key (q : json) : outcome string :=
  match q with
  | JNull => Ret "null"
  | JBool b => Ret (if b then "true" else "false")
  | JNumber x => Ret (Number_toString x)
  | JString s => Ret s
  | JArray items =>
      let? ss := omap (fun x => match x with
                                | JNull => Ret ""
                                | _ => literal_key x
                                end) items in
      Ret (join_strings "," ss)
  | JObject entries =>
      match props_get "toString" entries with
      | Some _ => Throw (TypeError "Cannot convert object to primitive value")
      | None => Ret "[object Object]"
      end
  end.

(** The argument at a position; a missing argument is [undefined]. *)
Definition literal_at (i : nat) (args : list json) : outcome value :=
  match nth_error args i with
  | Some q => literal q
  | None => Ret VUndefined
  end.

(** [const truthy = (x) => x !== null && x !== 0 && x !== false] *)
Definition truthy (x : value) : bool :=
  negb (IsStrictlyEqual x VNull)
  && negb (IsStrictlyEqual x (VNumber zero))
  && negb (IsStrictlyEqual x (VBool false)).

Definition arg_at (i : nat) (vs : list value) : value := nth i vs VUndefined.

Definition alloc_array (items : list value) : M value := alloc (CArray items).

Definition alloc_strings (l : list string) : M value :=
  alloc_array (map VString l).

(** [value?.[prop]] for a path element [prop], which the query gives as it
    stands: [prop] is converted to a key when the member is read. *)
Definition optional_index (cur : value) (prop : json) : M value :=
  lift (fun h =>
          if nullish cur then Ret VUndefined
          else let? k := literal_key prop in GetV h cur k).

(** [functions.get]: it compiles no argument and always builds. *)
Definition functions_get (path : list json) : outcome Evaluator :=
  match path with
  | [] => Ret (fun data => ret (or_null data))
  | [prop] =>
      Ret (fun data =>
             let* v := optional_index data prop in ret (or_null v))
  | _ =>
      Ret (fun data =>
             let* v := foldM optional_index data path in
             ret (or_null v))
  end.

(** The bounds [slice] derives from its arguments. *)
Definition slice_args (h : heap) (len : Z) (start end_ : value)
  : outcome (Z * Z) :=
  let? s := ToNumber h start in
  match end_ with
  | VUndefined => Ret (slice_bounds len s None)
  | _ => let? e := ToNumber h end_ in Ret (slice_bounds len s (Some e))
  end.

(** [data.slice(start, end)]: strings and arrays have a [slice].  The
    arguments are evaluated between the lookup of the member and its call. *)
Definition js_slice (name : string) (data : value) (args : M (value * value))
  : M value :=
  if nullish data then throw cannot_read
  else
    let* (start, end_) := args in
    match data with
    | VString s =>
        let* (from, to) :=
          lift (fun h => slice_args h (Z.of_nat (String.length s)) start end_) in
        ret (VString (join_strings "" (slice_list (chars s) from to)))
    | VRef l =>
        let* c := read l in
        match c with
        | CArray items =>
            let* (from, to) :=
              lift (fun h =>
                      slice_args h (Z.of_nat (List.length items)) start end_) in
            alloc_array (slice_list items from to)
        | CObject _ => throw (not_a_function name)
        end
    | _ => throw (not_a_function name)
    end.

(** [out = {}; for (const [key, getter] of getters) out[key] = getter(data)] *)
Definition build_object (getters : list (string * Evaluator)) (data : value)
  : M value :=
  let* obj := alloc (CObject []) in
  match obj with
  | VRef l =>
      let* _ := forM_ (fun kg : string * Evaluator =>
                         let* v := snd kg data in set_property l (fst kg) v)
                  getters in
      ret obj
  | _ => ret obj
  end.

(** [Object.keys(data)] *)
Definition Object_keys (data : value) : M (list string) :=
  let* es := lift (fun h => own_entries h data) in ret (map fst es).

(** [Object.values(data)] *)
Definition Object_values (data : value) : M (list value) :=
  let* es := lift (fun h => own_entries h data) in ret (map snd es).

(** [for (const key of Object.keys(data)) body(key, data[key])], on a fresh
    [output] object. *)
Definition for_keys (data : value) (body : loc -> string -> value -> M unit)
  : M value :=
  let* ks := Object_keys data in
  let* output := alloc (CObject []) in
  match output with
  | VRef l =>
      let* _ := forM_ (fun key =>
                         let* v := lift (fun h => GetV h data key) in
                         body l key v) ks in
      ret output
  | _ => ret output
  end.

(** The [for ... of] loops of [groupBy] and [keyBy] on a fresh [res]. *)
Definition for_items (data : value) (body : loc -> value -> M unit)
  : M value :=
  let* items := lift (fun h => iterate h data) in
  let* res := alloc (CObject []) in
  match res with
  | VRef l => let* _ := forM_ (body l) items in ret res
  | _ => ret res
  end.

(** [res[key].push(item)] when [res[key]] is truthy, else
    [res[key] = [item]].  Every own property of [res] is an array made
    here; an inherited member is truthy and has no [push]. *)
Definition group_push (l : loc) (key : string) (item : value) : M unit :=
  let* c := read l in
  match c with
  | CObject props =>
      match props_get key props with
      | Some (VRef a) =>
          let* ca := read a in
          match ca with
          | CArray items => write a (CArray (items ++ [item])%list)
          | CObject _ => throw (not_a_function "res[value].push")
          end
      | Some _ => throw (not_a_function "res[value].push")
      | None =>
          if mem key object_prototype
          then throw (not_a_function "res[value].push")
          else let* arr := alloc_array [item] in set_property l key arr
      end
  | CArray _ => beyond "assignment to an array"
  end.

(** [if (!(key in res)) res[key] = item]: [in] also sees inherited members. *)
Definition key_once (l : loc) (key : string) (item : value) : M unit :=
  let* c := read l in
  match c with
  | CObject props =>
      if has (props_get key props) || mem key object_prototype then ret tt
      else set_property l key item
  | CArray _ => beyond "assignment to an array"
  end.

(** [data.flat()]: the elements of the arrays among the items. *)
Definition flat1 (h : heap) (items : list value) : list value :=
  concat (map (fun x =>
                 match x with
                 | VRef l => match h !! l with
                             | Some (CArray xs) => xs
                             | _ => [x]
                             end
                 | _ => [x]
                 end) items).

(** [data.join(sep)]: [undefined] and [null] items give the empty string. *)
Definition join_items (h : heap) (sep : string) (items : list value)
  : outcome string :=
  let? ss := omap (fun x => if nullish x then Ret ""
                            else ToString h x) items in
  Ret (join_strings sep ss).

(** [data.reduce((a, b) => op(a, b))] without an initial value. *)
Definition reduce (op : heap -> value -> value -> outcome value)
  (data : value) : M value :=
  let* items := lift (fun h => array_method "data.reduce" h data) in
  match items with
  | [] => throw (TypeError "Reduce of empty array with no initial value")
  | x :: r => foldM (fun a b => lift (fun h => op h a b)) x r
  end.

(** [Math.min(...data)] and [Math.max(...data)] *)
Definition spread_numbers (f : list number -> number) (data : value)
  : M value :=
  lift (fun h =>
          let? items := iterate h data in
          let? ns := omap (ToNumber h) items in
          Ret (VNumber (f ns))).

(** ** The function builders of [functions.ts]

    A builder receives the arguments of a call as they stand in the query
    and compiles those that are queries. *)

Definition undefined_evaluator : Evaluator := fun _ => ret VUndefined.

Section Builders.

Variable compile : json -> outcome Evaluator.

(** [compile(arg)] for the first, second and third argument; an argument
    that is absent is [undefined], a primitive, and compiles to the
    constant evaluator. *)
Definition compile_0 (args : list json) : outcome Evaluator :=
  match args with a :: _ => compile a | _ => Ret undefined_evaluator end.

Definition compile_1 (args : list json) : outcome Evaluator :=
  match args with _ :: a :: _ => compile a | _ => Ret undefined_evaluator end.

Definition compile_2 (args : list json) : outcome Evaluator :=
  match args with
  | _ :: _ :: a :: _ => compile a
  | _ => Ret undefined_evaluator
  end.

Definition buildFunction (fn : list value -> M value) (args : list json)
  : outcome Evaluator :=
  let? compiledArgs := omap compile args in
  Ret match compiledArgs with
      | [arg0] => fun data => let* a := arg0 data in fn [a]
      | [arg0; arg1] =>
          fun data =>
            let* a := arg0 data in let* b := arg1 data in fn [a; b]
      | _ =>
          fun data =>
            let* vs := mapM (fun arg : Evaluator => arg data) compiledArgs in
            fn vs
      end.

Definition functions_pipe (entries : list json) : outcome Evaluator :=
  let? _entries := omap compile entries in
  Ret (fun data =>
         foldM (fun data (evaluator : Evaluator) => evaluator data)
           data _entries).

(** [Object.keys(query).map((key) => [key, compile(query[key])])]: the
    getters are compiled, and later used, in the order of [Object.keys];
    the first entry in this order that does not compile decides the
    outcome. *)
Definition object_entries (entries : list (string * json))
  : outcome Evaluator :=
  let compiled := map (fun kq : string * json => (fst kq, compile (snd kq)))
                    entries in
  let? getters :=
    omap (fun kg : string * outcome Evaluator =>
            let? g := snd kg in Ret (fst kg, g))
      (ordered compiled) in
  Ret (build_object getters).

Definition functions_object (args : list json) : outcome Evaluator :=
  match args with
  | JObject entries :: _ => object_entries entries
  | [] | JNull :: _ =>
      Throw (TypeError "Cannot convert undefined or null to object")
  | _ => Beyond "object: the argument is not an object"
  end.

Definition functions_array (items : list json) : outcome Evaluator :=
  let? _items := omap compile items in
  Ret (fun data =>
         let* vs := mapM (fun item : Evaluator => item data) _items in
         alloc_array vs).

Definition functions_map (args : list json) : outcome Evaluator :=
  let? _callback := compile_0 args in
  Ret (fun data =>
         let* items := lift (fun h => array_method "data.map" h data) in
         let* vs := mapM _callback items in
         alloc_array vs).

Definition functions_mapObject (args : list json) : outcome Evaluator :=
  let? _callback := compile_0 args in
  Ret (fun data =>
         for_keys data (fun output key v =>
           let* item := alloc (CObject [("key", VString key); ("value", v)]) in
           let* updated := _callback item in
           let* k := lift (fun h => GetV h updated "key") in
           let* u := lift (fun h => GetV h updated "value") in
           let* pk := lift (fun h => ToPropertyKey h k) in
           set_property output pk u)).

Definition functions_mapKeys (args : list json) : outcome Evaluator :=
  let? _callback := compile_0 args in
  Ret (fun data =>
         for_keys data (fun output key v =>
           let* updatedKey := _callback (VString key) in
           let* pk := lift (fun h => ToPropertyKey h updatedKey) in
           let* v' := lift (fun h => GetV h data key) in
           set_property output pk v')).

Definition functions_mapValues (args : list json) : outcome Evaluator :=
  let? _callback := compile_0 args in
  Ret (fun data =>
         for_keys data (fun output key v =>
           let* u := _callback v in set_property output key u)).

Definition functions_filter (args : list json) : outcome Evaluator :=
  let? _predicate := compile_0 args in
  Ret (fun data =>
         let* items := lift (fun h => array_method "data.filter" h data) in
         let* kept := filterM (fun item =>
                                 let* r := _predicate item in
                                 ret (truthy r)) items in
         alloc_array kept).

(** The function [compare] of [sort], which closes over [getter] and
    [sign]: [a > b ? sign : a < b ? -sign : 0]. *)
Definition sort_compare (getter : Evaluator) (sign : Z)
  (itemA itemB : value) : M Z :=
  let* a := getter itemA in
  let* b := getter itemB in
  let* gt := lift (fun h => js_gt h a b) in
  if gt then ret sign
  else
    let* lt := lift (fun h => js_lt h a b) in
    if lt then ret (- sign) else ret 0.

Definition functions_sort (args : list json) : outcome Evaluator :=
  let? getter := match args with
                 | path :: _ => compile path
                 | [] => functions_get []     (* path = ['get'] *)
                 end in
  let? direction := literal_at 1 args in
  let sign := if IsStrictlyEqual direction (VString "desc") then -1 else 1 in
  let compare := sort_compare getter sign in
  Ret (fun data =>
         let* copy := js_slice "data.slice" data
                        (ret (VUndefined, VUndefined)) in
         match copy with
         | VRef l =>
             let* c := read l in
             match c with
             | CArray items =>
                 let* sorted := Array_sort compare items in
                 let* _ := write l (CArray sorted) in
                 ret copy
             | CObject _ => throw (not_a_function "data.slice(...).sort")
             end
         | _ => throw (not_a_function "data.slice(...).sort")
         end).

Definition functions_reverse (args : list json) : outcome Evaluator :=
  Ret (fun data =>
         let* items := lift (fun h => array_method "data.toReversed" h data) in
         alloc_array (rev items)).

(** [[_get, ...path]] of one property of [pick], with the key
    [path[path.length - 1]]. *)
Definition pick_getter (property : json) : outcome (string * Evaluator) :=
  let? path := match property with
               | JArray items => Ret (tl items)
               | JString s => Ret (map JString (tl (chars s)))
               | _ => Throw not_iterable
               end in
  let? getter := functions_get path in
  let? key := match last path with
              | Some q => literal q
              | None => Ret VUndefined
              end in
  let? k := ToPropertyKey [] key in
  Ret (k, getter).

Definition functions_pick (properties : list json) : outcome Evaluator :=
  let? getters := omap pick_getter properties in
  let _pick (object : value) : M value := build_object getters object in
  Ret (fun data =>
         let* arr := lift (fun h => Ret (isArray h data)) in
         if arr : bool then
           let* items := lift (fun h => array_method "data.map" h data) in
           let* vs := mapM _pick items in
           alloc_array vs
         else _pick data).

Definition functions_groupBy (args : list json) : outcome Evaluator :=
  let? getter := compile_0 args in
  Ret (fun data =>
         for_items data (fun res item =>
           let* v := getter item in
           let* key := lift (fun h => ToPropertyKey h v) in
           group_push res key item)).

Definition functions_keyBy (args : list json) : outcome Evaluator :=
  let? getter := compile_0 args in
  Ret (fun data =>
         for_items data (fun res item =>
           let* v := getter item in
           let* key := lift (fun h => ToPropertyKey h v) in
           key_once res key item)).

Definition functions_flatten (args : list json) : outcome Evaluator :=
  Ret (fun data =>
         let* items := lift (fun h => array_method "data.flat" h data) in
         let* flat := lift (fun h => Ret (flat1 h items)) in
         alloc_array flat).

Definition functions_join (args : list json) : outcome Evaluator :=
  let? separator := literal_at 0 args in
  let separator := match separator with
                   | VUndefined => VString ""
                   | _ => separator
                   end in
  Ret (fun data =>
         let* items := lift (fun h => array_method "data.join" h data) in
         lift (fun h =>
                 let? sep := ToString h separator in
                 let? s := join_items h sep items in
                 Ret (VString s))).

Definition split_fn (vs : list value) : M value :=
  let text := arg_at 0 vs in
  let separator := arg_at 1 vs in
  if nullish text then throw cannot_read
  else if negb (IsStrictlyEqual separator VUndefined) then
    match text with
    | VString s =>
        let* sep := lift (fun h => ToString h separator) in
        alloc_strings (split_string s sep)
    | _ => throw (not_a_function "text.split")
    end
  else
    match text with
    | VString s => alloc_strings (split_ws (trim s) "" false)
    | _ => throw (not_a_function "text.trim")
    end.

Definition substring_fn (vs : list value) : M value :=
  js_slice "text.slice" (arg_at 0 vs)
    (let* n := lift (fun h => ToNumber h (arg_at 1 vs)) in
     ret (VNumber (Math_max [n; zero]), arg_at 2 vs)).

Definition functions_uniq (args : list json) : outcome Evaluator :=
  Ret (fun data =>
         let* items := if nullish data then ret []
                       else lift (fun h => iterate h data) in
         alloc_array (Set_from items)).

(** [(data) => Object.values(functions.keyBy(path)(data))]: the builder of
    [keyBy] runs when the evaluator is applied. *)
Definition functions_uniqBy (args : list json) : outcome Evaluator :=
  Ret (fun data =>
         match functions_keyBy args with
         | Ret keyed =>
             let* res := keyed data in
             let* vs := Object_values res in
             alloc_array vs
         | Throw e => throw e
         | Beyond w => beyond w
         end).

Definition functions_limit (args : list json) : outcome Evaluator :=
  let? count := literal_at 0 args in
  Ret (fun data =>
         js_slice "data.slice" data
           (let* n := lift (fun h => ToNumber h count) in
            ret (VNumber zero, VNumber (Math_max [n; zero])))).

Definition functions_size (args : list json) : outcome Evaluator :=
  Ret (fun data => lift (fun h => GetV h data "length")).

Definition functions_keys (args : list json) : outcome Evaluator :=
  Ret (fun data => let* ks := Object_keys data in alloc_strings ks).

Definition functions_values (args : list json) : outcome Evaluator :=
  Ret (fun data => let* vs := Object_values data in alloc_array vs).

Definition functions_prod (args : list json) : outcome Evaluator :=
  Ret (reduce (js_arith Num.mul)).

Definition functions_sum (args : list json) : outcome Evaluator :=
  Ret (reduce js_add).

Definition functions_average (args : list json) : outcome Evaluator :=
  let? sum := functions_sum [] in
  Ret (fun data =>
         let* s := sum data in
         let* len := lift (fun h => GetV h data "length") in
         lift (fun h => js_arith Num.div h s len)).

Definition functions_min (args : list json) : outcome Evaluator :=
  Ret (spread_numbers Math_min).

Definition functions_max (args : list json) : outcome Evaluator :=
  Ret (spread_numbers Math_max).

(** [a && b] and [a || b] *)
Definition js_and (a b : value) : value := if ToBoolean a then b else a.
Definition js_or (a b : value) : value := if ToBoolean a then a else b.

Definition and_fn (vs : list value) : M value :=
  ret (VBool (ToBoolean (js_and (arg_at 0 vs) (arg_at 1 vs)))).

Definition or_fn (vs : list value) : M value :=
  ret (VBool (ToBoolean (js_or (arg_at 0 vs) (arg_at 1 vs)))).

Definition not_fn (vs : list value) : M value :=
  ret (VBool (negb (ToBoolean (arg_at 0 vs)))).

Definition functions_exists (args : list json) : outcome Evaluator :=
  let? parentPath := match args with
                     | JArray queryGet :: _ => Ret (tl queryGet)
                     | [] | JNull :: _ => Throw cannot_read
                     | _ => Throw (not_a_function "parentPath.pop")
                     end in
  let key := last parentPath in
  let? getter := functions_get (removelast parentPath) in
  Ret (fun data =>
         let* parent := getter data in
         if ToBoolean parent then
           lift (fun h =>
                   let? k := match key with
                             | Some q => literal_key q
                             | None => Ret "undefined"
                             end in
                   let? b := HasOwnProperty h parent k in
                   Ret (VBool b))
         else ret (VBool false)).

Definition functions_if (args : list json) : outcome Evaluator :=
  let? _condition := compile_0 args in
  let? _valueIfTrue := compile_1 args in
  let? _valueIfFalse := compile_2 args in
  Ret (fun data =>
         let* c := _condition data in
         if truthy c then _valueIfTrue data else _valueIfFalse data).

(** [_values(data).includes(getter(data))] *)
Definition functions_in (args : list json) : outcome Evaluator :=
  let? getter := compile_0 args in
  let? _values := compile_1 args in
  Ret (fun data =>
         let* vals := _values data in
         if nullish vals then throw cannot_read
         else
           let* x := getter data in
           match vals with
           | VString s =>
               let* sx := lift (fun h => ToString h x) in
               ret (VBool (includes sx s))
           | VRef l =>
               let* c := read l in
               match c with
               | CArray items =>
                   ret (VBool (existsb (fun e => SameValueZero e x) items))
               | CObject _ => throw (not_a_function "includes")
               end
           | _ => throw (not_a_function "includes")
           end).

Definition functions_not_in (args : list json) : outcome Evaluator :=
  let? _in := functions_in args in
  Ret (fun data =>
         let* r := _in data in ret (VBool (negb (ToBoolean r)))).

(** The regular expression is made once, when the query is compiled. *)
Definition functions_regex (args : list json) : outcome Evaluator :=
  let? expression := literal_at 1 args in
  let? options := literal_at 2 args in
  let? pattern := match expression with
                  | VUndefined => Ret ""
                  | _ => ToString [] expression
                  end in
  let? flags := match options with
                | VUndefined => Ret ""
                | _ => ToString [] options
                end in
  let? regex := RegExp_new pattern flags in
  let? getter := compile_0 args in
  Ret (fun data =>
         let* v := getter data in
         let* s := lift (fun h => ToString h v) in
         ret (VBool (RegExp_test regex s))).

Definition compare_fn (op : heap -> value -> value -> outcome bool)
  (vs : list value) : M value :=
  lift (fun h => let? b := op h (arg_at 0 vs) (arg_at 1 vs) in Ret (VBool b)).

Definition eq_fn (vs : list value) : M value :=
  ret (VBool (IsStrictlyEqual (arg_at 0 vs) (arg_at 1 vs))).

Definition ne_fn (vs : list value) : M value :=
  ret (VBool (negb (IsStrictlyEqual (arg_at 0 vs) (arg_at 1 vs)))).

Definition arith_fn (op : heap -> value -> value -> outcome value)
  (vs : list value) : M value :=
  lift (fun h => op h (arg_at 0 vs) (arg_at 1 vs)).

Definition pow_fn (vs : list value) : M value :=
  lift (fun h =>
          let? a := ToNumber h (arg_at 0 vs) in
          let? b := ToNumber h (arg_at 1 vs) in
          match Num.pow a b with
          | Some r => Ret (VNumber r)
          | None => Beyond "exponentiation is implementation-approximated"
          end).

Definition abs_fn (vs : list value) : M value :=
  lift (fun h => let? x := ToNumber h (arg_at 0 vs) in Ret (VNumber (Num.abs x))).

(** [(value, digits = 0) => { const num = Math.round(Number(`${value}e${digits}`));
     return Number(`${num}e${-digits}`) }] *)
Definition round_fn (vs : list value) : M value :=
  let v := arg_at 0 vs in
  let digits := match arg_at 1 vs with
                | VUndefined => VNumber zero
                | d => d
                end in
  lift (fun h =>
          let? sv := ToString h v in
          let? sd := ToString h digits in
          let num := Math_round (StringToNumber (sv ++ "e" ++ sd)) in
          let? nd := ToNumber h digits in
          Ret (VNumber
                 (StringToNumber
                    (Number_toString num ++ "e"
                       ++ Number_toString (Num.opp nd))))).

Definition number_fn (vs : list value) : M value :=
  lift (fun h =>
          let? num := ToNumber h (arg_at 0 vs) in
          Ret (if is_nan num then VNull else VNumber num)).

(** [String(...)]: without an argument the empty string. *)
Definition string_fn (vs : list value) : M value :=
  match vs with
  | [] => ret (VString "")
  | v :: _ => lift (fun h => let? s := ToString h v in Ret (VString s))
  end.

(** The names of the table [functions]. *)
Inductive fname :=
  | Fpipe | Fobject | Farray | Fget | Fmap | FmapObject | FmapKeys
  | FmapValues | Ffilter | Fsort | Freverse | Fpick | FgroupBy | FkeyBy
  | Fflatten | Fjoin | Fsplit | Fsubstring | Funiq | FuniqBy | Flimit
  | Fsize | Fkeys | Fvalues | Fprod | Fsum | Faverage | Fmin | Fmax
  | Fand | For | Fnot | Fexists | Fif | Fin | Fnot_in | Fregex
  | Feq | Fgt | Fgte | Flt | Flte | Fne
  | Fadd | Fsubtract | Fmultiply | Fdivide | Fpow | Fmod | Fabs | Fround
  | Fnumber | Fstring.

Definition functions (fn : fname) (args : list json) : outcome Evaluator :=
  match fn with
  | Fpipe => functions_pipe args
  | Fobject => functions_object args
  | Farray => functions_array args
  | Fget => functions_get args
  | Fmap => functions_map args
  | FmapObject => functions_mapObject args
  | FmapKeys => functions_mapKeys args
  | FmapValues => functions_mapValues args
  | Ffilter => functions_filter args
  | Fsort => functions_sort args
  | Freverse => functions_reverse args
  | Fpick => functions_pick args
  | FgroupBy => functions_groupBy args
  | FkeyBy => functions_keyBy args
  | Fflatten => functions_flatten args
  | Fjoin => functions_join args
  | Fsplit => buildFunction split_fn args
  | Fsubstring => buildFunction substring_fn args
  | Funiq => functions_uniq args
  | FuniqBy => functions_uniqBy args
  | Flimit => functions_limit args
  | Fsize => functions_size args
  | Fkeys => functions_keys args
  | Fvalues => functions_values args
  | Fprod => functions_prod args
  | Fsum => functions_sum args
  | Faverage => functions_average args
  | Fmin => functions_min args
  | Fmax => functions_max args
  | Fand => buildFunction and_fn args
  | For => buildFunction or_fn args
  | Fnot => buildFunction not_fn args
  | Fexists => functions_exists args
  | Fif => functions_if args
  | Fin => functions_in args
  | Fnot_in => functions_not_in args
  | Fregex => functions_regex args
  | Feq => buildFunction eq_fn args
  | Fgt => buildFunction (compare_fn js_gt) args
  | Fgte => buildFunction (compare_fn js_gte) args
  | Flt => buildFunction (compare_fn js_lt) args
  | Flte => buildFunction (compare_fn js_lte) args
  | Fne => buildFunction ne_fn args
  | Fadd => buildFunction (arith_fn js_add) args
  | Fsubtract => buildFunction (arith_fn (js_arith Num.sub)) args
  | Fmultiply => buildFunction (arith_fn (js_arith Num.mul)) args
  | Fdivide => buildFunction (arith_fn (js_arith Num.div)) args
  | Fpow => buildFunction pow_fn args
  | Fmod => buildFunction (arith_fn (js_arith Num.rem)) args
  | Fabs => buildFunction abs_fn args
  | Fround => buildFunction round_fn args
  | Fnumber => buildFunction number_fn args
  | Fstring => buildFunction string_fn args
  end.

End Builders.

Definition function_names : list (string * fname) :=
  [("pipe", Fpipe); ("object", Fobject); ("array", Farray); ("get", Fget);
   ("map", Fmap); ("mapObject", FmapObject); ("mapKeys", FmapKeys);
   ("mapValues", FmapValues); ("filter", Ffilter); ("sort", Fsort);
   ("reverse", Freverse); ("pick", Fpick); ("groupBy", FgroupBy);
   ("keyBy", FkeyBy); ("flatten", Fflatten); ("join", Fjoin);
   ("split", Fsplit); ("substring", Fsubstring); ("uniq", Funiq);
   ("uniqBy", FuniqBy); ("limit", Flimit); ("size", Fsize); ("keys", Fkeys);
   ("values", Fvalues); ("prod", Fprod); ("sum", Fsum);
   ("average", Faverage); ("min", Fmin); ("max", Fmax); ("and", Fand);
   ("or", For); ("not", Fnot); ("exists", Fexists); ("if", Fif); ("in", Fin);
   ("not in", Fnot_in); ("regex", Fregex); ("eq", Feq); ("gt", Fgt);
   ("gte", Fgte); ("lt", Flt); ("lte", Flte); ("ne", Fne); ("add", Fadd);
   ("subtract", Fsubtract); ("multiply", Fmultiply); ("divide", Fdivide);
   ("pow", Fpow); ("mod", Fmod); ("abs", Fabs); ("round", Fround);
   ("number", Fnumber); ("string", Fstring)].

Definition unknown_function (name : string) : exn :=
  TypeError ("Unknown function '" ++ name ++ "'").

(** Modelled from the spec: [compile.ts] is not among the sources.  After
    section 4.2, a literal compiles to the constant evaluator, a call
    [[name, ...args]] looks [name] up in the function table and applies its
    builder to the arguments or fails with an unknown function, and an
    object dispatches to the [object] builder.  The table is the core table
    [functions]; no user functions are added. *)
Fixpoint compile (query : json) : outcome Evaluator :=
  match query with
  | JArray (JString name :: args) =>
      match props_get name function_names with
      | Some fn => functions compile fn args
      | None => Throw (unknown_function name)
      end
  | JArray _ => Throw (unknown_function "")
  | JObject entries => object_entries compile entries
  | JNull => Ret (fun _ => ret VNull)
  | JBool b => Ret (fun _ => ret (VBool b))
  | JNumber x => Ret (fun _ => ret (VNumber x))
  | JString s => Ret (fun _ => ret (VString s))
  end.

(** The evaluator a successful build made. *)
Definition built (b : outcome Evaluator) : Evaluator :=
  match b with Ret ev => ev | _ => undefined_evaluator end.

(** ** Loading JSON data into the store, and reading it back *)

(** The value a JSON parser builds for a document: a fresh array or object
    for every node. *)
Fixpoint load (j : json) : M value :=
  match j with
  | JNull => ret VNull
  | JBool b => ret (VBool b)
  | JNumber x => ret (VNumber x)
  | JString s => ret (VString s)
  | JArray items => let* vs := mapM load items in alloc_array vs
  | JObject entries =>
      let* kvs := mapM (fun kq : string * json =>
                          let* v := load (snd kq) in ret (fst kq, v))
                    entries in
      alloc (CObject (fold_left (fun acc kv => props_set (fst kv) (snd kv) acc)
                        kvs []))
  end.

Fixpoint all_some {A B} (f : A -> option B) (l : list A) : option (list B) :=
  match l with
  | [] => Some []
  | a :: r =>
      match f a, all_some f r with
      | Some b, Some bs => Some (b :: bs)
      | _, _ => None
      end
  end.

(** The document a value stands for; [undefined] has none. *)
Fixpoint dump_fuel (fuel : nat) (h : heap) (v : value) : option json :=
  match v with
  | VUndefined => None
  | VNull => Some JNull
  | VBool b => Some (JBool b)
  | VNumber x => Some (JNumber x)
  | VString s => Some (JString s)
  | VRef l =>
      match fuel with
      | O => None
      | S f =>
          match h !! l with
          | None => None
          | Some (CArray items) =>
              option_map JArray (all_some (dump_fuel f h) items)
          | Some (CObject props) =>
              option_map JObject
                (all_some (fun kv : string * value =>
                         option_map (pair (fst kv)) (dump_fuel f h (snd kv)))
                   (ordered props))
          end
      end
  end.

Definition dump (h : heap) (v : value) : option json :=
  dump_fuel (S (List.length h)) h v.

(** [jsonquery(data, query)] on documents: compile, apply, read back.  A
    query that is a string is a text query, which [parse] turns into a JSON
    query first; [parse.ts] is not among the sources. *)
Definition jsonquery (data query : json) : outcome (option json) :=
  match query with
  | JString _ => Beyond "text query"
  | _ =>
      let? evaluator := compile query in
      match (let* input := load data in evaluator input) [] with
      | (Ret v, h) => Ret (dump h v)
      | (Throw e, _) => Throw e
      | (Beyond w, _) => Beyond w
      end
  end.

Definition N_ (z : Z) : json := JNumber (of_Z z).
Definition dec_ (d e : Z) : number := of_decimal false d e.
Definition D_ (d e : Z) : json := JNumber (dec_ d e).
Definition call (name : string) (args : list json) : json :=
  JArray (JString name :: args).
Definition get_ (path : list string) : json := call "get" (map JString path).


(** * Specifications

    The predicates, the reference functions and the sample data that the
    properties below are stated with. *)

Local Open Scope nat_scope.

(** ** The store is only extended *)

(** [keeps n m]: run on a store of at least [n] cells, the computation [m]
    leaves the first [n] cells as they are, whatever its outcome. *)
Definition keeps {A} (n : nat) (m : M A) : Prop :=
  forall h r h', n <= length h -> m h = (r, h') ->
    n <= length h' /\ take n h' = take n h.

(** [returns n m R]: what [m] returns on such a store satisfies [R]. *)
Definition returns {A} (n : nat) (m : M A) (R : A -> Prop) : Prop :=
  forall h a h', n <= length h -> m h = (Ret a, h') -> R a.

(** An evaluator that only extends the store it runs on. *)
Definition safe (ev : Evaluator) : Prop := forall data n, keeps n (ev data).

Definition compiles_safe (compile : json -> outcome Evaluator) (a : json)
  : Prop :=
  forall ev, compile a = Ret ev -> safe ev.

(** A reference made on a store of at least [n] cells. *)
Definition fresh (n : nat) (v : value) : Prop :=
  match v with VRef l => n <= l | _ => True end.

(** The invariant of [groupBy]: every own property of the object at [l] is
    an array made after it. *)
Definition groups_at (l : loc) (h : heap) : Prop :=
  exists props, h !! l = Some (CObject props) /\
    forall k v, props_get k props = Some v -> exists a, v = VRef a /\ l < a.

(** [keeps] for the stores that satisfy [I], which [m] maintains. *)
Definition keeps_under {A} (I : heap -> Prop) (n : nat) (m : M A) : Prop :=
  forall h r h', I h -> n <= length h -> m h = (r, h') ->
    I h' /\ n <= length h' /\ take n h' = take n h.

(** References point into the store. *)
Definition allocated (h : heap) (v : value) : Prop :=
  match v with VRef l => l < length h | _ => True end.

Definition const_evaluator (v : value) : Evaluator := fun _ => ret v.

(** The values a cell holds. *)
Definition cell_values (c : cell) : list value :=
  match c with
  | CArray items => items
  | CObject props => map snd props
  end.

(** A store without dangling references: the references its cells hold
    point into it. *)
Definition closed (h : heap) : Prop :=
  forall l c v, h !! l = Some c -> In v (cell_values c) -> allocated h v.

(** A key that names a member of a built-in prototype. *)
Definition builtin_member (k : string) : bool :=
  mem k object_prototype || mem k array_prototype || mem k string_prototype
  || mem k number_prototype.

(** A path element that converts to a key, which names no built-in
    member. *)
Definition plain_element (q : json) : bool :=
  match literal_key q with
  | Ret k => negb (builtin_member k)
  | _ => false
  end.

Definition cannot_convert : exn :=
  TypeError "Cannot convert object to primitive value".

(** ** Which evaluators return *)

(** [runs h m R]: on the store [h] the computation [m] returns; the store
    it leaves is closed and not shorter, and the answer satisfies [R]
    there. *)
Definition runs {A} (h : heap) (m : M A) (R : heap -> A -> Prop) : Prop :=
  exists a h', m h = (Ret a, h') /\ closed h' /\ length h <= length h'
               /\ R h' a.

(** An evaluator that returns a value on every input a closed store
    holds. *)
Definition returning (ev : Evaluator) : Prop :=
  forall data h, closed h -> allocated h data -> runs h (ev data) allocated.

Definition compiles_returning (q : json) : Prop :=
  forall ev, compile q = Ret ev -> returning ev.

(** The functions that compile their arguments and whose evaluators
    return when those of the arguments do. *)
Definition total_functions : list string :=
  ["pipe"; "object"; "array"; "if"; "and"; "or"; "not"; "eq"; "ne"].

(** A literal that converts to a key. *)
Definition converts (q : json) : bool :=
  match literal_key q with Ret _ => true | _ => false end.

(** The argument of [exists]: a path of plain elements to the parent, and a
    last element that converts to a key. *)
Definition exists_free (args : list json) : bool :=
  match args with
  | JArray queryGet :: _ =>
      forallb plain_element (removelast (tl queryGet))
      && match last (tl queryGet) with
         | Some q => converts q
         | None => true
         end
  | _ => false
  end.

(** The queries made of [get], [exists], these functions and literals, in
    which the path elements are plain and no key of an object is
    [__proto__]. *)
Fixpoint throw_free (q : json) : bool :=
  match q with
  | JArray (JString name :: args) =>
      if (name =? "get")%string then forallb plain_element args
      else if (name =? "exists")%string then exists_free args
      else mem name total_functions && forallb throw_free args
  | JArray _ => false
  | JObject entries =>
      forallb (fun kq : string * json =>
                 negb (fst kq =? "__proto__")%string && throw_free (snd kq))
        entries
  | _ => true
  end.

Definition reduce_of_empty : exn :=
  TypeError "Reduce of empty array with no initial value".

(** ** Truthiness and equality *)

(** The values [ToBoolean] sends to [false]. *)
Definition falsy (v : value) : Prop :=
  v = VUndefined \/ v = VNull \/ v = VBool false
  \/ (exists s, v = VNumber (S754_zero s)) \/ v = VNumber NaN
  \/ v = VString "".

(** [-0] read as [+0], as [Set] stores it. *)
Definition norm_zero (v : value) : value :=
  match v with
  | VNumber (S754_zero _) => VNumber zero
  | _ => v
  end.

(** Not yet among the elements of [seen]. *)
Definition unseen (seen : list value) (y : value) : bool :=
  negb (existsb (SameValueZero y) seen).

(** What [===] equates: the same primitive value (numbers: the same number
    that is not [NaN], or two zeros), or the same reference. *)
Definition strictly_equal (a b : value) : Prop :=
  match a, b with
  | VNumber x, VNumber y =>
      (x = y /\ x <> NaN) \/ (is_zero x = true /\ is_zero y = true)
  | _, _ => a = b
  end.

(** ** Ordering of primitive values *)

Definition is_primitive (v : value) : bool :=
  match v with VRef _ => false | _ => true end.

(** [ToNumber] on the primitive values. *)
Definition primitive_number (v : value) : number :=
  match v with
  | VUndefined => NaN
  | VNull => zero
  | VBool b => if b then of_Z 1 else zero
  | VNumber x => x
  | VString s => StringToNumber s
  | VRef _ => NaN
  end.

(** The answer of [IsLessThan] on two primitive values. *)
Definition primitive_less (x y : value) : option bool :=
  match x, y with
  | VString sx, VString sy => Some (sx <? sy)%string
  | _, _ =>
      if is_nan (primitive_number x) || is_nan (primitive_number y) then None
      else Some (Num.ltb (primitive_number x) (primitive_number y))
  end.

(** Neither [a > b] nor [a < b], in every store. *)
Definition unordered (a b : value) : Prop :=
  forall h, js_gt h a b = Ret false /\ js_lt h a b = Ret false.

(** ** Rounding *)

(** The number [z * 10^e] for an integer [z] of either sign. *)
Definition decimal (z e : Z) : number := of_decimal (z <? 0)%Z (Z.abs z) e.

(** [round] on two numbers. *)
Definition round_number (x digits : number) : number :=
  StringToNumber
    (Number_toString
       (Math_round
          (StringToNumber (Number_toString x ++ "e" ++ Number_toString digits)))
     ++ "e" ++ Number_toString (Num.opp digits)).

Definition round_result (x : number) (digits : Z) : outcome value :=
  fst (round_fn [VNumber x; VNumber (of_Z digits)] []).

(** [round] on [k + 1/2] at the digit [digits] answers [k + 1] there. *)
Definition rounds_half_up (digits k : Z) : bool :=
  match round_result (decimal (10 * k + 5) (- digits - 1)) digits with
  | Ret (VNumber r) => same r (decimal (k + 1) (- digits))
  | _ => false
  end.

Definition Z_range (lo : Z) (n : nat) : list Z :=
  map (fun i => (lo + Z.of_nat i)%Z) (seq 0 n).

(** ** Sample queries and data *)

Definition C1_query : json :=
  call "if"
    [call "exists" [get_ ["a"; "b"]];
     JObject [("b", get_ ["a"; "b"]);
              ("both", call "and" [get_ ["a"]; get_ ["c"]])];
     call "array" [call "eq" [get_ ["a"]; JNull]; call "not" [get_ []]]].

Definition C3_data : json :=
  JObject [("a", JArray [N_ 1]); ("b", JArray [N_ 1]);
           ("list", JArray [JArray [N_ 1]]); ("nan", JArray [JNumber NaN])].

Definition C3_store : heap :=
  [CArray [VNumber (of_Z 1)]; CArray [VNumber (of_Z 1)]].

Definition C5_store : heap :=
  [CObject [("b", VNull)]; CObject [("a", VRef 0)]].

Definition C9_query : json :=
  call "pipe" [call "groupBy" [get_ ["g"]]; call "mapValues" [call "sort" []]].

Definition C9_data : json :=
  JArray [JObject [("g", JString "x"); ("v", N_ 2)];
          JObject [("g", JString "y"); ("v", N_ 3)];
          JObject [("g", JString "x"); ("v", N_ 1)]].

Definition C9_evaluator : Evaluator := built (compile C9_query).

Definition C9_store : heap := Eval vm_compute in snd (load C9_data []).

(** What the evaluator answers on the sample, and the store it leaves. *)
Definition C9_answer : outcome value :=
  Eval vm_compute in fst (C9_evaluator (VRef 3) C9_store).

Definition C9_final : heap :=
  Eval vm_compute in snd (C9_evaluator (VRef 3) C9_store).

Definition C10_items : list value :=
  [VRef 0; VNumber NaN; VRef 1; VNumber NaN; VRef 0; VNumber neg_zero].

Definition C10_store : heap := [CArray []; CArray []; CArray C10_items].

(** ** The higher-order functions *)

(** [settled h ev x v]: on [h] and on every store that extends it, [ev x]
    returns [v] and leaves the store as it is. *)
Definition settled (h : heap) (ev : Evaluator) (x v : value) : Prop :=
  forall more, ev x (h ++ more)%list = (Ret v, (h ++ more)%list).

(** The items whose answer [truthy] accepts. *)
Definition kept (items answers : list value) : list value :=
  map fst (List.filter (fun p => truthy (snd p)) (combine items answers)).

(** [ToString] on the primitive values. *)
Definition primitive_text (v : value) : string :=
  match v with
  | VUndefined => "undefined"
  | VNull => "null"
  | VBool b => if b then "true" else "false"
  | VNumber x => Number_toString x
  | VString s => s
  | VRef _ => ""
  end.

(** The keys of a list in the order of their first occurrence. *)
Fixpoint first_keys (l : list string) : list string :=
  match l with
  | [] => []
  | k :: r => k :: List.filter (fun k' => negb (k' =? k)%string) (first_keys r)
  end.

(** A key that names no member of [Object.prototype]. *)
Definition plain_key (k : string) : bool := negb (mem k object_prototype).

(** One round of the loop of [keyBy] on the properties of [res], for the
    key function [kf]: the item is stored unless its key is there already,
    as an own property or as an inherited member. *)
Definition key_round (kf : value -> string) (ps : list (string * value))
  (x : value) : list (string * value) :=
  if has (props_get (kf x) ps) || mem (kf x) object_prototype then ps
  else (ps ++ [(kf x, x)])%list.

(** One round of the loop of [groupBy] on the groups made so far. *)
Definition group_round (kf : value -> string)
  (gs : list (string * list value)) (x : value)
  : list (string * list value) :=
  match props_get (kf x) gs with
  | Some g => props_set (kf x) (g ++ [x])%list gs
  | None => (gs ++ [(kf x, [x])])%list
  end.

(** The properties of [res]: one array per group, the arrays made one
    after the other from the cell [a] on. *)
Fixpoint group_refs (a : loc) (gs : list (string * list value))
  : list (string * value) :=
  match gs with
  | [] => []
  | (k, _) :: r => (k, VRef a) :: group_refs (S a) r
  end.

Definition group_cells (gs : list (string * list value)) : list cell :=
  map (fun g => CArray (snd g)) gs.

(** The groups of a list: its keys in the order of their first occurrence,
    each with the items of this key. *)
Definition groups_of (kf : value -> string) (l : list value)
  : list (string * list value) :=
  map (fun k => (k, List.filter (fun x => (kf x =? k)%string) l))
    (first_keys (map kf l)).

(** [a < b] on primitive values. *)
Definition less (a b : value) : bool :=
  match primitive_less a b with Some r => r | None => false end.

(** [R] holds between every element and the next. *)
Fixpoint in_order {A} (R : A -> A -> bool) (l : list A) : bool :=
  match l with
  | a :: (b :: _) as r => R a b && in_order R r
  | _ => true
  end.

(** Whether [compare] of [sort] moves [x] behind [y]: its answer is
    positive. *)
Definition goes_after (sign : Z) (kx ky : value) : bool :=
  (0 <? (if less ky kx then sign else if less kx ky then - sign else 0))%Z.

(** Insertion by the comparator of [sort], on the keys [kv]. *)
Fixpoint insert_by (kv : value -> value) (sign : Z) (x : value)
  (sorted : list value) : list value :=
  match sorted with
  | [] => [x]
  | y :: r =>
      if goes_after sign (kv x) (kv y) then y :: insert_by kv sign x r
      else x :: sorted
  end.

Definition sorted_by (kv : value -> value) (sign : Z) (l : list value)
  : list value :=
  fold_right (insert_by kv sign) [] l.

(** The answer of [compare] of [sort] on two keys. *)
Definition compare_keys (sign : Z) (kx ky : value) : Z :=
  if less ky kx then sign else if less kx ky then (- sign)%Z else 0%Z.

(** Keys of one kind: numbers other than [NaN], or strings. *)
Definition number_key (k : value) : bool :=
  match k with VNumber x => negb (is_nan x) | _ => false end.

Definition string_key (k : value) : bool :=
  match k with VString _ => true | _ => false end.

Definition same_kind (keys : list value) : bool :=
  forallb number_key keys || forallb string_key keys.

(** [x] has the key [k]. *)
Definition has_key (kv : value -> value) (k x : value) : bool :=
  if value_eq_dec (kv x) k then true else false.

(** The key under which [pick] stores the value of a path: its last
    element. *)
Definition path_key (p : list string) : string :=
  match last p with Some k => k | None => "undefined" end.

(** The properties whose key is an array index. *)
Definition is_index {A} (kv : string * A) : bool := has (array_index (fst kv)).

(** The order in which [Object.keys] lists the keys of an object whose
    properties were created in the order [keys]: the keys that are array
    indices first, in ascending order, then the other keys in the order of
    their creation. *)
Definition key_order (keys : list string) : list string :=
  map fst (ordered (map (fun k => (k, tt)) keys)).

(** A list of indexed properties whose indices ascend. *)
Fixpoint ascending {A} (l : list (Z * (string * A))) : Prop :=
  match l with
  | [] => True
  | p :: r => Forall (fun q => (fst p <= fst q)%Z) r /\ ascending r
  end.

(** One round of the loop of [ordered]. *)
Definition index_round {A} (acc : list (Z * (string * A))) (kv : string * A)
  : list (Z * (string * A)) :=
  match array_index (fst kv) with
  | Some i => insert_index i kv acc
  | None => acc
  end.

(** ** Sample stores *)

Definition sample_items : list value :=
  [VNumber (of_Z 1); VString ""; VNull; VNumber zero; VNumber NaN; VBool false].

Definition sample_array : heap := [CArray sample_items].

Definition sample_object : heap :=
  [CObject [("a", VNull); ("b", VNumber (of_Z 2))]].

Definition sample_keys : heap :=
  [CObject [("b", VNumber (of_Z 1)); ("2", VNumber (of_Z 2));
            ("1", VNumber (of_Z 3))]].

Definition sample_nested : heap :=
  [CObject [("c", VNumber (of_Z 1))];
   CObject [("a", VString "x"); ("b", VRef 0); ("d", VNull)]].

Definition sample_rows : heap :=
  [CObject [("id", VNumber (of_Z 2)); ("n", VString "a")];
   CObject [("id", VNumber (of_Z 1)); ("n", VString "b")];
   CObject [("id", VNumber (of_Z 2)); ("n", VString "c")];
   CObject [("id", VString "constructor")];
   CArray [VRef 0; VRef 1; VRef 2; VRef 3]].

(** The value of the property [k] of the object at a reference of
    [sample_rows]. *)
Definition sample_field (k : string) (x : value) : value :=
  match fst (built (functions_get [JString k]) x sample_rows) with
  | Ret v => v
  | _ => VUndefined
  end.

Definition sample_plain : heap :=
  (sample_rows ++ [CArray [VRef 0; VRef 1; VRef 2]])%list.

Definition sample_scores : heap :=
  [CObject [("n", VString "a"); ("s", VNumber (of_Z 2))];
   CObject [("n", VString "b"); ("s", VNumber (of_Z 1))];
   CObject [("n", VString "c"); ("s", VNumber (of_Z 2))];
   CArray [VRef 0; VRef 1; VRef 2]].

Definition sample_score (x : value) : value :=
  match fst (built (functions_get [JString "s"]) x sample_scores) with
  | Ret v => v
  | _ => VUndefined
  end.

Definition sample_table : heap :=
  [CArray [VRef 1; VRef 2]; CObject [("a", VRef 3)]; CObject [("a", VNull)];
   CObject [("b", VNumber (of_Z 1))]].

(** The characters of a text that are not white space, and the texts of
    white space only. *)
Definition letters (s : string) : list ascii :=
  List.filter (fun c => negb (is_ws c)) (list_ascii_of_string s).

Definition blank (s : string) : bool :=
  forallb is_ws (list_ascii_of_string s).

(** The answer of a [mapObject] callback for the entry of [k] and [v]: on
    every store that extends [h] and holds the entry at [a], the callback
    keeps the cells there are, allocating at most, and its answer has the
    members [key] and [value]. *)
Definition entry_answer (h : heap) (cb : Evaluator) (k : string) (v : value)
  (k' : string) (v' : value) : Prop :=
  forall more a,
    (h ++ more)%list !! a = Some (CObject [("key", VString k); ("value", v)]) ->
    exists r extra,
      cb (VRef a) (h ++ more)%list = (Ret r, (h ++ more ++ extra)%list)
      /\ GetV (h ++ more ++ extra)%list r "key" = Ret (VString k')
      /\ GetV (h ++ more ++ extra)%list r "value" = Ret v'.

(** The object that assigning the entries one after the other makes. *)
Definition assigned (outs : list (string * value)) : list (string * value) :=
  fold_left (fun ps out => props_set (fst out) (snd out) ps) outs [].

Definition sample_pairs : heap :=
  [CObject [("a", VString "x"); ("b", VString "y")]].

(** The callback that swaps the key and the value of an entry. *)
Definition sample_swap : json :=
  JObject [("key", get_ ["value"]); ("value", get_ ["key"])].

(** * Properties *)

(** ** The model on the scenarios of the documentation *)

Example scenario_get :
  jsonquery (JObject [("name", JString "Joe")]) (get_ ["name"])
  = Ret (Some (JString "Joe")).
Proof. vm_compute. reflexivity. Qed.

Example scenario_sort_map :
  jsonquery (JArray [JObject [("a", N_ 3)]; JObject [("a", N_ 1)];
                     JObject [("a", N_ 2)]])
    (call "pipe" [call "sort" [get_ ["a"]]; call "map" [get_ ["a"]]])
  = Ret (Some (JArray [N_ 1; N_ 2; N_ 3])).
Proof. vm_compute. reflexivity. Qed.

Example scenario_groupBy :
  jsonquery (JArray [JObject [("g", JString "x"); ("v", N_ 1)];
                     JObject [("g", JString "y"); ("v", N_ 2)];
                     JObject [("g", JString "x"); ("v", N_ 3)]])
    (call "groupBy" [get_ ["g"]])
  = Ret (Some (JObject
                 [("x", JArray [JObject [("g", JString "x"); ("v", N_ 1)];
                                JObject [("g", JString "x"); ("v", N_ 3)]]);
                  ("y", JArray [JObject [("g", JString "y"); ("v", N_ 2)]])])).
Proof. vm_compute. reflexivity. Qed.

Example scenario_filter_sum :
  jsonquery (JArray [N_ 1; N_ 2; N_ 3; N_ 4])
    (call "pipe" [call "filter" [call "gt" [get_ []; N_ 2]]; call "sum" []])
  = Ret (Some (N_ 7)).
Proof. vm_compute. reflexivity. Qed.

Example scenario_null_propagation :
  jsonquery (JObject [("a", JObject [("b", JNull)])]) (get_ ["a"; "b"; "c"])
  = Ret (Some JNull).
Proof. vm_compute. reflexivity. Qed.

Example scenario_limit_negative :
  jsonquery (JArray [N_ 1; N_ 2; N_ 3]) (call "limit" [N_ (-1)])
  = Ret (Some (JArray [])).
Proof. vm_compute. reflexivity. Qed.

Example scenario_keys_order :
  jsonquery (JObject [("b", N_ 1); ("2", N_ 2); ("1", N_ 3)]) (call "keys" [])
  = Ret (Some (JArray [JString "1"; JString "2"; JString "b"])).
Proof. vm_compute. reflexivity. Qed.

Example scenario_split_join :
  jsonquery (JString " a  b c ")
    (call "pipe" [call "split" [get_ []]; call "join" [JString "-"]])
  = Ret (Some (JString "a-b-c")).
Proof. vm_compute. reflexivity. Qed.

Example scenario_number_text :
  map Number_toString
    [dec_ 1 (-1) ; dec_ 1 21; dec_ 123456 (-2); dec_ 5 (-324);
     Num.add (dec_ 1 (-1)) (dec_ 2 (-1)); Num.div (of_Z 1) (of_Z 3)]
  = ["0.1"; "1e+21"; "1234.56"; "5e-324"; "0.30000000000000004";
     "0.3333333333333333"].
Proof. vm_compute. reflexivity. Qed.

(** ** Documents stay within the model *)

Lemma omap_not_Beyond {A B} (f : A -> outcome B) l :
  Forall (fun a => forall w, f a <> Beyond w) l ->
  forall w, omap f l <> Beyond w.
Proof.
  induction 1 as [|a l Ha Hl IH]; intros w; simpl; [done|].
  destruct (f a) as [b|e|w'] eqn:E; simpl; [|done|by destruct (Ha w')].
  destruct (omap f l) as [bs|e|w'] eqn:El; simpl; [done|done|].
  by destruct (IH w').
Qed.

Lemma all_some_Forall {A B} (f : A -> option B) l js :
  all_some f l = Some js -> Forall (fun a => exists j, f a = Some j) l.
Proof.
  revert js. induction l as [|a l IH]; simpl; intros js H; [constructor|].
  destruct (f a) as [j|] eqn:Ea; [|done].
  destruct (all_some f l) as [js'|] eqn:El; [|done].
  constructor; [eauto | by eapply IH].
Qed.

(** On a value that stands for a document the conversion to a string stays
    within the model: the fuel suffices. *)
Lemma ToString_of_document f h v j :
  dump_fuel f h v = Some j -> forall w, ToString_fuel f h v <> Beyond w.
Proof.
  revert v j. induction f as [|f IH]; intros v j; destruct v; simpl; try done.
  destruct (h !! l) as [[items|props]|]; [| |done].
  - destruct (all_some (dump_fuel f h) items) as [js|] eqn:E; [|done].
    intros _ w. apply all_some_Forall in E.
    pose proof (omap_not_Beyond
                  (fun x => match x with
                            | VUndefined | VNull => Ret ""
                            | _ => ToString_fuel f h x
                            end) items) as Ho.
    destruct (omap _ items) as [ss|e|w'] eqn:Eo; simpl; [done|done|].
    exfalso. eapply Ho; [|reflexivity]. eapply Forall_impl; [exact E|].
    intros x [jx Hx] w0. destruct x; try done; by eapply IH.
  - intros _ w. by destruct (props_get "toString" props).
Qed.

Lemma ToString_document h v j :
  dump h v = Some j -> forall w, ToString h v <> Beyond w.
Proof. apply ToString_of_document. Qed.

(** ** The store is only extended *)

Section Frame.

Context {A B : Type}.
Implicit Types (n : nat) (h : heap).

Lemma keeps_ret n (a : A) : keeps n (ret a).
Proof. intros h r h' Hn [= <- <-]. done. Qed.

Lemma keeps_throw n e : keeps n (throw e : M A).
Proof. intros h r h' Hn [= <- <-]. done. Qed.

Lemma keeps_beyond n w : keeps n (beyond w : M A).
Proof. intros h r h' Hn [= <- <-]. done. Qed.

Lemma keeps_lift n (f : heap -> outcome A) : keeps n (lift f).
Proof. intros h r h' Hn [= <- <-]. done. Qed.

Lemma keeps_bind n (m : M A) (f : A -> M B) :
  keeps n m -> (forall a, keeps n (f a)) -> keeps n (bind m f).
Proof.
  intros Hm Hf h r h' Hn. unfold bind.
  destruct (m h) as [[a|e|w] h1] eqn:E; destruct (Hm _ _ _ Hn E) as [H1 H2].
  - intros Hfa. destruct (Hf a _ _ _ H1 Hfa) as [H3 H4].
    split; [done | congruence].
  - intros [= <- <-]. done.
  - intros [= <- <-]. done.
Qed.

(** The same with what [m] returns. *)
Lemma keeps_bind_returns n (R : A -> Prop) (m : M A) (f : A -> M B) :
  keeps n m -> returns n m R -> (forall a, R a -> keeps n (f a)) ->
  keeps n (bind m f).
Proof.
  intros Hm HR Hf h r h' Hn. unfold bind.
  destruct (m h) as [[a|e|w] h1] eqn:E; destruct (Hm _ _ _ Hn E) as [H1 H2].
  - intros Hfa. destruct (Hf a (HR _ _ _ Hn E) _ _ _ H1 Hfa) as [H3 H4].
    split; [done | congruence].
  - intros [= <- <-]. done.
  - intros [= <- <-]. done.
Qed.

End Frame.

Lemma keeps_alloc n c : keeps n (alloc c).
Proof.
  intros h r h' Hn [= <- <-]. rewrite length_app. split; [lia|].
  by apply take_app_le.
Qed.

Lemma returns_alloc n c : returns n (alloc c) (fun v => exists l, v = VRef l /\ n <= l).
Proof. intros h a h' Hn [= <- <-]. eauto. Qed.

Lemma keeps_read n l : keeps n (read l).
Proof. apply keeps_lift. Qed.

Lemma keeps_write n l c : n <= l -> keeps n (write l c).
Proof.
  intros Hl h r h' Hn. unfold write. intros [= <- <-].
  rewrite length_insert. split; [done|]. by apply take_insert_ge.
Qed.

Lemma keeps_set_property n l k v : n <= l -> keeps n (set_property l k v).
Proof.
  intros Hl. unfold set_property. destruct (k =? "__proto__")%string.
  - apply keeps_beyond.
  - apply keeps_bind; [apply keeps_read|].
    intros [items|props]; [apply keeps_beyond | by apply keeps_write].
Qed.

Section FrameLists.

Context {A B : Type}.

Lemma keeps_mapM n (f : A -> M B) l :
  (forall a, keeps n (f a)) -> keeps n (mapM f l).
Proof.
  intros Hf. induction l as [|a l IH]; simpl; [apply keeps_ret|].
  apply keeps_bind; [done|]. intros b.
  apply keeps_bind; [done|]. intros bs. apply keeps_ret.
Qed.

Lemma keeps_mapM_Forall n (f : A -> M B) l :
  Forall (fun a => keeps n (f a)) l -> keeps n (mapM f l).
Proof.
  induction 1 as [|a l Ha Hl IH]; simpl; [apply keeps_ret|].
  apply keeps_bind; [done|]. intros b.
  apply keeps_bind; [done|]. intros bs. apply keeps_ret.
Qed.

Lemma keeps_foldM n (f : B -> A -> M B) l b :
  (forall b a, keeps n (f b a)) -> keeps n (foldM f b l).
Proof.
  intros Hf. revert b. induction l as [|a l IH]; intros b; simpl.
  - apply keeps_ret.
  - apply keeps_bind; [done|]. intros b'. apply IH.
Qed.

Lemma keeps_foldM_Forall n (f : B -> A -> M B) l b :
  Forall (fun a => forall b, keeps n (f b a)) l -> keeps n (foldM f b l).
Proof.
  intros H. revert b. induction H as [|a l Ha Hl IH]; intros b; simpl.
  - apply keeps_ret.
  - apply keeps_bind; [done|]. intros b'. apply IH.
Qed.

Lemma keeps_forM_ n (f : A -> M unit) l :
  (forall a, keeps n (f a)) -> keeps n (forM_ f l).
Proof.
  intros Hf. induction l as [|a l IH]; simpl; [apply keeps_ret|].
  apply keeps_bind; [done|]. intros _. apply IH.
Qed.

Lemma keeps_forM_Forall n (f : A -> M unit) l :
  Forall (fun a => keeps n (f a)) l -> keeps n (forM_ f l).
Proof.
  induction 1 as [|a l Ha Hl IH]; simpl; [apply keeps_ret|].
  apply keeps_bind; [done|]. intros _. apply IH.
Qed.

Lemma keeps_filterM n (f : A -> M bool) l :
  (forall a, keeps n (f a)) -> keeps n (filterM f l).
Proof.
  intros Hf. induction l as [|a l IH]; simpl; [apply keeps_ret|].
  apply keeps_bind; [done|]. intros b.
  apply keeps_bind; [done|]. intros bs. apply keeps_ret.
Qed.

End FrameLists.

(** ** The builders keep the store *)

Lemma obind_Ret {A B} (m : outcome A) (f : A -> outcome B) b :
  obind m f = Ret b -> exists a, m = Ret a /\ f a = Ret b.
Proof. destruct m; simpl; [eauto | done | done]. Qed.

(** Invert the steps of a builder that returned an evaluator. *)
Ltac inv_build :=
  repeat match goal with
         | H : obind ?m _ = Ret _ |- _ =>
             let a := fresh "x" in
             let E := fresh "E" in
             apply obind_Ret in H as (a & E & H)
         | H : Ret _ = Ret _ |- _ => injection H as H; try subst
         end.

Ltac keeps_step :=
  lazymatch goal with
  | |- keeps _ (ret _) => apply keeps_ret
  | |- keeps _ (throw _) => apply keeps_throw
  | |- keeps _ (beyond _) => apply keeps_beyond
  | |- keeps _ (lift _) => apply keeps_lift
  | |- keeps _ (read _) => apply keeps_read
  | |- keeps _ (alloc _) => apply keeps_alloc
  | |- keeps _ (alloc_array _) => apply keeps_alloc
  | |- keeps _ (alloc_strings _) => apply keeps_alloc
  | |- keeps _ (write _ _) => apply keeps_write; lia
  | |- keeps _ (set_property _ _ _) => apply keeps_set_property; lia
  | |- keeps _ (bind (alloc _) _) =>
      eapply keeps_bind_returns;
      [apply keeps_alloc | apply returns_alloc | intros ? (? & -> & ?)]
  | |- keeps _ (bind _ _) => apply keeps_bind; [| intros ?]
  | |- keeps _ (mapM _ _) => apply keeps_mapM; intros ?
  | |- keeps _ (foldM _ _ _) => apply keeps_foldM; intros ? ?
  | |- keeps _ (forM_ _ _) => apply keeps_forM_; intros ?
  | |- keeps _ (filterM _ _) => apply keeps_filterM; intros ?
  | |- keeps _ (match ?x with _ => _ end) => destruct x
  | H : safe ?ev |- keeps _ (?ev _) => apply H
  end.

Ltac keeps_auto := repeat keeps_step.

Lemma keeps_SortCompare n cmp x y :
  (forall a b, keeps n (cmp a b)) -> keeps n (SortCompare cmp x y).
Proof. intros H. unfold SortCompare. keeps_auto; apply H. Qed.

Lemma keeps_insert_sorted n cmp x l :
  (forall a b, keeps n (cmp a b)) -> keeps n (insert_sorted cmp x l).
Proof.
  intros H. induction l as [|y l IH]; simpl; keeps_auto.
  - by apply keeps_SortCompare.
  - apply IH.
Qed.

Lemma keeps_sort_list n cmp l :
  (forall a b, keeps n (cmp a b)) -> keeps n (sort_list cmp l).
Proof.
  intros H. induction l as [|x l IH]; simpl; keeps_auto; [done|].
  by apply keeps_insert_sorted.
Qed.

Lemma safe_get path ev : functions_get path = Ret ev -> safe ev.
Proof.
  unfold functions_get. intros H.
  destruct path as [|p [|p' path']]; inv_build; intros data n;
    unfold optional_index; keeps_auto.
Qed.

Lemma keeps_Array_sort n cmp l :
  (forall a b, keeps n (cmp a b)) -> keeps n (Array_sort cmp l).
Proof.
  intros H. unfold Array_sort. keeps_auto. by apply keeps_sort_list.
Qed.

Lemma keeps_js_slice n name data args :
  keeps n args -> keeps n (js_slice name data args).
Proof. intros H. unfold js_slice. keeps_auto; done. Qed.

Lemma returns_bind {A B} n (m : M A) (f : A -> M B) R :
  keeps n m -> (forall a, returns n (f a) R) -> returns n (bind m f) R.
Proof.
  intros Hm Hf h b h' Hn. unfold bind.
  destruct (m h) as [[a|e|w] h1] eqn:E; [|done|done].
  destruct (Hm _ _ _ Hn E) as [H1 H2]. intros Hfa. by eapply Hf.
Qed.

Lemma returns_js_slice n name data args :
  keeps n args -> returns n (js_slice name data args) (fresh n).
Proof.
  intros H. unfold js_slice. destruct (nullish data); [by intros ? ? ? ? [=]|].
  apply returns_bind; [done|]. intros [start end_].
  destruct data; try by intros ? ? ? ? [=].
  - apply returns_bind; [apply keeps_lift|]. intros [from to].
    intros ? ? ? ? [= <- <-]. done.
  - apply returns_bind; [apply keeps_read|]. intros [items|props].
    + apply returns_bind; [apply keeps_lift|]. intros [from to].
      intros h a h' Hn [= <- <-]. done.
    + by intros ? ? ? ? [=].
Qed.

Lemma keeps_build_object n getters data :
  Forall (fun kg : string * Evaluator => safe (snd kg)) getters ->
  keeps n (build_object getters data).
Proof.
  intros H. unfold build_object. keeps_step.
  apply keeps_bind; [|intros; apply keeps_ret].
  apply keeps_forM_Forall. eapply Forall_impl; [exact H|].
  intros [k g] Hg; simpl in *. keeps_auto.
Qed.

Lemma keeps_for_keys n data body :
  (forall l key v, n <= l -> keeps n (body l key v)) ->
  keeps n (for_keys data body).
Proof.
  intros H. unfold for_keys, Object_keys. keeps_auto. by apply H.
Qed.

Lemma keeps_for_items n data body :
  (forall l item, n <= l -> keeps n (body l item)) ->
  keeps n (for_items data body).
Proof. intros H. unfold for_items. keeps_auto. by apply H. Qed.

Lemma keeps_key_once n l key item : n <= l -> keeps n (key_once l key item).
Proof. intros H. unfold key_once. keeps_auto. Qed.

Lemma keeps_reduce n op data : keeps n (reduce op data).
Proof. unfold reduce. keeps_auto. Qed.

Lemma keeps_under_bind {A B} I n (m : M A) (f : A -> M B) :
  keeps_under I n m -> (forall a, keeps_under I n (f a)) ->
  keeps_under I n (bind m f).
Proof.
  intros Hm Hf h r h' HI Hn. unfold bind.
  destruct (m h) as [[a|e|w] h1] eqn:E;
    destruct (Hm _ _ _ HI Hn E) as (H0 & H1 & H2).
  - intros Hfa. destruct (Hf a _ _ _ H0 H1 Hfa) as (H3 & H4 & H5).
    repeat split; [done | done | congruence].
  - intros [= <- <-]. done.
  - intros [= <- <-]. done.
Qed.

Lemma keeps_under_forM_ {A} I n (f : A -> M unit) l :
  (forall a, keeps_under I n (f a)) -> keeps_under I n (forM_ f l).
Proof.
  intros Hf. induction l as [|a l IH]; simpl.
  - intros h r h' HI Hn [= <- <-]. done.
  - apply keeps_under_bind; [done|]. intros _. apply IH.
Qed.

Lemma take_lookup_eq {A} (h h' : list A) n l :
  l < n -> take n h' = take n h -> h' !! l = h !! l.
Proof.
  intros Hl H. rewrite <- (lookup_take_lt h' n l Hl), H.
  by apply lookup_take_lt.
Qed.

(** A computation that only extends the store keeps the groups. *)
Lemma keeps_under_groups {A} l n (m : M A) :
  (forall n', keeps n' m) -> keeps_under (groups_at l) n m.
Proof.
  intros Hm h r h' (props & Hl & Hp) Hn E.
  destruct (Hm n _ _ _ Hn E) as [H1 H2]. split; [|done].
  assert (l < length h) as Hlt by (by eapply lookup_lt_Some).
  destruct (Hm (S l) _ _ _ Hlt E) as [H3 H4].
  exists props. split; [|done].
  rewrite <- Hl. eapply take_lookup_eq; [|exact H4]. lia.
Qed.

Lemma props_get_set {A} k k' (v : A) props :
  props_get k' (props_set k v props)
  = if (k =? k')%string then Some v else props_get k' props.
Proof.
  induction props as [|[k0 v0] props IH]; simpl.
  - done.
  - destruct (k0 =? k)%string eqn:E0; simpl.
    + apply String.eqb_eq in E0 as ->. by destruct (k =? k')%string.
    + rewrite IH. destruct (k0 =? k')%string eqn:E1; [|done].
      apply String.eqb_eq in E1 as ->. by rewrite String.eqb_sym, E0.
Qed.

Lemma group_push_keeps l n key item :
  n <= l -> keeps_under (groups_at l) n (group_push l key item).
Proof.
  intros Hnl h r h' (props & Hl & Hp) Hn. unfold group_push, bind, read, lift.
  rewrite Hl. destruct (props_get key props) as [v|] eqn:Ek.
  - destruct (Hp _ _ Ek) as (a & -> & Ha).
    destruct (h !! a) as [[items|props']|] eqn:Ea;
      unfold write, throw; intros [= <- <-];
      try (split; [by exists props | done]).
    rewrite length_insert. split; [|split; [done|]].
    + exists props. split; [|done].
      rewrite list_lookup_insert_ne; [done | lia].
    + apply take_insert_ge. lia.
  - destruct (mem key object_prototype).
    + unfold throw. intros [= <- <-]. split; [by exists props | done].
    + unfold alloc_array, alloc, set_property.
      destruct (key =? "__proto__")%string.
      * unfold beyond. intros [= <- <-]. rewrite length_app.
        split; [|split; [lia | by apply take_app_le]].
        exists props. split; [|done]. by apply lookup_app_l_Some.
      * unfold bind, read, lift. rewrite (lookup_app_l_Some _ _ _ _ Hl).
        unfold write. intros [= <- <-].
        rewrite length_insert, length_app.
        assert (l < length h) as Hlt by (by eapply lookup_lt_Some).
        split; [|split; [lia|]].
        -- eexists. split.
           ++ apply list_lookup_insert_eq. rewrite length_app. lia.
           ++ intros k v. rewrite props_get_set.
              destruct (key =? k)%string; [|by apply Hp].
              intros [= <-]. eauto.
        -- rewrite take_insert_ge by lia. by apply take_app_le.
Qed.

(** ** Every builder of the table makes evaluators that only extend the
    store *)

Section BuildersSafe.

Variable compile : json -> outcome Evaluator.

Lemma safe_undefined : safe undefined_evaluator.
Proof. intros data n. apply keeps_ret. Qed.

Lemma safe_compile_0 args ev :
  Forall (compiles_safe compile) args -> compile_0 compile args = Ret ev -> safe ev.
Proof.
  intros H. unfold compile_0. destruct H as [|a args Ha H].
  - intros [= <-]. apply safe_undefined.
  - apply Ha.
Qed.

Lemma safe_compile_1 args ev :
  Forall (compiles_safe compile) args -> compile_1 compile args = Ret ev -> safe ev.
Proof.
  intros H. unfold compile_1. destruct H as [|a args Ha [|b args' Hb H]];
    try (intros [= <-]; apply safe_undefined).
  apply Hb.
Qed.

Lemma safe_compile_2 args ev :
  Forall (compiles_safe compile) args -> compile_2 compile args = Ret ev -> safe ev.
Proof.
  intros H. unfold compile_2.
  destruct H as [|a args Ha [|b args' Hb [|c args'' Hc H]]];
    try (intros [= <-]; apply safe_undefined).
  apply Hc.
Qed.

Lemma safe_omap_compile args evs :
  Forall (compiles_safe compile) args -> omap compile args = Ret evs -> Forall safe evs.
Proof.
  intros H. revert evs. induction H as [|a args Ha H IH]; simpl; intros evs E.
  - injection E as <-. constructor.
  - inv_build. constructor; [by apply Ha | by apply IH].
Qed.

Lemma safe_buildFunction fn args ev :
  (forall vs n, keeps n (fn vs)) ->
  Forall (compiles_safe compile) args -> buildFunction compile fn args = Ret ev ->
  safe ev.
Proof.
  intros Hfn H E. unfold buildFunction in E. inv_build.
  pose proof (safe_omap_compile _ _ H E0) as Hs.
  intros data n.
  destruct Hs as [|arg0 evs H0 [|arg1 evs' H1 [|arg2 evs'' H2 Hs]]].
  - apply keeps_bind; [apply keeps_ret | intros; apply Hfn].
  - keeps_auto. apply Hfn.
  - keeps_auto. apply Hfn.
  - apply keeps_bind; [|intros; apply Hfn].
    apply keeps_mapM_Forall.
    constructor; [apply H0|]. constructor; [apply H1|].
    constructor; [apply H2|].
    eapply Forall_impl; [exact Hs|]. intros e He. apply He.
Qed.

End BuildersSafe.

Section TableSafe.

Variable compile : json -> outcome Evaluator.
Variable args : list json.
Hypothesis Hargs : Forall (compiles_safe compile) args.
Hypothesis Hobject :
  forall entries, compile (JObject entries) = object_entries compile entries.

Let safe0 := safe_compile_0 compile args.
Let safe1 := safe_compile_1 compile args.
Let safe2 := safe_compile_2 compile args.

Ltac use_args :=
  repeat match goal with
         | H : compile_0 _ _ = Ret _ |- _ => apply (safe0 _ Hargs) in H
         | H : compile_1 _ _ = Ret _ |- _ => apply (safe1 _ Hargs) in H
         | H : compile_2 _ _ = Ret _ |- _ => apply (safe2 _ Hargs) in H
         end.

Ltac start E := inv_build; use_args; intros data n.

Lemma safe_pipe ev : functions_pipe compile args = Ret ev -> safe ev.
Proof.
  unfold functions_pipe. intros E. inv_build.
  pose proof (safe_omap_compile _ _ _ Hargs E0) as Hs. intros data n.
  apply keeps_foldM_Forall. eapply Forall_impl; [exact Hs|].
  intros e He b. apply He.
Qed.

Lemma safe_array ev : functions_array compile args = Ret ev -> safe ev.
Proof.
  unfold functions_array. intros E. inv_build.
  pose proof (safe_omap_compile _ _ _ Hargs E0) as Hs. intros data n.
  apply keeps_bind; [|intros; apply keeps_alloc].
  apply keeps_mapM_Forall. eapply Forall_impl; [exact Hs|].
  intros e He. apply He.
Qed.

Lemma safe_map ev : functions_map compile args = Ret ev -> safe ev.
Proof. unfold functions_map. intros E. start E. keeps_auto. Qed.

Lemma safe_filter ev : functions_filter compile args = Ret ev -> safe ev.
Proof. unfold functions_filter. intros E. start E. keeps_auto. Qed.

Lemma safe_mapObject ev : functions_mapObject compile args = Ret ev -> safe ev.
Proof.
  unfold functions_mapObject. intros E. start E.
  apply keeps_for_keys. intros l key v Hl. keeps_auto.
Qed.

Lemma safe_mapKeys ev : functions_mapKeys compile args = Ret ev -> safe ev.
Proof.
  unfold functions_mapKeys. intros E. start E.
  apply keeps_for_keys. intros l key v Hl. keeps_auto.
Qed.

Lemma safe_mapValues ev : functions_mapValues compile args = Ret ev -> safe ev.
Proof.
  unfold functions_mapValues. intros E. start E.
  apply keeps_for_keys. intros l key v Hl. keeps_auto.
Qed.

Lemma safe_sort ev : functions_sort compile args = Ret ev -> safe ev.
Proof.
  unfold functions_sort. intros E. inv_build.
  assert (safe x) as Hx.
  { destruct Hargs as [|a args' Ha _]; [by eapply safe_get | by apply Ha]. }
  intros data n.
  eapply keeps_bind_returns.
  - apply keeps_js_slice, keeps_ret.
  - apply returns_js_slice, keeps_ret.
  - intros [| | | | |l] Hl; simpl in Hl; keeps_auto.
    apply keeps_Array_sort. intros a b. unfold sort_compare. keeps_auto.
Qed.

Lemma safe_pick ev : functions_pick args = Ret ev -> safe ev.
Proof.
  unfold functions_pick. intros E. inv_build.
  assert (Forall (fun kg : string * Evaluator => safe (snd kg)) x) as Hs.
  { clear Hargs. revert x E0. induction args as [|p ps IH]; simpl; intros x E.
    - injection E as <-. constructor.
    - inv_build. constructor; [|by apply IH].
      unfold pick_getter in E0. inv_build. simpl. by eapply safe_get. }
  intros data n. keeps_auto.
  - apply keeps_build_object, Hs.
  - apply keeps_build_object, Hs.
Qed.

Lemma safe_groupBy ev : functions_groupBy compile args = Ret ev -> safe ev.
Proof.
  unfold functions_groupBy. intros E. start E. unfold for_items.
  apply keeps_bind; [apply keeps_lift|]. intros items.
  intros h r h' Hn. unfold bind at 1. unfold alloc. simpl.
  set (l := length h). set (h1 := (h ++ [CObject []])%list).
  assert (groups_at l h1) as HI.
  { exists []. split; [|done]. subst l h1.
    by rewrite lookup_app_r, Nat.sub_diag by lia. }
  assert (n <= length h1) as Hn1 by (subst h1; rewrite length_app; lia).
  assert (take n h1 = take n h) as Ht by (subst h1; by apply take_app_le).
  assert (keeps_under (groups_at l) n
            (forM_ (fun item =>
                      let* v := x item in
                      let* key := lift (fun h => ToPropertyKey h v) in
                      group_push l key item) items)) as Hloop.
  { apply keeps_under_forM_. intros item.
    apply keeps_under_bind.
    { apply keeps_under_groups. intros.
      match goal with H : safe _ |- _ => apply H end. }
    intros v. apply keeps_under_bind.
    - apply keeps_under_groups. intros. apply keeps_lift.
    - intros key. apply group_push_keeps. lia. }
  unfold bind.
  destruct (forM_ _ items h1) as [[[]|e|w] h2] eqn:E2;
    destruct (Hloop _ _ _ HI Hn1 E2) as (_ & H1 & H2);
    intros [= <- <-]; split; try done; congruence.
Qed.

Lemma safe_keyBy ev : functions_keyBy compile args = Ret ev -> safe ev.
Proof.
  unfold functions_keyBy. intros E. start E.
  apply keeps_for_items. intros l item Hl. keeps_auto.
  by apply keeps_key_once.
Qed.

Lemma safe_uniqBy ev : functions_uniqBy compile args = Ret ev -> safe ev.
Proof.
  unfold functions_uniqBy. intros E. inv_build. intros data n.
  destruct (functions_keyBy compile args) as [keyed|e|w] eqn:E0;
    [|apply keeps_throw|apply keeps_beyond].
  apply safe_keyBy in E0. unfold Object_values. keeps_auto.
Qed.

Lemma safe_if ev : functions_if compile args = Ret ev -> safe ev.
Proof. unfold functions_if. intros E. start E. keeps_auto. Qed.

Lemma safe_in ev : functions_in compile args = Ret ev -> safe ev.
Proof. unfold functions_in. intros E. start E. keeps_auto. Qed.

Lemma safe_not_in ev : functions_not_in compile args = Ret ev -> safe ev.
Proof.
  unfold functions_not_in. intros E. inv_build. apply safe_in in E0.
  intros data n. keeps_auto.
Qed.

Lemma safe_regex ev : functions_regex compile args = Ret ev -> safe ev.
Proof. unfold functions_regex. intros E. start E. keeps_auto. Qed.

Lemma safe_exists ev : functions_exists args = Ret ev -> safe ev.
Proof.
  unfold functions_exists. cbv zeta. intros E. inv_build.
  match goal with H : functions_get _ = Ret _ |- _ => apply safe_get in H end.
  intros data n. keeps_auto.
Qed.

Lemma safe_join ev : functions_join args = Ret ev -> safe ev.
Proof. unfold functions_join. intros E. inv_build. intros data n. keeps_auto. Qed.

Lemma safe_limit ev : functions_limit args = Ret ev -> safe ev.
Proof.
  unfold functions_limit. intros E. inv_build. intros data n.
  apply keeps_js_slice. keeps_auto.
Qed.

Lemma safe_average ev : functions_average args = Ret ev -> safe ev.
Proof.
  unfold functions_average, functions_sum. intros E. inv_build.
  intros data n. keeps_auto. apply keeps_reduce.
Qed.

Lemma keeps_split_fn vs n : keeps n (split_fn vs).
Proof. unfold split_fn. keeps_auto. Qed.

Lemma keeps_substring_fn vs n : keeps n (substring_fn vs).
Proof. unfold substring_fn. apply keeps_js_slice. keeps_auto. Qed.

(** The table as a whole. *)
Lemma safe_functions fn ev : functions compile fn args = Ret ev -> safe ev.
Proof.
  destruct fn; simpl;
    try (apply safe_buildFunction; [|exact Hargs]; intros vs n;
         first [ apply keeps_split_fn | apply keeps_substring_fn
               | apply keeps_ret | apply keeps_lift
               | unfold string_fn; destruct vs; keeps_auto ]);
    try (intros [= <-]; intros data n;
         first [ apply keeps_reduce | apply keeps_lift
               | solve [unfold Object_keys, Object_values; keeps_auto] ]).
  - apply safe_pipe.
  - unfold functions_object. destruct Hargs as [|[] args' Ha _]; try done.
    rewrite <- Hobject. apply Ha.
  - apply safe_array.
  - apply safe_get.
  - apply safe_map.
  - apply safe_mapObject.
  - apply safe_mapKeys.
  - apply safe_mapValues.
  - apply safe_filter.
  - apply safe_sort.
  - apply safe_pick.
  - apply safe_groupBy.
  - apply safe_keyBy.
  - apply safe_join.
  - apply safe_uniqBy.
  - apply safe_limit.
  - apply safe_average.
  - apply safe_exists.
  - apply safe_if.
  - apply safe_in.
  - apply safe_not_in.
  - apply safe_regex.
Qed.

End TableSafe.

(** Induction on queries, through the lists of arguments and entries. *)
Lemma json_nested_ind (P : json -> Prop) :
  P JNull -> (forall b, P (JBool b)) -> (forall x, P (JNumber x)) ->
  (forall s, P (JString s)) ->
  (forall items, Forall P items -> P (JArray items)) ->
  (forall entries, Forall (fun kq => P (snd kq)) entries -> P (JObject entries)) ->
  forall j, P j.
Proof.
  intros Hn Hb Hx Hs Ha Ho.
  fix IH 1. intros [| b | x | s | items | entries].
  - exact Hn.
  - apply Hb.
  - apply Hx.
  - apply Hs.
  - apply Ha. induction items as [|a items IHl]; constructor; [apply IH | exact IHl].
  - apply Ho. induction entries as [|[k q] entries IHl]; constructor;
      [apply IH | exact IHl].
Qed.

Lemma In_insert_index {A} i (kv : string * A) acc y :
  In y (insert_index i kv acc) -> y = (i, kv) \/ In y acc.
Proof.
  induction acc as [|[j kv'] acc IH]; simpl.
  - intros [<-|[]]. by left.
  - destruct (i <? j)%Z; simpl.
    + intros [<-|H]; [by left | by right].
    + intros [<-|H]; [right; by left|].
      destruct (IH H) as [->|H']; [by left | right; by right].
Qed.

(** [ordered] rearranges the properties. *)
Lemma In_ordered {A} (props : list (string * A)) kv :
  In kv (ordered props) -> In kv props.
Proof.
  unfold ordered. rewrite in_app_iff. intros [H|H].
  - apply in_map_iff in H as ([i kv'] & <- & H). simpl.
    assert (forall l acc,
              (forall y, In y acc -> In (snd y) props) ->
              (forall x, In x l -> In x props) ->
              forall y,
                In y (fold_left
                        (fun acc kv =>
                           match array_index (fst kv) with
                           | Some i => insert_index i kv acc
                           | None => acc
                           end) l acc) -> In (snd y) props) as Hfold.
    { induction l as [|x l IH]; simpl; intros acc Hacc Hl y Hy.
      - by apply Hacc.
      - eapply IH; [| |exact Hy].
        + intros z Hz. destruct (array_index (fst x)); [|by apply Hacc].
          apply In_insert_index in Hz as [->|Hz]; [|by apply Hacc].
          simpl. apply Hl. by left.
        + intros z Hz. apply Hl. by right. }
    apply (Hfold props [] (fun y (H0 : In y []) => match H0 with end)
             (fun x Hx => Hx) _ H).
  - by apply filter_In in H as [H _].
Qed.

Lemma omap_sequence {A} (l : list (string * outcome A)) x :
  omap (fun kg : string * outcome A => let? g := snd kg in Ret (fst kg, g)) l
  = Ret x ->
  l = map (fun kg : string * A => (fst kg, Ret (snd kg))) x.
Proof.
  revert x. induction l as [|[k o] l IH]; simpl; intros x E.
  - by injection E as <-.
  - destruct o as [g| |]; simpl in E; try done.
    destruct (omap _ l) as [y| |] eqn:El; simpl in E; try done.
    injection E as <-. simpl. by rewrite <- (IH y).
Qed.

(** The getters of an [object] that was built: each one is compiled from
    an entry of the query. *)
Lemma object_entries_getters (c : json -> outcome Evaluator) entries ev :
  object_entries c entries = Ret ev ->
  exists getters,
    ev = build_object getters
    /\ ordered (map (fun kq : string * json => (fst kq, c (snd kq))) entries)
       = map (fun kg : string * Evaluator => (fst kg, Ret (snd kg))) getters
    /\ Forall (fun kg : string * Evaluator =>
                 exists q, In (fst kg, q) entries /\ c q = Ret (snd kg))
         getters.
Proof.
  unfold object_entries. cbv zeta. intros E. inv_build. exists x.
  split; [done|]. pose proof (omap_sequence _ _ E0) as Hx. split; [done|].
  apply List.Forall_forall. intros [k g] Hin.
  assert (In (k, Ret g)
            (ordered (map (fun kq : string * json => (fst kq, c (snd kq)))
                        entries))) as Hin'.
  { rewrite Hx. apply in_map_iff. by exists (k, g). }
  apply In_ordered, in_map_iff in Hin' as ([k' q] & [= -> Hq] & Hin').
  exists q. by split.
Qed.

Lemma safe_object_entries entries ev :
  Forall (fun kq : string * json => compiles_safe compile (snd kq)) entries ->
  object_entries compile entries = Ret ev -> safe ev.
Proof.
  intros H E.
  destruct (object_entries_getters compile entries ev E)
    as (getters & -> & _ & Hg).
  intros data n. apply keeps_build_object.
  eapply Forall_impl; [exact Hg|]. intros [k g] (q & Hin & Hq). simpl in *.
  rewrite List.Forall_forall in H. by apply (H (k, q) Hin).
Qed.

Lemma compile_safe query : compiles_safe compile query.
Proof.
  induction query as [| b | x | s | items IH | entries IH] using json_nested_ind;
    intros ev.
  - intros [= <-] data n. apply keeps_ret.
  - intros [= <-] data n. apply keeps_ret.
  - intros [= <-] data n. apply keeps_ret.
  - intros [= <-] data n. apply keeps_ret.
  - destruct IH as [|[| | | name | |] args _ IH]; try done.
    change (compile (JArray (JString name :: args)))
      with (match props_get name function_names with
            | Some fn => functions compile fn args
            | None => Throw (unknown_function name)
            end).
    destruct (props_get name function_names) as [fn|]; [|done].
    by apply safe_functions.
  - by apply safe_object_entries.
Qed.

(** ** No evaluator mutates its input *)

(** What a computation that extends the store leaves in place. *)
Lemma keeps_extends {A} (m : M A) h r h' :
  (forall n, keeps n m) -> m h = (r, h') -> exists new, h' = (h ++ new)%list.
Proof.
  intros Hm E. destruct (Hm (length h) h r h' (le_n _) E) as [H1 H2].
  exists (drop (length h) h').
  rewrite <- (take_drop (length h) h') at 1. f_equal.
  rewrite H2. by apply take_ge.
Qed.

Lemma all_some_ext {A B} (f g : A -> option B) l js :
  (forall a j, In a l -> f a = Some j -> g a = Some j) ->
  all_some f l = Some js -> all_some g l = Some js.
Proof.
  revert js. induction l as [|a l IH]; simpl; intros js H; [done|].
  destruct (f a) as [j|] eqn:Ea; [|done].
  destruct (all_some f l) as [js'|] eqn:El; [|done].
  intros [= <-]. rewrite (H a j (or_introl eq_refl) Ea).
  rewrite (IH js'); [done | | done]. intros a' j' Ha'. apply H. by right.
Qed.

(** The document a value stands for survives in a larger store. *)
Lemma dump_fuel_mono f f' h h' v j :
  f <= f' -> (forall l c, h !! l = Some c -> h' !! l = Some c) ->
  dump_fuel f h v = Some j -> dump_fuel f' h' v = Some j.
Proof.
  intros Hf Hh. revert f' Hf v j.
  induction f as [|f IH]; intros f' Hf v j; destruct v; simpl; try done;
    try (destruct f'; simpl; done).
  destruct f' as [|f']; [lia|]. simpl.
  destruct (h !! l) as [c|] eqn:El; [|done]. rewrite (Hh _ _ El).
  destruct c as [items|props].
  - destruct (all_some (dump_fuel f h) items) as [js|] eqn:E; [|done].
    intros [= <-].
    erewrite all_some_ext; [done | | exact E].
    intros a j' _. apply IH. lia.
  - destruct (all_some _ (ordered props)) as [js|] eqn:E; [|done].
    intros [= <-].
    erewrite all_some_ext; [done | | exact E].
    intros [k a] j' _. simpl.
    destruct (dump_fuel f h a) as [ja|] eqn:Ea; [|done].
    intros [= <-]. by erewrite IH; [| |exact Ea]; [|lia].
Qed.

(** C9. No evaluator mutates its input: whatever a compiled query does on a
    value, with whatever outcome, the store it ran on is a prefix of the store
    it leaves, so every array and object that existed keeps its contents, and
    the document the input stands for is the same afterwards.  Arrays and
    objects that an evaluator fills in ([sort], [groupBy], [object], ...) are
    the ones it has made. *)
Theorem evaluator_never_mutates_input query ev data h r h' :
  compile query = Ret ev ->
  ev data h = (r, h') ->
  (exists new, h' = (h ++ new)%list)
  /\ (forall l c, h !! l = Some c -> h' !! l = Some c)
  /\ (forall j, dump h data = Some j -> dump h' data = Some j).
Proof.
  intros Hc He.
  destruct (keeps_extends (ev data) h r h') as [new ->]; [|done|].
  { intros n. by apply (compile_safe query ev Hc). }
  assert (forall l c, h !! l = Some c -> (h ++ new)%list !! l = Some c) as Hl.
  { intros l c. apply lookup_app_l_Some. }
  split; [by exists new|]. split; [done|].
  intros j. unfold dump. apply dump_fuel_mono; [|done].
  rewrite length_app. lia.
Qed.

Lemma evaluator_never_mutates_input_witness :
  compile C9_query = Ret C9_evaluator
  /\ C9_evaluator (VRef 3) C9_store = (C9_answer, C9_final)
  /\ ((exists new, C9_final = (C9_store ++ new)%list)
      /\ (forall l c, C9_store !! l = Some c -> C9_final !! l = Some c)
      /\ (forall j, dump C9_store (VRef 3) = Some j ->
                    dump C9_final (VRef 3) = Some j)).
Proof.
  assert (compile C9_query = Ret C9_evaluator) as Hc by reflexivity.
  assert (C9_evaluator (VRef 3) C9_store = (C9_answer, C9_final)) as He
    by (vm_compute; reflexivity).
  split; [exact Hc|]. split; [exact He|].
  exact (evaluator_never_mutates_input _ _ _ _ _ _ Hc He).
Defined.

(** ** The numeric folds on the empty array *)

(** C2, the claim at [[]]: none of the five folds answers what is claimed. *)
Lemma folds_on_empty_array_not_as_claimed :
  jsonquery (JArray []) (call "sum" []) <> Ret (Some (JNumber zero))
  /\ jsonquery (JArray []) (call "prod" []) <> Ret (Some (N_ 1))
  /\ jsonquery (JArray []) (call "average" []) <> Ret (Some JNull)
  /\ jsonquery (JArray []) (call "min" []) <> Ret (Some JNull)
  /\ jsonquery (JArray []) (call "max" []) <> Ret (Some JNull).
Proof. repeat split; vm_compute; discriminate. Qed.

(** C2, amended.  On an empty array [sum], [prod] and [average] throw the
    TypeError of [reduce] without an initial value; [min] returns +Infinity
    and [max] returns -Infinity.  The store is left as it is. *)
Theorem folds_on_empty_array h l args :
  h !! l = Some (CArray []) ->
  (exists ev, functions_sum args = Ret ev
              /\ ev (VRef l) h = (Throw reduce_of_empty, h))
  /\ (exists ev, functions_prod args = Ret ev
                 /\ ev (VRef l) h = (Throw reduce_of_empty, h))
  /\ (exists ev, functions_average args = Ret ev
                 /\ ev (VRef l) h = (Throw reduce_of_empty, h))
  /\ (exists ev, functions_min args = Ret ev
                 /\ ev (VRef l) h = (Ret (VNumber Infinity), h))
  /\ (exists ev, functions_max args = Ret ev
                 /\ ev (VRef l) h = (Ret (VNumber NegInfinity), h)).
Proof.
  intros Hl. repeat split; eexists; (split; [reflexivity|]);
    unfold reduce, spread_numbers, bind, lift, array_method, iterate;
    rewrite Hl; reflexivity.
Qed.

Lemma folds_on_empty_array_witness :
  [CArray []] !! 0 = Some (CArray [])
  /\ ((exists ev, functions_sum [] = Ret ev
                  /\ ev (VRef 0) [CArray []]
                     = (Throw reduce_of_empty, [CArray []]))
      /\ (exists ev, functions_prod [] = Ret ev
                     /\ ev (VRef 0) [CArray []]
                        = (Throw reduce_of_empty, [CArray []]))
      /\ (exists ev, functions_average [] = Ret ev
                     /\ ev (VRef 0) [CArray []]
                        = (Throw reduce_of_empty, [CArray []]))
      /\ (exists ev, functions_min [] = Ret ev
                     /\ ev (VRef 0) [CArray []]
                        = (Ret (VNumber Infinity), [CArray []]))
      /\ (exists ev, functions_max [] = Ret ev
                     /\ ev (VRef 0) [CArray []]
                        = (Ret (VNumber NegInfinity), [CArray []]))).
Proof.
  split; [reflexivity|].
  apply (folds_on_empty_array [CArray []] 0 []). reflexivity.
Defined.

(** ** Truthiness of [and], [or] and [not] *)

Lemma ToBoolean_false v : ToBoolean v = false <-> falsy v.
Proof.
  unfold falsy. split.
  - destruct v as [| | [] | [] | [] |]; simpl; try discriminate; intros _; eauto 10.
  - intros [->|[->|[->|[[s ->]|[->| ->]]]]]; reflexivity.
Qed.

(** C4, the claim at the empty string: [not("")] is [true], where the
    spec's truthiness makes [""] truthy and asks for [false]; and
    [and("", true)] is [false]. *)
Lemma not_of_empty_string_is_true :
  truthy (VString "") = true
  /\ jsonquery JNull (call "not" [JString ""]) = Ret (Some (JBool true))
  /\ jsonquery JNull (call "not" [JString ""]) <> Ret (Some (JBool false))
  /\ jsonquery JNull (call "and" [JString ""; JBool true])
     = Ret (Some (JBool false)).
Proof. repeat split; vm_compute; first [reflexivity | discriminate]. Qed.

(** The evaluator [buildFunction] makes for two arguments. *)
Lemma compile_binary name fn f qa qb ea eb :
  props_get name function_names = Some fn ->
  (forall args, functions compile fn args = buildFunction compile f args) ->
  compile qa = Ret ea -> compile qb = Ret eb ->
  compile (call name [qa; qb])
  = Ret (fun data => let* a := ea data in let* b := eb data in f [a; b]).
Proof.
  intros Hn Hf Ha Hb.
  change (compile (call name [qa; qb]))
    with (match props_get name function_names with
          | Some fn => functions compile fn [qa; qb]
          | None => Throw (unknown_function name)
          end).
  rewrite Hn, Hf. unfold buildFunction. simpl. by rewrite Ha, Hb.
Qed.

Lemma compile_unary name fn f qa ea :
  props_get name function_names = Some fn ->
  (forall args, functions compile fn args = buildFunction compile f args) ->
  compile qa = Ret ea ->
  compile (call name [qa]) = Ret (fun data => let* a := ea data in f [a]).
Proof.
  intros Hn Hf Ha.
  change (compile (call name [qa]))
    with (match props_get name function_names with
          | Some fn => functions compile fn [qa]
          | None => Throw (unknown_function name)
          end).
  rewrite Hn, Hf. unfold buildFunction. simpl. by rewrite Ha.
Qed.

(** C4, amended.  [and], [or] and [not] evaluate their arguments, both of
    them, and answer a boolean by JavaScript's [ToBoolean]: a value counts
    as false iff it is [undefined], [null], [false], [+0], [-0], [NaN] or
    the empty string; empty arrays and objects count as true.  So
    [and("", v)] is [false] for every [v] and [not("")] is [true]. *)
Theorem logic_uses_ToBoolean qa qb ea eb data h a h1 b h2 :
  compile qa = Ret ea -> compile qb = Ret eb ->
  ea data h = (Ret a, h1) -> eb data h1 = (Ret b, h2) ->
  (exists ev, compile (call "and" [qa; qb]) = Ret ev
              /\ ev data h = (Ret (VBool (ToBoolean a && ToBoolean b)), h2))
  /\ (exists ev, compile (call "or" [qa; qb]) = Ret ev
                 /\ ev data h = (Ret (VBool (ToBoolean a || ToBoolean b)), h2))
  /\ (exists ev, compile (call "not" [qa]) = Ret ev
                 /\ ev data h = (Ret (VBool (negb (ToBoolean a))), h1))
  /\ (ToBoolean a = false <-> falsy a)
  /\ (forall l, ToBoolean (VRef l) = true)
  /\ and_fn [VString ""; b] h2 = (Ret (VBool false), h2)
  /\ not_fn [VString ""] h2 = (Ret (VBool true), h2).
Proof.
  intros Ha Hb Ea Eb. repeat split.
  - eexists. split.
    + by apply (compile_binary "and" Fand and_fn qa qb ea eb).
    + unfold bind. rewrite Ea, Eb. unfold and_fn, js_and, arg_at, ret. simpl.
      by destruct (ToBoolean a) eqn:E; simpl; rewrite ?E.
  - eexists. split.
    + by apply (compile_binary "or" For or_fn qa qb ea eb).
    + unfold bind. rewrite Ea, Eb. unfold or_fn, js_or, arg_at, ret. simpl.
      by destruct (ToBoolean a) eqn:E; simpl; rewrite ?E.
  - eexists. split.
    + by apply (compile_unary "not" Fnot not_fn qa ea).
    + unfold bind. by rewrite Ea.
  - apply ToBoolean_false.
  - apply ToBoolean_false.
Qed.

Lemma logic_uses_ToBoolean_witness :
  compile (JString "") = Ret (const_evaluator (VString ""))
  /\ compile (JBool true) = Ret (const_evaluator (VBool true))
  /\ const_evaluator (VString "") VNull [] = (Ret (VString ""), [])
  /\ const_evaluator (VBool true) VNull [] = (Ret (VBool true), [])
  /\ ((exists ev, compile (call "and" [JString ""; JBool true]) = Ret ev
                  /\ ev VNull []
                     = (Ret (VBool (ToBoolean (VString "")
                                    && ToBoolean (VBool true))), []))
      /\ (exists ev, compile (call "or" [JString ""; JBool true]) = Ret ev
                     /\ ev VNull []
                        = (Ret (VBool (ToBoolean (VString "")
                                       || ToBoolean (VBool true))), []))
      /\ (exists ev, compile (call "not" [JString ""]) = Ret ev
                     /\ ev VNull []
                        = (Ret (VBool (negb (ToBoolean (VString "")))), []))
      /\ (ToBoolean (VString "") = false <-> falsy (VString ""))
      /\ (forall l, ToBoolean (VRef l) = true)
      /\ and_fn [VString ""; VBool true] [] = (Ret (VBool false), [])
      /\ not_fn [VString ""] [] = (Ret (VBool true), [])).
Proof.
  repeat (split; [reflexivity|]).
  apply (logic_uses_ToBoolean (JString "") (JBool true)
           (const_evaluator (VString "")) (const_evaluator (VBool true))
           VNull [] (VString "") [] (VBool true) []); reflexivity.
Defined.

(** ** Equality: [===] and [SameValueZero] *)

Lemma number_eqb_true x y :
  Num.eqb x y = true <-> (x = y /\ x <> NaN) \/ (is_zero x = true /\ is_zero y = true).
Proof.
  unfold Num.eqb, SFeqb, NaN.
  destruct x as [sx|sx| |sx mx ex], y as [sy|sy| |sy my ey]; simpl;
    try (split; [discriminate | intros [[? ?]|[? ?]]; congruence]);
    try (split; [intros _; by right | done]).
  all: try (destruct sx; (split; [discriminate | intros [[? ?]|[? ?]]; congruence])).
  all: try (destruct sy; (split; [discriminate | intros [[? ?]|[? ?]]; congruence])).
  - destruct sx, sy; simpl;
      (split; [try discriminate; intros _; left; by split
              | intros [[? ?]|[? ?]]; congruence]).
  - change (Pos.compare_cont Eq mx my) with (Pos.compare mx my).
    destruct (Z.compare_spec ex ey) as [->|Hlt|Hgt];
      destruct (Pos.compare_spec mx my) as [->|Hm|Hm];
      destruct sx, sy; simpl;
      (split; [try discriminate; intros _; left; by split
              | intros [[H ?]|[? ?]]; try discriminate; try reflexivity;
                injection H; intros; subst; lia]).
Qed.

Lemma number_eqb_nan x : Num.eqb NaN x = false /\ Num.eqb x NaN = false.
Proof. by destruct x as [| | |[]]. Qed.

Lemma norm_zero_idem v : norm_zero (norm_zero v) = norm_zero v.
Proof. by destruct v as [| | | [] | |]. Qed.

(** [SameValueZero] is equality up to the sign of zero; [NaN] equals itself. *)
Lemma SameValueZero_norm a b :
  SameValueZero a b = true <-> norm_zero a = norm_zero b.
Proof.
  destruct a as [| |x|x|x|x], b as [| |y|y|y|y]; simpl; try done;
    try (destruct x as [| | |]; done); try (destruct y as [| | |]; done).
  - destruct x, y; simpl; split; congruence.
  - rewrite orb_true_iff, andb_true_iff, number_eqb_true.
    split.
    + intros [[Hx Hy]|[[-> _]|[Hx Hy]]]; [| done |].
      * destruct x, y; done.
      * destruct x, y; done.
    + intros H. destruct x as [| | |], y as [| | |]; simpl in *;
        try discriminate; try (right; right; by split);
        try (left; by split); injection H; intros; subst;
        right; left; by split.
  - rewrite String.eqb_eq. split; congruence.
  - rewrite Nat.eqb_eq. split; congruence.
Qed.

Lemma SameValueZero_refl a : SameValueZero a a = true.
Proof. by apply SameValueZero_norm. Qed.

Lemma SameValueZero_sym a b : SameValueZero a b = SameValueZero b a.
Proof.
  destruct (SameValueZero a b) eqn:E1, (SameValueZero b a) eqn:E2; try done.
  - apply SameValueZero_norm in E1. symmetry in E1.
    apply SameValueZero_norm in E1. congruence.
  - apply SameValueZero_norm in E2. symmetry in E2.
    apply SameValueZero_norm in E2. congruence.
Qed.

Lemma SameValueZero_trans a b c :
  SameValueZero a b = true -> SameValueZero b c = true ->
  SameValueZero a c = true.
Proof. rewrite !SameValueZero_norm. congruence. Qed.

Lemma Set_add_norm seen v :
  Set_add seen v
  = if existsb (SameValueZero (norm_zero v)) seen then seen
    else (seen ++ [norm_zero v])%list.
Proof. by destruct v as [| | | [[]| | |] | |]. Qed.

Lemma filter_filter_imp {A} (f g : A -> bool) l :
  (forall y, f y = true -> g y = true) ->
  List.filter f (List.filter g l) = List.filter f l.
Proof.
  intros H. induction l as [|y l IH]; simpl; [done|].
  destruct (g y) eqn:Eg; simpl.
  - destruct (f y); by rewrite IH.
  - destruct (f y) eqn:Ef; [|done]. apply H in Ef. congruence.
Qed.

Lemma filter_filter_and {A} (f g : A -> bool) l :
  List.filter f (List.filter g l) = List.filter (fun y => g y && f y) l.
Proof.
  induction l as [|y l IH]; simpl; [done|].
  destruct (g y); simpl; [|done]. destruct (f y); by rewrite IH.
Qed.

Lemma Set_fold seen l :
  fold_left Set_add l seen
  = (seen ++ List.filter (unseen seen) (Set_from l))%list.
Proof.
  unfold Set_from. revert seen. induction l as [|x l IH]; intros seen; simpl.
  - by rewrite app_nil_r.
  - rewrite (IH (Set_add [] x)), IH. rewrite !Set_add_norm. simpl.
    set (v := norm_zero x).
    destruct (existsb (SameValueZero v) seen) eqn:E.
    + replace (unseen seen v) with false by (unfold unseen; by rewrite E).
      rewrite filter_filter_imp; [done|].
      intros y Hy. unfold unseen in *. simpl. rewrite orb_false_r.
      destruct (SameValueZero y v) eqn:Eyv; [|done].
      apply negb_true_iff in Hy. exfalso.
      apply existsb_exists in E as (a & Ha & Eva).
      assert (existsb (SameValueZero y) seen = true); [|congruence].
      apply existsb_exists. exists a. split; [done|].
      by eapply SameValueZero_trans.
    + replace (unseen seen v) with true by (unfold unseen; by rewrite E).
      rewrite <- app_assoc. simpl. do 2 f_equal.
      rewrite filter_filter_and. apply filter_ext. intros y.
      unfold unseen. rewrite existsb_app. simpl.
      rewrite orb_false_r, negb_orb. apply andb_comm.
Qed.

(** [Set_from] by recursion on the list: the head, then the first
    occurrences of the tail that differ from it. *)
Lemma Set_from_cons x l :
  Set_from (x :: l)
  = norm_zero x
      :: List.filter (fun y => negb (SameValueZero y (norm_zero x)))
           (Set_from l).
Proof.
  unfold Set_from at 1. simpl. rewrite Set_fold, Set_add_norm. simpl.
  f_equal. apply filter_ext. intros y. unfold unseen. simpl.
  by rewrite orb_false_r.
Qed.

Lemma Set_from_normal l : Forall (fun y => norm_zero y = y) (Set_from l).
Proof.
  induction l as [|x l IH]; [constructor|].
  rewrite Set_from_cons. constructor; [apply norm_zero_idem|].
  apply List.Forall_forall. intros y Hy. apply filter_In in Hy as [Hy _].
  by apply (proj1 (List.Forall_forall _ _) IH).
Qed.

Lemma Set_from_In l y : In y (Set_from l) <-> In y (map norm_zero l).
Proof.
  induction l as [|x l IH]; [done|].
  rewrite Set_from_cons. simpl. rewrite filter_In, IH. split.
  - intros [?|[? _]]; eauto.
  - intros [?|H]; [by left|].
    destruct (SameValueZero y (norm_zero x)) eqn:E; [|by right].
    left. apply SameValueZero_norm in E. rewrite norm_zero_idem in E.
    apply in_map_iff in H as (z & <- & _). by rewrite norm_zero_idem in E.
Qed.

Lemma Set_from_NoDup l : List.NoDup (Set_from l).
Proof.
  induction l as [|x l IH]; [constructor|].
  rewrite Set_from_cons. constructor.
  - rewrite filter_In. intros [_ H]. by rewrite SameValueZero_refl in H.
  - by apply List.NoDup_filter.
Qed.

Lemma IsStrictlyEqual_true a b :
  IsStrictlyEqual a b = true <-> strictly_equal a b.
Proof.
  destruct a as [| |x|x|x|x], b as [| |y|y|y|y]; simpl; try done.
  - destruct x, y; simpl; split; congruence.
  - apply number_eqb_true.
  - rewrite String.eqb_eq. split; congruence.
  - rewrite Nat.eqb_eq. split; congruence.
Qed.

(** C3, the claim at two equal arrays: [.a] and [.b] stand for the same
    document, yet [eq] answers [false] and [in] does not find [.a] in a
    list that holds an equal array; and [in] finds [NaN] in a list that holds
    [NaN]. *)
Lemma equal_arrays_are_not_eq :
  jsonquery C3_data (get_ ["a"]) = jsonquery C3_data (get_ ["b"])
  /\ jsonquery C3_data (call "eq" [get_ ["a"]; get_ ["b"]])
     = Ret (Some (JBool false))
  /\ jsonquery C3_data (call "in" [get_ ["a"]; get_ ["list"]])
     = Ret (Some (JBool false))
  /\ jsonquery C3_data (call "in" [JNumber NaN; get_ ["nan"]])
     = Ret (Some (JBool true)).
Proof. repeat split; vm_compute; reflexivity. Qed.

Lemma compile_in qa qb ea eb :
  compile qa = Ret ea -> compile qb = Ret eb ->
  exists ev, compile (call "in" [qa; qb]) = Ret ev
    /\ forall data h l hv x hx items,
         eb data h = (Ret (VRef l), hv) -> ea data hv = (Ret x, hx) ->
         hx !! l = Some (CArray items) ->
         ev data h
         = (Ret (VBool (existsb (fun e => SameValueZero e x) items)), hx).
Proof.
  intros Ha Hb. eexists. split.
  - change (compile (call "in" [qa; qb])) with (functions_in compile [qa; qb]).
    unfold functions_in. simpl. rewrite Ha, Hb. reflexivity.
  - intros data h l hv x hx items Ev Ex Hl. simpl.
    unfold bind at 1. rewrite Ev. simpl. unfold bind at 1. rewrite Ex.
    unfold bind, read, lift. by rewrite Hl.
Qed.

(** C3, amended.  [eq] and [ne] are JavaScript's [===] and [!==]: [NaN]
    equals no value, primitives are equal when they are the same value (the
    two zeros are equal), and two arrays or two objects are equal iff they
    are the same array or object; their contents are not compared.  [in]
    compares with [SameValueZero]: as [===], except that [NaN] is found in a
    list that holds [NaN]. *)
Theorem equality_is_strict qa qb ea eb data h a h1 b h2 :
  compile qa = Ret ea -> compile qb = Ret eb ->
  ea data h = (Ret a, h1) -> eb data h1 = (Ret b, h2) ->
  (exists ev, compile (call "eq" [qa; qb]) = Ret ev
              /\ ev data h = (Ret (VBool (IsStrictlyEqual a b)), h2))
  /\ (exists ev, compile (call "ne" [qa; qb]) = Ret ev
                 /\ ev data h = (Ret (VBool (negb (IsStrictlyEqual a b))), h2))
  /\ (IsStrictlyEqual a b = true <-> strictly_equal a b)
  /\ IsStrictlyEqual (VNumber NaN) b = false
  /\ IsStrictlyEqual a (VNumber NaN) = false
  /\ (forall l l', IsStrictlyEqual (VRef l) (VRef l') = true <-> l = l')
  /\ (exists ev, compile (call "in" [qa; qb]) = Ret ev
        /\ forall l hv x hx items,
             eb data h = (Ret (VRef l), hv) -> ea data hv = (Ret x, hx) ->
             hx !! l = Some (CArray items) ->
             ev data h
             = (Ret (VBool (existsb (fun e => SameValueZero e x) items)), hx))
  /\ (forall e x, SameValueZero e x = true <-> norm_zero e = norm_zero x)
  /\ SameValueZero (VNumber NaN) (VNumber NaN) = true.
Proof.
  intros Ha Hb Ea Eb. repeat split.
  - eexists. split.
    + by apply (compile_binary "eq" Feq eq_fn qa qb ea eb).
    + unfold bind. by rewrite Ea, Eb.
  - eexists. split.
    + by apply (compile_binary "ne" Fne ne_fn qa qb ea eb).
    + unfold bind. by rewrite Ea, Eb.
  - apply IsStrictlyEqual_true.
  - apply IsStrictlyEqual_true.
  - by destruct b.
  - by destruct a as [| | |[]| |].
  - simpl. by rewrite Nat.eqb_eq.
  - simpl. by rewrite Nat.eqb_eq.
  - destruct (compile_in qa qb ea eb Ha Hb) as (ev & Hev & Hin).
    exists ev. split; [done|]. intros. by eapply Hin.
  - apply SameValueZero_norm.
  - apply SameValueZero_norm.
Qed.

Lemma equality_is_strict_witness :
  compile (JNumber (of_Z 0)) = Ret (built (compile (JNumber (of_Z 0))))
  /\ compile (JNumber (of_Z 1)) = Ret (built (compile (JNumber (of_Z 1))))
  /\ built (compile (JNumber (of_Z 0))) VNull C3_store
     = (Ret (VNumber (of_Z 0)), C3_store)
  /\ built (compile (JNumber (of_Z 1))) VNull C3_store
     = (Ret (VNumber (of_Z 1)), C3_store)
  /\ (exists ev, compile (call "eq" [JNumber (of_Z 0); JNumber (of_Z 1)]) = Ret ev
                 /\ ev VNull C3_store = (Ret (VBool false), C3_store))
  /\ (IsStrictlyEqual (VRef 0) (VRef 1) = true <-> 0 = 1)
  /\ dump C3_store (VRef 0) = dump C3_store (VRef 1).
Proof.
  repeat (split; [reflexivity|]).
  destruct (equality_is_strict (JNumber (of_Z 0)) (JNumber (of_Z 1))
              (built (compile (JNumber (of_Z 0))))
              (built (compile (JNumber (of_Z 1))))
              VNull C3_store (VNumber (of_Z 0)) C3_store (VNumber (of_Z 1))
              C3_store eq_refl eq_refl eq_refl eq_refl)
    as (H1 & _ & _ & _ & _ & H2 & _).
  split; [exact H1|]. split; [apply H2 | reflexivity].
Defined.

(** ** [uniq] *)

(** C10.  [uniq] uses a [Set]: on an array it returns a fresh array with
    the first occurrence of every element under [SameValueZero], in the order
    of the input.  Elements are the same when they are the same primitive
    ([NaN] being the same as [NaN], [-0] the same as [+0] and stored as
    [+0]) or the same reference: two different arrays or objects are both
    kept, whatever they contain, and all the [NaN]s leave one. *)
Theorem uniq_keeps_first_occurrences args ev h l items :
  functions_uniq args = Ret ev ->
  h !! l = Some (CArray items) ->
  ev (VRef l) h = (Ret (VRef (length h)), (h ++ [CArray (Set_from items)])%list)
  /\ Set_from [] = []
  /\ (forall x r,
        Set_from (x :: r)
        = norm_zero x
            :: List.filter (fun y => negb (SameValueZero y (norm_zero x)))
                 (Set_from r))
  /\ (forall y, In y (Set_from items) <-> In y (map norm_zero items))
  /\ (forall i j y z, Set_from items !! i = Some y ->
                      Set_from items !! j = Some z -> i <> j ->
                      SameValueZero y z = false)
  /\ (forall a b, a <> b -> In (VRef a) items -> In (VRef b) items ->
                  In (VRef a) (Set_from items) /\ In (VRef b) (Set_from items))
  /\ (In (VNumber NaN) items ->
      count_occ value_eq_dec (Set_from items) (VNumber NaN) = 1).
Proof.
  intros [= <-] Hl. repeat split.
  - simpl. unfold bind, lift, iterate. rewrite Hl. reflexivity.
  - apply Set_from_cons.
  - apply Set_from_In.
  - apply Set_from_In.
  - intros i j y z Hi Hj Hij.
    destruct (SameValueZero y z) eqn:E; [|done]. exfalso.
    apply SameValueZero_norm in E.
    pose proof (Set_from_normal items) as Hn.
    rewrite List.Forall_forall in Hn.
    rewrite (Hn y), (Hn z) in E
      by (apply list_elem_of_In, list_elem_of_lookup; eauto).
    subst z. apply Hij.
    eapply NoDup_lookup; [|exact Hi|exact Hj].
    apply NoDup_ListNoDup, Set_from_NoDup.
  - apply Set_from_In, in_map_iff. by exists (VRef a).
  - apply Set_from_In, in_map_iff. by exists (VRef b).
  - intros Hnan.
    assert (In (VNumber NaN) (Set_from items)) as Hin.
    { apply Set_from_In, in_map_iff. by exists (VNumber NaN). }
    apply (count_occ_In value_eq_dec) in Hin.
    pose proof (proj1 (List.NoDup_count_occ value_eq_dec _)
                  (Set_from_NoDup items) (VNumber NaN)).
    lia.
Qed.

Lemma uniq_keeps_first_occurrences_witness :
  functions_uniq [] = Ret (built (functions_uniq []))
  /\ C10_store !! 2 = Some (CArray C10_items)
  /\ built (functions_uniq []) (VRef 2) C10_store
     = (Ret (VRef 3), (C10_store ++ [CArray (Set_from C10_items)])%list)
  /\ Set_from C10_items = [VRef 0; VNumber NaN; VRef 1; VNumber zero]
  /\ count_occ value_eq_dec (Set_from C10_items) (VNumber NaN) = 1.
Proof.
  split; [reflexivity|]. split; [reflexivity|].
  destruct (uniq_keeps_first_occurrences [] (built (functions_uniq []))
              C10_store 2 C10_items eq_refl eq_refl)
    as (H1 & _ & _ & _ & _ & _ & H2).
  split; [exact H1|]. split; [reflexivity|]. apply H2. simpl. tauto.
Defined.

(** ** [get] *)

Lemma literal_primitive q v : literal q = Ret v -> is_primitive v = true.
Proof. destruct q; simpl; intros [= <-]; done. Qed.

Lemma ToString_primitive h v :
  is_primitive v = true -> exists s, ToString h v = Ret s.
Proof. destruct v; simpl; try done; eauto. Qed.

(** Reading a member of a value that is neither [undefined] nor [null]
    does not throw. *)
Lemma GetV_no_throw h v k e : nullish v = false -> GetV h v k <> Throw e.
Proof.
  unfold GetV, inherited_member. destruct v; simpl; try done; intros _.
  - by destruct (inherits _ _).
  - by destruct (inherits _ _).
  - destruct (string_own s k); [done|]. by destruct (inherits _ _).
  - destruct (h !! l) as [c|]; [|done].
    destruct (match c with CArray items => _ | CObject props => _ end);
      [done|]. by destruct (inherits _ _).
Qed.

Lemma inherits_builtin c k : builtin_member k = false -> inherits c k = false.
Proof.
  unfold builtin_member, inherits. rewrite !orb_false_iff.
  intros [[[-> Ha] Hs] Hn]. simpl. by destruct c as [[]|[]].
Qed.

(** No built-in member has an array index as its name. *)
Lemma index_not_inherited c k i :
  array_index k = Some i -> inherits c k = false.
Proof.
  intros Hi.
  assert (forall names,
            forallb (fun n => negb (has (array_index n))) names = true ->
            mem k names = false) as H.
  { intros names Hn. destruct (mem k names) eqn:E; [|done].
    unfold mem in E. apply existsb_exists in E as (n & Hin & Hk%String.eqb_eq).
    subst n. rewrite forallb_forall in Hn. specialize (Hn k Hin).
    by rewrite Hi in Hn. }
  unfold inherits.
  rewrite (H object_prototype) by (vm_compute; reflexivity).
  destruct c as [[]|[]]; cbn [orb]; try done;
    apply H; vm_compute; reflexivity.
Qed.

(** In a closed store, a member read from an allocated value is allocated. *)
Lemma GetV_allocated h v k x :
  closed h -> GetV h v k = Ret x -> allocated h x.
Proof.
  intros Hc. unfold GetV, inherited_member.
  destruct v as [| | b | n | s | l]; try done.
  - by destruct (inherits _ _); [|intros [= <-]].
  - by destruct (inherits _ _); [|intros [= <-]].
  - unfold string_own. destruct (array_index k).
    + destruct (nth_error _ _); simpl; [by intros [= <-]|].
      by destruct (inherits _ _); [|intros [= <-]].
    + destruct (k =? "length")%string; [by intros [= <-]|].
      by destruct (inherits _ _); [|intros [= <-]].
  - destruct (h !! l) as [c|] eqn:El; [|done].
    destruct (match c with CArray items => _ | CObject props => _ end)
      as [y|] eqn:Ey.
    + intros [= <-]. destruct c as [items|props].
      * unfold array_own in Ey. destruct (array_index k).
        -- apply nth_error_In in Ey. by apply (Hc l (CArray items)).
        -- destruct (k =? "length")%string; [|done]. by injection Ey as <-.
      * apply (Hc l (CObject props)); [done|]. simpl.
        apply in_map_iff. exists (k, y). split; [done|].
        clear -Ey. induction props as [|[k' v'] props IH]; simpl in *; [done|].
        destruct (String.eqb_spec k' k) as [->|]; [|right; by apply IH].
        injection Ey as ->. by left.
    + by destruct (inherits _ _); [|intros [= <-]].
Qed.

(** A member whose key names no built-in member is read from every
    allocated value that is neither [undefined] nor [null]. *)
Lemma GetV_plain h v k :
  allocated h v -> nullish v = false -> builtin_member k = false ->
  exists x, GetV h v k = Ret x.
Proof.
  intros Ha Hn Hk. unfold GetV.
  destruct v as [| | b | n | s | l]; try done.
  - rewrite inherits_builtin by done. eauto.
  - rewrite inherits_builtin by done. eauto.
  - destruct (string_own s k); [eauto|].
    rewrite inherits_builtin by done. eauto.
  - simpl in Ha. apply lookup_lt_is_Some in Ha as [c ->].
    destruct (match c with CArray items => _ | CObject props => _ end);
      [eauto|]. rewrite inherits_builtin by done. eauto.
Qed.

(** One step of a path leaves the store alone. *)
Lemma optional_index_step h cur prop :
  exists r, optional_index cur prop h = (r, h).
Proof. unfold optional_index, lift. eauto. Qed.

Lemma path_keeps_store h path cur :
  exists r, foldM optional_index cur path h = (r, h).
Proof.
  revert cur. induction path as [|prop path IH]; intros cur; simpl.
  - by eexists.
  - unfold bind, optional_index at 1, lift.
    destruct (if nullish cur then _ else _) as [v|e|w]; eauto.
Qed.

(** Once a step has met [undefined] or [null], the steps that follow answer
    [undefined]. *)
Lemma path_nullish h path cur :
  nullish cur = true ->
  foldM optional_index cur path h
  = (Ret (match path with [] => cur | _ => VUndefined end), h).
Proof.
  revert cur. induction path as [|prop path IH]; intros cur Hc; simpl; [done|].
  unfold bind, optional_index at 1, lift. rewrite Hc.
  rewrite IH by done. by destruct path.
Qed.

(** A path of plain elements is followed to a value, in a closed store. *)
Lemma path_plain h path cur :
  closed h -> allocated h cur -> forallb plain_element path = true ->
  exists v, foldM optional_index cur path h = (Ret v, h) /\ allocated h v.
Proof.
  intros Hc. revert cur. induction path as [|prop path IH]; intros cur Ha Hp;
    simpl.
  - by exists cur.
  - simpl in Hp. apply andb_true_iff in Hp as [Hprop Hp].
    unfold bind, optional_index at 1, lift.
    destruct (nullish cur) eqn:En; [by apply IH|].
    unfold plain_element in Hprop.
    destruct (literal_key prop) as [k| |]; try done. simpl.
    apply negb_true_iff in Hprop.
    destruct (GetV_plain h cur k Ha En Hprop) as [x Hx]. rewrite Hx.
    apply IH; [|done]. by eapply GetV_allocated.
Qed.

(** A path element that cannot be converted to a key makes the step
    throw, on every value that is neither [undefined] nor [null]. *)
Lemma path_throws h prop path cur e :
  nullish cur = false -> literal_key prop = Throw e ->
  foldM optional_index cur (prop :: path) h = (Throw e, h).
Proof.
  intros Hn Hk. simpl. unfold bind, optional_index, lift. by rewrite Hn, Hk.
Qed.

(** [functions.get] always builds, and its three cases are the loop of
    the last one. *)
Lemma get_is_the_loop path :
  exists ev, functions_get path = Ret ev
    /\ forall data h,
         ev data h
         = (let* v := foldM optional_index data path in ret (or_null v)) h.
Proof.
  unfold functions_get. destruct path as [|p [|p' path]];
    (eexists; split; [reflexivity|]); intros data h; try reflexivity.
  simpl. unfold bind. by destruct (optional_index data p h) as [[v|e|w] h'].
Qed.

Lemma get_builds path ev :
  functions_get path = Ret ev ->
  forall data h,
    ev data h
    = (let* v := foldM optional_index data path in ret (or_null v)) h.
Proof.
  intros E. destruct (get_is_the_loop path) as (ev' & E' & H).
  rewrite E in E'. by injection E' as <-.
Qed.

(** [get] leaves the store alone. *)
Lemma get_keeps_store path ev data h :
  functions_get path = Ret ev -> exists r, ev data h = (r, h).
Proof.
  intros E. rewrite (get_builds path ev E). unfold bind.
  destruct (path_keeps_store h path data) as (r & ->).
  destruct r; eauto.
Qed.

(** [get] with plain path elements returns a value. *)
Lemma get_plain path ev data h :
  functions_get path = Ret ev ->
  closed h -> allocated h data -> forallb plain_element path = true ->
  exists v, ev data h = (Ret v, h) /\ allocated h v.
Proof.
  intros E Hc Ha Hp. rewrite (get_builds path ev E). unfold bind.
  destruct (path_plain h path data Hc Ha Hp) as (v & -> & Hv).
  exists (or_null v). split; [done|]. by destruct v.
Qed.

(** C5, the claim at a String and at an Array: the step on a value that is
    not an Object, with a key that is not an index, answers the length, not
    Null; and a String is indexed by position.  A path element that is an
    object with a property [toString] makes [get] throw. *)
Lemma get_length_is_not_null :
  jsonquery (JString "abc") (get_ ["length"]) = Ret (Some (N_ 3))
  /\ jsonquery (JString "abc") (get_ ["length"]) <> Ret (Some JNull)
  /\ jsonquery (JArray [JNull; JNull]) (get_ ["length"]) = Ret (Some (N_ 2))
  /\ jsonquery (JString "abc") (call "get" [N_ 0]) = Ret (Some (JString "a"))
  /\ jsonquery (JObject [])
       (call "get" [JObject [("toString", N_ 1)]])
     = Throw cannot_convert.
Proof. repeat split; vm_compute; first [reflexivity | discriminate]. Qed.

(** C5, amended.  [get] always builds, and its evaluator leaves the store
    alone.  With zero keys it returns the input, or Null for [undefined]
    and [null]; each step on [undefined] or [null] yields [undefined], so
    do all the steps after it, and the result is then Null.  A step on
    any other value converts the path element to a key and reads the
    member of that name: an own key of an Object, an index or [length] of
    an Array, an index or [length] of a String.  A member that is absent,
    on an Object, an Array, a String, a Number or a Boolean, yields
    [undefined], and Null in the end, unless the key names a member
    inherited from a built-in prototype ([toString], ...), whose value is
    not JSON data.  [get] does throw: a path element that is an object
    with an own property [toString] cannot be converted to a key, and the
    step throws a TypeError on every value that is neither [undefined] nor
    [null].  When the path elements convert to keys that name no built-in
    member, [get] returns a value on every input. *)
Theorem get_propagates_null path data h :
  closed h -> allocated h data ->
  exists ev,
    functions_get path = Ret ev
    /\ (exists r, ev data h = (r, h))
    /\ (path = [] -> ev data h = (Ret (or_null data), h))
    /\ (nullish data = true -> ev data h = (Ret VNull, h))
    /\ ev data h
       = (let* v := foldM optional_index data path in ret (or_null v)) h
    /\ (forall cur, nullish cur = true ->
          foldM optional_index cur path h
          = (Ret (match path with [] => cur | _ => VUndefined end), h))
    /\ (forall cur prop rest,
          nullish cur = false ->
          foldM optional_index cur (prop :: rest) h
          = (let* v := lift (fun h => let? k := literal_key prop in
                                      GetV h cur k) in
             foldM optional_index v rest) h)
    /\ (forallb plain_element path = true ->
          exists v, ev data h = (Ret v, h) /\ allocated h v)
    /\ (forall entries x rest,
          props_get "toString" entries = Some x -> nullish data = false ->
          exists evt,
            functions_get (JObject entries :: rest) = Ret evt
            /\ evt data h = (Throw cannot_convert, h))
    /\ (forall l props k,
          h !! l = Some (CObject props) ->
          GetV h (VRef l) k
          = match props_get k props with
            | Some v => Ret v
            | None => if mem k object_prototype then inherited_member
                      else Ret VUndefined
            end)
    /\ (forall l items k,
          h !! l = Some (CArray items) ->
          GetV h (VRef l) k
          = match array_index k with
            | Some i =>
                match nth_error items (Z.to_nat i) with
                | Some v => Ret v
                | None => Ret VUndefined
                end
            | None =>
                if (k =? "length")%string then Ret (len_value items)
                else if mem k object_prototype || mem k array_prototype
                     then inherited_member
                     else Ret VUndefined
            end)
    /\ (forall s k,
          GetV h (VString s) k
          = match array_index k with
            | Some i =>
                match nth_error (chars s) (Z.to_nat i) with
                | Some c => Ret (VString c)
                | None => Ret VUndefined
                end
            | None =>
                if (k =? "length")%string then Ret (len_value (chars s))
                else if mem k object_prototype || mem k string_prototype
                     then inherited_member
                     else Ret VUndefined
            end)
    /\ (forall x k,
          GetV h (VNumber x) k
          = if mem k object_prototype || mem k number_prototype
            then inherited_member else Ret VUndefined)
    /\ (forall b k,
          GetV h (VBool b) k
          = if mem k object_prototype then inherited_member
            else Ret VUndefined)
    /\ (forall k, nullish data = false -> GetV h data k = Ret VUndefined ->
          built (functions_get [JString k]) data h = (Ret VNull, h)).
Proof.
  intros Hc Ha. destruct (get_is_the_loop path) as (ev & E & Hev).
  exists ev. split; [done|].
  split; [by apply (get_keeps_store path)|].
  split.
  { intros ->. by rewrite Hev. }
  split.
  { intros Hn. rewrite Hev. unfold bind. rewrite path_nullish by done.
    destruct path; [|done]. unfold ret, or_null. by rewrite Hn. }
  split; [apply Hev|].
  split; [intros cur; apply path_nullish|].
  split.
  { intros cur prop rest Hn. simpl. unfold bind, optional_index, lift.
    by rewrite Hn. }
  split; [by apply (get_plain path)|].
  split.
  { intros entries x rest Hx Hn.
    destruct (get_is_the_loop (JObject entries :: rest)) as (evt & Et & Ht).
    exists evt. split; [done|]. rewrite Ht. unfold bind.
    rewrite (path_throws h (JObject entries) rest data cannot_convert);
      [done|done|]. simpl. by rewrite Hx. }
  split.
  { intros l props k Hl. unfold GetV. rewrite Hl.
    destruct (props_get k props); [done|]. unfold inherits.
    by rewrite orb_false_r. }
  split.
  { intros l items k Hl. unfold GetV, array_own. rewrite Hl.
    destruct (array_index k) as [i|] eqn:Ei.
    - destruct (nth_error items (Z.to_nat i)); [done|].
      by rewrite (index_not_inherited _ k i Ei).
    - destruct (k =? "length")%string; [done|]. reflexivity. }
  split.
  { intros s k. unfold GetV, string_own.
    destruct (array_index k) as [i|] eqn:Ei.
    - destruct (nth_error (chars s) (Z.to_nat i)); simpl; [done|].
      by rewrite (index_not_inherited _ k i Ei).
    - destruct (k =? "length")%string; [done|]. reflexivity. }
  split; [done|]. split.
  { intros b k. unfold GetV, inherits. by rewrite orb_false_r. }
  intros k Hn Hk. simpl. unfold bind, optional_index, lift. rewrite Hn. simpl.
  by rewrite Hk.
Qed.

Lemma get_propagates_null_witness :
  exists ev,
    functions_get [JString "a"; JString "b"; JString "c"] = Ret ev
    /\ ev (VRef 1) C5_store = (Ret VNull, C5_store).
Proof.
  destruct (get_propagates_null [JString "a"; JString "b"; JString "c"]
              (VRef 1) C5_store) as (ev & E & _ & _ & _ & Hev & _).
  - intros l c v Hl Hv.
    destruct l as [|[|l]]; simpl in Hl; [| |done]; injection Hl as <-;
      simpl in Hv; destruct Hv as [<-|[]]; simpl; lia.
  - simpl. lia.
  - exists ev. split; [exact E|]. rewrite Hev. reflexivity.
Defined.

(** ** [regex] *)




(** ** Ordering: the comparison operators and [sort] *)

Lemma ToNumber_primitive h v :
  is_primitive v = true -> ToNumber h v = Ret (primitive_number v).
Proof. by destruct v. Qed.

Lemma ToPrimitive_primitive h v :
  is_primitive v = true -> ToPrimitive h v = Ret v.
Proof. by destruct v. Qed.

Lemma IsLessThan_primitive h x y LeftFirst :
  is_primitive x = true -> is_primitive y = true ->
  IsLessThan h x y LeftFirst = Ret (primitive_less x y).
Proof.
  intros Hx Hy. unfold IsLessThan.
  rewrite (ToPrimitive_primitive h x Hx), (ToPrimitive_primitive h y Hy).
  destruct LeftFirst; simpl;
    destruct x, y; simpl in *; try done.
Qed.

Lemma insert_sorted_unordered cmp x sorted h :
  x <> VUndefined ->
  match sorted with
  | [] => True
  | y :: _ => y <> VUndefined /\ cmp x y h = (Ret 0%Z, h)
  end ->
  insert_sorted cmp x sorted h = (Ret (x :: sorted), h).
Proof.
  intros Hx. destruct sorted as [|y r]; simpl; [done|]. intros [Hy Hc].
  unfold bind, SortCompare. destruct x; try done; destruct y; try done;
    by rewrite Hc.
Qed.

Lemma sort_list_unordered cmp l h :
  Forall (fun x => x <> VUndefined) l ->
  (forall x y, In x l -> In y l -> cmp x y h = (Ret 0%Z, h)) ->
  sort_list cmp l h = (Ret l, h).
Proof.
  intros Hu. induction Hu as [|x l Hx Hu IH]; intros Hc; simpl; [done|].
  unfold bind. rewrite IH by (intros; apply Hc; by right).
  apply insert_sorted_unordered; [done|].
  destruct Hu as [|y l Hy Hu]; [done|]. split; [done|].
  apply Hc; [by left | right; by left].
Qed.

(** C7, the claim at mixed and composite operands: [1 < "2"] and
    [null < 1] hold, two objects are [<=] each other, and [sort] moves the
    String ["1"] before the Number 2. *)
Lemma mixed_operands_are_compared :
  jsonquery JNull (call "lt" [N_ 1; JString "2"]) = Ret (Some (JBool true))
  /\ jsonquery JNull (call "lt" [JNull; N_ 1]) = Ret (Some (JBool true))
  /\ jsonquery JNull (call "lte" [JObject []; JObject []])
     = Ret (Some (JBool true))
  /\ jsonquery (JArray [N_ 2; JString "1"]) (call "sort" [])
     = Ret (Some (JArray [JString "1"; N_ 2])).
Proof. repeat split; vm_compute; reflexivity. Qed.

Lemma sort_copy h l items :
  h !! l = Some (CArray items) ->
  js_slice "data.slice" (VRef l) (ret (VUndefined, VUndefined)) h
  = (Ret (VRef (length h)), (h ++ [CArray items])%list).
Proof.
  intros Hl. unfold js_slice. simpl. unfold bind, ret, read, lift.
  rewrite Hl. simpl. unfold alloc_array, alloc, slice_list. simpl.
  replace (relative_index 0 (Z.of_nat (length items))) with 0%Z
    by (unfold relative_index; simpl; lia).
  rewrite Z.sub_0_r, Nat2Z.id. simpl. by rewrite firstn_all.
Qed.

(** ** [round] *)

Lemma In_Z_range lo n k : (lo <= k < lo + Z.of_nat n)%Z -> In k (Z_range lo n).
Proof.
  intros H. unfold Z_range. apply in_map_iff. exists (Z.to_nat (k - lo)).
  split; [lia|]. apply in_seq. lia.
Qed.

Lemma rounds_half_up_checked :
  forallb (fun d => forallb (rounds_half_up d) (Z_range (-300) 601))
    [0; 1; 2]%Z = true.
Proof. vm_compute. reflexivity. Qed.

Lemma round_fn_numbers h x digits :
  round_fn [VNumber x; VNumber digits] h
  = (Ret (VNumber (round_number x digits)), h).
Proof. reflexivity. Qed.

(** [Math.round] at a tie: the integer above, for either sign. *)
Lemma Math_round_tie (s : bool) (m : positive) (e k : Z) :
  (e < 0)%Z ->
  (2 * (if s then - Zpos m else Zpos m) = (2 * k + 1) * 2 ^ (- e))%Z ->
  Math_round (S754_finite s m e)
  = binary_normalize prec emax (k + 1)%Z 0%Z s.
Proof.
  intros He Hk. unfold Math_round.
  replace (0 <=? e)%Z with false by lia.
  set (den := (2 ^ (- e))%Z) in *.
  assert (0 < den)%Z as Hden by (subst den; apply Z.pow_pos_nonneg; lia).
  rewrite Hk.
  replace ((2 * k + 1) * den + den)%Z with ((k + 1) * (2 * den))%Z by lia.
  rewrite Z.div_mul by lia. reflexivity.
Qed.

(** [Math.round] of a number with a fraction: the nearest integer, and of
    the two nearest ones the upper. *)
Lemma Math_round_nearest (s : bool) (m : positive) (e : Z) :
  (e < 0)%Z ->
  let num := (if s then - Zpos m else Zpos m)%Z in
  exists r,
    Math_round (S754_finite s m e) = binary_normalize prec emax r 0%Z s
    /\ ((2 * r - 1) * 2 ^ (- e) <= 2 * num < (2 * r + 1) * 2 ^ (- e))%Z.
Proof.
  intros He num. unfold Math_round.
  replace (0 <=? e)%Z with false by lia.
  set (den := (2 ^ (- e))%Z) in *.
  assert (0 < den)%Z as Hden by (subst den; apply Z.pow_pos_nonneg; lia).
  fold num. exists ((2 * num + den) / (2 * den))%Z. split; [reflexivity|].
  pose proof (Z.div_mod (2 * num + den) (2 * den) ltac:(lia)) as Hdm.
  pose proof (Z.mod_pos_bound (2 * num + den) (2 * den) ltac:(lia)) as Hb.
  nia.
Qed.

(** C6, the claim at [-0.5] and [-2.5]: [round] answers 0 and -2, towards
    +Infinity, where rounding away from zero asks for -1 and -3. *)
Lemma round_of_negative_half_goes_up :
  jsonquery JNull (call "round" [JNumber (decimal (-5) (-1))])
  = Ret (Some (JNumber zero))
  /\ jsonquery JNull (call "round" [JNumber (decimal (-5) (-1))])
     <> Ret (Some (N_ (-1)))
  /\ jsonquery JNull (call "round" [JNumber (decimal (-25) (-1))])
     = Ret (Some (N_ (-2))).
Proof. repeat split; vm_compute; first [reflexivity | discriminate]. Qed.

(** C6, amended.  [round(x, digits)] is [Math.round] of the number that the
    text of [x], the letter [e] and the text of [digits] denote, scaled
    back through the text of the result, [e] and the text of [-digits].
    [Math.round] answers the nearest integer and, of two nearest ones, the
    one towards +Infinity, for either sign: it sends every [k + 1/2] to
    [k + 1].  So [round(0.5) = 1], [round(-0.5) = 0], [round(-2.5) = -2]
    and [round(1.005, 2) = 1.01]; for 0, 1 or 2 digits and every integer
    [k] from -300 to 300, [round] of the number written [k + 1/2] at that
    digit is the number written [k + 1] there.  The rule does not reach
    every number: the text of [5e-7] has an exponent of its own, and
    [round(5e-7, 6)] is [NaN]. *)
Theorem round_is_half_up digits k h :
  (0 <= digits <= 2)%Z -> (-300 <= k <= 300)%Z ->
  round_fn [VNumber (decimal (10 * k + 5) (- digits - 1));
            VNumber (of_Z digits)] h
  = (Ret (VNumber (decimal (k + 1) (- digits))), h)
  /\ (forall x d : number,
        round_fn [VNumber x; VNumber d] h
        = (Ret (VNumber
                  (StringToNumber
                     (Number_toString
                        (Math_round
                           (StringToNumber
                              (Number_toString x ++ "e" ++ Number_toString d)))
                      ++ "e" ++ Number_toString (Num.opp d)))), h))
  /\ (forall (s : bool) (m : positive) (e : Z),
        (e < 0)%Z ->
        exists r,
          Math_round (S754_finite s m e) = binary_normalize prec emax r 0%Z s
          /\ ((2 * r - 1) * 2 ^ (- e)
              <= 2 * (if s then - Zpos m else Zpos m)
              < (2 * r + 1) * 2 ^ (- e))%Z)
  /\ (forall (s : bool) (m : positive) (e : Z),
        (0 <= e)%Z -> Math_round (S754_finite s m e) = S754_finite s m e)
  /\ (forall (s : bool) (m : positive) (e j : Z),
        (e < 0)%Z ->
        (2 * (if s then - Zpos m else Zpos m) = (2 * j + 1) * 2 ^ (- e))%Z ->
        Math_round (S754_finite s m e)
        = binary_normalize prec emax (j + 1)%Z 0%Z s)
  /\ round_number (decimal 5 (-1)) zero = of_Z 1
  /\ round_number (decimal (-5) (-1)) zero = zero
  /\ round_number (decimal (-25) (-1)) zero = of_Z (-2)
  /\ round_number (decimal 1005 (-3)) (of_Z 2) = decimal 101 (-2)
  /\ Number_toString (decimal 5 (-7)) = "5e-7"
  /\ round_number (decimal 5 (-7)) (of_Z 6) = NaN.
Proof.
  intros Hd Hk.
  split; [|split; [done|split; [apply Math_round_nearest|split;
                                 [|split; [apply Math_round_tie|]]]]].
  - pose proof rounds_half_up_checked as H.
    rewrite forallb_forall in H.
    assert (In digits [0; 1; 2]%Z) as Hin by (simpl; lia).
    specialize (H digits Hin). rewrite forallb_forall in H.
    assert (In k (Z_range (-300) 601)) as Hik by (apply In_Z_range; lia).
    specialize (H k Hik).
    unfold rounds_half_up, round_result in H.
    rewrite round_fn_numbers. rewrite round_fn_numbers in H. simpl in H.
    unfold same in H.
    destruct (number_eq_dec _ _) as [->|]; [done | discriminate].
  - intros s m e He. unfold Math_round. by replace (0 <=? e)%Z with true by lia.
  - repeat split; vm_compute; reflexivity.
Qed.

Lemma round_is_half_up_witness :
  (0 <= 0 <= 2)%Z /\ (-300 <= -1 <= 300)%Z
  /\ round_fn [VNumber (decimal (10 * -1 + 5) (- 0 - 1)); VNumber (of_Z 0)] []
     = (Ret (VNumber (decimal (-1 + 1) (- 0))), []).
Proof.
  split; [lia|]. split; [lia|].
  apply (round_is_half_up 0 (-1) []); lia.
Defined.

(** ** Which evaluators return *)

Lemma allocated_mono h h' v :
  allocated h v -> length h <= length h' -> allocated h' v.
Proof. destruct v; simpl; try done. lia. Qed.

Lemma closed_alloc h c :
  closed h -> Forall (allocated h) (cell_values c) -> closed (h ++ [c]).
Proof.
  intros Hc Hv l c' v Hl Hin.
  assert (allocated h v) as Ha.
  { destruct (decide (l < length h)) as [Hlt|Hge].
    - rewrite lookup_app_l in Hl by done. by eapply Hc.
    - rewrite lookup_app_r in Hl by lia.
      destruct (l - length h) as [|n]; simpl in Hl; [|done].
      injection Hl as <-. rewrite List.Forall_forall in Hv. by apply Hv. }
  eapply allocated_mono; [exact Ha|]. rewrite length_app. lia.
Qed.

Lemma closed_write h l c :
  closed h -> Forall (allocated h) (cell_values c) -> closed (<[l := c]> h).
Proof.
  intros Hc Hv l' c' v Hl Hin.
  assert (allocated h v) as Ha.
  { destruct (decide (l' = l)) as [->|Hne].
    - destruct (decide (l < length h)) as [Hlt|Hge].
      + rewrite list_lookup_insert_eq in Hl by done. injection Hl as <-.
        rewrite List.Forall_forall in Hv. by apply Hv.
      + rewrite list_insert_ge in Hl by lia. by eapply Hc.
    - rewrite list_lookup_insert_ne in Hl by done. by eapply Hc. }
  eapply allocated_mono; [exact Ha|]. by rewrite length_insert.
Qed.

Lemma runs_ret {A} h (a : A) (R : heap -> A -> Prop) :
  closed h -> R h a -> runs h (ret a) R.
Proof. intros Hc Hr. by exists a, h. Qed.

Lemma runs_bind {A B} h (m : M A) (f : A -> M B) R R' :
  runs h m R ->
  (forall a h', closed h' -> length h <= length h' -> R h' a ->
     runs h' (f a) R') ->
  runs h (bind m f) R'.
Proof.
  intros (a & h1 & E & Hc & Hl & Hr) Hf.
  destruct (Hf a h1 Hc Hl Hr) as (b & h2 & E2 & Hc2 & Hl2 & Hr2).
  exists b, h2. unfold bind. rewrite E. split; [done|]. split; [done|].
  split; [lia|done].
Qed.

Lemma runs_mapM evs data h :
  Forall returning evs -> closed h -> allocated h data ->
  runs h (mapM (fun ev : Evaluator => ev data) evs)
    (fun h' vs => Forall (allocated h') vs).
Proof.
  intros H. revert h. induction H as [|ev evs Hev _ IH]; intros h Hc Ha;
    simpl.
  - by apply runs_ret.
  - eapply runs_bind; [by apply Hev|]. intros a h1 Hc1 Hl1 Ha1.
    eapply runs_bind.
    { apply IH; [done|]. by eapply allocated_mono. }
    intros vs h2 Hc2 Hl2 Hvs. apply runs_ret; [done|].
    constructor; [by eapply allocated_mono | done].
Qed.

Lemma runs_foldM evs data h :
  Forall returning evs -> closed h -> allocated h data ->
  runs h (foldM (fun data (ev : Evaluator) => ev data) data evs) allocated.
Proof.
  intros H. revert data h.
  induction H as [|ev evs Hev _ IH]; intros data h Hc Ha; simpl.
  - by apply runs_ret.
  - eapply runs_bind; [by apply Hev|]. intros a h1 Hc1 Hl1 Ha1. by apply IH.
Qed.

Lemma runs_alloc_array h vs :
  closed h -> Forall (allocated h) vs -> runs h (alloc_array vs) allocated.
Proof.
  intros Hc Hvs. exists (VRef (length h)), (h ++ [CArray vs])%list.
  split; [done|]. split; [by apply closed_alloc|].
  simpl. rewrite !length_app. simpl. split; lia.
Qed.

Lemma props_set_values k (v : value) ps x :
  In x (map snd (props_set k v ps)) -> x = v \/ In x (map snd ps).
Proof.
  induction ps as [|[k' v'] ps IH]; simpl.
  - intros [<-|[]]. by left.
  - destruct (k' =? k)%string; simpl.
    + intros [<-|H]; [by left | right; by right].
    + intros [<-|H]; [right; by left|].
      destruct (IH H) as [->|H']; [by left | right; by right].
Qed.

(** The loop of [build_object] on the object at [l]. *)
Lemma runs_build_loop getters data l h ps :
  Forall (fun kg : string * Evaluator =>
            fst kg <> "__proto__" /\ returning (snd kg) /\ safe (snd kg))
    getters ->
  closed h -> allocated h data -> h !! l = Some (CObject ps) ->
  runs h
    (forM_ (fun kg : string * Evaluator =>
              let* v := snd kg data in set_property l (fst kg) v) getters)
    (fun h' _ => exists ps', h' !! l = Some (CObject ps')).
Proof.
  intros H. revert h ps.
  induction H as [|[k g] getters (Hk & Hg & Hs) _ IH]; intros h ps Hc Ha Hl;
    simpl in *.
  - apply runs_ret; [done|]. by exists ps.
  - destruct (Hg data h Hc Ha) as (v & h1 & E1 & Hc1 & Hl1 & Hv).
    assert (h1 !! l = Some (CObject ps)) as Hl'.
    { apply lookup_lt_Some in Hl as Hlt.
      destruct (Hs data (S l) h (Ret v) h1 ltac:(lia) E1) as [_ Ht].
      rewrite <- Hl. apply (take_lookup_eq h h1 (S l)); [lia | done]. }
    assert (set_property l k v h1
            = (Ret tt, <[l := CObject (props_set k v ps)]> h1)) as E2.
    { unfold set_property. destruct (String.eqb_spec k "__proto__"); [done|].
      unfold bind, read, lift, write. by rewrite Hl'. }
    assert (closed (<[l := CObject (props_set k v ps)]> h1)) as Hc2.
    { apply closed_write; [done|]. apply List.Forall_forall. intros x Hx.
      simpl in Hx. apply props_set_values in Hx as [->|Hx]; [done|].
      by apply (Hc1 l (CObject ps)). }
    destruct (IH (<[l := CObject (props_set k v ps)]> h1) (props_set k v ps))
      as (u & h3 & E3 & Hc3 & Hl3 & Hr3).
    + done.
    + eapply allocated_mono; [exact Ha|]. rewrite length_insert. lia.
    + apply list_lookup_insert_eq. by apply lookup_lt_Some in Hl'.
    + exists u, h3. unfold bind. rewrite E1, E2. split; [done|].
      split; [done|]. rewrite length_insert in Hl3. split; [lia|done].
Qed.

Lemma runs_build_object getters data h :
  Forall (fun kg : string * Evaluator =>
            fst kg <> "__proto__" /\ returning (snd kg) /\ safe (snd kg))
    getters ->
  closed h -> allocated h data ->
  runs h (build_object getters data) allocated.
Proof.
  intros H Hc Ha. unfold build_object.
  assert (closed (h ++ [CObject []])) as Hc1
    by (apply closed_alloc; [done | constructor]).
  destruct (runs_build_loop getters data (length h) (h ++ [CObject []]) []
              H Hc1) as (u & h2 & E & Hc2 & Hl2 & ps & Hps).
  - eapply allocated_mono; [exact Ha|]. rewrite length_app. lia.
  - by rewrite lookup_app_r, Nat.sub_diag by lia.
  - exists (VRef (length h)), h2. unfold bind at 1, alloc.
    unfold bind at 1. rewrite E.
    split; [done|]. split; [done|]. rewrite length_app in Hl2. simpl in *.
    split; lia.
Qed.

Lemma returning_get path ev :
  forallb plain_element path = true -> functions_get path = Ret ev ->
  returning ev.
Proof.
  intros Hp E data h Hc Ha.
  destruct (get_plain path ev data h E Hc Ha Hp) as (v & Hv & Hav).
  by exists v, h.
Qed.

Lemma HasOwnProperty_returns h v k :
  allocated h v -> exists b, HasOwnProperty h v k = Ret b.
Proof.
  destruct v as [| | | | |l]; simpl; eauto.
  intros [[] ->]%lookup_lt_is_Some; eauto.
Qed.

Lemma returning_exists args ev :
  exists_free args = true -> functions_exists args = Ret ev -> returning ev.
Proof.
  unfold exists_free, functions_exists. cbv zeta.
  destruct args as [|[| | | |queryGet|] args]; try done.
  intros [Hp Hk]%andb_true_iff E. simpl in E. inv_build.
  match goal with H : functions_get _ = Ret _ |- _ =>
    pose proof (returning_get _ _ Hp H) as Hg end.
  intros data h Hc Ha.
  eapply runs_bind; [by apply Hg|]. intros parent h1 Hc1 Hl1 Hp1.
  destruct (ToBoolean parent); [|by apply runs_ret].
  assert (exists k, match last (tl queryGet) with
                    | Some q => literal_key q
                    | None => Ret "undefined"
                    end = Ret k) as [k Ek].
  { destruct (last (tl queryGet)) as [q|]; [|by eexists].
    unfold converts in Hk. destruct (literal_key q); [by eexists|done|done]. }
  destruct (HasOwnProperty_returns h1 parent k Hp1) as [b Eb].
  exists (VBool b), h1. unfold lift. rewrite Ek. simpl. rewrite Eb.
  split; [done|]. split; [done|]. split; [lia|done].
Qed.

Lemma returning_omap_compile args evs :
  Forall compiles_returning args -> omap compile args = Ret evs ->
  Forall returning evs.
Proof.
  intros H. revert evs. induction H as [|a args Ha H IH]; simpl; intros evs E.
  - injection E as <-. constructor.
  - inv_build. constructor; [by apply Ha | by apply IH].
Qed.

Lemma returning_buildFunction (fn : list value -> M value) args ev :
  (forall vs h, closed h -> runs h (fn vs) allocated) ->
  Forall compiles_returning args -> buildFunction compile fn args = Ret ev ->
  returning ev.
Proof.
  intros Hfn H E. unfold buildFunction in E. inv_build.
  pose proof (returning_omap_compile _ _ H E0) as Hs.
  intros data h Hc Ha.
  destruct Hs as [|arg0 evs H0 [|arg1 evs' H1 [|arg2 evs'' H2 Hs]]].
  - apply (runs_bind h _ _ (fun _ _ => True)); [by apply runs_ret|].
    intros vs h1 Hc1 _ _. by apply Hfn.
  - eapply runs_bind; [by apply H0|]. intros a h1 Hc1 _ _. by apply Hfn.
  - eapply runs_bind; [by apply H0|]. intros a h1 Hc1 Hl1 _.
    eapply runs_bind.
    { apply H1; [done|]. by eapply allocated_mono. }
    intros b h2 Hc2 _ _. by apply Hfn.
  - eapply runs_bind.
    { apply (runs_mapM (arg0 :: arg1 :: arg2 :: evs'') data h); [|done|done].
      by repeat constructor. }
    intros vs h1 Hc1 _ _. by apply Hfn.
Qed.

Lemma returning_object_entries entries ev :
  Forall (fun kq : string * json =>
            fst kq <> "__proto__" /\ compiles_returning (snd kq)) entries ->
  object_entries compile entries = Ret ev -> returning ev.
Proof.
  intros H E.
  destruct (object_entries_getters compile entries ev E)
    as (getters & -> & _ & Hg).
  intros data h Hc Ha. apply runs_build_object; [|done|done].
  eapply Forall_impl; [exact Hg|]. intros [k g] (q & Hin & Hq). simpl in *.
  rewrite List.Forall_forall in H. destruct (H (k, q) Hin) as [Hk Hr].
  split; [done|]. split; [by apply Hr | by apply (compile_safe q)].
Qed.

Lemma mem_total_functions name :
  mem name total_functions = true ->
  name = "pipe" \/ name = "object" \/ name = "array"
  \/ name = "if" \/ name = "and" \/ name = "or" \/ name = "not"
  \/ name = "eq" \/ name = "ne".
Proof.
  unfold mem, total_functions. simpl. rewrite !orb_true_iff, !String.eqb_eq.
  intuition discriminate.
Qed.

Lemma throw_free_returning q : throw_free q = true -> compiles_returning q.
Proof.
  induction q as [| b | x | s | items IH | entries IH] using json_nested_ind;
    intros Ht ev.
  - intros [= <-] data h Hc Ha. by apply runs_ret.
  - intros [= <-] data h Hc Ha. by apply runs_ret.
  - intros [= <-] data h Hc Ha. by apply runs_ret.
  - intros [= <-] data h Hc Ha. by apply runs_ret.
  - destruct IH as [|[| | | name | |] args _ IH]; try done.
    cbn [throw_free] in Ht.
    destruct (String.eqb_spec name "get") as [->|Hget].
    { by apply returning_get. }
    destruct (String.eqb_spec name "exists") as [->|Hexists].
    { by apply returning_exists. }
    apply andb_true_iff in Ht as [Hn Hargs'].
    assert (Forall compiles_returning args) as Hargs.
    { rewrite forallb_forall in Hargs'. rewrite List.Forall_forall in IH.
      apply List.Forall_forall. intros a Hin. apply IH; [done | by apply Hargs']. }
    clear IH Hargs'.
    apply mem_total_functions in Hn
      as [->|[->|[->|[->|[->|[->|[->|[->| ->]]]]]]]].
    + change (compile (JArray (JString "pipe" :: args)))
        with (functions_pipe compile args).
      unfold functions_pipe. intros E. inv_build.
      pose proof (returning_omap_compile _ _ Hargs E0) as Hs.
      intros data h Hc Ha. by apply runs_foldM.
    + change (compile (JArray (JString "object" :: args)))
        with (functions_object compile args).
      unfold functions_object. destruct Hargs as [|[] args' Ha _]; try done.
      apply Ha.
    + change (compile (JArray (JString "array" :: args)))
        with (functions_array compile args).
      unfold functions_array. intros E. inv_build.
      pose proof (returning_omap_compile _ _ Hargs E0) as Hs.
      intros data h Hc Ha.
      eapply runs_bind; [by apply runs_mapM|]. intros vs h1 Hc1 _ Hvs.
      by apply runs_alloc_array.
    + change (compile (JArray (JString "if" :: args)))
        with (functions_if compile args).
      unfold functions_if. intros E. inv_build.
      assert (returning x /\ returning x0 /\ returning x1) as (H0 & H1 & H2).
      { unfold compile_0, compile_1, compile_2 in *.
        destruct Hargs as [|a0 args0 Ha0 [|a1 args1 Ha1 [|a2 args2 Ha2 _]]];
          repeat match goal with
                 | H : Ret undefined_evaluator = Ret _ |- _ =>
                     injection H as <-
                 end;
          repeat split;
          first [ by apply Ha0 | by apply Ha1 | by apply Ha2
                | intros data h Hc Ha; by apply runs_ret ]. }
      intros data h Hc Ha.
      eapply runs_bind; [by apply H0|]. intros c h1 Hc1 Hl1 _.
      destruct (truthy c); [apply H1 | apply H2]; try done;
        by eapply allocated_mono.
    + apply returning_buildFunction; [|done]. intros vs h Hc.
      by apply runs_ret.
    + apply returning_buildFunction; [|done]. intros vs h Hc.
      by apply runs_ret.
    + apply returning_buildFunction; [|done]. intros vs h Hc.
      by apply runs_ret.
    + apply returning_buildFunction; [|done]. intros vs h Hc.
      by apply runs_ret.
    + apply returning_buildFunction; [|done]. intros vs h Hc.
      by apply runs_ret.
  - apply returning_object_entries. cbn [throw_free] in Ht.
    rewrite forallb_forall in Ht. rewrite List.Forall_forall in IH.
    apply List.Forall_forall. intros kq Hin.
    specialize (Ht kq Hin). apply andb_true_iff in Ht as [Hk Hq].
    split; [|by apply IH].
    intros E. rewrite E in Hk. discriminate.
Qed.

Lemma map_throws_off_arrays qcb ev h v :
  compile (call "map" [qcb]) = Ret ev ->
  isArray h v = false -> allocated h v ->
  exists e, ev v h = (Throw e, h).
Proof.
  change (compile (call "map" [qcb])) with (functions_map compile [qcb]).
  unfold functions_map. intros E. inv_build. intros Hv Ha.
  unfold bind, lift, array_method.
  destruct v as [| | | | |l]; simpl in *; eauto.
  apply lookup_lt_is_Some in Ha as [c Hc]. rewrite Hc in *.
  destruct c; [done | eauto].
Qed.

(** C1, the claim at [map] on a Number, at [sum] on the empty array and at
    [get] with a path element that has a property [toString]: the three
    queries compile, and their evaluators throw a TypeError, the second one
    where the text of the spec documents the result 0. *)
Lemma compiled_evaluators_can_throw :
  (exists ev, compile (call "map" [get_ []]) = Ret ev)
  /\ jsonquery (N_ 5) (call "map" [get_ []])
     = Throw (not_a_function "data.map")
  /\ (exists ev, compile (call "sum" []) = Ret ev)
  /\ jsonquery (JArray []) (call "sum" []) = Throw reduce_of_empty
  /\ (exists ev, compile (call "get" [JObject [("toString", N_ 1)]]) = Ret ev)
  /\ jsonquery (JObject []) (call "get" [JObject [("toString", N_ 1)]])
     = Throw cannot_convert.
Proof.
  split; [by eexists|]. split; [vm_compute; reflexivity|].
  split; [by eexists|]. split; [vm_compute; reflexivity|].
  split; [by eexists|]. vm_compute; reflexivity.
Qed.

(** C1, amended.  Compiled evaluators throw TypeErrors beyond the one of
    [split]: [map] throws on every input that is not an array, [sum] throws
    on the empty array, and [get] throws on every input other than
    [undefined] and [null] when its path element is an object with a
    property [toString].  The evaluators of the queries made only of [get],
    [exists], [pipe], [object], [array], [if], [and], [or], [not], [eq],
    [ne] and literals, in which the path elements convert to keys that
    name no member of a built-in prototype and no key of an object is
    [__proto__], return a value on every input that a store without
    dangling references holds. *)
Theorem throw_free_queries_return_a_value q ev data h :
  throw_free q = true -> compile q = Ret ev ->
  closed h -> allocated h data ->
  (exists v h', ev data h = (Ret v, h') /\ closed h' /\ allocated h' v)
  /\ (forall qcb evm v,
        compile (call "map" [qcb]) = Ret evm ->
        isArray h v = false -> allocated h v ->
        exists e, evm v h = (Throw e, h))
  /\ (forall l, h !! l = Some (CArray []) ->
        exists evs, compile (call "sum" []) = Ret evs
                    /\ evs (VRef l) h = (Throw reduce_of_empty, h))
  /\ (forall entries x,
        props_get "toString" entries = Some x -> nullish data = false ->
        exists evg, compile (call "get" [JObject entries]) = Ret evg
                    /\ evg data h = (Throw cannot_convert, h)).
Proof.
  intros Ht Hq Hc Ha. split; [|split; [|split]].
  - destruct (throw_free_returning q Ht ev Hq data h Hc Ha)
      as (v & h' & E & Hc' & _ & Hv).
    by exists v, h'.
  - intros qcb evm v. apply map_throws_off_arrays.
  - intros l Hl. eexists. split; [reflexivity|].
    unfold reduce, bind, lift, array_method. by rewrite Hl.
  - intros entries x Hx Hn. eexists. split; [reflexivity|].
    simpl. unfold bind, optional_index, lift. rewrite Hn. simpl.
    by rewrite Hx.
Qed.

Lemma throw_free_queries_return_a_value_witness :
  throw_free C1_query = true
  /\ compile C1_query = Ret (built (compile C1_query))
  /\ exists v h',
       built (compile C1_query) (VRef 1) C5_store = (Ret v, h')
       /\ closed h' /\ allocated h' v.
Proof.
  split; [reflexivity|]. split; [reflexivity|].
  apply (throw_free_queries_return_a_value C1_query (built (compile C1_query))
           (VRef 1) C5_store); try reflexivity.
  - intros l c v Hl Hv.
    destruct l as [|[|l]]; simpl in Hl; [| |done]; injection Hl as <-;
      simpl in Hv; destruct Hv as [<-|[]]; simpl; lia.
  - simpl. lia.
Defined.

(** * Further properties of the function builders *)
(** ** [buildFunction] *)

Lemma omap_length {A B} (f : A -> outcome B) l bs :
  omap f l = Ret bs -> length bs = length l.
Proof.
  revert bs. induction l as [|a l IH]; simpl; intros bs H.
  - by injection H as <-.
  - destruct (f a) as [b| |]; simpl in H; try done.
    destruct (omap f l) as [bs'| |]; simpl in H; try done.
    injection H as <-. simpl. f_equal. by apply IH.
Qed.

Lemma buildFunction_general (c : json -> outcome Evaluator) fn args ev :
  buildFunction c fn args = Ret ev ->
  exists evs,
    omap c args = Ret evs
    /\ forall data h,
        ev data h
        = (let* vs := mapM (fun arg : Evaluator => arg data) evs in fn vs) h.
Proof.
  unfold buildFunction. intros H.
  destruct (omap c args) as [evs| |] eqn:E; simpl in H; try done.
  injection H as <-. exists evs. split; [done|].
  intros data h. destruct evs as [|a [|b [|d evs]]]; try reflexivity.
  - simpl. unfold bind, ret. by destruct (a data h) as [[x|e|w] h'].
  - simpl. unfold bind, ret. destruct (a data h) as [[x|e|w] h']; try done.
    by destruct (b data h') as [[y|e|w] h''].
Qed.

Lemma buildFunction_builds (c : json -> outcome Evaluator) fn args evs :
  omap c args = Ret evs -> exists ev, buildFunction c fn args = Ret ev.
Proof. unfold buildFunction. intros ->. simpl. eauto. Qed.

(** X1: the evaluator [buildFunction] makes evaluates every compiled
    argument on the input, from left to right, and applies [fn] to the
    answers; the two branches for one and for two arguments behave as the
    general branch does. *)
Theorem buildFunction_applies_fn_to_all_arguments
  (c : json -> outcome Evaluator) fn args ev :
  buildFunction c fn args = Ret ev ->
  exists evs,
    omap c args = Ret evs /\ length evs = length args
    /\ forall data h,
        ev data h
        = (let* vs := mapM (fun arg : Evaluator => arg data) evs in fn vs) h.
Proof.
  intros H. destruct (buildFunction_general c fn args ev H) as (evs & E & Hev).
  exists evs. split; [done|]. split; [by eapply omap_length | done].
Qed.

Lemma buildFunction_applies_fn_to_all_arguments_witness :
  buildFunction compile eq_fn [get_ ["a"]; N_ 1]
  = Ret (built (buildFunction compile eq_fn [get_ ["a"]; N_ 1]))
  /\ exists evs,
      omap compile [get_ ["a"]; N_ 1] = Ret evs /\ length evs = 2
      /\ forall data h,
          built (buildFunction compile eq_fn [get_ ["a"]; N_ 1]) data h
          = (let* vs := mapM (fun arg : Evaluator => arg data) evs in
             eq_fn vs) h.
Proof.
  split; [reflexivity|].
  exact (buildFunction_applies_fn_to_all_arguments compile eq_fn
           [get_ ["a"]; N_ 1] _ eq_refl).
Defined.

(** ** [pipe] *)

Lemma omap_app {A B} (f : A -> outcome B) l1 l2 bs :
  omap f (l1 ++ l2) = Ret bs ->
  exists b1 b2, omap f l1 = Ret b1 /\ omap f l2 = Ret b2 /\ bs = (b1 ++ b2)%list.
Proof.
  revert bs. induction l1 as [|a l1 IH]; simpl; intros bs H.
  - exists [], bs. by rewrite H.
  - destruct (f a) as [b| |]; simpl in *; try done.
    destruct (omap f (l1 ++ l2)) as [bs'| |] eqn:E; simpl in H; try done.
    injection H as <-. destruct (IH bs' eq_refl) as (b1 & b2 & -> & -> & ->).
    by exists (b :: b1), b2.
Qed.

Lemma foldM_app {A B} (f : B -> A -> M B) b l1 l2 h :
  foldM f b (l1 ++ l2) h = (let* x := foldM f b l1 in foldM f x l2) h.
Proof.
  revert b h. induction l1 as [|a l1 IH]; intros b h; simpl; [done|].
  unfold bind in *. by destruct (f b a h) as [[b'|e|w] h'].
Qed.

(** X2: [pipe] without entries returns its input as it is, and the pipe of
    two lists of entries one after the other is the pipe of the first list
    followed by the pipe of the second. *)
Theorem pipe_composes (c : json -> outcome Evaluator) qs1 qs2 ev :
  functions_pipe c (qs1 ++ qs2) = Ret ev ->
  (forall data h, built (functions_pipe c []) data h = (Ret data, h))
  /\ exists ev1 ev2,
      functions_pipe c qs1 = Ret ev1 /\ functions_pipe c qs2 = Ret ev2
      /\ forall data h, ev data h = (let* x := ev1 data in ev2 x) h.
Proof.
  intros H. split; [done|]. unfold functions_pipe in *.
  destruct (omap c (qs1 ++ qs2)) as [evs| |] eqn:E; simpl in H; try done.
  injection H as <-. apply omap_app in E as (e1 & e2 & -> & -> & ->).
  simpl. do 2 eexists. split; [done|]. split; [done|].
  intros data h. apply foldM_app.
Qed.

Lemma pipe_composes_witness :
  (forall data h, built (functions_pipe compile []) data h = (Ret data, h))
  /\ exists ev1 ev2,
      functions_pipe compile [get_ ["a"]] = Ret ev1
      /\ functions_pipe compile [get_ ["b"]] = Ret ev2
      /\ forall data h,
          built (functions_pipe compile ([get_ ["a"]] ++ [get_ ["b"]])) data h
          = (let* x := ev1 data in ev2 x) h.
Proof.
  exact (pipe_composes compile [get_ ["a"]] [get_ ["b"]] _ eq_refl).
Defined.

(** ** [filter] and [if]: the helper [truthy] *)

Lemma truthy_false x :
  truthy x = false
  <-> x = VNull \/ x = VBool false \/ exists s, x = VNumber (S754_zero s).
Proof.
  split.
  - destruct x as [| |[]|[s|s| |s m e]|s|l]; try done; intros H; eauto;
      by destruct s.
  - intros [->|[->|[s ->]]]; try done; by destruct s.
Qed.

Lemma bind_Ret {A B} (m : M A) (f : A -> M B) h a h' :
  m h = (Ret a, h') -> bind m f h = f a h'.
Proof. unfold bind. by intros ->. Qed.

Lemma filterM_answers (pred : Evaluator) items h rs h1 :
  mapM pred items h = (Ret rs, h1) ->
  filterM (fun item => let* r := pred item in ret (truthy r)) items h
  = (Ret (kept items rs), h1).
Proof.
  revert h rs. induction items as [|a items IH]; simpl; intros h rs H.
  - by injection H as <- <-.
  - unfold bind, ret in H |- *.
    destruct (pred a h) as [[x|e|w] h2] eqn:E; try done.
    destruct (mapM pred items h2) as [[xs|e|w] h3] eqn:E2; try done.
    injection H as <- <-. specialize (IH h2 xs E2). unfold bind, ret in IH.
    rewrite IH. unfold kept. simpl. by destruct (truthy x).
Qed.

(** X3: when the predicate, applied to the items of an array in their
    order, answers [rs], [filter] returns a new array with the items whose
    answer [truthy] accepts, in their order; [truthy] rejects [null],
    [false], [0] and [-0] only, so an item with the answer [undefined],
    [NaN] or the empty string is kept. *)
Theorem filter_keeps_the_truthy_items
  (c : json -> outcome Evaluator) q pred h l items rs h1 :
  c q = Ret pred -> h !! l = Some (CArray items) ->
  mapM pred items h = (Ret rs, h1) ->
  (exists ev,
     functions_filter c [q] = Ret ev
     /\ ev (VRef l) h
        = (Ret (VRef (length h1)), (h1 ++ [CArray (kept items rs)])%list))
  /\ forall r, truthy r = false
       <-> r = VNull \/ r = VBool false \/ exists s, r = VNumber (S754_zero s).
Proof.
  intros Hc Hl Hm. split; [|apply truthy_false].
  unfold functions_filter. simpl. rewrite Hc. simpl.
  eexists. split; [reflexivity|].
  cbv beta. erewrite bind_Ret; [|unfold lift; simpl; by rewrite Hl].
  erewrite bind_Ret; [|by apply filterM_answers]. reflexivity.
Qed.

Lemma filter_keeps_the_truthy_items_witness :
  exists ev,
    functions_filter compile [get_ []] = Ret ev
    /\ ev (VRef 0) sample_array
       = (Ret (VRef 1),
          (sample_array
             ++ [CArray [VNumber (of_Z 1); VString ""; VNumber NaN]])%list).
Proof.
  exact (proj1 (filter_keeps_the_truthy_items compile (get_ [])
                  (built (compile (get_ []))) sample_array 0 sample_items
                  sample_items sample_array eq_refl eq_refl eq_refl)).
Defined.

(** X4: [if] evaluates the condition and then one branch only: the third
    argument when the condition is [null], [false], [0] or [-0], the second
    argument for every other condition, the empty string, [NaN] and
    [undefined] included; the branch that is not chosen is not evaluated. *)
Theorem if_evaluates_one_branch
  (c : json -> outcome Evaluator) qc qt qe ec et ee data h cv h1 :
  c qc = Ret ec -> c qt = Ret et -> c qe = Ret ee ->
  ec data h = (Ret cv, h1) ->
  exists ev,
    functions_if c [qc; qt; qe] = Ret ev
    /\ (cv = VNull \/ cv = VBool false \/ (exists s, cv = VNumber (S754_zero s))
        -> ev data h = ee data h1)
    /\ (~ (cv = VNull \/ cv = VBool false
           \/ exists s, cv = VNumber (S754_zero s))
        -> ev data h = et data h1).
Proof.
  intros Hc Ht He Hcv. unfold functions_if. simpl. rewrite Hc, Ht, He. simpl.
  eexists. split; [reflexivity|]. cbv beta.
  erewrite bind_Ret by exact Hcv. split; intros H.
  - by rewrite (proj2 (truthy_false cv) H).
  - destruct (truthy cv) eqn:E; [done|]. by apply truthy_false in E.
Qed.

Lemma if_evaluates_one_branch_witness :
  exists ev,
    functions_if compile [get_ []; JString "then"; call "sum" []] = Ret ev
    /\ ev (VString "") [] = (Ret (VString "then"), []).
Proof.
  destruct (if_evaluates_one_branch compile (get_ []) (JString "then")
              (call "sum" []) _ _ _ (VString "") [] (VString "") []
              eq_refl eq_refl eq_refl eq_refl)
    as (ev & Hev & _ & H).
  exists ev. split; [exact Hev|]. rewrite H; [done|].
  intros [?|[?|[? ?]]]; done.
Defined.

(** ** [exists] *)

(** X5: on an object, [exists] of a one-key path answers whether the object
    has the key among its own properties, whatever the value; [get] answers
    [null] both for a property that holds [null] and for a key that is
    missing.  On [null], [exists] answers [false]. *)
Theorem exists_tells_null_from_missing q0 k h l props :
  h !! l = Some (CObject props) ->
  exists ev_exists ev_get,
    functions_exists [JArray [q0; JString k]] = Ret ev_exists
    /\ functions_get [JString k] = Ret ev_get
    /\ ev_exists (VRef l) h = (Ret (VBool (has (props_get k props))), h)
    /\ ev_exists VNull h = (Ret (VBool false), h)
    /\ (props_get k props = Some VNull -> ev_get (VRef l) h = (Ret VNull, h))
    /\ (props_get k props = None -> mem k object_prototype = false ->
        ev_get (VRef l) h = (Ret VNull, h)).
Proof.
  intros Hl. do 2 eexists. split; [reflexivity|]. split; [reflexivity|].
  repeat split.
  - cbv beta. unfold bind, ret, lift, ToPropertyKey, ToString. simpl.
    by rewrite Hl.
  - intros Hk. cbv beta. unfold bind, ret, lift, optional_index, ToPropertyKey,
      ToString. simpl. by rewrite Hl, Hk.
  - intros Hk Hm. cbv beta. unfold bind, ret, lift, optional_index,
      ToPropertyKey, ToString. simpl. rewrite Hl, Hk. unfold inherits.
    by rewrite Hm.
Qed.

Lemma exists_tells_null_from_missing_witness :
  exists ev_exists ev_get,
    functions_exists [get_ ["a"]] = Ret ev_exists
    /\ functions_get [JString "a"] = Ret ev_get
    /\ ev_exists (VRef 0) sample_object = (Ret (VBool true), sample_object)
    /\ ev_get (VRef 0) sample_object = (Ret VNull, sample_object).
Proof.
  destruct (exists_tells_null_from_missing (JString "get") "a"
              sample_object 0 _ eq_refl)
    as (e1 & e2 & H1 & H2 & H3 & _ & H4 & _).
  exists e1, e2. repeat split; [exact H1|exact H2|exact H3|].
  by apply H4.
Defined.

Lemma literal_primitive_at i args v :
  literal_at i args = Ret v -> is_primitive v = true.
Proof.
  unfold literal_at. destruct (nth_error args i) as [q|].
  - apply literal_primitive.
  - by intros [= <-].
Qed.

(** ** Integers as numbers *)

Lemma digits2_pos_lower p : (2 ^ (Zpos (digits2_pos p) - 1) <= Zpos p)%Z.
Proof.
  induction p as [p IH|p IH|]; simpl; [| |done].
  - rewrite Pos2Z.inj_succ. replace (Z.succ (Zpos (digits2_pos p)) - 1)%Z
      with (Z.succ (Zpos (digits2_pos p) - 1))%Z by lia.
    rewrite Z.pow_succ_r by lia. lia.
  - rewrite Pos2Z.inj_succ. replace (Z.succ (Zpos (digits2_pos p)) - 1)%Z
      with (Z.succ (Zpos (digits2_pos p) - 1))%Z by lia.
    rewrite Z.pow_succ_r by lia. lia.
Qed.

Lemma digits2_pos_bound p :
  (Zpos p < 2 ^ 53)%Z -> (Zpos (digits2_pos p) <= 53)%Z.
Proof.
  intros H. destruct (Z.le_gt_cases (Zpos (digits2_pos p)) 53) as [|Hgt]; [done|].
  exfalso. pose proof (digits2_pos_lower p) as Hl.
  assert (2 ^ 53 <= 2 ^ (Zpos (digits2_pos p) - 1))%Z
    by (apply Z.pow_le_mono_r; lia).
  lia.
Qed.

Lemma iter_xO_digits p n :
  digits2_pos (Pos.iter xO p n) = (digits2_pos p + n)%positive.
Proof.
  induction n as [|n IH] using Pos.peano_ind.
  - simpl. lia.
  - rewrite Pos.iter_succ. simpl. rewrite IH. lia.
Qed.

Lemma iter_xO_value p n :
  Zpos (Pos.iter xO p n) = (Zpos p * 2 ^ Zpos n)%Z.
Proof.
  induction n as [|n IH] using Pos.peano_ind.
  - simpl. lia.
  - rewrite Pos.iter_succ, Pos2Z.inj_succ, Z.pow_succ_r by lia.
    rewrite Pos2Z.inj_xO, IH. lia.
Qed.

(** The integers below [2^53] are numbers as they stand. *)
Lemma binary_round_integer s p :
  (Zpos p < 2 ^ 53)%Z ->
  exists m e,
    binary_round prec emax s p 0 = S754_finite s m e
    /\ ToIntegerOrInfinity (S754_finite s m e)
       = (if s then Zneg p else Zpos p).
Proof.
  intros Hp. pose proof (digits2_pos_bound p Hp) as Hd.
  unfold binary_round, shl_align.
  assert (fexp prec emax (Zpos (digits2_pos p) + 0)
          = (Zpos (digits2_pos p) - 53)%Z) as ->.
  { unfold fexp, emin, prec, emax. lia. }
  destruct (Zpos (digits2_pos p) - 53 - 0)%Z as [|d|d] eqn:Ed; [|lia|].
  - assert (Zpos (digits2_pos p) = 53%Z) as E53 by lia.
    exists p, 0%Z. split.
    + unfold binary_round_aux, shr_fexp. simpl Zdigits2. rewrite E53.
      change (fexp prec emax (53 + 0) - 0)%Z with 0%Z. simpl. rewrite E53.
      reflexivity.
    + simpl. destruct s; lia.
  - exists (Pos.iter xO p d), (Zpos (digits2_pos p) - 53)%Z. split.
    + unfold binary_round_aux, shr_fexp. simpl Zdigits2.
      rewrite iter_xO_digits.
      assert (fexp prec emax
                (Zpos (digits2_pos p + d) + (Zpos (digits2_pos p) - 53))
              - (Zpos (digits2_pos p) - 53) = 0)%Z as ->.
      { unfold fexp, emin, prec, emax. lia. }
      simpl. rewrite iter_xO_digits.
      assert (fexp prec emax
                (Zpos (digits2_pos p + d) + (Zpos (digits2_pos p) - 53))
              - (Zpos (digits2_pos p) - 53) = 0)%Z as ->.
      { unfold fexp, emin, prec, emax. lia. }
      simpl. unfold prec, emax.
      destruct (Z.leb_spec (Zpos (digits2_pos p) - 53) (1024 - 53)); [done|lia].
    + unfold ToIntegerOrInfinity.
      destruct (Z.leb_spec 0 (Zpos (digits2_pos p) - 53)); [lia|].
      rewrite iter_xO_value.
      replace (- (Zpos (digits2_pos p) - 53))%Z with (Zpos d) by lia.
      rewrite Z.div_mul by (apply Z.pow_nonzero; lia). by destruct s.
Qed.

Lemma of_Z_integer z :
  (- 2 ^ 53 < z < 2 ^ 53)%Z ->
  ToIntegerOrInfinity (of_Z z) = z
  /\ Num.ltb zero (of_Z z) = (0 <? z)%Z
  /\ is_nan (of_Z z) = false.
Proof.
  intros Hz. unfold of_Z, binary_normalize. destruct z as [|p|p].
  - done.
  - destruct (binary_round_integer false p) as (m & e & -> & Hi); [lia|].
    by rewrite Hi.
  - destruct (binary_round_integer true p) as (m & e & -> & Hi); [lia|].
    by rewrite Hi.
Qed.

(** On the numbers that are not [NaN], "not below" is transitive. *)
Lemma ltb_false_trans x y z :
  is_nan x = false -> is_nan y = false -> is_nan z = false ->
  Num.ltb y x = false -> Num.ltb z y = false -> Num.ltb z x = false.
Proof.
  unfold Num.ltb, SFltb.
  destruct x as [[]|[]| |[] m e], y as [[]|[]| |[] m' e'],
    z as [[]|[]| |[] m'' e'']; try done; intros _ _ _; simpl.
  all: repeat match goal with
         | |- context [Pos.compare_cont Eq ?a ?b] =>
             change (Pos.compare_cont Eq a b) with (Pos.compare a b)
         end.
  all: destruct (Z.compare_spec e' e); try done.
  all: destruct (Z.compare_spec e'' e'); try done.
  all: destruct (Z.compare_spec e'' e); try done.
  all: try lia.
  all: simpl.
  all: destruct (Pos.compare_spec m' m); try done.
  all: destruct (Pos.compare_spec m'' m'); try done.
  all: destruct (Pos.compare_spec m'' m); try done.
  all: lia.
Qed.

(** ** [limit] and [substring] *)

Lemma Math_max_zero n :
  Math_max [n; zero]
  = if is_nan n then NaN else if Num.ltb zero n then n else zero.
Proof.
  unfold Math_max. simpl. destruct n as [[]|[]| |[] m e]; reflexivity.
Qed.

Lemma ToIntegerOrInfinity_positive n :
  Num.ltb zero n = true -> (0 <= ToIntegerOrInfinity n)%Z.
Proof.
  destruct n as [[]|[]| |[] m e]; simpl; try done; intros _.
  destruct (Z.leb_spec 0 e).
  - apply Z.mul_nonneg_nonneg; [lia|]. apply Z.pow_nonneg. lia.
  - apply Z.div_pos; [lia|]. apply Z.pow_pos_nonneg; lia.
Qed.

(** The number of items [limit] keeps of [len] items. *)
Lemma limit_slice_bounds n len :
  slice_bounds (Z.of_nat len) zero (Some (Math_max [n; zero]))
  = (0%Z,
     if Num.ltb zero n
     then Z.min (ToIntegerOrInfinity n) (Z.of_nat len) else 0%Z).
Proof.
  rewrite Math_max_zero. unfold slice_bounds, relative_index. simpl.
  destruct (is_nan n) eqn:En.
  - destruct n; try done. simpl. f_equal; lia.
  - destruct (Num.ltb zero n) eqn:E.
    + pose proof (ToIntegerOrInfinity_positive n E).
      destruct (ToIntegerOrInfinity n <? 0)%Z eqn:E0; [lia|]. f_equal; lia.
    + simpl. f_equal; lia.
Qed.

(** X6: on an array, [limit] returns a new array with the first items: as
    many as the integer part of the count when the count is a positive
    number, all of them when that exceeds the length, and none when the
    count is [0], negative, [NaN] or no number at all.  For an integer
    count [z] these are the first [z] items. *)
Theorem limit_keeps_the_first_items args ev count h l items :
  functions_limit args = Ret ev -> literal_at 0 args = Ret count ->
  h !! l = Some (CArray items) ->
  let n := primitive_number count in
  let k := if Num.ltb zero n
           then Z.to_nat (Z.min (ToIntegerOrInfinity n)
                            (Z.of_nat (length items)))
           else 0 in
  ev (VRef l) h = (Ret (VRef (length h)), (h ++ [CArray (firstn k items)])%list)
  /\ forall z, (- 2 ^ 53 < z < 2 ^ 53)%Z -> count = VNumber (of_Z z) ->
       firstn k items = firstn (Z.to_nat z) items.
Proof.
  intros Hev Hc Hl n k. split.
  - unfold functions_limit in Hev. rewrite Hc in Hev.
    simpl in Hev. injection Hev as <-.
    pose proof (literal_primitive_at 0 args count Hc) as Hp.
    unfold js_slice. simpl.
    erewrite bind_Ret;
      [|erewrite bind_Ret; [reflexivity|];
        unfold lift; by rewrite (ToNumber_primitive h count Hp)].
    cbv beta iota. erewrite bind_Ret; [|unfold read, lift; by rewrite Hl].
    cbv beta iota. erewrite bind_Ret;
      [|unfold lift, slice_args; simpl; by rewrite limit_slice_bounds].
    cbv beta iota. unfold alloc_array, alloc, slice_list. simpl.
    subst k n. change (Z.to_nat 0) with 0. rewrite drop_0, Z.sub_0_r.
    by destruct (Num.ltb zero (primitive_number count)).
  - intros z Hz ->. subst k n. simpl primitive_number.
    destruct (of_Z_integer z Hz) as (-> & -> & _).
    destruct (Z.ltb_spec 0 z).
    + destruct (Z.le_gt_cases z (Z.of_nat (length items))).
      * by rewrite Z.min_l.
      * rewrite Z.min_r, Nat2Z.id by lia.
        rewrite !firstn_all2; [done|lia|lia].
    + by replace (Z.to_nat z) with 0 by lia.
Qed.

Lemma limit_keeps_the_first_items_witness :
  exists ev,
    functions_limit [N_ 2] = Ret ev
    /\ ev (VRef 0) sample_array
       = (Ret (VRef 1),
          (sample_array ++ [CArray [VNumber (of_Z 1); VString ""]])%list).
Proof.
  eexists. split; [reflexivity|].
  exact (proj1 (limit_keeps_the_first_items [N_ 2] _ (VNumber (of_Z 2))
                  sample_array 0 sample_items eq_refl eq_refl eq_refl)).
Defined.

(** ** [split] and [join] *)

Lemma append_assoc (a b c : string) :
  ((a ++ b) ++ c)%string = (a ++ (b ++ c))%string.
Proof. induction a; simpl; congruence. Qed.

Lemma length_append (a b : string) :
  String.length (a ++ b) = String.length a + String.length b.
Proof. induction a; simpl; congruence. Qed.

Lemma rev_str_app s acc : rev_str s acc = (rev_str s "" ++ acc)%string.
Proof.
  revert acc. induction s as [|c s IH]; intros acc; simpl; [done|].
  rewrite IH, (IH (String c "")). by rewrite append_assoc.
Qed.

Lemma append_nil_r (s : string) : (s ++ "")%string = s.
Proof. induction s; simpl; congruence. Qed.

Lemma prefix_split p s :
  String.prefix p s = true -> exists r, s = (p ++ r)%string.
Proof.
  revert p. induction s as [|d s IH]; intros [|c p]; simpl; try done.
  - by exists "".
  - by exists (String d s).
  - destruct (Ascii.ascii_dec c d) as [->|]; [|done].
    intros H. destruct (IH p H) as [r ->]. by exists r.
Qed.

Lemma split_aux_nonempty sep s cur skip : split_aux sep s cur skip <> [].
Proof.
  revert cur skip. induction s as [|c s IH]; intros cur skip; [done|].
  cbn [split_aux]. destruct skip; [|apply IH].
  destruct (String.prefix sep (String c s)); [done|apply IH].
Qed.

Lemma join_strings_cons sep x l :
  l <> [] -> join_strings sep (x :: l) = (x ++ sep ++ join_strings sep l)%string.
Proof. by destruct l. Qed.

Lemma split_aux_skip sep pre rest cur :
  split_aux sep (pre ++ rest) cur (String.length pre) = split_aux sep rest cur 0.
Proof. induction pre as [|c pre IH]; simpl; [by destruct rest|done]. Qed.

Lemma join_split_aux sep n :
  sep <> "" ->
  forall s cur, String.length s <= n ->
    join_strings sep (split_aux sep s cur 0) = (rev_str cur "" ++ s)%string.
Proof.
  intros Hsep. induction n as [|n IH]; intros s cur Hn.
  - destruct s; [|simpl in Hn; lia]. simpl. by rewrite append_nil_r.
  - destruct s as [|c s]; [simpl; by rewrite append_nil_r|].
    cbn [split_aux]. destruct (String.prefix sep (String c s)) eqn:Ep.
    + apply prefix_split in Ep as [r Hr].
      destruct sep as [|d sep]; [done|]. simpl in Hr. injection Hr as -> ->.
      replace (String.length (String d sep) - 1) with (String.length sep)
        by (simpl; lia).
      rewrite split_aux_skip.
      rewrite join_strings_cons by apply split_aux_nonempty.
      rewrite IH; [done|]. simpl in Hn. rewrite length_append in Hn. lia.
    + rewrite IH by (simpl in Hn; lia). simpl.
      rewrite (rev_str_app cur). by rewrite append_assoc.
Qed.

Lemma join_chars s : join_strings "" (chars s) = s.
Proof.
  unfold chars. induction s as [|c s IH]; simpl; [done|].
  destruct (map _ (list_ascii_of_string s)) eqn:E.
  - destruct s; [done|discriminate].
  - rewrite <- E in *. simpl. by rewrite IH.
Qed.

(** [join] undoes [split]. *)
Lemma join_split_string s sep : join_strings sep (split_string s sep) = s.
Proof.
  unfold split_string. destruct s as [|c s].
  - by destruct sep.
  - destruct sep as [|d sep]; [apply join_chars|].
    rewrite (join_split_aux (String d sep) _ ltac:(done) (String c s) ""
               (Nat.le_refl _)). reflexivity.
Qed.

Lemma join_items_strings h sep parts :
  join_items h sep (map VString parts) = Ret (join_strings sep parts).
Proof.
  unfold join_items.
  assert (omap (fun x => if nullish x then Ret "" else ToString h x)
            (map VString parts) = Ret parts) as ->; [|done].
  induction parts as [|p parts IH]; simpl; [done|]. by rewrite IH.
Qed.

(** X7: [join] undoes [split]: when the text is a string and the separator
    a string, the parts that [split] returns, joined with the same
    separator, give the text back; this holds for the empty separator and
    for the empty text as well. *)
Theorem join_undoes_split
  (c : json -> outcome Evaluator) qt qs et es sep data h s h1 h2 :
  c qt = Ret et -> c qs = Ret es ->
  et data h = (Ret (VString s), h1) ->
  es data h1 = (Ret (VString sep), h2) ->
  let parts := CArray (map VString (split_string s sep)) in
  exists ev_split ev_join,
    functions c Fsplit [qt; qs] = Ret ev_split
    /\ functions c Fjoin [JString sep] = Ret ev_join
    /\ ev_split data h = (Ret (VRef (length h2)), (h2 ++ [parts])%list)
    /\ ev_join (VRef (length h2)) (h2 ++ [parts])%list
       = (Ret (VString s), (h2 ++ [parts])%list).
Proof.
  intros Ht Hs Het Hes parts. simpl. unfold buildFunction. simpl.
  rewrite Ht, Hs. simpl.
  do 2 eexists. split; [reflexivity|]. split; [reflexivity|]. split.
  - cbv beta. erewrite bind_Ret by exact Het.
    erewrite bind_Ret by exact Hes. reflexivity.
  - cbv beta. erewrite bind_Ret;
      [|unfold lift, array_method;
        by rewrite lookup_app_r, Nat.sub_diag by done].
    unfold lift. simpl. by rewrite join_items_strings, join_split_string.
Qed.

Lemma join_undoes_split_witness :
  let parts := CArray [VString "a"; VString "b,c"] in
  exists ev_split ev_join,
    functions compile Fsplit [get_ []; JString ", "] = Ret ev_split
    /\ functions compile Fjoin [JString ", "] = Ret ev_join
    /\ ev_split (VString "a, b,c") [] = (Ret (VRef 0), [parts])
    /\ ev_join (VRef 0) [parts] = (Ret (VString "a, b,c"), [parts]).
Proof.
  exact (join_undoes_split compile (get_ []) (JString ", ") _ _ ", "
           (VString "a, b,c") [] "a, b,c" [] [] eq_refl eq_refl eq_refl
           eq_refl).
Defined.

(** ** [keys] and [values] *)

Lemma insert_index_Permutation {A} i (kv : string * A) acc :
  Permutation (insert_index i kv acc) ((i, kv) :: acc).
Proof.
  induction acc as [|[j kv'] acc IH]; simpl; [done|].
  destruct (i <? j)%Z; [done|]. rewrite IH. apply perm_swap.
Qed.

Lemma ordered_Permutation {A} (props : list (string * A)) :
  Permutation (ordered props) props.
Proof.
  unfold ordered.
  assert (forall l acc,
            Permutation
              (map snd (fold_left
                          (fun acc kv =>
                             match array_index (fst kv) with
                             | Some i => insert_index i kv acc
                             | None => acc
                             end) l acc))
              (map snd acc ++ List.filter (@is_index A) l)) as Hfold.
  { induction l as [|x l IH]; intros acc; simpl.
    - by rewrite app_nil_r.
    - rewrite IH. unfold is_index at 2.
      destruct (array_index (fst x)) as [i|]; simpl; [|done].
      rewrite insert_index_Permutation. simpl.
      by rewrite Permutation_middle. }
  rewrite Hfold. simpl. clear Hfold.
  induction props as [|x props IH]; simpl; [done|].
  unfold is_index at 1. destruct (array_index (fst x)); simpl.
  - by rewrite IH.
  - rewrite <- Permutation_middle. by rewrite IH.
Qed.

Lemma filter_id {A} (f : A -> bool) l :
  (forall a, In a l -> f a = true) -> List.filter f l = l.
Proof.
  induction l as [|a l IH]; simpl; intros H; [done|].
  rewrite (H a) by (by left). f_equal. apply IH. intros; apply H; by right.
Qed.

Lemma insert_index_map {A B} (f : string * A -> string * B) i kv acc :
  insert_index i (f kv) (map (fun p => (fst p, f (snd p))) acc)
  = map (fun p => (fst p, f (snd p))) (insert_index i kv acc).
Proof.
  induction acc as [|[j kv'] acc IH]; simpl; [done|].
  destruct (i <? j)%Z; simpl; [done|]. by rewrite IH.
Qed.

Lemma ordered_map {A B} (f : string * A -> string * B) props :
  (forall kv, fst (f kv) = fst kv) ->
  ordered (map f props) = map f (ordered props).
Proof.
  intros Hf. unfold ordered. rewrite map_app. f_equal.
  - set (g := fun p : Z * (string * A) => (fst p, f (snd p))).
    assert (forall acc,
              fold_left (fun acc kv =>
                           match array_index (fst kv) with
                           | Some i => insert_index i kv acc
                           | None => acc
                           end) (map f props) (map g acc)
              = map g (fold_left (fun acc kv =>
                                    match array_index (fst kv) with
                                    | Some i => insert_index i kv acc
                                    | None => acc
                                    end) props acc)) as H.
    { induction props as [|kv props IH]; intros acc; simpl; [done|].
      rewrite Hf. destruct (array_index (fst kv)); [|apply IH].
      unfold g at 1. rewrite insert_index_map. apply IH. }
    specialize (H []). simpl in H. rewrite H. unfold g.
    rewrite !map_map. reflexivity.
  - induction props as [|kv props IH]; simpl; [done|].
    rewrite Hf. destruct (array_index (fst kv)); simpl; by rewrite IH.
Qed.

Lemma insert_index_ascending {A} i (kv : string * A) acc :
  ascending acc -> ascending (insert_index i kv acc).
Proof.
  induction acc as [|[j kv'] acc IH]; simpl; [done|]. intros [Hj Hacc].
  destruct (Z.ltb_spec i j) as [Hij|Hij]; simpl.
  - split; [|done]. constructor; [simpl; lia|].
    eapply Forall_impl; [exact Hj|]. simpl. intros; lia.
  - split; [|by apply IH].
    rewrite insert_index_Permutation. by constructor.
Qed.

Lemma insert_index_last {A} i (kv : string * A) acc :
  Forall (fun p => (fst p <= i)%Z) acc ->
  insert_index i kv acc = (acc ++ [(i, kv)])%list.
Proof.
  induction 1 as [|[j kv'] acc Hj _ IH]; simpl; [done|].
  simpl in Hj. destruct (Z.ltb_spec i j); [lia|]. by rewrite IH.
Qed.

Lemma ascending_middle {A} (acc : list (Z * (string * A))) x l :
  ascending (acc ++ x :: l) -> Forall (fun p => (fst p <= fst x)%Z) acc.
Proof.
  induction acc as [|a acc IH]; simpl; [done|]. intros [Ha Hacc].
  constructor; [|by apply IH].
  apply Forall_app in Ha as [_ Ha]. by apply Forall_cons in Ha as [Ha _].
Qed.

Lemma index_rounds_ascending {A} (props : list (string * A)) acc :
  ascending acc ->
  Forall (fun p => array_index (fst (snd p)) = Some (fst p)) acc ->
  ascending (fold_left index_round props acc)
  /\ Forall (fun p => array_index (fst (snd p)) = Some (fst p))
       (fold_left index_round props acc).
Proof.
  revert acc. induction props as [|kv props IH]; intros acc Ha Hi; simpl;
    [done|].
  apply IH; unfold index_round; destruct (array_index (fst kv)) eqn:E;
    try done.
  - by apply insert_index_ascending.
  - rewrite insert_index_Permutation. by constructor.
Qed.

Lemma index_rounds_again {A} (l acc : list (Z * (string * A))) :
  ascending (acc ++ l) ->
  Forall (fun p => array_index (fst (snd p)) = Some (fst p)) l ->
  fold_left index_round (map snd l) acc = (acc ++ l)%list.
Proof.
  revert acc. induction l as [|[i kv] l IH]; intros acc Ha Hl; simpl.
  - by rewrite app_nil_r.
  - apply Forall_cons in Hl as [Hi Hl]. simpl in Hi.
    unfold index_round at 2. rewrite Hi.
    rewrite insert_index_last by (by apply ascending_middle in Ha).
    rewrite IH; rewrite <- ?app_assoc; done.
Qed.

Lemma index_rounds_plain {A} (l : list (string * A)) acc :
  (forall kv, In kv l -> array_index (fst kv) = None) ->
  fold_left index_round l acc = acc.
Proof.
  revert acc. induction l as [|x l IH]; intros acc Hl; simpl; [done|].
  unfold index_round at 2. rewrite (Hl x) by (by left).
  apply IH. intros; apply Hl; by right.
Qed.

Lemma ordered_idem {A} (props : list (string * A)) :
  ordered (ordered props) = ordered props.
Proof.
  unfold ordered at 1 3.
  change (fun acc kv => match array_index (fst kv) with
                        | Some i => insert_index i kv acc
                        | None => acc
                        end) with (@index_round A).
  set (plain := fun kv : string * A =>
                  match array_index (fst kv) with
                  | Some _ => false
                  | None => true
                  end).
  destruct (index_rounds_ascending props [] I (Forall_nil_2 _)) as [Ha Hi].
  set (idx := fold_left index_round props []) in *.
  replace (ordered props)
    with (map snd idx ++ List.filter plain props)%list by reflexivity.
  rewrite fold_left_app, index_rounds_again by done.
  rewrite index_rounds_plain, app_nil_l.
  2:{ intros kv Hkv. apply filter_In in Hkv as [_ Hkv]. unfold plain in Hkv.
      by destruct (array_index (fst kv)). }
  f_equal. rewrite List.filter_app.
  replace (List.filter plain (map snd idx)) with (@nil (string * A)).
  - simpl. apply filter_id. intros kv Hkv. by apply filter_In in Hkv as [_ Hkv].
  - symmetry. clear Ha. induction Hi as [|[i kv] l Hp _ IH]; simpl; [done|].
    simpl in Hp. unfold plain at 1. by rewrite Hp.
Qed.

Lemma ordered_keys {A} (props : list (string * A)) :
  map fst (ordered props) = key_order (map fst props).
Proof.
  unfold key_order. rewrite map_map.
  rewrite (ordered_map (fun kv : string * A => (fst kv, tt))) by done.
  by rewrite map_map.
Qed.

Lemma props_get_In {A} k (v : A) props :
  NoDup (map fst props) -> In (k, v) props -> props_get k props = Some v.
Proof.
  induction props as [|[k' v'] props IH]; simpl; [done|].
  intros Hnd [[= -> ->]|Hin].
  - by rewrite String.eqb_refl.
  - apply NoDup_cons in Hnd as [Hni Hnd].
    destruct (String.eqb_spec k' k) as [->|]; [|by apply IH].
    destruct Hni. apply list_elem_of_In, in_map_iff. by exists (k, v).
Qed.

Lemma props_get_Some_In {A} k (v : A) props :
  props_get k props = Some v -> In (k, v) props.
Proof.
  induction props as [|[k' v'] props IH]; simpl; [done|].
  destruct (String.eqb_spec k' k) as [->|]; [intros [= ->]; by left|].
  intros H. right. by apply IH.
Qed.

Lemma lookup_map_fst_snd {A B} (l : list (A * B)) i a b :
  map fst l !! i = Some a -> map snd l !! i = Some b -> In (a, b) l.
Proof.
  revert i. induction l as [|[x y] l IH]; intros [|i]; simpl; try done.
  - intros [= ->] [= ->]. by left.
  - intros Ha Hb. right. by eapply IH.
Qed.

(** X8: on an object, [keys] and [values] return new arrays of the same
    length that list every own property once, in the same order: the value
    at a position is the value the object holds under the key at that
    position. *)
Theorem keys_and_values_agree a1 a2 h l props :
  h !! l = Some (CObject props) -> NoDup (map fst props) ->
  exists ek ev ks vs,
    functions_keys a1 = Ret ek /\ functions_values a2 = Ret ev
    /\ ek (VRef l) h = (Ret (VRef (length h)), (h ++ [CArray (map VString ks)])%list)
    /\ ev (VRef l) h = (Ret (VRef (length h)), (h ++ [CArray vs])%list)
    /\ length ks = length vs
    /\ Permutation ks (map fst props)
    /\ forall i k v, ks !! i = Some k -> vs !! i = Some v ->
         GetV h (VRef l) k = Ret v.
Proof.
  intros Hl Hnd.
  exists (built (functions_keys a1)), (built (functions_values a2)),
    (map fst (ordered props)), (map snd (ordered props)).
  split; [done|]. split; [done|]. split; [|split; [|split; [|split]]].
  - simpl. unfold Object_keys, bind, lift, ret, own_entries. by rewrite Hl.
  - simpl. unfold Object_values, bind, lift, ret, own_entries. by rewrite Hl.
  - by rewrite !length_map.
  - by rewrite ordered_Permutation.
  - intros i k v Hk Hv. unfold GetV. rewrite Hl.
    erewrite props_get_In; [done|done|].
    eapply Permutation_in; [apply ordered_Permutation|].
    by eapply lookup_map_fst_snd.
Qed.

Lemma keys_and_values_agree_witness :
  exists ek ev ks vs,
    functions_keys [] = Ret ek /\ functions_values [] = Ret ev
    /\ ek (VRef 0) sample_keys
       = (Ret (VRef 1), (sample_keys ++ [CArray (map VString ks)])%list)
    /\ ev (VRef 0) sample_keys = (Ret (VRef 1), (sample_keys ++ [CArray vs])%list)
    /\ length ks = length vs
    /\ Permutation ks ["b"; "2"; "1"]
    /\ forall i k v, ks !! i = Some k -> vs !! i = Some v ->
         GetV sample_keys (VRef 0) k = Ret v.
Proof.
  apply (keys_and_values_agree [] [] sample_keys 0 _ eq_refl).
  repeat (apply NoDup_cons; split;
          [intros H; repeat (apply elem_of_cons in H as [H|H]; [done|]);
           by apply elem_of_nil in H|]).
  apply NoDup_nil_2.
Defined.

(** ** [size] *)

Lemma length_chars s : length (chars s) = String.length s.
Proof.
  unfold chars. rewrite length_map.
  induction s as [|c s IH]; simpl; congruence.
Qed.

(** X9: [size] reads the member [length]: the number of items of an array,
    the number of code units of a string, and for an object its own property
    [length] when it has one and [undefined] otherwise, not the number of
    keys; on [null] it throws. *)
Theorem size_reads_length args ev h :
  functions_size args = Ret ev ->
  (forall l items, h !! l = Some (CArray items) ->
     ev (VRef l) h = (Ret (VNumber (of_Z (Z.of_nat (length items)))), h))
  /\ (forall s,
        ev (VString s) h
        = (Ret (VNumber (of_Z (Z.of_nat (String.length s)))), h))
  /\ (forall l props, h !! l = Some (CObject props) ->
        ev (VRef l) h
        = (Ret (match props_get "length" props with
                | Some v => v
                | None => VUndefined
                end), h))
  /\ ev VNull h = (Throw cannot_read, h).
Proof.
  intros [= <-]. repeat split.
  - intros l items Hl. unfold lift, GetV. by rewrite Hl.
  - intros s. unfold lift, GetV, string_own, len_value. simpl.
    by rewrite length_chars.
  - intros l props Hl. unfold lift, GetV. rewrite Hl.
    by destruct (props_get "length" props).
Qed.

Lemma size_reads_length_witness :
  built (functions_size []) (VRef 0) sample_keys = (Ret VUndefined, sample_keys)
  /\ built (functions_size []) (VRef 0) sample_array
     = (Ret (VNumber (of_Z 6)), sample_array).
Proof.
  pose proof (size_reads_length [] _ sample_keys eq_refl) as (_ & _ & Ho & _).
  pose proof (size_reads_length [] _ sample_array eq_refl) as (Ha & _).
  split; [exact (Ho 0 _ eq_refl) | exact (Ha 0 _ eq_refl)].
Defined.

(** ** [substring] *)

Lemma join_empty_cons x l :
  join_strings "" (x :: l) = (x ++ join_strings "" l)%string.
Proof. destruct l; simpl; [by rewrite append_nil_r|done]. Qed.

Lemma join_empty_app a b :
  join_strings "" (a ++ b)
  = (join_strings "" a ++ join_strings "" b)%string.
Proof.
  induction a as [|x a IH]; [done|].
  change ((x :: a) ++ b)%list with (x :: (a ++ b))%list.
  by rewrite !join_empty_cons, IH, append_assoc.
Qed.

Lemma length_join_chars (l : list ascii) :
  String.length (join_strings "" (map (fun c => String c "") l)) = length l.
Proof.
  induction l as [|c l IH]; [done|].
  change (map _ (c :: l)) with (String c "" :: map (fun c => String c "") l).
  rewrite join_empty_cons. simpl. by rewrite IH.
Qed.

(** The text before, inside and after the bounds of a slice. *)
Lemma slice_parts s from to :
  s = (join_strings "" (firstn from (chars s))
       ++ join_strings "" (firstn to (skipn from (chars s)))
       ++ join_strings "" (skipn to (skipn from (chars s))))%string.
Proof.
  rewrite <- !join_empty_app, !firstn_skipn. by rewrite join_chars.
Qed.

Lemma length_slice_parts s from to :
  from + to <= String.length s ->
  String.length (join_strings "" (firstn from (chars s))) = from
  /\ String.length (join_strings "" (firstn to (skipn from (chars s)))) = to.
Proof.
  intros H. unfold chars. rewrite <- length_chars in H. unfold chars in H.
  rewrite length_map in H.
  rewrite !skipn_map, !firstn_map, !length_join_chars.
  rewrite !length_take, length_drop. lia.
Qed.

(** X10: on a string, [substring] returns a contiguous part of the text: it
    starts at the beginning when the start is not a positive number and runs
    to the end when no end is given; for integers [0 <= i <= j] within the
    length, the part has the [j - i] code units from position [i] on. *)
Theorem substring_returns_a_part_of_the_text
  (c : json -> outcome Evaluator) args evs data h vs h' s :
  omap c args = Ret evs ->
  mapM (fun arg : Evaluator => arg data) evs h = (Ret vs, h') ->
  arg_at 0 vs = VString s ->
  is_primitive (arg_at 1 vs) = true -> is_primitive (arg_at 2 vs) = true ->
  exists ev before part after,
    functions c Fsubstring args = Ret ev
    /\ ev data h = (Ret (VString part), h')
    /\ s = (before ++ part ++ after)%string
    /\ (Num.ltb zero (primitive_number (arg_at 1 vs)) = false -> before = "")
    /\ (arg_at 2 vs = VUndefined -> after = "")
    /\ forall i j,
         arg_at 1 vs = VNumber (of_Z i) -> arg_at 2 vs = VNumber (of_Z j) ->
         (0 <= i <= j)%Z -> (j <= Z.of_nat (String.length s))%Z ->
         (j < 2 ^ 53)%Z ->
         String.length before = Z.to_nat i
         /\ String.length part = Z.to_nat (j - i).
Proof.
  intros Hargs Hvs Htext Hps Hpe.
  destruct (buildFunction_builds c substring_fn args evs Hargs) as [ev Hev].
  destruct (buildFunction_general c substring_fn args ev Hev)
    as (evs' & Hargs' & Hrun).
  rewrite Hargs in Hargs'. injection Hargs' as <-.
  set (start := arg_at 1 vs) in *. set (end_ := arg_at 2 vs) in *.
  set (len := Z.of_nat (String.length s)).
  set (n := primitive_number start).
  set (from := Z.to_nat
                 (relative_index
                    (ToIntegerOrInfinity (Math_max [n; zero])) len)).
  set (to := match end_ with
             | VUndefined => len
             | _ => relative_index
                      (ToIntegerOrInfinity (primitive_number end_)) len
             end).
  set (width := Z.to_nat (to - Z.of_nat from)).
  exists ev,
    (join_strings "" (firstn from (chars s))),
    (join_strings "" (firstn width (skipn from (chars s)))),
    (join_strings "" (skipn width (skipn from (chars s)))).
  split; [exact Hev|]. split; [|split; [apply slice_parts|]].
  - rewrite Hrun. erewrite bind_Ret by exact Hvs.
    unfold substring_fn, js_slice. rewrite Htext. fold start end_. simpl.
    erewrite bind_Ret;
      [|erewrite bind_Ret; [reflexivity|];
        unfold lift; by rewrite (ToNumber_primitive h' start Hps)].
    cbv beta iota. fold n.
    assert (slice_args h' len (VNumber (Math_max [n; zero])) end_
            = Ret (Z.of_nat from, to)) as Hb.
    { unfold slice_args. simpl. subst from to.
      assert (0 <= relative_index (ToIntegerOrInfinity (Math_max [n; zero])) len)%Z.
      { unfold relative_index. subst len.
        destruct (_ <? 0)%Z eqn:E; [lia|]. apply Z.ltb_ge in E. lia. }
      rewrite Z2Nat.id by done.
      destruct end_; try done;
        rewrite (ToNumber_primitive h' _ Hpe); reflexivity. }
    erewrite bind_Ret; [|unfold lift; fold len; by rewrite Hb].
    cbv beta iota. unfold slice_list, ret. by rewrite Nat2Z.id.
  - split; [|split].
    + intros Hn. subst from. rewrite Math_max_zero. fold n in Hn. rewrite Hn.
      assert (forall x, x = NaN \/ x = zero ->
                Z.to_nat (relative_index (ToIntegerOrInfinity x) len) = 0)
        as H0.
      { intros x [->| ->]; unfold relative_index; simpl; subst len; lia. }
      rewrite H0; [done|]. destruct (is_nan n); auto.
    + intros Hu. subst width to. rewrite Hu.
      rewrite skipn_all2; [done|].
      rewrite length_drop, length_chars. subst len. lia.
    + intros i j Hi Hj Hij Hlen Hj53.
      destruct (of_Z_integer i ltac:(lia)) as (Hi1 & Hi2 & Hi3).
      destruct (of_Z_integer j ltac:(lia)) as (Hj1 & _ & _).
      assert (from = Z.to_nat i) as Hfrom.
      { subst from n. rewrite Hi. simpl primitive_number.
        rewrite Math_max_zero, Hi3, Hi2. unfold relative_index.
        destruct (Z.ltb_spec 0 i).
        - rewrite Hi1. destruct (Z.ltb_spec i 0); lia.
        - simpl. replace i with 0%Z by lia. subst len. lia. }
      assert (width = Z.to_nat (j - i)) as Hwidth.
      { subst width to. rewrite Hfrom, Hj. simpl. rewrite Hj1.
        unfold relative_index. destruct (Z.ltb_spec j 0); lia. }
      rewrite Hfrom, Hwidth. apply length_slice_parts. lia.
Qed.

Lemma substring_returns_a_part_of_the_text_witness :
  exists ev before part after,
    functions compile Fsubstring [get_ []; N_ 1; N_ 3] = Ret ev
    /\ ev (VString "hello") [] = (Ret (VString part), [])
    /\ "hello" = (before ++ part ++ after)%string
    /\ String.length before = 1 /\ String.length part = 2.
Proof.
  destruct (substring_returns_a_part_of_the_text compile
              [get_ []; N_ 1; N_ 3] _ (VString "hello") []
              [VString "hello"; VNumber (of_Z 1); VNumber (of_Z 3)] [] "hello"
              eq_refl eq_refl eq_refl eq_refl eq_refl)
    as (ev & before & part & after & Hev & Hrun & Hs & _ & _ & Hij).
  exists ev, before, part, after. split; [exact Hev|]. split; [exact Hrun|].
  split; [exact Hs|]. apply (Hij 1%Z 3%Z eq_refl eq_refl); simpl; lia.
Defined.

(** ** Evaluators that read the store only *)

Lemma ToString_primitive_text h v :
  is_primitive v = true -> ToString h v = Ret (primitive_text v).
Proof. by destruct v. Qed.

Lemma GetV_extends h more v k x :
  GetV h v k = Ret x -> GetV (h ++ more)%list v k = Ret x.
Proof.
  destruct v; simpl; try done.
  destruct (h !! l) as [c|] eqn:E; [|done].
  by rewrite (lookup_app_l_Some _ _ _ _ E).
Qed.

Lemma optional_index_extends h more cur prop x :
  optional_index cur prop h = (Ret x, h) ->
  optional_index cur prop (h ++ more)%list = (Ret x, (h ++ more)%list).
Proof.
  unfold optional_index, lift.
  destruct (nullish cur); [by intros [= <-]|].
  destruct (literal_key prop) as [k| |]; simpl; try done.
  intros [= H]. by rewrite (GetV_extends _ _ _ _ _ H).
Qed.

Lemma path_extends h more path cur v :
  foldM optional_index cur path h = (Ret v, h) ->
  foldM optional_index cur path (h ++ more)%list = (Ret v, (h ++ more)%list).
Proof.
  revert cur. induction path as [|prop path IH]; intros cur.
  - simpl. unfold ret. by intros [= <-].
  - simpl. unfold bind.
    destruct (optional_index_step h cur prop) as (r & Hr).
    rewrite Hr. destruct r as [x|e|w]; try done.
    rewrite (optional_index_extends h more cur prop x Hr). apply IH.
Qed.

(** What [get] returns on a store, it returns on every store that extends
    it. *)
Lemma get_settled path ev x h v h' :
  functions_get path = Ret ev -> ev x h = (Ret v, h') -> settled h ev x v.
Proof.
  intros E Hv more. rewrite (get_builds path ev E) in *. unfold bind in *.
  destruct (path_keeps_store h path x) as (r & Hr). rewrite Hr in Hv.
  destruct r as [y|e|w]; try done. unfold ret in Hv. injection Hv as <- <-.
  by rewrite (path_extends h more path x y Hr).
Qed.

(** ** Objects under construction *)

Lemma props_get_app {A} k (ps qs : list (string * A)) :
  props_get k (ps ++ qs)
  = match props_get k ps with Some v => Some v | None => props_get k qs end.
Proof.
  induction ps as [|[k' v'] ps IH]; simpl; [done|].
  by destruct (k' =? k)%string.
Qed.

Lemma props_set_fresh {A} k (v : A) ps :
  props_get k ps = None -> props_set k v ps = (ps ++ [(k, v)])%list.
Proof.
  induction ps as [|[k' v'] ps IH]; simpl; [done|].
  destruct (k' =? k)%string; [done|]. intros H. by rewrite IH.
Qed.

Lemma lookup_middle {A} (H : list A) c rest :
  (H ++ c :: rest)%list !! length H = Some c.
Proof. by rewrite lookup_app_r, Nat.sub_diag. Qed.

Lemma key_order_idem keys : key_order (key_order keys) = key_order keys.
Proof.
  unfold key_order.
  assert (forall l : list (string * unit),
            map (fun k => (k, tt)) (map fst l) = l) as Hunit.
  { induction l as [|[k []] l IH]; simpl; [done|]. by rewrite IH. }
  by rewrite Hunit, ordered_idem.
Qed.

Lemma own_entries_new h props rest :
  own_entries (h ++ CObject props :: rest)%list (VRef (length h))
  = Ret (ordered props).
Proof. unfold own_entries. by rewrite lookup_middle. Qed.

Lemma Object_keys_new h props rest :
  Object_keys (VRef (length h)) (h ++ CObject props :: rest)%list
  = (Ret (key_order (map fst props)), (h ++ CObject props :: rest)%list).
Proof.
  unfold Object_keys, bind, lift, ret. rewrite own_entries_new.
  by rewrite ordered_keys.
Qed.

Lemma Object_values_new h props rest :
  Object_values (VRef (length h)) (h ++ CObject props :: rest)%list
  = (Ret (map snd (ordered props)), (h ++ CObject props :: rest)%list).
Proof.
  unfold Object_values, bind, lift, ret. by rewrite own_entries_new.
Qed.

Lemma insert_middle {A} (H : list A) c c' rest :
  <[length H := c']> (H ++ c :: rest)%list = (H ++ c' :: rest)%list.
Proof.
  rewrite insert_app_r_alt, Nat.sub_diag by done. done.
Qed.

Lemma set_property_middle H ps k v rest :
  k <> "__proto__" ->
  set_property (length H) k v (H ++ CObject ps :: rest)%list
  = (Ret tt, (H ++ CObject (props_set k v ps) :: rest)%list).
Proof.
  intros Hk. unfold set_property.
  destruct (String.eqb_spec k "__proto__"); [done|].
  unfold bind, read, lift, write. rewrite lookup_middle.
  by rewrite insert_middle.
Qed.

(** A loop that assigns one fresh key per element to the object at the end
    of the store. *)
Lemma forM_assign {X} (H : heap) (body : X -> M unit) xs kvs :
  Forall2 (fun x kv =>
             forall ps, props_get (fst kv) ps = None ->
               body x (H ++ [CObject ps])%list
               = (Ret tt, (H ++ [CObject (ps ++ [kv])])%list)) xs kvs ->
  NoDup (map fst kvs) ->
  forall ps, (forall kv, In kv kvs -> props_get (fst kv) ps = None) ->
    forM_ body xs (H ++ [CObject ps])%list
    = (Ret tt, (H ++ [CObject (ps ++ kvs)])%list).
Proof.
  induction 1 as [|x kv xs kvs Hx _ IH]; intros Hnd ps Hps; simpl.
  - unfold ret. by rewrite app_nil_r.
  - apply NoDup_cons in Hnd as [Hni Hnd].
    erewrite bind_Ret; [|apply Hx, Hps; by left].
    rewrite (IH Hnd).
    + by rewrite <- app_assoc.
    + intros kv' Hin. rewrite props_get_app, (Hps kv') by (by right).
      destruct kv as [k0 v0]. simpl in *.
      destruct (String.eqb_spec k0 (fst kv')) as [E|]; [|done].
      destruct Hni. rewrite E. apply list_elem_of_In, in_map_iff. eauto.
Qed.

(** The object [build_object] makes when its getters read the store only. *)
Lemma build_object_settled h getters data vs :
  Forall2 (fun kg v => settled h (snd kg) data v) getters vs ->
  NoDup (map fst getters) -> ~ In "__proto__" (map fst getters) ->
  forall more,
    build_object getters data (h ++ more)%list
    = (Ret (VRef (length (h ++ more)%list)),
       (h ++ more ++ [CObject (combine (map fst getters) vs)])%list).
Proof.
  intros Hg Hnd Hproto more. unfold build_object.
  erewrite bind_Ret by reflexivity. cbv beta iota.
  assert (map fst (combine (map fst getters) vs) = map fst getters) as Hfst.
  { clear Hnd Hproto. induction Hg; simpl; [done|]. by f_equal. }
  erewrite bind_Ret.
  2:{ apply (forM_assign (h ++ more) _ getters
               (combine (map fst getters) vs)); [|by rewrite Hfst|done].
      clear Hnd Hfst. induction Hg as [|[k g] v getters vs Hv Hg IH]; simpl;
        [constructor|].
      constructor.
      - intros ps Hps. simpl in *.
        erewrite bind_Ret; [|rewrite <- app_assoc; apply Hv].
        rewrite app_assoc.
        rewrite set_property_middle by (intros ->; apply Hproto; by left).
        by rewrite props_set_fresh.
      - apply IH. intros Hin. apply Hproto. by right. }
  unfold ret. simpl. by rewrite <- app_assoc.
Qed.

(** ** [pick] *)

Lemma last_map {A B} (f : A -> B) l : last (map f l) = option_map f (last l).
Proof.
  induction l as [|a [|b l] IH]; [done|done|]. exact IH.
Qed.

Lemma functions_get_strings p :
  functions_get (map JString p)
  = Ret (built (functions_get (map JString p))).
Proof.
  unfold functions_get. by destruct p as [|? [|? ?]].
Qed.

Lemma pick_getter_path p :
  pick_getter (get_ p)
  = Ret (path_key p, built (functions_get (map JString p))).
Proof.
  unfold pick_getter, get_, call. simpl.
  rewrite functions_get_strings. simpl. rewrite last_map. unfold path_key.
  by destruct (last p).
Qed.

Lemma pick_getters paths :
  omap pick_getter (map get_ paths)
  = Ret (map (fun p => (path_key p, built (functions_get (map JString p))))
           paths).
Proof.
  induction paths as [|p paths IH]; simpl; [done|].
  by rewrite pick_getter_path, IH.
Qed.

Lemma picked_settled h paths x vs :
  Forall2 (fun p v =>
             built (functions_get (map JString p)) x h = (Ret v, h)) paths vs ->
  Forall2 (fun (kg : string * Evaluator) v => settled h (snd kg) x v)
    (map (fun p => (path_key p, built (functions_get (map JString p)))) paths)
    vs.
Proof.
  induction 1 as [|p v paths vs Hv _ IH]; simpl; constructor; [|done].
  simpl. eapply get_settled; [apply functions_get_strings | exact Hv].
Qed.

Lemma map_fst_picked paths :
  map fst (map (fun p => (path_key p, built (functions_get (map JString p))))
             paths)
  = map path_key paths.
Proof. rewrite map_map. by apply map_ext. Qed.

(** The objects [pick] makes for the items of an array, one after the
    other. *)
Lemma mapM_build_object h getters items rows :
  NoDup (map fst getters) -> ~ In "__proto__" (map fst getters) ->
  Forall2 (fun item row =>
             Forall2 (fun (kg : string * Evaluator) v =>
                        settled h (snd kg) item v) getters row) items rows ->
  forall more,
    mapM (build_object getters) items (h ++ more)%list
    = (Ret (map VRef (seq (length (h ++ more)%list) (length items))),
       (h ++ more
          ++ map (fun row => CObject (combine (map fst getters) row)) rows)%list).
Proof.
  intros Hnd Hproto. induction 1 as [|item row items rows Hrow _ IH];
    intros more; simpl.
  - unfold ret. by rewrite app_nil_r.
  - erewrite bind_Ret by (by apply build_object_settled).
    erewrite bind_Ret by apply IH.
    unfold ret. rewrite <- !app_assoc. simpl.
    rewrite !length_app. simpl. by rewrite Nat.add_assoc, Nat.add_1_r.
Qed.

(** X11: [pick] with [get] paths whose last keys are distinct, none of them
    [__proto__], returns a new object that holds, under the last key of
    every path, what [get] of that path returns on the input, a missing
    property as [null]; on an array it returns a new array of such objects,
    one for every item in its order. *)
Theorem pick_copies_the_paths paths ev h :
  functions_pick (map get_ paths) = Ret ev ->
  NoDup (map path_key paths) -> ~ In "__proto__" (map path_key paths) ->
  let keys := map path_key paths in
  let getter p := built (functions_get (map JString p)) in
  (forall data vs,
     isArray h data = false ->
     Forall2 (fun p v => getter p data h = (Ret v, h)) paths vs ->
     ev data h
     = (Ret (VRef (length h)), (h ++ [CObject (combine keys vs)])%list))
  /\ (forall l items rows,
        h !! l = Some (CArray items) ->
        Forall2 (fun item row =>
                   Forall2 (fun p v => getter p item h = (Ret v, h)) paths row)
          items rows ->
        ev (VRef l) h
        = (Ret (VRef (length h + length items)),
           (h ++ map (fun row => CObject (combine keys row)) rows
              ++ [CArray (map VRef (seq (length h) (length items)))])%list)).
Proof.
  unfold functions_pick. rewrite pick_getters. simpl. intros [= <-] Hnd Hproto.
  split.
  - intros data vs Harr Hvs. erewrite bind_Ret by reflexivity. rewrite Harr.
    pose proof (build_object_settled h _ data vs (picked_settled _ _ _ _ Hvs))
      as Hb.
    rewrite map_fst_picked in Hb. specialize (Hb Hnd Hproto []).
    rewrite !app_nil_r in Hb. exact Hb.
  - intros l items rows Hl Hrows. erewrite bind_Ret by reflexivity.
    unfold isArray. rewrite Hl.
    erewrite bind_Ret; [|unfold lift, array_method; by rewrite Hl].
    pose proof (mapM_build_object h
                  (map (fun p => (path_key p,
                                  built (functions_get (map JString p))))
                     paths) items rows) as Hm.
    rewrite map_fst_picked in Hm. specialize (Hm Hnd Hproto).
    erewrite bind_Ret.
    2:{ rewrite <- (app_nil_r h) at 1. apply Hm.
        eapply Forall2_impl; [exact Hrows|].
        intros item row. apply picked_settled. }
    unfold alloc_array, alloc. rewrite !app_nil_r.
    rewrite !length_app, length_map.
    assert (length rows = length items) as ->
      by (symmetry; by eapply Forall2_length).
    by rewrite <- app_assoc.
Qed.

Ltac distinct_strings :=
  repeat (apply NoDup_cons; split;
          [let H := fresh in
           intros H; repeat (apply elem_of_cons in H as [H|H]; [done|]);
           by apply elem_of_nil in H|]);
  apply NoDup_nil_2.

Lemma pick_copies_the_paths_witness :
  exists ev,
    functions_pick (map get_ [["a"]; ["b"; "c"]; ["zz"]]) = Ret ev
    /\ ev (VRef 1) sample_nested
       = (Ret (VRef 2),
          (sample_nested
             ++ [CObject [("a", VString "x"); ("c", VNumber (of_Z 1));
                          ("zz", VNull)]])%list).
Proof.
  eexists. split; [reflexivity|].
  refine (proj1 (pick_copies_the_paths [["a"]; ["b"; "c"]; ["zz"]] _
                   sample_nested eq_refl _ _)
            (VRef 1) [VString "x"; VNumber (of_Z 1); VNull] eq_refl _).
  - distinct_strings.
  - simpl. intros [H|[H|[H|[]]]]; done.
  - repeat constructor.
Defined.

(** ** [mapValues] and [mapKeys] *)

Lemma combine_map_fst {A B C} (l : list (A * B)) (us : list C) :
  length us = length l -> map fst (combine (map fst l) us) = map fst l.
Proof.
  revert us. induction l as [|a l IH]; intros [|u us]; simpl; try done.
  intros [= H]. by rewrite IH.
Qed.

(** X12: on an object none of whose keys is [__proto__], when the callback
    reads the store only, [mapValues] returns a new object with the keys of
    the input, each with the callback's answer for its value; its
    properties are created in the order in which [Object.keys] lists the
    keys of the input, and [Object.keys] lists the keys of the new object as
    it lists those of the input.  (The keys of an object are distinct; on a
    key [__proto__] the assignment runs the inherited setter and creates no
    property.) *)
Theorem mapValues_keeps_the_keys
  (c : json -> outcome Evaluator) q cb h l props us :
  c q = Ret cb -> h !! l = Some (CObject props) ->
  NoDup (map fst props) -> ~ In "__proto__" (map fst props) ->
  Forall2 (fun kv u => settled h cb (snd kv) u) (ordered props) us ->
  let made := combine (map fst (ordered props)) us in
  exists ev,
    functions_mapValues c [q] = Ret ev
    /\ ev (VRef l) h = (Ret (VRef (length h)), (h ++ [CObject made])%list)
    /\ fst (Object_keys (VRef (length h)) (h ++ [CObject made])%list)
       = fst (Object_keys (VRef l) h).
Proof.
  intros Hc Hl Hnd Hproto Hus made.
  assert (map fst made = map fst (ordered props)) as Hmade.
  { subst made. rewrite combine_map_fst; [done|]. symmetry.
    by eapply Forall2_length. }
  unfold functions_mapValues. simpl. rewrite Hc.
  simpl. eexists. split; [reflexivity|]. cbv beta.
  split;
    [|rewrite Object_keys_new, Hmade, ordered_keys, key_order_idem;
      unfold Object_keys, bind, lift, ret, own_entries; rewrite Hl; simpl;
      by rewrite ordered_keys].
  clear Hmade. subst made. unfold for_keys.
  erewrite bind_Ret;
    [|unfold Object_keys, bind, lift, ret, own_entries; by rewrite Hl].
  erewrite bind_Ret by reflexivity. cbv beta iota.
  assert (NoDup (map fst (ordered props))) as Hnd'
    by (by rewrite ordered_Permutation).
  assert (forall k, In k (map fst (ordered props)) -> k <> "__proto__") as Hp'.
  { intros k Hk ->. apply Hproto.
    eapply Permutation_in; [|exact Hk]. by rewrite ordered_Permutation. }
  assert (forall kv, In kv (ordered props) ->
            props_get (fst kv) props = Some (snd kv)) as Hget.
  { intros [k v] Hin. apply props_get_In; [done|].
    eapply Permutation_in; [apply ordered_Permutation | done]. }
  erewrite bind_Ret.
  2:{ apply (forM_assign h _ (map fst (ordered props))
               (combine (map fst (ordered props)) us)); [| |done].
      - clear Hnd'. revert Hp' Hget.
        induction Hus as [|[k v] u kvs us Hu _ IH]; intros Hp' Hget; simpl;
          constructor.
        + intros ps Hps. simpl in *.
          erewrite bind_Ret.
          2:{ unfold lift, GetV. rewrite (lookup_app_l_Some _ _ _ _ Hl).
              pose proof (Hget (k, v) ltac:(by left)) as Hkv. simpl in Hkv.
              rewrite Hkv. reflexivity. }
          erewrite bind_Ret by apply Hu.
          rewrite set_property_middle by (apply Hp'; by left).
          by rewrite props_set_fresh.
        + apply IH; intros; [apply Hp' | apply Hget]; by right.
      - rewrite combine_map_fst; [done|]. symmetry. by eapply Forall2_length. }
  reflexivity.
Qed.

Lemma mapValues_keeps_the_keys_witness :
  let made := [("1", VNumber (of_Z 4)); ("2", VNumber (of_Z 3));
               ("b", VNumber (of_Z 2))] in
  exists ev,
    functions_mapValues compile [call "add" [get_ []; N_ 1]] = Ret ev
    /\ ev (VRef 0) sample_keys
       = (Ret (VRef 1), (sample_keys ++ [CObject made])%list)
    /\ fst (Object_keys (VRef 1) (sample_keys ++ [CObject made])%list)
       = Ret ["1"; "2"; "b"].
Proof.
  refine (mapValues_keeps_the_keys compile (call "add" [get_ []; N_ 1]) _
            sample_keys 0 _
            [VNumber (of_Z 4); VNumber (of_Z 3); VNumber (of_Z 2)]
            eq_refl eq_refl _ _ _).
  - distinct_strings.
  - simpl. intros [H|[H|[H|[]]]]; done.
  - repeat constructor; intros more; reflexivity.
Defined.

(** X13: on an object, when the callback reads the store only and answers
    primitive values whose texts differ from one another, none of them
    [__proto__], [mapKeys] returns a new object that holds every value of
    the input under the text of the callback's answer for its key.  The
    properties are created in the order in which [Object.keys] lists the
    keys of the input; [Object.keys] lists the keys of the new object by
    its own rule, those that are array indices first, in ascending order,
    then the others in the order of their creation, and [Object.values]
    lists the values in the same order.  (The keys of an object are
    distinct; on a key [__proto__] the assignment runs the inherited setter
    and creates no property.) *)
Theorem mapKeys_renames_the_keys
  (c : json -> outcome Evaluator) q cb h l props ks :
  c q = Ret cb -> h !! l = Some (CObject props) ->
  NoDup (map fst props) ->
  Forall2 (fun kv k => settled h cb (VString (fst kv)) k
                       /\ is_primitive k = true) (ordered props) ks ->
  NoDup (map primitive_text ks) -> ~ In "__proto__" (map primitive_text ks) ->
  let made := combine (map primitive_text ks) (map snd (ordered props)) in
  let h' := (h ++ [CObject made])%list in
  exists ev,
    functions_mapKeys c [q] = Ret ev
    /\ ev (VRef l) h = (Ret (VRef (length h)), h')
    /\ Object_keys (VRef (length h)) h'
       = (Ret (key_order (map primitive_text ks)), h')
    /\ Object_values (VRef (length h)) h'
       = (Ret (map snd (ordered made)), h').
Proof.
  intros Hc Hl Hnd Hks Hndk Hproto made h'.
  assert (map fst made = map primitive_text ks) as Hmade.
  { subst made. clear Hndk Hproto. induction Hks; simpl; [done|]. by f_equal. }
  unfold functions_mapKeys. simpl.
  rewrite Hc. simpl. eexists. split; [reflexivity|]. cbv beta.
  split;
    [|subst h'; by rewrite Object_keys_new, Object_values_new, Hmade].
  clear Hmade. subst h' made. unfold for_keys.
  erewrite bind_Ret;
    [|unfold Object_keys, bind, lift, ret, own_entries; by rewrite Hl].
  erewrite bind_Ret by reflexivity. cbv beta iota.
  assert (forall kv, In kv (ordered props) ->
            props_get (fst kv) props = Some (snd kv)) as Hget.
  { intros [k v] Hin. apply props_get_In; [done|].
    eapply Permutation_in; [apply ordered_Permutation | done]. }
  assert (map fst (combine (map primitive_text ks) (map snd (ordered props)))
          = map primitive_text ks) as Hfst.
  { clear Hget Hndk Hproto. induction Hks; simpl; [done|]. by f_equal. }
  erewrite bind_Ret.
  2:{ apply (forM_assign h _ (map fst (ordered props))
               (combine (map primitive_text ks) (map snd (ordered props))));
        [|by rewrite Hfst|done].
      clear Hfst Hndk. revert Hproto Hget.
      induction Hks as [|[k v] k' kvs ks [Hk Hp] _ IH]; intros Hproto Hget;
        simpl; constructor.
      - intros ps Hps. simpl in *.
        erewrite bind_Ret.
        2:{ unfold lift, GetV. rewrite (lookup_app_l_Some _ _ _ _ Hl).
            pose proof (Hget (k, v) ltac:(by left)) as Hkv. simpl in Hkv.
            rewrite Hkv. reflexivity. }
        erewrite bind_Ret by apply Hk.
        erewrite bind_Ret;
          [|unfold lift, ToPropertyKey;
            by rewrite (ToString_primitive_text _ k' Hp)].
        erewrite bind_Ret.
        2:{ unfold lift, GetV. rewrite (lookup_app_l_Some _ _ _ _ Hl).
            pose proof (Hget (k, v) ltac:(by left)) as Hkv. simpl in Hkv.
            rewrite Hkv. reflexivity. }
        rewrite set_property_middle by (intros E; apply Hproto; by left).
        by rewrite props_set_fresh.
      - apply IH; [intros Hin; apply Hproto; by right|].
        intros; apply Hget; by right. }
  reflexivity.
Qed.

Lemma mapKeys_renames_the_keys_witness :
  let made := [("9", VNumber (of_Z 3)); ("8", VNumber (of_Z 2));
               ("NaN", VNumber (of_Z 1))] in
  let h' := (sample_keys ++ [CObject made])%list in
  exists ev,
    functions_mapKeys compile [call "subtract" [N_ 10; get_ []]] = Ret ev
    /\ ev (VRef 0) sample_keys = (Ret (VRef 1), h')
    /\ Object_keys (VRef 1) h' = (Ret ["8"; "9"; "NaN"], h')
    /\ Object_values (VRef 1) h'
       = (Ret [VNumber (of_Z 2); VNumber (of_Z 3); VNumber (of_Z 1)], h').
Proof.
  refine (mapKeys_renames_the_keys compile
            (call "subtract" [N_ 10; get_ []])
            _ sample_keys 0 _
            [VNumber (of_Z 9); VNumber (of_Z 8); VNumber NaN]
            eq_refl eq_refl _ _ _ _).
  - distinct_strings.
  - repeat constructor; intros more; reflexivity.
  - distinct_strings.
  - simpl. intros [H|[H|[H|[]]]]; done.
Defined.

(** ** [keyBy] and [uniqBy] *)

Lemma keyed_lookup kf items ps k :
  props_get k (fold_left (key_round kf) items ps)
  = match props_get k ps with
    | Some v => Some v
    | None => if plain_key k then List.find (fun x => (kf x =? k)%string) items
              else None
    end.
Proof.
  revert ps. induction items as [|x items IH]; intros ps;
    cbn [fold_left List.find].
  - destruct (props_get k ps); [done|]. by destruct (plain_key k).
  - rewrite IH. unfold key_round, plain_key.
    destruct (props_get (kf x) ps) as [v|] eqn:Ex; cbn [has orb].
    + destruct (props_get k ps) eqn:Ek; [done|].
      destruct (String.eqb_spec (kf x) k) as [E|]; [congruence|done].
    + destruct (mem (kf x) object_prototype) eqn:Em.
      * destruct (props_get k ps) eqn:Ek; [done|].
        destruct (String.eqb_spec (kf x) k) as [<-|]; [|done].
        by rewrite Em.
      * rewrite props_get_app. destruct (props_get k ps) eqn:Ek; [done|].
        cbn [props_get]. destruct (String.eqb_spec (kf x) k) as [<-|]; [|done].
        by rewrite Em.
Qed.

Lemma props_get_None_keys {A} k (ps : list (string * A)) :
  props_get k ps = None <-> ~ In k (map fst ps).
Proof.
  induction ps as [|[k' v] ps IH]; simpl; [tauto|].
  destruct (String.eqb_spec k' k) as [->|Hne]; [split; [done|tauto]|].
  rewrite IH. tauto.
Qed.

Lemma keyed_NoDup kf items ps :
  NoDup (map fst ps) -> NoDup (map fst (fold_left (key_round kf) items ps)).
Proof.
  revert ps. induction items as [|x items IH]; intros ps Hnd;
    cbn [fold_left]; [done|].
  apply IH. unfold key_round.
  destruct (props_get (kf x) ps) eqn:Ex; cbn [has orb]; [done|].
  destruct (mem (kf x) object_prototype); [done|].
  rewrite map_app. cbn [map fst]. apply NoDup_app. split; [done|]. split.
  - intros k Hk Hin. apply list_elem_of_singleton in Hin as ->.
    apply props_get_None_keys in Ex. apply Ex. by apply list_elem_of_In.
  - apply NoDup_singleton.
Qed.

Lemma filter_comm {A} (f g : A -> bool) l :
  List.filter f (List.filter g l) = List.filter g (List.filter f l).
Proof.
  induction l as [|a l IH]; simpl; [done|].
  destruct (f a) eqn:Ef, (g a) eqn:Eg; simpl; rewrite ?Ef, ?Eg, IH; done.
Qed.

Lemma keyed_keys kf items ps :
  map fst (fold_left (key_round kf) items ps)
  = (map fst ps
     ++ List.filter (fun k => negb (has (props_get k ps)))
          (first_keys (List.filter plain_key (map kf items))))%list.
Proof.
  revert ps. induction items as [|x items IH]; intros ps;
    cbn [fold_left map List.filter first_keys].
  - by rewrite app_nil_r.
  - rewrite IH. unfold key_round, plain_key at 2.
    destruct (props_get (kf x) ps) as [v|] eqn:Ex; cbn [has orb].
    + destruct (mem (kf x) object_prototype); cbn [negb]; [done|].
      cbn [first_keys List.filter]. rewrite Ex. cbn [has negb].
      apply app_inv_head_iff. rewrite filter_comm. symmetry.
      apply filter_id. intros k Hk. apply filter_In in Hk as [_ Hk].
      destruct (String.eqb_spec k (kf x)) as [->|]; [|done].
      by rewrite Ex in Hk.
    + destruct (mem (kf x) object_prototype); cbn [negb]; [done|].
      cbn [first_keys List.filter]. rewrite Ex. cbn [has negb].
      rewrite map_app, <- app_assoc. cbn [map fst app].
      apply app_inv_head_iff. f_equal.
      rewrite filter_filter_and. apply filter_ext. intros k.
      rewrite props_get_app. destruct (props_get k ps); cbn [has negb props_get].
      * by rewrite andb_false_r.
      * rewrite andb_true_r, String.eqb_sym.
        by destruct (k =? kf x)%string.
Qed.

Lemma keyBy_loop h (getter : Evaluator) kv items ps :
  (forall x, In x items ->
     settled h getter x (kv x) /\ is_primitive (kv x) = true) ->
  forM_ (fun item =>
           let* v := getter item in
           let* key := lift (fun h => ToPropertyKey h v) in
           key_once (length h) key item) items (h ++ [CObject ps])%list
  = (Ret tt,
     (h ++ [CObject (fold_left (key_round (fun x => primitive_text (kv x)))
                       items ps)])%list).
Proof.
  revert ps. induction items as [|x items IH]; intros ps Hx;
    cbn [forM_ fold_left]; [done|].
  destruct (Hx x ltac:(by left)) as [Hs Hp].
  erewrite bind_Ret.
  2:{ erewrite bind_Ret by apply Hs.
      erewrite bind_Ret;
        [|unfold lift, ToPropertyKey;
          by rewrite (ToString_primitive_text _ _ Hp)].
      unfold key_once. erewrite bind_Ret;
        [|unfold read, lift; by rewrite lookup_middle].
      cbv beta iota. fold (key_round (fun x => primitive_text (kv x)) ps x).
      instantiate (1 := (h ++ [CObject (key_round
                                          (fun x => primitive_text (kv x))
                                          ps x)])%list).
      instantiate (1 := tt). unfold key_round.
      destruct (has _ || mem _ _) eqn:E; [done|].
      apply orb_false_elim in E as [E1 E2].
      rewrite set_property_middle.
      - rewrite props_set_fresh; [done|]. by destruct (props_get _ ps).
      - intros E. by rewrite E in E2. }
  apply IH. intros y Hy. apply Hx. by right.
Qed.

Lemma keyBy_run (c : json -> outcome Evaluator) q getter h l items kv :
  c q = Ret getter -> h !! l = Some (CArray items) ->
  (forall x, In x items ->
     settled h getter x (kv x) /\ is_primitive (kv x) = true) ->
  exists ev,
    functions_keyBy c [q] = Ret ev
    /\ ev (VRef l) h
       = (Ret (VRef (length h)),
          (h ++ [CObject (fold_left
                            (key_round (fun x => primitive_text (kv x)))
                            items [])])%list).
Proof.
  intros Hc Hl Hx. unfold functions_keyBy. simpl. rewrite Hc. simpl.
  eexists. split; [reflexivity|]. cbv beta. unfold for_items.
  erewrite bind_Ret; [|unfold lift, iterate; by rewrite Hl].
  erewrite bind_Ret by reflexivity. cbv beta iota.
  erewrite bind_Ret by (by apply keyBy_loop). reflexivity.
Qed.

(** X14: on an array, when the getter reads the store only and answers
    primitive values, [keyBy] returns a new object with one property for
    every text of an answer that names no member of [Object.prototype]: the
    first item that has this key; an item whose key names a member of
    [Object.prototype], such as [constructor] or [toString], is left out.
    The properties are created in the order in which their keys occur
    first, and [Object.keys] lists the keys of the new object by its own
    rule: those that are array indices first, in ascending order, then the
    others in the order of their first occurrence. *)
Theorem keyBy_keeps_the_first_item
  (c : json -> outcome Evaluator) q getter h l items kv :
  c q = Ret getter -> h !! l = Some (CArray items) ->
  (forall x, In x items ->
     settled h getter x (kv x) /\ is_primitive (kv x) = true) ->
  let kf x := primitive_text (kv x) in
  let keys := first_keys (List.filter plain_key (map kf items)) in
  exists ev props,
    let h' := (h ++ [CObject props])%list in
    functions_keyBy c [q] = Ret ev
    /\ ev (VRef l) h = (Ret (VRef (length h)), h')
    /\ map fst props = keys
    /\ Object_keys (VRef (length h)) h' = (Ret (key_order keys), h')
    /\ forall k,
         props_get k props
         = if plain_key k then List.find (fun x => (kf x =? k)%string) items
           else None.
Proof.
  intros Hc Hl Hx kf keys.
  destruct (keyBy_run c q getter h l items kv Hc Hl Hx) as (ev & Hev & Hrun).
  set (props := fold_left (key_round kf) items []) in *.
  assert (map fst props = keys) as Hkeys.
  { subst props keys. rewrite keyed_keys. simpl. by apply filter_id. }
  exists ev, props. split; [exact Hev|]. split; [exact Hrun|].
  split; [exact Hkeys|]. split.
  - by rewrite Object_keys_new, Hkeys.
  - intros k. subst props. by rewrite keyed_lookup.
Qed.

Lemma ordered_plain {A} (props : list (string * A)) :
  (forall kv, In kv props -> array_index (fst kv) = None) ->
  ordered props = props.
Proof.
  intros H. unfold ordered.
  assert (forall l acc,
            (forall kv, In kv l -> array_index (fst kv) = None) ->
            fold_left (fun acc (kv : string * A) =>
                         match array_index (fst kv) with
                         | Some i => insert_index i kv acc
                         | None => acc
                         end) l acc = acc) as Hfold.
  { induction l as [|x l IH]; intros acc Hl; simpl; [done|].
    rewrite (Hl x) by (by left). apply IH. intros; apply Hl; by right. }
  rewrite Hfold by done. simpl. apply filter_id.
  intros kv Hkv. by rewrite (H kv Hkv).
Qed.

(** X15: on an array, when the getter reads the store only and answers
    primitive values, [uniqBy] returns a new array with the values of the
    object that [keyBy] makes, as [Object.values] lists them: every item it
    returns is the first item of the input with its key, every key of the
    input that names no member of [Object.prototype] is the key of one
    returned item, and no two returned items have the same key.  The items
    come in the order in which [Object.keys] lists their keys: the items
    whose key is an array index first, by ascending key, then the others in
    the order in which their keys occur first. *)
Theorem uniqBy_keeps_the_first_items
  (c : json -> outcome Evaluator) q getter h l items kv :
  c q = Ret getter -> h !! l = Some (CArray items) ->
  (forall x, In x items ->
     settled h getter x (kv x) /\ is_primitive (kv x) = true) ->
  let kf x := primitive_text (kv x) in
  let keys := first_keys (List.filter plain_key (map kf items)) in
  exists ev props out,
    functions_uniqBy c [q] = Ret ev
    /\ ev (VRef l) h
       = (Ret (VRef (S (length h))), (h ++ [CObject props; CArray out])%list)
    /\ Object_values (VRef (length h)) (h ++ [CObject props; CArray out])%list
       = (Ret out, (h ++ [CObject props; CArray out])%list)
    /\ (forall y, In y out ->
          List.find (fun x => (kf x =? kf y)%string) items = Some y)
    /\ (forall x, In x items -> plain_key (kf x) = true ->
          exists y, In y out /\ kf y = kf x)
    /\ NoDup (map kf out)
    /\ map kf out = key_order keys
    /\ ((forall k, In k keys -> array_index k = None) -> map kf out = keys).
Proof.
  intros Hc Hl Hx kf keys.
  destruct (keyBy_run c q getter h l items kv Hc Hl Hx) as (evk & Hevk & Hrun).
  set (props := fold_left (key_round kf) items []) in *.
  assert (map fst props = keys) as Hkeys.
  { subst props keys. rewrite keyed_keys. simpl. by apply filter_id. }
  assert (NoDup (map fst props)) as Hnd by apply keyed_NoDup, NoDup_nil_2.
  assert (forall k y, In (k, y) props ->
            kf y = k /\ List.find (fun x => (kf x =? k)%string) items = Some y)
    as Hfirst.
  { intros k y Hin. pose proof (props_get_In k y props Hnd Hin) as Hg.
    subst props. rewrite keyed_lookup in Hg. simpl in Hg.
    destruct (plain_key k); [|done]. split; [|done].
    apply find_some in Hg as [_ Hg]. by apply String.eqb_eq. }
  assert (map kf (map snd (ordered props)) = map fst (ordered props)) as Hkf.
  { rewrite map_map. apply map_ext_in. intros [k y] Hin. simpl.
    apply Hfirst. eapply Permutation_in; [apply ordered_Permutation|done]. }
  exists (built (functions_uniqBy c [q])), props, (map snd (ordered props)).
  split; [|split; [|split; [|split; [|split; [|split; [|split]]]]]].
  - unfold functions_uniqBy. by rewrite Hevk.
  - unfold functions_uniqBy. rewrite Hevk. simpl.
    erewrite bind_Ret by exact Hrun.
    erewrite bind_Ret;
      [|unfold Object_values, bind, lift, ret, own_entries;
        by rewrite lookup_middle].
    unfold alloc_array, alloc. rewrite length_app. simpl.
    by rewrite Nat.add_1_r, <- app_assoc.
  - by rewrite Object_values_new.
  - intros y Hy. apply in_map_iff in Hy as ([k y'] & <- & Hin). simpl.
    destruct (Hfirst k y') as [-> Hf]; [|done].
    eapply Permutation_in; [apply ordered_Permutation|done].
  - intros x Hin Hplain.
    assert (exists y, props_get (kf x) props = Some y) as [y Hy].
    { subst props. rewrite keyed_lookup. simpl. rewrite Hplain.
      destruct (List.find _ items) eqn:Ef; [eauto|].
      eapply find_none in Ef; [|exact Hin]. by rewrite String.eqb_refl in Ef. }
    apply props_get_Some_In in Hy as Hin'. exists y. split.
    + apply in_map_iff. exists (kf x, y). split; [done|].
      eapply Permutation_in; [symmetry; apply ordered_Permutation|done].
    + by apply (Hfirst (kf x) y).
  - rewrite Hkf. by rewrite ordered_Permutation.
  - by rewrite Hkf, ordered_keys, Hkeys.
  - intros Hplain. rewrite Hkf, ordered_plain; [done|].
    intros [k y] Hin. apply Hplain. rewrite <- Hkeys.
    apply in_map_iff. by exists (k, y).
Qed.

Lemma sample_rows_settled x :
  In x [VRef 0; VRef 1; VRef 2; VRef 3] ->
  settled sample_rows (built (compile (get_ ["id"]))) x (sample_field "id" x)
  /\ is_primitive (sample_field "id" x) = true.
Proof.
  simpl. intros [<-|[<-|[<-|[<-|[]]]]]; (split; [intros more|]); reflexivity.
Qed.

Lemma keyBy_keeps_the_first_item_witness :
  exists ev props,
    let h' := (sample_rows ++ [CObject props])%list in
    functions_keyBy compile [get_ ["id"]] = Ret ev
    /\ ev (VRef 4) sample_rows = (Ret (VRef 5), h')
    /\ map fst props = ["2"; "1"]
    /\ Object_keys (VRef 5) h' = (Ret ["1"; "2"], h')
    /\ props_get "2" props = Some (VRef 0)
    /\ props_get "constructor" props = None.
Proof.
  destruct (keyBy_keeps_the_first_item compile (get_ ["id"]) _ sample_rows 4
              _ (sample_field "id") eq_refl eq_refl sample_rows_settled)
    as (ev & props & Hev & Hrun & Hmade & Hkeys & Hget).
  exists ev, props. split; [exact Hev|]. split; [exact Hrun|].
  split; [exact Hmade|]. split; [exact Hkeys|].
  split; [exact (Hget "2") | exact (Hget "constructor")].
Defined.

Lemma uniqBy_keeps_the_first_items_witness :
  exists ev props out,
    functions_uniqBy compile [get_ ["id"]] = Ret ev
    /\ ev (VRef 4) sample_rows
       = (Ret (VRef 6), (sample_rows ++ [CObject props; CArray out])%list)
    /\ map (fun x => primitive_text (sample_field "id" x)) out = ["1"; "2"].
Proof.
  destruct (uniqBy_keeps_the_first_items compile (get_ ["id"]) _ sample_rows
              4 _ (sample_field "id") eq_refl eq_refl sample_rows_settled)
    as (ev & props & out & Hev & Hrun & _ & _ & _ & _ & Horder & _).
  exists ev, props, out. split; [exact Hev|]. split; [exact Hrun|].
  exact Horder.
Defined.

(** ** [groupBy] *)

Lemma group_refs_snoc a gs k g :
  group_refs a (gs ++ [(k, g)])
  = (group_refs a gs ++ [(k, VRef (a + length gs))])%list.
Proof.
  revert a. induction gs as [|[k' g'] gs IH]; intros a; simpl.
  - by rewrite Nat.add_0_r.
  - rewrite IH. simpl. by rewrite Nat.add_succ_r.
Qed.

Lemma group_refs_None a gs k :
  props_get k gs = None -> props_get k (group_refs a gs) = None.
Proof.
  revert a. induction gs as [|[k' g'] gs IH]; intros a; simpl; [done|].
  destruct (k' =? k)%string; [done|]. apply IH.
Qed.

Lemma group_refs_Some a gs k g :
  props_get k gs = Some g ->
  exists i,
    props_get k (group_refs a gs) = Some (VRef (a + i))
    /\ group_cells gs !! i = Some (CArray g)
    /\ forall g',
         group_cells (props_set k g' gs) = <[i := CArray g']> (group_cells gs)
         /\ group_refs a (props_set k g' gs) = group_refs a gs.
Proof.
  revert a. induction gs as [|[k' g0] gs IH]; intros a; simpl; [done|].
  destruct (String.eqb_spec k' k) as [->|Hne].
  - intros [= ->]. exists 0. rewrite Nat.add_0_r.
    repeat split; try done; simpl; by rewrite String.eqb_refl.
  - intros Hg. destruct (IH (S a) Hg) as (i & H1 & H2 & H3).
    exists (S i). rewrite Nat.add_succ_r. split; [done|]. split; [done|].
    intros g'. destruct (H3 g') as [H4 H5]. simpl. by rewrite H4, H5.
Qed.

Lemma lookup_after {A} (H : list A) c cells i :
  (H ++ c :: cells)%list !! (S (length H) + i) = cells !! i.
Proof.
  rewrite lookup_app_r by lia.
  by replace (S (length H) + i - length H) with (S i) by lia.
Qed.

Lemma insert_after {A} (H : list A) c cells i c' :
  <[S (length H) + i := c']> (H ++ c :: cells)%list
  = (H ++ c :: <[i := c']> cells)%list.
Proof.
  rewrite insert_app_r_alt by lia.
  by replace (S (length H) + i - length H) with (S i) by lia.
Qed.

Lemma groupBy_loop h (getter : Evaluator) kv items gs :
  (forall x, In x items ->
     settled h getter x (kv x) /\ is_primitive (kv x) = true
     /\ plain_key (primitive_text (kv x)) = true) ->
  forM_ (fun item =>
           let* v := getter item in
           let* key := lift (fun h => ToPropertyKey h v) in
           group_push (length h) key item) items
    (h ++ CObject (group_refs (S (length h)) gs) :: group_cells gs)%list
  = (Ret tt,
     let gs' := fold_left (group_round (fun x => primitive_text (kv x)))
                  items gs in
     (h ++ CObject (group_refs (S (length h)) gs') :: group_cells gs')%list).
Proof.
  revert gs. induction items as [|x items IH]; intros gs Hx;
    cbn [forM_ fold_left]; [done|].
  destruct (Hx x ltac:(by left)) as (Hs & Hp & Hplain).
  set (kf := fun x => primitive_text (kv x)) in *.
  erewrite bind_Ret.
  2:{ erewrite bind_Ret by apply Hs.
      erewrite bind_Ret;
        [|unfold lift, ToPropertyKey;
          by rewrite (ToString_primitive_text _ _ Hp)].
      unfold group_push. erewrite bind_Ret;
        [|unfold read, lift; by rewrite lookup_middle].
      cbv beta iota.
      instantiate (1 := (h ++ CObject (group_refs (S (length h))
                                         (group_round kf gs x))
                           :: group_cells (group_round kf gs x))%list).
      instantiate (1 := tt). unfold group_round. fold (kf x).
      destruct (props_get (kf x) gs) as [g|] eqn:Eg.
      - destruct (group_refs_Some (S (length h)) gs (kf x) g Eg)
          as (i & -> & Hcell & Hset).
        destruct (Hset (g ++ [x])%list) as [-> ->].
        erewrite bind_Ret;
          [|unfold read, lift; by rewrite lookup_after, Hcell].
        cbv beta iota. unfold write. by rewrite insert_after.
      - rewrite (group_refs_None _ _ _ Eg).
        unfold plain_key in Hplain. fold (kf x) in Hplain.
        apply negb_true_iff in Hplain. rewrite Hplain.
        erewrite bind_Ret by reflexivity.
        change (?a ++ ?b :: ?c ++ [?d])%list with (a ++ b :: (c ++ [d]))%list.
        replace ((h ++ CObject (group_refs (S (length h)) gs)
                    :: group_cells gs) ++ [CArray [x]])%list
          with (h ++ CObject (group_refs (S (length h)) gs)
                  :: (group_cells gs ++ [CArray [x]]))%list
          by (by rewrite <- app_assoc).
        rewrite set_property_middle by (intros E; by rewrite E in Hplain).
        rewrite props_set_fresh by (by apply group_refs_None).
        rewrite group_refs_snoc. unfold group_cells.
        rewrite map_app, length_app. simpl. rewrite length_map.
        by replace (length h + S (length gs)) with (S (length h) + length gs)
          by lia. }
  apply IH. intros y Hy. apply Hx. by right.
Qed.

Lemma first_keys_In l k : In k (first_keys l) <-> In k l.
Proof.
  induction l as [|a l IH]; simpl; [done|]. rewrite filter_In, IH.
  destruct (String.eqb_spec k a) as [->|Hne]; simpl.
  - split; [intros [?|[? ?]]; by left | by left].
  - split; [intros [?|[? _]]; [by left|by right]|].
    intros [->|?]; [done|]. by right.
Qed.

Lemma first_keys_NoDup l : NoDup (first_keys l).
Proof.
  induction l as [|a l IH]; simpl; [apply NoDup_nil_2|].
  apply NoDup_cons. split.
  - intros Hin. apply list_elem_of_In, filter_In in Hin as [_ Hin].
    by rewrite String.eqb_refl in Hin.
  - apply NoDup_ListNoDup, List.NoDup_filter, NoDup_ListNoDup, IH.
Qed.

Lemma first_keys_snoc l k :
  first_keys (l ++ [k])
  = (first_keys l ++ if existsb (String.eqb k) l then [] else [k])%list.
Proof.
  induction l as [|a l IH]; simpl; [done|]. rewrite IH, List.filter_app.
  f_equal. f_equal. destruct (String.eqb_spec k a) as [->|Hne]; simpl.
  - destruct (existsb _ l); [done|]. simpl. by rewrite String.eqb_refl.
  - destruct (existsb _ l); [done|]. simpl.
    by destruct (String.eqb_spec k a).
Qed.

Lemma props_get_table {A} (F : string -> A) ks k :
  props_get k (map (fun k' => (k', F k')) ks)
  = if existsb (String.eqb k) ks then Some (F k) else None.
Proof.
  induction ks as [|a ks IH]; simpl; [done|]. rewrite String.eqb_sym.
  destruct (String.eqb_spec k a) as [->|]; simpl; [done|apply IH].
Qed.

Lemma props_set_table {A} (F : string -> A) ks k v :
  NoDup ks -> In k ks ->
  props_set k v (map (fun k' => (k', F k')) ks)
  = map (fun k' => (k', if (k' =? k)%string then v else F k')) ks.
Proof.
  induction ks as [|a ks IH]; simpl; [done|]. intros Hnd Hin.
  apply NoDup_cons in Hnd as [Hni Hnd].
  destruct (String.eqb_spec a k) as [->|Hne].
  - f_equal. apply map_ext_in. intros k' Hk'.
    destruct (String.eqb_spec k' k) as [->|]; [|done].
    destruct Hni. by apply list_elem_of_In.
  - f_equal. apply IH; [done|]. by destruct Hin.
Qed.

Lemma existsb_eqb_In k l : existsb (String.eqb k) l = true <-> In k l.
Proof.
  rewrite existsb_exists. split.
  - intros (x & Hx & E). apply String.eqb_eq in E. by subst.
  - intros H. exists k. split; [done|apply String.eqb_refl].
Qed.

Lemma group_round_groups kf pre x :
  group_round kf (groups_of kf pre) x = groups_of kf (pre ++ [x]).
Proof.
  unfold group_round, groups_of.
  rewrite props_get_table, map_app. cbn [map]. rewrite first_keys_snoc.
  assert (existsb (String.eqb (kf x)) (first_keys (map kf pre))
          = existsb (String.eqb (kf x)) (map kf pre)) as ->.
  { apply eq_true_iff_eq. rewrite !existsb_eqb_In. apply first_keys_In. }
  destruct (existsb (String.eqb (kf x)) (map kf pre)) eqn:E.
  - rewrite app_nil_r, props_set_table;
      [|apply first_keys_NoDup
       |by apply (proj2 (first_keys_In _ _)), (proj1 (existsb_eqb_In _ _))].
    apply map_ext. intros k. f_equal. rewrite List.filter_app. simpl.
    rewrite String.eqb_sym. destruct (String.eqb_spec (kf x) k) as [->|]; [done|].
    by rewrite app_nil_r.
  - rewrite map_app. cbn [map]. f_equal.
    + apply map_ext_in. intros k Hk. f_equal. rewrite List.filter_app. simpl.
      destruct (String.eqb_spec (kf x) k) as [E'|]; [|by rewrite app_nil_r].
      apply (proj1 (first_keys_In _ _)) in Hk. rewrite <- E' in Hk.
      apply (proj2 (existsb_eqb_In _ _)) in Hk. congruence.
    + f_equal. f_equal. rewrite List.filter_app. simpl.
      rewrite String.eqb_refl.
      assert (List.filter (fun x0 => (kf x0 =? kf x)%string) pre = []) as ->;
        [|done].
      destruct (List.filter _ pre) as [|y ys] eqn:Ef; [done|].
      assert (In y (List.filter (fun x0 => (kf x0 =? kf x)%string) pre)) as Hy
        by (rewrite Ef; by left).
      apply filter_In in Hy as [Hy Hk]. apply String.eqb_eq in Hk.
      assert (existsb (String.eqb (kf x)) (map kf pre) = true); [|congruence].
      apply existsb_eqb_In. rewrite <- Hk. by apply in_map.
Qed.

Lemma fold_group_round kf items pre :
  fold_left (group_round kf) items (groups_of kf pre)
  = groups_of kf (pre ++ items).
Proof.
  revert pre. induction items as [|x items IH]; intros pre; simpl.
  - by rewrite app_nil_r.
  - rewrite group_round_groups, IH. by rewrite <- app_assoc.
Qed.

Lemma map_fst_group_refs a gs : map fst (group_refs a gs) = map fst gs.
Proof.
  revert a. induction gs as [|[k g] gs IH]; intros a; simpl; [done|].
  by rewrite IH.
Qed.

(** X16: on an array, when the getter reads the store only and answers
    primitive values whose texts name no member of [Object.prototype],
    [groupBy] returns a new object with one property for every such text:
    a new array with the items of this key, in their order.  The
    properties are created in the order in which their keys occur first,
    and [Object.keys] lists the keys of the new object by its own rule:
    those that are array indices first, in ascending order, then the others
    in the order of their first occurrence. *)
Theorem groupBy_partitions_the_items
  (c : json -> outcome Evaluator) q getter h l items kv :
  c q = Ret getter -> h !! l = Some (CArray items) ->
  (forall x, In x items ->
     settled h getter x (kv x) /\ is_primitive (kv x) = true
     /\ plain_key (primitive_text (kv x)) = true) ->
  let kf x := primitive_text (kv x) in
  let keys := first_keys (map kf items) in
  exists ev props cells,
    let h' := (h ++ CObject props :: cells)%list in
    functions_groupBy c [q] = Ret ev
    /\ ev (VRef l) h = (Ret (VRef (length h)), h')
    /\ map fst props = keys
    /\ Object_keys (VRef (length h)) h' = (Ret (key_order keys), h')
    /\ forall k, In k (map kf items) ->
         exists a,
           props_get k props = Some (VRef a)
           /\ h' !! a
              = Some (CArray (List.filter (fun x => (kf x =? k)%string) items)).
Proof.
  intros Hc Hl Hx kf keys.
  assert (map fst (group_refs (S (length h)) (groups_of kf items)) = keys)
    as Hkeys.
  { rewrite map_fst_group_refs. unfold groups_of. rewrite map_map.
    by rewrite map_id. }
  exists (built (functions_groupBy c [q])),
    (group_refs (S (length h)) (groups_of kf items)),
    (group_cells (groups_of kf items)).
  unfold functions_groupBy. simpl. rewrite Hc. simpl.
  split; [done|]. split; [|split; [exact Hkeys|split]].
  - unfold for_items.
    erewrite bind_Ret; [|unfold lift, iterate; by rewrite Hl].
    erewrite bind_Ret by reflexivity. cbv beta iota.
    erewrite bind_Ret
      by (by apply (groupBy_loop h getter kv items [])).
    cbv zeta. fold kf.
    pose proof (fold_group_round kf items []) as Hf.
    change (groups_of kf []) with (@nil (string * list value)) in Hf.
    rewrite app_nil_l in Hf. by rewrite Hf.
  - by rewrite Object_keys_new, Hkeys.
  - intros k Hk.
    assert (props_get k (groups_of kf items)
            = Some (List.filter (fun x => (kf x =? k)%string) items)) as Hg.
    { unfold groups_of. rewrite props_get_table.
      assert (existsb (String.eqb k) (first_keys (map kf items)) = true) as ->;
        [|done].
      by apply existsb_eqb_In, first_keys_In. }
    destruct (group_refs_Some (S (length h)) _ _ _ Hg) as (i & Hr & Hcell & _).
    exists (S (length h) + i). split; [done|]. by rewrite lookup_after.
Qed.

Lemma sample_plain_settled x :
  In x [VRef 0; VRef 1; VRef 2] ->
  settled sample_plain (built (compile (get_ ["id"]))) x (sample_field "id" x)
  /\ is_primitive (sample_field "id" x) = true
  /\ plain_key (primitive_text (sample_field "id" x)) = true.
Proof.
  simpl. intros [<-|[<-|[<-|[]]]]; (split; [intros more|split]); reflexivity.
Qed.

Lemma groupBy_partitions_the_items_witness :
  exists ev props cells,
    let h' := (sample_plain ++ CObject props :: cells)%list in
    functions_groupBy compile [get_ ["id"]] = Ret ev
    /\ ev (VRef 5) sample_plain = (Ret (VRef 6), h')
    /\ map fst props = ["2"; "1"]
    /\ Object_keys (VRef 6) h' = (Ret ["1"; "2"], h')
    /\ exists a,
         props_get "2" props = Some (VRef a)
         /\ h' !! a = Some (CArray [VRef 0; VRef 2]).
Proof.
  destruct (groupBy_partitions_the_items compile (get_ ["id"]) _ sample_plain
              5 _ (sample_field "id") eq_refl eq_refl sample_plain_settled)
    as (ev & props & cells & Hev & Hrun & Hmade & Hkeys & Hgroups).
  exists ev, props, cells. split; [exact Hev|]. split; [exact Hrun|].
  split; [exact Hmade|]. split; [exact Hkeys|]. apply (Hgroups "2"). by left.
Defined.

Lemma bind_Throw {A B} (m : M A) (f : A -> M B) h e h' :
  m h = (Throw e, h') -> bind m f h = (Throw e, h').
Proof. unfold bind. by intros ->. Qed.

Lemma forM_app {A} (f : A -> M unit) l1 l2 h :
  forM_ f (l1 ++ l2) h = (let* _ := forM_ f l1 in forM_ f l2) h.
Proof.
  revert h. induction l1 as [|a l1 IH]; intros h; simpl; [done|].
  unfold bind in *. destruct (f a h) as [[[]|e|w] h']; [apply IH|done|done].
Qed.

(** X17: [groupBy] throws a [TypeError] at the first item whose key names a
    member of [Object.prototype], such as [constructor] or [toString]:
    [res[value]] is then an inherited member, which is truthy and has no
    [push]. *)
Theorem groupBy_throws_on_an_inherited_key
  (c : json -> outcome Evaluator) q getter h l before x after kv :
  c q = Ret getter -> h !! l = Some (CArray (before ++ x :: after)) ->
  (forall y, In y before ->
     settled h getter y (kv y) /\ is_primitive (kv y) = true
     /\ plain_key (primitive_text (kv y)) = true) ->
  settled h getter x (kv x) -> is_primitive (kv x) = true ->
  plain_key (primitive_text (kv x)) = false ->
  exists ev h',
    functions_groupBy c [q] = Ret ev
    /\ ev (VRef l) h = (Throw (not_a_function "res[value].push"), h').
Proof.
  intros Hc Hl Hb Hs Hp Hplain.
  set (kf := fun x => primitive_text (kv x)).
  set (gs := groups_of kf before).
  exists (built (functions_groupBy c [q])),
    (h ++ CObject (group_refs (S (length h)) gs) :: group_cells gs)%list.
  unfold functions_groupBy. simpl. rewrite Hc. simpl. split; [done|].
  unfold for_items.
  erewrite bind_Ret; [|unfold lift, iterate; by rewrite Hl].
  erewrite bind_Ret by reflexivity. cbv beta iota.
  apply bind_Throw. rewrite forM_app.
  erewrite bind_Ret by (by apply (groupBy_loop h getter kv before [])).
  cbv zeta. fold kf.
  pose proof (fold_group_round kf before []) as Hf.
  change (groups_of kf []) with (@nil (string * list value)) in Hf.
  rewrite app_nil_l in Hf. rewrite Hf. fold gs.
  cbn [forM_]. apply bind_Throw.
  erewrite bind_Ret by apply Hs.
  erewrite bind_Ret;
    [|unfold lift, ToPropertyKey; by rewrite (ToString_primitive_text _ _ Hp)].
  unfold group_push. erewrite bind_Ret;
    [|unfold read, lift; by rewrite lookup_middle].
  cbv beta iota.
  assert (props_get (primitive_text (kv x)) gs = None) as Hnone.
  { subst gs. unfold groups_of. rewrite props_get_table.
    destruct (existsb _ _) eqn:E; [|done].
    apply existsb_eqb_In, first_keys_In, in_map_iff in E as (y & Hy & Hin).
    destruct (Hb y Hin) as (_ & _ & Hpl).
    unfold kf in Hy. rewrite Hy in Hpl. congruence. }
  rewrite (group_refs_None _ _ _ Hnone).
  unfold plain_key in Hplain. apply negb_false_iff in Hplain.
  by rewrite Hplain.
Qed.

Lemma groupBy_throws_on_an_inherited_key_witness :
  exists ev h',
    functions_groupBy compile [get_ ["id"]] = Ret ev
    /\ ev (VRef 4) sample_rows = (Throw (not_a_function "res[value].push"), h').
Proof.
  refine (groupBy_throws_on_an_inherited_key compile (get_ ["id"]) _
            sample_rows 4 [VRef 0; VRef 1; VRef 2] (VRef 3) []
            (sample_field "id") eq_refl eq_refl _ _ eq_refl eq_refl).
  - simpl. intros y [<-|[<-|[<-|[]]]];
      (split; [intros more|split]); reflexivity.
  - intros more. reflexivity.
Defined.

(** ** [sort] *)

Lemma SFcompare_antisym x y :
  SFcompare y x = option_map CompOpp (SFcompare x y).
Proof.
  destruct x as [[]|[]| |[] m e], y as [[]|[]| |[] m' e']; try reflexivity;
    simpl; rewrite (Z.compare_antisym e e'), (ZC4 m' m);
    destruct (e ?= e')%Z; simpl; try reflexivity;
    by destruct (Pos.compare_cont Eq m m').
Qed.

Lemma ltb_asym x y : Num.ltb x y = true -> Num.ltb y x = false.
Proof.
  unfold Num.ltb, SFltb. rewrite (SFcompare_antisym x y).
  by destruct (SFcompare x y) as [[]|].
Qed.

Lemma string_ltb_asym (a b : string) :
  (a <? b)%string = true -> (b <? a)%string = false.
Proof.
  unfold String.ltb. rewrite (String.compare_antisym b a).
  by destruct (a ?= b)%string.
Qed.

Lemma less_numbers a b :
  match a, b with VString _, VString _ => False | _, _ => True end ->
  less a b
  = negb (is_nan (primitive_number a) || is_nan (primitive_number b))
    && Num.ltb (primitive_number a) (primitive_number b).
Proof.
  unfold less, primitive_less.
  destruct a, b; try done; intros _;
    by destruct (is_nan _ || is_nan _).
Qed.

Lemma less_asym a b : less a b = true -> less b a = false.
Proof.
  destruct a as [| | | |s|], b as [| | | |t|].
  all: try (rewrite !less_numbers by done;
            intros H; apply andb_true_iff in H as [Hn Hl];
            rewrite (ltb_asym _ _ Hl); apply andb_false_r).
  unfold less. simpl. apply string_ltb_asym.
Qed.

Lemma goes_after_asc kx ky : goes_after 1 kx ky = less ky kx.
Proof.
  unfold goes_after. destruct (less ky kx); [done|]. by destruct (less kx ky).
Qed.

Lemma goes_after_desc kx ky : goes_after (-1) kx ky = less kx ky.
Proof.
  unfold goes_after. destruct (less ky kx) eqn:E.
  - by rewrite (less_asym _ _ E).
  - by destruct (less kx ky).
Qed.

Lemma goes_after_asym sign kx ky :
  sign = 1%Z \/ sign = (-1)%Z ->
  goes_after sign kx ky = true -> goes_after sign ky kx = false.
Proof.
  intros [->| ->]; rewrite ?goes_after_asc, ?goes_after_desc; apply less_asym.
Qed.

Lemma insert_by_Permutation kv sign x sorted :
  Permutation (insert_by kv sign x sorted) (x :: sorted).
Proof.
  induction sorted as [|y r IH]; simpl; [done|].
  destruct (goes_after sign (kv x) (kv y)); [|done].
  rewrite IH. apply perm_swap.
Qed.

Lemma in_order_cons {A} (R : A -> A -> bool) a b r :
  in_order R (a :: b :: r) = R a b && in_order R (b :: r).
Proof. reflexivity. Qed.

Lemma insert_by_in_order kv sign x sorted :
  sign = 1%Z \/ sign = (-1)%Z ->
  in_order (fun a b => negb (goes_after sign (kv a) (kv b))) sorted = true ->
  in_order (fun a b => negb (goes_after sign (kv a) (kv b)))
    (insert_by kv sign x sorted) = true.
Proof.
  intros Hs. set (R := fun a b => negb (goes_after sign (kv a) (kv b))).
  induction sorted as [|y r IH]; [done|].
  intros Ho. cbn [insert_by].
  destruct (goes_after sign (kv x) (kv y)) eqn:E.
  - assert (R y x = true) as Hyx
      by (unfold R; by rewrite (goes_after_asym sign _ _ Hs E)).
    destruct r as [|z r]; cbn [insert_by] in *.
    + rewrite in_order_cons, Hyx. done.
    + rewrite in_order_cons in Ho. apply andb_true_iff in Ho as [Hyz Hr].
      specialize (IH Hr).
      destruct (goes_after sign (kv x) (kv z)) eqn:Ez.
      * by rewrite in_order_cons, Hyz.
      * by rewrite in_order_cons, Hyx.
  - rewrite in_order_cons, Ho. unfold R. by rewrite E.
Qed.

Lemma goes_after_same sign kx :
  sign = 1%Z \/ sign = (-1)%Z -> goes_after sign kx kx = false.
Proof.
  intros Hs. destruct (goes_after sign kx kx) eqn:E; [|done].
  by rewrite (goes_after_asym sign _ _ Hs E) in E.
Qed.

Lemma insert_by_stable kv sign x sorted (f : value -> bool) :
  sign = 1%Z \/ sign = (-1)%Z ->
  (forall y, kv y = kv x -> f y = f x) ->
  (forall y, f x = true -> f y = true -> kv y = kv x) ->
  List.filter f (insert_by kv sign x sorted)
  = List.filter f (x :: sorted).
Proof.
  intros Hs Hf Hk. induction sorted as [|y r IH]; [done|].
  cbn [insert_by]. destruct (goes_after sign (kv x) (kv y)) eqn:E; [|done].
  cbn [List.filter] in *. rewrite IH.
  destruct (f x) eqn:Ex; [|done]. destruct (f y) eqn:Ey; [|done].
  rewrite (Hk y eq_refl Ey) in E. by rewrite goes_after_same in E.
Qed.

Lemma js_gt_less h a b :
  is_primitive a = true -> is_primitive b = true ->
  js_gt h a b = Ret (less b a).
Proof.
  intros Ha Hb. unfold js_gt, less. rewrite IsLessThan_primitive by done.
  simpl. by destruct (primitive_less b a) as [[]|].
Qed.

Lemma js_lt_less h a b :
  is_primitive a = true -> is_primitive b = true ->
  js_lt h a b = Ret (less a b).
Proof.
  intros Ha Hb. unfold js_lt, less. rewrite IsLessThan_primitive by done.
  simpl. by destruct (primitive_less a b) as [[]|].
Qed.

Lemma sort_compare_settled h (getter : Evaluator) kv sign a b more :
  settled h getter a (kv a) -> is_primitive (kv a) = true ->
  settled h getter b (kv b) -> is_primitive (kv b) = true ->
  sort_compare getter sign a b (h ++ more)%list
  = (Ret (if less (kv b) (kv a) then sign
          else if less (kv a) (kv b) then (- sign)%Z else 0%Z),
     (h ++ more)%list).
Proof.
  intros Ha Hpa Hb Hpb. unfold sort_compare.
  erewrite bind_Ret by apply Ha. erewrite bind_Ret by apply Hb.
  erewrite bind_Ret; [|unfold lift; by rewrite js_gt_less].
  destruct (less (kv b) (kv a)); [done|].
  erewrite bind_Ret; [|unfold lift; by rewrite js_lt_less].
  by destruct (less (kv a) (kv b)).
Qed.

Lemma insert_sorted_settled h (getter : Evaluator) kv sign x sorted more :
  (forall y, In y (x :: sorted) ->
     y <> VUndefined /\ settled h getter y (kv y)
     /\ is_primitive (kv y) = true) ->
  insert_sorted (sort_compare getter sign) x sorted (h ++ more)%list
  = (Ret (insert_by kv sign x sorted), (h ++ more)%list).
Proof.
  induction sorted as [|y r IH]; intros H; [done|].
  cbn [insert_sorted insert_by].
  destruct (H x ltac:(by left)) as (Hx & Hsx & Hpx).
  destruct (H y ltac:(right; by left)) as (Hy & Hsy & Hpy).
  erewrite bind_Ret.
  2:{ unfold SortCompare.
      assert (match x, y with
              | VUndefined, VUndefined => ret 0%Z
              | VUndefined, _ => ret 1%Z
              | _, VUndefined => ret (-1)%Z
              | _, _ => sort_compare getter sign x y
              end = sort_compare getter sign x y) as ->
        by (destruct x; try done; destruct y; done).
      by apply sort_compare_settled. }
  fold (goes_after sign (kv x) (kv y)).
  destruct (goes_after sign (kv x) (kv y)); [|done].
  erewrite bind_Ret; [done|]. apply IH.
  intros z [<-|Hz]; apply H; [by left | right; by right].
Qed.

Lemma sort_list_settled h (getter : Evaluator) kv sign items more :
  (forall y, In y items ->
     y <> VUndefined /\ settled h getter y (kv y)
     /\ is_primitive (kv y) = true) ->
  sort_list (sort_compare getter sign) items (h ++ more)%list
  = (Ret (sorted_by kv sign items), (h ++ more)%list).
Proof.
  induction items as [|x items IH]; intros H; [done|].
  cbn [sort_list]. erewrite bind_Ret
    by (apply IH; intros; apply H; by right).
  apply insert_sorted_settled.
  intros y [<-|Hy]; [apply H; by left|].
  apply H. right.
  eapply Permutation_in; [|exact Hy].
  clear. induction items as [|z items IH]; [done|].
  simpl. by rewrite insert_by_Permutation, IH.
Qed.

Lemma sorted_by_Permutation kv sign items :
  Permutation (sorted_by kv sign items) items.
Proof.
  induction items as [|z items IH]; [done|].
  simpl. by rewrite insert_by_Permutation, IH.
Qed.

Lemma in_order_positions {A} (R : A -> A -> bool) l :
  (forall a b c, In a l -> In b l -> In c l ->
     R a b = true -> R b c = true -> R a c = true) ->
  in_order R l = true ->
  forall i j a b, i < j -> l !! i = Some a -> l !! j = Some b -> R a b = true.
Proof.
  induction l as [|x l IH]; intros Htrans Ho i j a b Hij Ha Hb; [done|].
  assert (in_order R l = true) as Hl.
  { destruct l; [done|]. rewrite in_order_cons in Ho.
    by apply andb_true_iff in Ho as [_ ?]. }
  assert (forall a b c, In a l -> In b l -> In c l ->
            R a b = true -> R b c = true -> R a c = true) as Htl.
  { intros ? ? ? ? ? ?. apply Htrans; by right. }
  destruct i as [|i].
  - injection Ha as ->. destruct j as [|j]; [lia|]. simpl in Hb.
    clear Hij. destruct l as [|y l]; [done|].
    rewrite in_order_cons in Ho. apply andb_true_iff in Ho as [Hay _].
    destruct j as [|j]; [by injection Hb as ->|].
    apply (Htrans a y b); [by left|right; by left| |done|].
    + right. eapply list_elem_of_In, list_elem_of_lookup_2. exact Hb.
    + apply (IH Htl Hl 0 (S j) y b); [lia|done|done].
  - destruct j as [|j]; [lia|]. simpl in Ha, Hb.
    apply (IH Htl Hl i j); [lia|done|done].
Qed.

Lemma string_ltb_false_trans (a b c : string) :
  (a <? b)%string = false -> (b <? c)%string = false ->
  (a <? c)%string = false.
Proof.
  unfold String.ltb. revert b c.
  induction a as [|x a IH]; intros [|y b] [|z c]; simpl; try done.
  unfold Ascii.compare.
  destruct (N.compare_spec (N_of_ascii x) (N_of_ascii y)),
    (N.compare_spec (N_of_ascii y) (N_of_ascii z)),
    (N.compare_spec (N_of_ascii x) (N_of_ascii z));
    try done; try lia; apply IH.
Qed.

Lemma less_irrefl a : less a a = false.
Proof. destruct (less a a) eqn:E; [|done]. by rewrite (less_asym _ _ E) in E. Qed.

(** On keys of one kind, what is not less than what is not less is not
    less. *)
Lemma less_false_trans keys a b c :
  same_kind keys = true -> In a keys -> In b keys -> In c keys ->
  less a b = false -> less b c = false -> less a c = false.
Proof.
  unfold same_kind. intros H Ha Hb Hc.
  apply orb_true_iff in H as [H|H]; rewrite forallb_forall in H;
    pose proof (H a Ha) as Ka; pose proof (H b Hb) as Kb;
    pose proof (H c Hc) as Kc;
    destruct a as [| | |x| |]; try done;
    destruct b as [| | |y| |]; try done;
    destruct c as [| | |z| |]; try done.
  - unfold less, primitive_less. simpl in *.
    apply negb_true_iff in Ka, Kb, Kc. rewrite Ka, Kb, Kc. simpl.
    intros H1 H2. by apply (ltb_false_trans z y x).
  - unfold less, primitive_less. apply string_ltb_false_trans.
Qed.

Lemma compare_keys_goes_after sign kx ky :
  goes_after sign kx ky = (0 <? compare_keys sign kx ky)%Z.
Proof. reflexivity. Qed.

(** What the sort sees of [compare] on two items with settled keys. *)
Lemma compared_settled h (getter : Evaluator) kv sign a b more :
  a <> VUndefined -> settled h getter a (kv a) -> is_primitive (kv a) = true ->
  b <> VUndefined -> settled h getter b (kv b) -> is_primitive (kv b) = true ->
  compared (sort_compare getter sign) (h ++ more)%list a b
  = Some (compare_keys sign (kv a) (kv b)).
Proof.
  intros Ha Hsa Hpa Hb Hsb Hpb. unfold compared, SortCompare.
  assert (match a, b with
          | VUndefined, VUndefined => ret 0%Z
          | VUndefined, _ => ret 1%Z
          | _, VUndefined => ret (-1)%Z
          | _, _ => sort_compare getter sign a b
          end = sort_compare getter sign a b) as ->
    by (destruct a; try done; destruct b; done).
  by rewrite (sort_compare_settled h getter kv sign a b more).
Qed.

Ltac decide_order :=
  repeat match goal with
         | H : true = true -> _ |- _ => specialize (H eq_refl)
         | H : false = false -> _ |- _ => specialize (H eq_refl)
         end;
  try discriminate; try reflexivity.

(** The comparator of [sort] is consistent on items whose keys are ordered
    by [less] as a strict weak order. *)
Lemma consistent_weak_order cmp items (kv : value -> value) sign :
  sign = 1%Z \/ sign = (-1)%Z ->
  (forall x y, In x items -> In y items ->
     cmp x y = Some (compare_keys sign (kv x) (kv y))) ->
  (forall a b c, In a items -> In b items -> In c items ->
     less (kv a) (kv b) = false -> less (kv b) (kv c) = false ->
     less (kv a) (kv c) = false) ->
  consistent cmp items = true.
Proof.
  intros Hs Hcmp Hnt. unfold consistent.
  apply forallb_forall. intros a Ha. apply forallb_forall. intros b Hb.
  apply forallb_forall. intros c Hc. unfold consistent_at.
  rewrite !Hcmp by done. unfold compare_keys. rewrite !less_irrefl.
  pose proof (less_asym (kv a) (kv b)) as A1.
  pose proof (less_asym (kv b) (kv a)) as A2.
  pose proof (less_asym (kv b) (kv c)) as A3.
  pose proof (less_asym (kv c) (kv b)) as A4.
  pose proof (less_asym (kv a) (kv c)) as A5.
  pose proof (less_asym (kv c) (kv a)) as A6.
  pose proof (Hnt a b c Ha Hb Hc) as N1.
  pose proof (Hnt a c b Ha Hc Hb) as N2.
  pose proof (Hnt b a c Hb Ha Hc) as N3.
  pose proof (Hnt b c a Hb Hc Ha) as N4.
  pose proof (Hnt c a b Hc Ha Hb) as N5.
  pose proof (Hnt c b a Hc Hb Ha) as N6.
  destruct Hs as [-> | ->];
    destruct (less (kv a) (kv b)), (less (kv b) (kv a)),
      (less (kv b) (kv c)), (less (kv c) (kv b)),
      (less (kv a) (kv c)), (less (kv c) (kv a));
    decide_order.
Qed.

Lemma consistent_all_equal cmp items :
  (forall x y, In x items -> In y items -> cmp x y = Some 0%Z) ->
  consistent cmp items = true.
Proof.
  intros H. unfold consistent.
  apply forallb_forall. intros a Ha. apply forallb_forall. intros b Hb.
  apply forallb_forall. intros c Hc. unfold consistent_at.
  by rewrite !H.
Qed.

(** [sort] of an array whose keys are of one kind: the stable sort. *)
Lemma Array_sort_settled h (getter : Evaluator) kv sign items more :
  sign = 1%Z \/ sign = (-1)%Z ->
  (forall y, In y items ->
     y <> VUndefined /\ settled h getter y (kv y)
     /\ is_primitive (kv y) = true) ->
  same_kind (map kv items) = true ->
  Array_sort (sort_compare getter sign) items (h ++ more)%list
  = (Ret (sorted_by kv sign items), (h ++ more)%list).
Proof.
  intros Hs H Hk. unfold Array_sort.
  erewrite bind_Ret by (by apply sort_list_settled).
  unfold lift. destruct items as [|x [|y r]]; try reflexivity.
  rewrite (consistent_weak_order _ _ kv sign); [done|done| |].
  - intros a b Ha Hb.
    destruct (H a Ha) as (? & ? & ?), (H b Hb) as (? & ? & ?).
    by apply compared_settled.
  - intros a b c Ha Hb Hc.
    apply (less_false_trans (map kv (x :: y :: r))); [done| | |];
      by apply in_map.
Qed.

(** The order [sort] gives to an array whose keys are of one kind. *)
Lemma sorted_by_in_order kv sign items :
  sign = 1%Z \/ sign = (-1)%Z ->
  in_order (fun a b => negb (goes_after sign (kv a) (kv b)))
    (sorted_by kv sign items) = true.
Proof.
  intros Hs. induction items as [|x items IH]; [done|].
  simpl. by apply insert_by_in_order.
Qed.

Lemma sorted_by_stable kv sign items k :
  sign = 1%Z \/ sign = (-1)%Z ->
  List.filter (has_key kv k) (sorted_by kv sign items)
  = List.filter (has_key kv k) items.
Proof.
  intros Hs. induction items as [|x items IH]; [done|].
  cbn [sorted_by fold_right]. fold (sorted_by kv sign items).
  rewrite insert_by_stable; [cbn [List.filter]; by rewrite IH|done| |].
  - intros y Hy. unfold has_key. by rewrite Hy.
  - unfold has_key. intros y. destruct (value_eq_dec (kv x) k); [|done].
    destruct (value_eq_dec (kv y) k); [congruence|done].
Qed.

Lemma sorted_by_positions kv sign items :
  sign = 1%Z \/ sign = (-1)%Z ->
  same_kind (map kv items) = true ->
  forall i j a b,
    i < j -> sorted_by kv sign items !! i = Some a ->
    sorted_by kv sign items !! j = Some b ->
    goes_after sign (kv a) (kv b) = false.
Proof.
  intros Hs Hk i j a b Hij Ha Hb. apply negb_true_iff.
  refine (in_order_positions _ _ _ (sorted_by_in_order kv sign items Hs)
            i j a b Hij Ha Hb).
  intros u v w Hu Hv Hw.
  assert (forall y, In y (sorted_by kv sign items) -> In (kv y) (map kv items))
    as Hin.
  { intros y Hy. apply in_map.
    eapply Permutation_in; [apply sorted_by_Permutation|done]. }
  rewrite !negb_true_iff.
  pose proof (less_false_trans _ (kv u) (kv v) (kv w) Hk
                (Hin u Hu) (Hin v Hv) (Hin w Hw)) as T1.
  pose proof (less_false_trans _ (kv w) (kv v) (kv u) Hk
                (Hin w Hw) (Hin v Hv) (Hin u Hu)) as T2.
  destruct Hs as [-> | ->]; rewrite ?goes_after_asc, ?goes_after_desc; auto.
Qed.

(** C7, amended.  The comparison operators and [sort] use JavaScript's
    relational comparison.  On primitive operands: two Strings compare by
    code units; any other pair is compared as numbers after conversion
    (Null is 0, false is 0, true is 1, a String is parsed), and a pair in
    which a side converts to NaN makes all four operators false.  [sort]'s
    comparator returns 0 exactly for the pairs that are neither greater nor
    less.  [sort] returns a new array: an array whose elements are
    pairwise neither greater nor less keeps its order, and an array of
    numbers other than NaN, or of strings, comes out in ascending order,
    equal elements in the order of the input.  On mixed values the
    comparison need not be an order: 1 is less than ["2"] and ["2"] less
    than ["a"], while 1 and ["a"] are neither less nor greater. *)
Theorem ordering_is_javascript a b h :
  is_primitive a = true -> is_primitive b = true ->
  js_lt h a b = Ret (match primitive_less a b with Some r => r | None => false end)
  /\ js_gt h a b
     = Ret (match primitive_less b a with Some r => r | None => false end)
  /\ js_lte h a b
     = Ret (match primitive_less b a with Some r => negb r | None => false end)
  /\ js_gte h a b
     = Ret (match primitive_less a b with Some r => negb r | None => false end)
  /\ (forall x s, a = VNumber x -> b = VString s ->
                  is_nan (StringToNumber s) = true ->
                  primitive_less a b = None /\ primitive_less b a = None)
  /\ (forall (getter : Evaluator) sign itemA itemB,
        getter itemA h = (Ret a, h) -> getter itemB h = (Ret b, h) ->
        sort_compare getter sign itemA itemB h
        = (Ret (match primitive_less b a, primitive_less a b with
                | Some true, _ => sign
                | _, Some true => (- sign)%Z
                | _, _ => 0%Z
                end), h))
  /\ (forall ev l items,
        functions_sort compile [] = Ret ev ->
        h !! l = Some (CArray items) ->
        Forall (fun x => x <> VUndefined) items ->
        (forall x y, In x items -> In y items -> unordered x y) ->
        ev (VRef l) h
        = (Ret (VRef (length h)), (h ++ [CArray items])%list))
  /\ (forall ev l items,
        functions_sort compile [] = Ret ev ->
        h !! l = Some (CArray items) ->
        same_kind items = true ->
        exists sorted,
          ev (VRef l) h
          = (Ret (VRef (length h)), (h ++ [CArray sorted])%list)
          /\ Permutation sorted items
          /\ (forall i j x y,
                i < j -> sorted !! i = Some x -> sorted !! j = Some y ->
                less y x = false)
          /\ (forall k,
                List.filter (fun x => if value_eq_dec x k then true else false)
                  sorted
                = List.filter (fun x => if value_eq_dec x k then true else false)
                    items))
  /\ (less (VNumber (of_Z 1)) (VString "2") = true
      /\ less (VString "2") (VString "a") = true
      /\ less (VNumber (of_Z 1)) (VString "a") = false
      /\ less (VString "a") (VNumber (of_Z 1)) = false).
Proof.
  intros Ha Hb. unfold js_lt, js_gt, js_lte, js_gte.
  rewrite !IsLessThan_primitive by done. simpl.
  split; [by destruct (primitive_less a b) as [[]|]|].
  split; [by destruct (primitive_less b a) as [[]|]|].
  split; [by destruct (primitive_less b a) as [[]|]|].
  split; [by destruct (primitive_less a b) as [[]|]|].
  split.
  { intros x s -> -> Hs. unfold primitive_less. simpl. rewrite Hs.
    by rewrite orb_true_r. }
  split.
  { intros getter sign itemA itemB Ea Eb.
    unfold sort_compare, bind at 1. rewrite Ea. unfold bind at 1. rewrite Eb.
    unfold bind, lift, js_gt, js_lt, ret.
    rewrite !IsLessThan_primitive by done. simpl.
    destruct (primitive_less b a) as [[]|]; try done;
      rewrite IsLessThan_primitive by done; simpl;
      by destruct (primitive_less a b) as [[]|]. }
  split.
  { intros ev l items [= <-] Hl Hu Hun.
    unfold bind at 1. rewrite (sort_copy h l items Hl).
    set (h1 := (h ++ [CArray items])%list).
    assert (h1 !! length h = Some (CArray items)) as Hl1.
    { subst h1. by rewrite lookup_app_r, Nat.sub_diag by lia. }
    unfold bind at 1, read, lift. rewrite Hl1.
    assert (forall x y, In x items -> In y items ->
              sort_compare (fun data => ret (or_null data)) 1 x y h1
              = (Ret 0%Z, h1)) as Hzero.
    { intros x y Hx Hy. destruct (Hun x y Hx Hy h1) as [Hgt Hlt].
      assert (or_null x = x /\ or_null y = y) as [Ex Ey].
      { rewrite List.Forall_forall in Hu.
        pose proof (Hu x Hx). pose proof (Hu y Hy). by destruct x, y. }
      unfold sort_compare, bind, ret, lift. simpl. rewrite Ex, Ey.
      by rewrite Hgt, Hlt. }
    unfold bind at 1, Array_sort. unfold bind at 1.
    rewrite sort_list_unordered by done.
    assert (lift (fun h0 : heap =>
                    match items with
                    | [] | [_] => Ret items
                    | _ :: _ :: _ =>
                        if consistent
                             (compared
                                (sort_compare
                                   (fun data => ret (or_null data)) 1) h0)
                             items
                        then Ret items
                        else Beyond
                               "sort order with a comparator that is not consistent"
                    end) h1 = (Ret items, h1)) as ->.
    { unfold lift. destruct items as [|x [|y r]]; try reflexivity.
      rewrite consistent_all_equal; [done|].
      intros u v Hin Hin'. unfold compared, SortCompare.
      rewrite List.Forall_forall in Hu.
      pose proof (Hu u Hin). pose proof (Hu v Hin').
      assert (match u, v with
              | VUndefined, VUndefined => ret 0%Z
              | VUndefined, _ => ret 1%Z
              | _, VUndefined => ret (-1)%Z
              | _, _ => sort_compare (fun data => ret (or_null data)) 1 u v
              end = sort_compare (fun data => ret (or_null data)) 1 u v) as ->
        by (destruct u; try done; destruct v; done).
      by rewrite Hzero. }
    unfold bind, write, ret. by rewrite list_insert_id. }
  split.
  { intros ev l items [= <-] Hl Hk.
    assert (forall y, In y items ->
              y <> VUndefined
              /\ settled h (fun data => ret (or_null data)) y y
              /\ is_primitive y = true) as Hitems.
    { intros y Hy. unfold same_kind in Hk.
      apply orb_true_iff in Hk as [Hk|Hk]; rewrite forallb_forall in Hk;
        specialize (Hk y Hy); destruct y; try done;
        (split; [done|split; [intros more; reflexivity|done]]). }
    exists (sorted_by (fun x => x) 1 items).
    split; [|split; [|split]].
    - erewrite bind_Ret by (by apply sort_copy).
      cbv beta iota. erewrite bind_Ret;
        [|unfold read, lift; by rewrite lookup_middle].
      cbv beta iota.
      erewrite bind_Ret.
      2:{ apply (Array_sort_settled h _ (fun x => x) 1 items [CArray items]);
            [by left|done|by rewrite map_id]. }
      unfold bind, write, ret. by rewrite insert_middle.
    - apply sorted_by_Permutation.
    - intros i j x y Hij Hx Hy. rewrite <- goes_after_asc.
      apply (sorted_by_positions (fun x => x) 1 items) with (i := i) (j := j);
        [by left|by rewrite map_id|done|done|done].
    - intros k. apply (sorted_by_stable (fun x => x) 1 items k). by left. }
  repeat split; vm_compute; reflexivity.
Qed.

Lemma ordering_is_javascript_witness :
  is_primitive (VNumber (of_Z 1)) = true
  /\ is_primitive (VString "a") = true
  /\ js_lt [] (VNumber (of_Z 1)) (VString "a") = Ret false
  /\ js_gt [] (VNumber (of_Z 1)) (VString "a") = Ret false
  /\ js_lte [] (VNumber (of_Z 1)) (VString "a") = Ret false
  /\ js_gte [] (VNumber (of_Z 1)) (VString "a") = Ret false
  /\ built (functions_sort compile [])
       (VRef 0) [CArray [VNumber (of_Z 1); VString "a"; VBool true]]
     = (Ret (VRef 1),
        [CArray [VNumber (of_Z 1); VString "a"; VBool true];
         CArray [VNumber (of_Z 1); VString "a"; VBool true]]).
Proof.
  split; [reflexivity|]. split; [reflexivity|].
  destruct (ordering_is_javascript (VNumber (of_Z 1)) (VString "a") []
              eq_refl eq_refl) as (H1 & H2 & H3 & H4 & _).
  split; [exact H1|]. split; [exact H2|]. split; [exact H3|].
  split; [exact H4|].
  destruct (ordering_is_javascript (VNumber (of_Z 1)) (VString "a")
              [CArray [VNumber (of_Z 1); VString "a"; VBool true]]
              eq_refl eq_refl) as (_ & _ & _ & _ & _ & _ & H6 & _).
  apply (H6 (built (functions_sort compile [])) 0
           [VNumber (of_Z 1); VString "a"; VBool true]).
  - reflexivity.
  - reflexivity.
  - repeat constructor; discriminate.
  - intros x y Hx Hy h.
    simpl in Hx, Hy.
    destruct Hx as [<-|[<-|[<-|[]]]], Hy as [<-|[<-|[<-|[]]]];
      split; reflexivity.
Defined.

(** X18: on an array without [undefined] items, when the getter reads the
    store only and the keys it answers are all numbers other than [NaN],
    or all strings, [sort] returns a new array with the same items in
    which no item is followed, anywhere, by one with a smaller key (a
    greater key, for the direction [desc]); the items with one and the
    same key keep the order they have in the input. *)
Theorem sort_orders_the_items
  (c : json -> outcome Evaluator) q rest getter direction h l items kv :
  c q = Ret getter -> literal_at 1 (q :: rest) = Ret direction ->
  h !! l = Some (CArray items) ->
  (forall x, In x items ->
     x <> VUndefined /\ settled h getter x (kv x)
     /\ is_primitive (kv x) = true) ->
  same_kind (map kv items) = true ->
  let descending := IsStrictlyEqual direction (VString "desc") in
  exists ev sorted,
    functions_sort c (q :: rest) = Ret ev
    /\ ev (VRef l) h = (Ret (VRef (length h)), (h ++ [CArray sorted])%list)
    /\ Permutation sorted items
    /\ (forall i j a b,
          i < j -> sorted !! i = Some a -> sorted !! j = Some b ->
          (if descending then less (kv a) (kv b) else less (kv b) (kv a))
          = false)
    /\ (forall k,
          List.filter (has_key kv k) sorted = List.filter (has_key kv k) items).
Proof.
  intros Hc Hd Hl Hx Hk descending.
  set (sign := if descending then (-1)%Z else 1%Z).
  assert (sign = 1%Z \/ sign = (-1)%Z) as Hs
    by (subst sign; destruct descending; auto).
  exists (built (functions_sort c (q :: rest))), (sorted_by kv sign items).
  unfold functions_sort. rewrite Hc, Hd. cbn [obind built].
  fold descending. fold sign.
  split; [done|]. split; [|split; [|split]].
  - erewrite bind_Ret by (by apply sort_copy).
    cbv beta iota. erewrite bind_Ret;
      [|unfold read, lift; by rewrite lookup_middle].
    cbv beta iota. erewrite bind_Ret by (by apply Array_sort_settled).
    unfold bind, write, ret. by rewrite insert_middle.
  - apply sorted_by_Permutation.
  - intros i j a b Hij Ha Hb.
    pose proof (sorted_by_positions kv sign items Hs Hk i j a b Hij Ha Hb)
      as H.
    subst sign. destruct descending.
    + by rewrite goes_after_desc in H.
    + by rewrite goes_after_asc in H.
  - intros k. by apply sorted_by_stable.
Qed.

Lemma sample_scores_settled x :
  In x [VRef 0; VRef 1; VRef 2] ->
  x <> VUndefined
  /\ settled sample_scores (built (compile (get_ ["s"]))) x (sample_score x)
  /\ is_primitive (sample_score x) = true.
Proof.
  simpl. intros [<-|[<-|[<-|[]]]];
    (split; [done|split; [intros more|]]); reflexivity.
Qed.

Lemma sort_orders_the_items_witness :
  exists ev sorted,
    functions_sort compile [get_ ["s"]] = Ret ev
    /\ ev (VRef 3) sample_scores
       = (Ret (VRef 4), (sample_scores ++ [CArray sorted])%list)
    /\ Permutation sorted [VRef 0; VRef 1; VRef 2]
    /\ List.filter (has_key sample_score (VNumber (of_Z 2))) sorted
       = [VRef 0; VRef 2].
Proof.
  destruct (sort_orders_the_items compile (get_ ["s"]) [] _ VUndefined
              sample_scores 3 _ sample_score eq_refl eq_refl eq_refl
              sample_scores_settled eq_refl)
    as (ev & sorted & Hev & Hrun & Hperm & _ & Hstable).
  exists ev, sorted. split; [exact Hev|]. split; [exact Hrun|].
  split; [exact Hperm|]. exact (Hstable (VNumber (of_Z 2))).
Defined.

(** ** [min] and [max] *)

Lemma ltb_irrefl x : Num.ltb x x = false.
Proof. destruct (Num.ltb x x) eqn:E; [|done]. by rewrite (ltb_asym _ _ E) in E. Qed.

Lemma max2_spec x y :
  is_nan x = false -> is_nan y = false ->
  (max2 x y = x \/ max2 x y = y)
  /\ Num.ltb (max2 x y) x = false /\ Num.ltb (max2 x y) y = false.
Proof.
  intros Hx Hy. unfold max2. rewrite Hx, Hy. simpl.
  destruct (Num.ltb x y) eqn:E1.
  - split; [by right|]. split; [by apply ltb_asym|apply ltb_irrefl].
  - destruct (Num.ltb y x) eqn:E2.
    + split; [by left|]. split; [apply ltb_irrefl|done].
    + destruct x as [[]| | |]; try (split; [by right|]; split;
        [done|apply ltb_irrefl]).
      split; [by left|]. split; [apply ltb_irrefl|done].
Qed.

Lemma min2_spec x y :
  is_nan x = false -> is_nan y = false ->
  (min2 x y = x \/ min2 x y = y)
  /\ Num.ltb x (min2 x y) = false /\ Num.ltb y (min2 x y) = false.
Proof.
  intros Hx Hy. unfold min2. rewrite Hx, Hy. simpl.
  destruct (Num.ltb x y) eqn:E1.
  - split; [by left|]. split; [apply ltb_irrefl|by apply ltb_asym].
  - destruct (Num.ltb y x) eqn:E2.
    + split; [by right|]. split; [done|apply ltb_irrefl].
    + destruct x as [[]| | |]; try (split; [by right|]; split;
        [done|apply ltb_irrefl]).
      split; [by left|]. split; [apply ltb_irrefl|done].
Qed.

Lemma fold_max2 l acc :
  is_nan acc = false -> Forall (fun n => is_nan n = false) l ->
  let r := fold_left max2 l acc in
  is_nan r = false /\ (r = acc \/ In r l)
  /\ Num.ltb r acc = false /\ forall n, In n l -> Num.ltb r n = false.
Proof.
  intros Ha Hl. revert acc Ha. induction Hl as [|a l Hna Hl IH]; intros acc Ha.
  - simpl. split; [done|]. split; [by left|]. split; [apply ltb_irrefl|done].
  - simpl. destruct (max2_spec acc a Ha Hna) as (Hor & H1 & H2).
    assert (is_nan (max2 acc a) = false) as Hm by (by destruct Hor as [->| ->]).
    destruct (IH _ Hm) as (Hr & Hin & Hacc & Hall).
    split; [done|]. split; [|split].
    + destruct Hin as [->|?]; [|right; by right].
      destruct Hor as [->| ->]; [by left|right; by left].
    + by apply (ltb_false_trans acc (max2 acc a) _).
    + intros n [<-|Hn]; [|by apply Hall].
      by apply (ltb_false_trans a (max2 acc a) _).
Qed.

Lemma fold_min2 l acc :
  is_nan acc = false -> Forall (fun n => is_nan n = false) l ->
  let r := fold_left min2 l acc in
  is_nan r = false /\ (r = acc \/ In r l)
  /\ Num.ltb acc r = false /\ forall n, In n l -> Num.ltb n r = false.
Proof.
  intros Ha Hl. revert acc Ha. induction Hl as [|a l Hna Hl IH]; intros acc Ha.
  - simpl. split; [done|]. split; [by left|]. split; [apply ltb_irrefl|done].
  - simpl. destruct (min2_spec acc a Ha Hna) as (Hor & H1 & H2).
    assert (is_nan (min2 acc a) = false) as Hm by (by destruct Hor as [->| ->]).
    destruct (IH _ Hm) as (Hr & Hin & Hacc & Hall).
    split; [done|]. split; [|split].
    + destruct Hin as [->|?]; [|right; by right].
      destruct Hor as [->| ->]; [by left|right; by left].
    + by apply (ltb_false_trans _ (min2 acc a) acc).
    + intros n [<-|Hn]; [|by apply Hall].
      by apply (ltb_false_trans _ (min2 acc a) a).
Qed.

Lemma omap_ToNumber_numbers h ns :
  omap (ToNumber h) (map VNumber ns) = Ret ns.
Proof. induction ns as [|n ns IH]; simpl; [done|]. by rewrite IH. Qed.

(** X19: on an array of numbers that is not empty and holds no [NaN],
    [max] returns an item that no item exceeds and [min] an item that no
    item is below. *)
Theorem max_and_min_bound_the_items args_max args_min h l ns :
  h !! l = Some (CArray (map VNumber ns)) -> ns <> [] ->
  Forall (fun n => is_nan n = false) ns ->
  exists ev_max ev_min hi lo,
    functions_max args_max = Ret ev_max /\ functions_min args_min = Ret ev_min
    /\ ev_max (VRef l) h = (Ret (VNumber hi), h)
    /\ ev_min (VRef l) h = (Ret (VNumber lo), h)
    /\ In hi ns /\ In lo ns
    /\ forall n, In n ns -> Num.ltb hi n = false /\ Num.ltb n lo = false.
Proof.
  intros Hl Hne Hns. destruct ns as [|a ns]; [done|].
  apply Forall_cons_1 in Hns as [Ha Hns].
  exists (built (functions_max args_max)), (built (functions_min args_min)),
    (Math_max (a :: ns)), (Math_min (a :: ns)).
  split; [done|]. split; [done|].
  assert (Math_max (a :: ns) = fold_left max2 ns a) as Emax.
  { unfold Math_max. simpl. f_equal. by destruct a as [[]|[]| |[] m e]. }
  assert (Math_min (a :: ns) = fold_left min2 ns a) as Emin.
  { unfold Math_min. simpl. f_equal. by destruct a as [[]|[]| |[] m e]. }
  destruct (fold_max2 ns a Ha Hns) as (_ & Hin1 & Hacc1 & Hall1).
  destruct (fold_min2 ns a Ha Hns) as (_ & Hin2 & Hacc2 & Hall2).
  split; [|split; [|split; [|split]]].
  - cbn [built functions_max]. unfold spread_numbers, lift, iterate.
    rewrite Hl. cbn [obind]. by rewrite omap_ToNumber_numbers.
  - cbn [built functions_min]. unfold spread_numbers, lift, iterate.
    rewrite Hl. cbn [obind]. by rewrite omap_ToNumber_numbers.
  - rewrite Emax. destruct Hin1 as [->|?]; [by left|by right].
  - rewrite Emin. destruct Hin2 as [->|?]; [by left|by right].
  - rewrite Emax, Emin. intros n [<-|Hn]; [done|].
    split; [by apply Hall1 | by apply Hall2].
Qed.

Lemma max_and_min_bound_the_items_witness :
  exists hi lo,
    built (functions_max []) (VRef 0)
      [CArray (map VNumber [of_Z 3; of_Z (-1); of_Z 7])]
    = (Ret (VNumber hi), [CArray (map VNumber [of_Z 3; of_Z (-1); of_Z 7])])
    /\ built (functions_min []) (VRef 0)
         [CArray (map VNumber [of_Z 3; of_Z (-1); of_Z 7])]
       = (Ret (VNumber lo), [CArray (map VNumber [of_Z 3; of_Z (-1); of_Z 7])])
    /\ Num.ltb hi (of_Z 7) = false /\ Num.ltb (of_Z (-1)) lo = false.
Proof.
  destruct (max_and_min_bound_the_items [] []
              [CArray (map VNumber [of_Z 3; of_Z (-1); of_Z 7])] 0
              [of_Z 3; of_Z (-1); of_Z 7] eq_refl ltac:(done)
              ltac:(repeat constructor))
    as (e1 & e2 & hi & lo & H1 & H2 & Hhi & Hlo & _ & _ & Hb).
  injection H1 as <-. injection H2 as <-. exists hi, lo.
  split; [exact Hhi|]. split; [exact Hlo|]. split.
  - apply (Hb (of_Z 7)). right; right; by left.
  - apply (Hb (of_Z (-1))). right; by left.
Defined.

(** ** [flatten] and [reverse] *)

(** X20: on an array, [flatten] returns a new array with, for every item
    in order, the elements of the item when the item is an array and the
    item itself when it is not: one level is flattened, and an array among
    the elements of an item stays the array it is. *)
Theorem flatten_removes_one_level args ev h l items parts :
  functions_flatten args = Ret ev -> h !! l = Some (CArray items) ->
  Forall2 (fun item part =>
             (exists a, item = VRef a /\ h !! a = Some (CArray part))
             \/ (isArray h item = false /\ part = [item])) items parts ->
  ev (VRef l) h = (Ret (VRef (length h)), (h ++ [CArray (concat parts)])%list).
Proof.
  intros [= <-] Hl Hparts. cbv beta.
  erewrite bind_Ret; [|unfold lift, array_method; by rewrite Hl].
  erewrite bind_Ret by reflexivity. unfold alloc_array, alloc.
  assert (flat1 h items = concat parts) as ->; [|done].
  clear Hl. unfold flat1.
  induction Hparts as [|item part items' parts' Hitem _ IH]; [done|].
  simpl. rewrite IH. f_equal. destruct Hitem as [(a & -> & Ha)|[Harr ->]].
  - by rewrite Ha.
  - unfold isArray in Harr. destruct item; try done.
    by destruct (h !! l0) as [[]|].
Qed.

Lemma flatten_removes_one_level_witness :
  built (functions_flatten []) (VRef 2)
    [CArray [VNumber (of_Z 1)]; CArray [VRef 0; VNull];
     CArray [VRef 1; VString "x"; VRef 0]]
  = (Ret (VRef 3),
     [CArray [VNumber (of_Z 1)]; CArray [VRef 0; VNull];
      CArray [VRef 1; VString "x"; VRef 0];
      CArray [VRef 0; VNull; VString "x"; VNumber (of_Z 1)]]).
Proof.
  refine (flatten_removes_one_level [] _
            [CArray [VNumber (of_Z 1)]; CArray [VRef 0; VNull];
             CArray [VRef 1; VString "x"; VRef 0]] 2 _
            [[VRef 0; VNull]; [VString "x"]; [VNumber (of_Z 1)]]
            eq_refl eq_refl _).
  constructor; [left; eauto|].
  constructor; [by right|]. constructor; [left; eauto|constructor].
Defined.

(** X21: on an array, [reverse] returns a new array with the items in the
    opposite order, and [reverse] of that array returns a new array with
    the items in their first order; on a string and on every other value
    that is no array it throws a [TypeError]. *)
Theorem reverse_twice_restores_the_order args ev h l items :
  functions_reverse args = Ret ev -> h !! l = Some (CArray items) ->
  ev (VRef l) h = (Ret (VRef (length h)), (h ++ [CArray (rev items)])%list)
  /\ ev (VRef (length h)) (h ++ [CArray (rev items)])%list
     = (Ret (VRef (S (length h))),
        (h ++ [CArray (rev items); CArray items])%list)
  /\ forall v, isArray h v = false -> allocated h v ->
       exists e, ev v h = (Throw (TypeError e), h).
Proof.
  intros [= <-] Hl. split; [|split].
  - cbv beta. erewrite bind_Ret; [|unfold lift, array_method; by rewrite Hl].
    reflexivity.
  - cbv beta. erewrite bind_Ret;
      [|unfold lift, array_method; by rewrite lookup_middle].
    unfold alloc_array, alloc. rewrite rev_involutive, length_app. simpl.
    by rewrite Nat.add_1_r, <- app_assoc.
  - intros v Harr Hv. cbv beta. unfold bind, lift, array_method.
    destruct v; simpl; eauto.
    simpl in Harr, Hv. apply lookup_lt_is_Some in Hv as [c Hc].
    rewrite Hc in *. destruct c; [done|eauto].
Qed.

Lemma reverse_twice_restores_the_order_witness :
  built (functions_reverse []) (VRef 0) sample_array
  = (Ret (VRef 1), (sample_array ++ [CArray (rev sample_items)])%list)
  /\ built (functions_reverse []) (VRef 1)
       (sample_array ++ [CArray (rev sample_items)])%list
     = (Ret (VRef 2),
        (sample_array ++ [CArray (rev sample_items); CArray sample_items])%list).
Proof.
  destruct (reverse_twice_restores_the_order [] _ sample_array 0 sample_items
              eq_refl eq_refl) as (H1 & H2 & _).
  split; [exact H1 | exact H2].
Defined.

(** ** Arithmetic and conversions *)

Lemma buildFunction_runs (c : json -> outcome Evaluator) fn args evs data h vs h' :
  omap c args = Ret evs ->
  mapM (fun arg : Evaluator => arg data) evs h = (Ret vs, h') ->
  exists ev, buildFunction c fn args = Ret ev /\ ev data h = fn vs h'.
Proof.
  intros Hargs Hvs.
  destruct (buildFunction_builds c fn args evs Hargs) as [ev Hev].
  destruct (buildFunction_general c fn args ev Hev) as (evs' & Hargs' & Hrun).
  rewrite Hargs in Hargs'. injection Hargs' as <-.
  exists ev. split; [done|]. rewrite Hrun. by erewrite bind_Ret by exact Hvs.
Qed.

(** X22: [number] never answers [NaN]: when its argument is a primitive
    value, it answers the number the value converts to, and [null] when
    that number is [NaN]; [null], [false], the empty string and text of
    white space only convert to [0]. *)
Theorem number_answers_null_for_NaN
  (c : json -> outcome Evaluator) args evs data h vs h' :
  omap c args = Ret evs ->
  mapM (fun arg : Evaluator => arg data) evs h = (Ret vs, h') ->
  is_primitive (arg_at 0 vs) = true ->
  let n := primitive_number (arg_at 0 vs) in
  exists ev r,
    functions c Fnumber args = Ret ev
    /\ ev data h = (Ret r, h')
    /\ r = (if is_nan n then VNull else VNumber n)
    /\ r <> VNumber NaN
    /\ (forall s, arg_at 0 vs = VString s -> trim s = "" -> r = VNumber zero)
    /\ (arg_at 0 vs = VNull \/ arg_at 0 vs = VBool false -> r = VNumber zero).
Proof.
  intros Hargs Hvs Hp n.
  destruct (buildFunction_runs c number_fn args evs data h vs h' Hargs Hvs)
    as (ev & Hev & Hrun).
  exists ev, (if is_nan n then VNull else VNumber n).
  split; [exact Hev|]. split; [|split; [done|split; [|split]]].
  - rewrite Hrun. unfold number_fn, lift.
    by rewrite (ToNumber_primitive h' _ Hp).
  - destruct (is_nan n) eqn:E; [done|]. intros [= Hn]. by rewrite Hn in E.
  - intros s Hs Ht. subst n. rewrite Hs. simpl. unfold StringToNumber.
    by rewrite Ht.
  - intros [Hv|Hv]; subst n; by rewrite Hv.
Qed.

Lemma number_answers_null_for_NaN_witness :
  exists ev r,
    functions compile Fnumber [get_ []] = Ret ev
    /\ ev (VString "12px") [] = (Ret r, [])
    /\ r = VNull.
Proof.
  destruct (number_answers_null_for_NaN compile [get_ []] _ (VString "12px")
              [] [VString "12px"] [] eq_refl eq_refl eq_refl)
    as (ev & r & Hev & Hrun & Hr & _).
  exists ev, r. split; [exact Hev|]. split; [exact Hrun|exact Hr].
Defined.

Lemma abs_not_negative x :
  Num.ltb (Num.abs x) zero = false /\ Num.abs x <> neg_zero
  /\ Num.abs (Num.abs x) = Num.abs x.
Proof. by destruct x as [[]|[]| |[] m e]. Qed.

(** X23: on primitive operands, [subtract], [multiply], [divide] and [mod]
    answer the result of the operation on the numbers the operands convert
    to, and never throw; [add] does so too unless an operand is a string,
    in which case it answers the concatenation of the texts of the
    operands.  A finite number other than zero divided by zero is an
    infinity. *)
Theorem arithmetic_converts_its_operands
  (c : json -> outcome Evaluator) args evs data h vs h' :
  omap c args = Ret evs ->
  mapM (fun arg : Evaluator => arg data) evs h = (Ret vs, h') ->
  is_primitive (arg_at 0 vs) = true -> is_primitive (arg_at 1 vs) = true ->
  let a := arg_at 0 vs in
  let b := arg_at 1 vs in
  let run fn := fst (built (functions c fn args) data h) in
  let is_string v := match v with VString _ => true | _ => false end in
  run Fsubtract = Ret (VNumber (Num.sub (primitive_number a) (primitive_number b)))
  /\ run Fmultiply
     = Ret (VNumber (Num.mul (primitive_number a) (primitive_number b)))
  /\ run Fdivide
     = Ret (VNumber (Num.div (primitive_number a) (primitive_number b)))
  /\ run Fmod
     = Ret (VNumber (Num.rem (primitive_number a) (primitive_number b)))
  /\ run Fadd
     = Ret (if is_string a || is_string b
            then VString (primitive_text a ++ primitive_text b)
            else VNumber (Num.add (primitive_number a) (primitive_number b)))
  /\ forall s m e s',
       Num.div (S754_finite s m e) (S754_zero s') = S754_infinity (xorb s s').
Proof.
  intros Hargs Hvs Ha Hb a b run is_string.
  assert (forall fn, run fn
            = match fn with
              | Fsubtract | Fmultiply | Fdivide | Fmod | Fadd =>
                  fst (match fn with
                       | Fsubtract => arith_fn (js_arith Num.sub)
                       | Fmultiply => arith_fn (js_arith Num.mul)
                       | Fdivide => arith_fn (js_arith Num.div)
                       | Fmod => arith_fn (js_arith Num.rem)
                       | _ => arith_fn js_add
                       end vs h')
              | _ => run fn
              end) as Hrun.
  { intros fn. subst run. cbv beta.
    destruct fn; try reflexivity; cbn [functions];
      match goal with
      | |- context [buildFunction c ?f args] =>
          destruct (buildFunction_runs c f args evs data h vs h' Hargs Hvs)
            as (ev & -> & Hr)
      end; cbn [built]; rewrite Hr; reflexivity. }
  split; [|split; [|split; [|split; [|split]]]].
  - rewrite Hrun. unfold arith_fn, lift, js_arith. fold a b.
    by rewrite !ToNumber_primitive.
  - rewrite Hrun. unfold arith_fn, lift, js_arith. fold a b.
    by rewrite !ToNumber_primitive.
  - rewrite Hrun. unfold arith_fn, lift, js_arith. fold a b.
    by rewrite !ToNumber_primitive.
  - rewrite Hrun. unfold arith_fn, lift, js_arith. fold a b.
    by rewrite !ToNumber_primitive.
  - rewrite Hrun. unfold arith_fn, lift, js_add. subst a b is_string.
    rewrite !ToPrimitive_primitive by done. cbn [obind fst].
    destruct (arg_at 0 vs), (arg_at 1 vs); try discriminate; simpl;
      rewrite ?ToString_primitive_text by done; reflexivity.
  - reflexivity.
Qed.

Lemma arithmetic_converts_its_operands_witness :
  fst (built (functions compile Fsubtract [JString "5"; N_ 2]) VNull [])
  = Ret (VNumber (Num.sub (StringToNumber "5") (of_Z 2)))
  /\ fst (built (functions compile Fadd [JString "5"; N_ 2]) VNull [])
     = Ret (VString ("5" ++ Number_toString (of_Z 2))).
Proof.
  destruct (arithmetic_converts_its_operands compile [JString "5"; N_ 2] _
              VNull [] [VString "5"; VNumber (of_Z 2)] [] eq_refl eq_refl
              eq_refl eq_refl) as (H1 & _ & _ & _ & H2 & _).
  split; [exact H1 | exact H2].
Defined.

(** X24: [abs] answers the absolute value of the number its argument
    converts to: the answer is never below zero and never [-0], and [abs]
    of the answer is the answer. *)
Theorem abs_is_not_negative
  (c : json -> outcome Evaluator) args evs data h vs h' :
  omap c args = Ret evs ->
  mapM (fun arg : Evaluator => arg data) evs h = (Ret vs, h') ->
  is_primitive (arg_at 0 vs) = true ->
  exists ev r,
    functions c Fabs args = Ret ev
    /\ ev data h = (Ret (VNumber r), h')
    /\ r = Num.abs (primitive_number (arg_at 0 vs))
    /\ Num.ltb r zero = false /\ r <> neg_zero
    /\ abs_fn [VNumber r] h' = (Ret (VNumber r), h').
Proof.
  intros Hargs Hvs Hp.
  destruct (buildFunction_runs c abs_fn args evs data h vs h' Hargs Hvs)
    as (ev & Hev & Hrun).
  exists ev, (Num.abs (primitive_number (arg_at 0 vs))).
  destruct (abs_not_negative (primitive_number (arg_at 0 vs)))
    as (H1 & H2 & H3).
  split; [exact Hev|]. repeat split; try done.
  - rewrite Hrun. unfold abs_fn, lift. by rewrite ToNumber_primitive.
  - unfold abs_fn, lift. simpl. by rewrite H3.
Qed.

Lemma abs_is_not_negative_witness :
  exists ev r,
    functions compile Fabs [get_ []] = Ret ev
    /\ ev (VString "-3") [] = (Ret (VNumber r), [])
    /\ Num.ltb r zero = false.
Proof.
  destruct (abs_is_not_negative compile [get_ []] _ (VString "-3") []
              [VString "-3"] [] eq_refl eq_refl eq_refl)
    as (ev & r & Hev & Hrun & _ & Hr & _).
  exists ev, r. split; [exact Hev|]. split; [exact Hrun|exact Hr].
Defined.

(** ** [sum], [prod] and [average] *)

Lemma reduce_numbers (op : number -> number -> number) r x h :
  foldM (fun a b => lift (fun h => js_arith op h a b)) (VNumber x)
    (map VNumber r) h
  = (Ret (VNumber (fold_left op r x)), h).
Proof.
  revert x. induction r as [|y r IH]; intros x; simpl; [done|].
  unfold bind at 1, lift at 1. simpl. apply IH.
Qed.

Lemma reduce_sum_numbers r x h :
  foldM (fun a b => lift (fun h => js_add h a b)) (VNumber x)
    (map VNumber r) h
  = (Ret (VNumber (fold_left Num.add r x)), h).
Proof.
  revert x. induction r as [|y r IH]; intros x; simpl; [done|].
  unfold bind at 1, lift at 1. simpl. apply IH.
Qed.

(** X25: on an array of numbers that is not empty, [sum] and [prod] fold
    the items from the left, starting with the first item, and [average]
    divides that sum by the number of items; the store is left as it was.
    An array of one item gives that item itself as its sum and product,
    whatever the item is. *)
Theorem folds_go_from_the_left args h l x r :
  h !! l = Some (CArray (map VNumber (x :: r))) ->
  built (functions_sum args) (VRef l) h
  = (Ret (VNumber (fold_left Num.add r x)), h)
  /\ built (functions_prod args) (VRef l) h
     = (Ret (VNumber (fold_left Num.mul r x)), h)
  /\ built (functions_average args) (VRef l) h
     = (Ret (VNumber (Num.div (fold_left Num.add r x)
                        (of_Z (Z.of_nat (S (length r)))))), h)
  /\ forall l' v, h !! l' = Some (CArray [v]) ->
       built (functions_sum args) (VRef l') h = (Ret v, h)
       /\ built (functions_prod args) (VRef l') h = (Ret v, h).
Proof.
  intros Hl.
  assert (built (functions_sum args) (VRef l) h
          = (Ret (VNumber (fold_left Num.add r x)), h)) as Hsum.
  { simpl. unfold reduce. erewrite bind_Ret
      by (unfold lift, array_method; by rewrite Hl).
    apply reduce_sum_numbers. }
  split; [exact Hsum|]. split; [|split].
  - simpl. unfold reduce. erewrite bind_Ret
      by (unfold lift, array_method; by rewrite Hl).
    apply reduce_numbers.
  - simpl in *. erewrite bind_Ret by exact Hsum.
    erewrite bind_Ret.
    2:{ unfold lift, GetV. rewrite Hl. reflexivity. }
    unfold lift, js_arith. simpl. by rewrite length_map.
  - intros l' v Hv. split; simpl; unfold reduce;
      (erewrite bind_Ret by (unfold lift, array_method; by rewrite Hv));
      reflexivity.
Qed.

Lemma folds_go_from_the_left_witness :
  built (functions_sum []) (VRef 0)
    [CArray (map VNumber [of_Z 1; of_Z 2; of_Z 3])]
  = (Ret (VNumber (fold_left Num.add [of_Z 2; of_Z 3] (of_Z 1))),
     [CArray (map VNumber [of_Z 1; of_Z 2; of_Z 3])])
  /\ built (functions_average []) (VRef 0)
       [CArray (map VNumber [of_Z 1; of_Z 2; of_Z 3])]
     = (Ret (VNumber (Num.div (fold_left Num.add [of_Z 2; of_Z 3] (of_Z 1))
                        (of_Z 3))),
        [CArray (map VNumber [of_Z 1; of_Z 2; of_Z 3])]).
Proof.
  destruct (folds_go_from_the_left []
              [CArray (map VNumber [of_Z 1; of_Z 2; of_Z 3])] 0 (of_Z 1)
              [of_Z 2; of_Z 3] eq_refl) as (H1 & _ & H3 & _).
  split; [exact H1 | exact H3].
Defined.

(** ** [object] and [map] *)

Lemma omap_getters (c : json -> outcome Evaluator) (P : string -> Evaluator -> Prop)
  entries :
  Forall (fun kq : string * json =>
            exists g, c (snd kq) = Ret g /\ P (fst kq) g) entries ->
  exists gs,
    omap (fun kq : string * json =>
            let? g := c (snd kq) in Ret (fst kq, g)) entries = Ret gs
    /\ map fst gs = map fst entries
    /\ Forall (fun kg : string * Evaluator => P (fst kg) (snd kg)) gs.
Proof.
  induction 1 as [|[k q] entries (g & Hg & Hp) _ (gs & Hgs & Hk & Hall)].
  - by exists [].
  - exists ((k, g) :: gs). simpl in *. rewrite Hg. simpl. rewrite Hgs. simpl.
    split; [done|]. split; [by f_equal|]. by constructor.
Qed.

(** When every entry compiles, [object] uses the getters in the order of
    [Object.keys]. *)
Lemma object_entries_ordered (c : json -> outcome Evaluator) entries gs :
  omap (fun kq : string * json =>
          let? g := c (snd kq) in Ret (fst kq, g)) entries = Ret gs ->
  object_entries c entries = Ret (build_object (ordered gs)).
Proof.
  intros Hgs. unfold object_entries. cbv zeta.
  assert (map (fun kq : string * json => (fst kq, c (snd kq))) entries
          = map (fun kg : string * Evaluator => (fst kg, Ret (snd kg))) gs)
    as ->.
  { revert gs Hgs. induction entries as [|[k q] entries IH]; simpl;
      intros gs Hgs.
    - by injection Hgs as <-.
    - destruct (c q) as [g| |] eqn:Eq; simpl in Hgs; try done.
      destruct (omap _ entries) as [gs'| |] eqn:Eg; simpl in Hgs; try done.
      injection Hgs as <-. simpl. by rewrite (IH gs'). }
  rewrite ordered_map by done.
  assert (forall l : list (string * Evaluator),
            omap (fun kg : string * outcome Evaluator =>
                    let? g := snd kg in Ret (fst kg, g))
              (map (fun kg : string * Evaluator => (fst kg, Ret (snd kg))) l)
            = Ret l) as ->; [|done].
  induction l as [|[k g] l IH]; simpl; [done|]. by rewrite IH.
Qed.

Lemma props_get_tabulated {A} (val : string -> value) (l : list (string * A)) k :
  In k (map fst l) ->
  props_get k (map (fun kq => (fst kq, val (fst kq))) l) = Some (val k).
Proof.
  induction l as [|[k' q] l IH]; simpl; [done|].
  intros [->|Hin]; [by rewrite String.eqb_refl|].
  destruct (String.eqb_spec k' k) as [->|]; [done|]. by apply IH.
Qed.

(** X26: [object] answers a new object that has, for every entry of the
    query, the value its getter reads from the data, under the entry's
    key; the keys stand in the order of [Object.keys], array indices
    first.  The getters read the store only, the keys are distinct and
    none is [__proto__]. *)
Theorem object_evaluates_every_entry
  (c : json -> outcome Evaluator) entries data h (val : string -> value) :
  NoDup (map fst entries) -> ~ In "__proto__" (map fst entries) ->
  Forall (fun kq : string * json =>
            exists g, c (snd kq) = Ret g /\ settled h g data (val (fst kq)))
    entries ->
  let made := map (fun kq : string * json => (fst kq, val (fst kq)))
                (ordered entries) in
  exists ev,
    functions c Fobject [JObject entries] = Ret ev
    /\ ev data h = (Ret (VRef (length h)), (h ++ [CObject made])%list)
    /\ forall k, In k (map fst entries) ->
         GetV (h ++ [CObject made])%list (VRef (length h)) k = Ret (val k).
Proof.
  intros Hnd Hproto Hall made.
  destruct (omap_getters c (fun k g => settled h g data (val k)) entries Hall)
    as (gs & Hgs & Hkeys & Hset).
  exists (build_object (ordered gs)).
  assert (map (fun kg : string * Evaluator => (fst kg, val (fst kg)))
            (ordered gs) = made) as Hmade.
  { subst made. rewrite <- !ordered_map by done. f_equal.
    clear -Hkeys. revert entries Hkeys.
    induction gs as [|[k g] gs IH]; intros [|[k' q] entries]; simpl;
      try done.
    intros [= -> Hk]. f_equal. by apply IH. }
  split; [|split].
  - simpl. by apply object_entries_ordered.
  - pose proof (build_object_settled h (ordered gs) data
                  (map (fun kg => val (fst kg)) (ordered gs))) as Hb.
    rewrite <- (app_nil_r h) at 1 2.
    rewrite Hb; simpl.
    + rewrite app_nil_r. do 4 f_equal. rewrite <- Hmade.
      generalize (ordered gs) as l. clear.
      induction l as [|[k g] l IH]; simpl; [done|]. by rewrite IH.
    + apply Forall2_fmap_r, Forall_Forall2_diag.
      eapply Forall_forall. intros kg Hin.
      eapply (proj1 (Forall_forall _ _) Hset).
      apply list_elem_of_In. eapply Permutation_in;
        [apply ordered_Permutation | by apply list_elem_of_In].
    + apply NoDup_ListNoDup. rewrite ordered_Permutation, Hkeys.
      by apply NoDup_ListNoDup.
    + intros Hin. apply Hproto. rewrite <- Hkeys.
      eapply Permutation_in; [|exact Hin]. by rewrite ordered_Permutation.
  - intros k Hk. unfold GetV.
    rewrite lookup_app_r, Nat.sub_diag by lia. simpl.
    subst made. rewrite props_get_tabulated; [done|].
    eapply Permutation_in; [|exact Hk].
    symmetry. by rewrite ordered_Permutation.
Qed.

Lemma object_evaluates_every_entry_witness :
  exists ev,
    functions compile Fobject
      [JObject [("b", get_ ["y"]); ("1", N_ 7);
                ("a", get_ ["x"])]] = Ret ev
    /\ ev (VRef 0) [CObject [("x", VNumber (of_Z 1)); ("y", VString "s")]]
       = (Ret (VRef 1),
          [CObject [("x", VNumber (of_Z 1)); ("y", VString "s")];
           CObject [("1", VNumber (of_Z 7)); ("b", VString "s");
                    ("a", VNumber (of_Z 1))]]).
Proof.
  destruct (object_evaluates_every_entry compile
              [("b", get_ ["y"]); ("1", N_ 7);
               ("a", get_ ["x"])]
              (VRef 0) [CObject [("x", VNumber (of_Z 1)); ("y", VString "s")]]
              (fun k => if (k =? "a")%string then VNumber (of_Z 1)
                        else if (k =? "b")%string then VString "s"
                        else VNumber (of_Z 7)))
    as (ev & Hev & Hrun & _).
  - simpl. distinct_strings.
  - simpl. intros [H|[H|[H|[]]]]; discriminate.
  - repeat constructor; eexists; (split; [reflexivity|]);
      intros more; reflexivity.
  - exists ev. split; [exact Hev | exact Hrun].
Defined.

Lemma mapM_settled h (f : Evaluator) items us :
  Forall2 (settled h f) items us ->
  forall more, mapM f items (h ++ more)%list = (Ret us, (h ++ more)%list).
Proof.
  induction 1 as [|x u items us Hx _ IH]; intros more; simpl; [done|].
  erewrite bind_Ret by apply Hx. erewrite bind_Ret by apply IH. done.
Qed.

Lemma map_settled (c : json -> outcome Evaluator) q f h l items us more :
  c q = Ret f ->
  (h ++ more)%list !! l = Some (CArray items) ->
  Forall2 (settled h f) items us ->
  built (functions_map c [q]) (VRef l) (h ++ more)%list
  = (Ret (VRef (length (h ++ more)%list)), (h ++ more ++ [CArray us])%list).
Proof.
  intros Hq Hl Hus. unfold functions_map. simpl. rewrite Hq. simpl.
  erewrite bind_Ret by (unfold lift, array_method; by rewrite Hl).
  erewrite bind_Ret by (by apply mapM_settled).
  unfold alloc_array, alloc. simpl. by rewrite <- app_assoc.
Qed.

(** X27: [map] answers a new array that holds the callback's answer for
    every item, in order, so it is as long as the input.  Mapping with [f]
    and then with [g] gives an array of the same items as mapping once
    with the pipe of [f] and [g].  The callbacks read the store only. *)
Theorem map_fuses_with_pipe
  (c : json -> outcome Evaluator) qf qg qfg f g h l items us ws :
  c qf = Ret f -> c qg = Ret g -> c qfg = functions c Fpipe [qf; qg] ->
  h !! l = Some (CArray items) ->
  Forall2 (settled h f) items us -> Forall2 (settled h g) us ws ->
  exists m1 m2 m12,
    functions c Fmap [qf] = Ret m1
    /\ functions c Fmap [qg] = Ret m2
    /\ functions c Fmap [qfg] = Ret m12
    /\ m1 (VRef l) h = (Ret (VRef (length h)), (h ++ [CArray us])%list)
    /\ m2 (VRef (length h)) (h ++ [CArray us])%list
       = (Ret (VRef (S (length h))), (h ++ [CArray us; CArray ws])%list)
    /\ m12 (VRef l) h = (Ret (VRef (length h)), (h ++ [CArray ws])%list)
    /\ length us = length items /\ length ws = length items.
Proof.
  intros Hf Hg Hfg Hl Hus Hws.
  assert (exists p, c qfg = Ret p
                    /\ Forall2 (settled h p) items ws) as (p & Hp & Hpw).
  { rewrite Hfg. simpl. unfold functions_pipe. simpl. rewrite Hf, Hg. simpl.
    eexists. split; [reflexivity|].
    clear Hl. revert ws Hws.
    induction Hus as [|x u items us Hx _ IH]; intros ws Hws;
      inversion Hws as [|? w ? ws' Hu Hws']; subst; constructor.
    - intros more. simpl. erewrite bind_Ret by apply Hx.
      erewrite bind_Ret by apply Hu. done.
    - by apply IH. }
  exists (built (functions_map c [qf])), (built (functions_map c [qg])),
    (built (functions_map c [qfg])).
  split; [simpl; unfold functions_map; simpl; by rewrite Hf|].
  split; [simpl; unfold functions_map; simpl; by rewrite Hg|].
  split; [simpl; unfold functions_map; simpl; by rewrite Hp|].
  split; [|split; [|split; [|split]]].
  - pose proof (map_settled c qf f h l items us [] Hf) as H.
    rewrite !app_nil_r in H. simpl in H. by apply H.
  - pose proof (map_settled c qg g h (length h) us ws [CArray us] Hg) as H.
    rewrite H; [|by rewrite lookup_app_r, Nat.sub_diag by lia|done].
    rewrite length_app. simpl. by rewrite Nat.add_1_r.
  - pose proof (map_settled c qfg p h l items ws [] Hp) as H.
    rewrite !app_nil_r in H. simpl in H. by apply H.
  - symmetry. by eapply Forall2_length.
  - rewrite <- (Forall2_length _ _ _ Hws). symmetry.
    exact (Forall2_length _ _ _ Hus).
Qed.

Lemma map_fuses_with_pipe_witness :
  exists m1 m12,
    functions compile Fmap [get_ ["a"]] = Ret m1
    /\ functions compile Fmap [call "pipe" [get_ ["a"]; get_ ["b"]]] = Ret m12
    /\ m12 (VRef 0) sample_table
       = (Ret (VRef (length sample_table)),
          (sample_table ++ [CArray [VNumber (of_Z 1); VNull]])%list).
Proof.
  destruct (map_fuses_with_pipe compile (get_ ["a"]) (get_ ["b"])
              (call "pipe" [get_ ["a"]; get_ ["b"]])
              (built (compile (get_ ["a"]))) (built (compile (get_ ["b"])))
              sample_table 0 [VRef 1; VRef 2] [VRef 3; VNull]
              [VNumber (of_Z 1); VNull]
              eq_refl eq_refl eq_refl eq_refl)
    as (m1 & m2 & m12 & H1 & _ & H12 & _ & _ & Hrun & _).
  - repeat constructor; intros more; reflexivity.
  - repeat constructor; intros more; reflexivity.
  - exists m1, m12. split; [exact H1|]. split; [exact H12 | exact Hrun].
Defined.

(** ** [split] without a separator *)

Lemma chars_append a b :
  list_ascii_of_string (a ++ b)
  = (list_ascii_of_string a ++ list_ascii_of_string b)%list.
Proof. induction a as [|c a IH]; simpl; [done|]. by rewrite IH. Qed.

Lemma chars_rev_str s :
  list_ascii_of_string (rev_str s "") = rev (list_ascii_of_string s).
Proof.
  induction s as [|c s IH]; simpl; [done|].
  by rewrite rev_str_app, chars_append, IH.
Qed.

Lemma chars_inj a b :
  list_ascii_of_string a = list_ascii_of_string b -> a = b.
Proof.
  intros H. rewrite <- (string_of_list_ascii_of_string a),
    <- (string_of_list_ascii_of_string b). by rewrite H.
Qed.

Lemma rev_str_append a b :
  rev_str (a ++ b) "" = (rev_str b "" ++ rev_str a "")%string.
Proof.
  apply chars_inj.
  by rewrite chars_append, !chars_rev_str, chars_append, rev_app_distr.
Qed.

Lemma rev_str_involutive s : rev_str (rev_str s "") "" = s.
Proof. apply chars_inj. by rewrite !chars_rev_str, rev_involutive. Qed.

Lemma letters_append a b : letters (a ++ b) = (letters a ++ letters b)%list.
Proof. unfold letters. by rewrite chars_append, List.filter_app. Qed.

Lemma letters_blank w : blank w = true -> letters w = [].
Proof.
  unfold blank, letters. induction (list_ascii_of_string w) as [|c l IH];
    cbn [forallb List.filter]; [done|].
  intros [Hc Hl]%andb_prop. rewrite Hc. cbn [negb]. by apply IH.
Qed.

Lemma blank_letters w : letters w = [] -> blank w = true.
Proof.
  unfold blank, letters. induction (list_ascii_of_string w) as [|c l IH];
    cbn [forallb List.filter]; [done|].
  destruct (is_ws c); cbn [negb andb]; [exact IH | done].
Qed.

Lemma blank_rev_str w : blank (rev_str w "") = blank w.
Proof.
  unfold blank. rewrite chars_rev_str.
  apply eq_true_iff_eq. rewrite !forallb_forall.
  split; intros H c Hc; apply H; [by apply in_rev in Hc | by apply in_rev].
Qed.

Lemma trim_start_split s :
  exists w, s = (w ++ trim_start s)%string /\ blank w = true.
Proof.
  induction s as [|c s (w & Hs & Hw)]; cbn [trim_start]; [by exists ""|].
  destruct (is_ws c) eqn:Ec; [|by exists ""].
  exists (String c w). split; [simpl; by rewrite <- Hs|].
  unfold blank in *. cbn [list_ascii_of_string forallb]. by rewrite Ec.
Qed.

Lemma trim_end_split s :
  exists w, s = (trim_end s ++ w)%string /\ blank w = true.
Proof.
  unfold trim_end. destruct (trim_start_split (rev_str s "")) as (w & Hs & Hw).
  exists (rev_str w ""). split; [|by rewrite blank_rev_str].
  rewrite <- rev_str_append, <- Hs. by rewrite rev_str_involutive.
Qed.

Lemma letters_trim s : letters (trim s) = letters s.
Proof.
  unfold trim.
  destruct (trim_start_split s) as (w & Hs & Hw).
  destruct (trim_end_split (trim_start s)) as (w' & Hs' & Hw').
  rewrite Hs at 2. rewrite Hs' at 2.
  rewrite !letters_append, (letters_blank w Hw), (letters_blank w' Hw').
  by rewrite app_nil_r.
Qed.

Lemma trim_start_solid s :
  trim_start s = ""
  \/ exists c r, trim_start s = String c r /\ is_ws c = false.
Proof.
  induction s as [|c s IH]; cbn [trim_start]; [by left|].
  destruct (is_ws c) eqn:Ec; [exact IH|]. right. by exists c, s.
Qed.

Lemma trim_blank s : blank s = true -> trim s = "".
Proof.
  intros H. unfold trim.
  assert (trim_start s = "") as ->; [|done].
  revert H. unfold blank. induction s as [|c s IH];
    cbn [list_ascii_of_string forallb trim_start]; [done|].
  intros [-> Hs]%andb_prop. by apply IH.
Qed.

(** A text that starts and ends with a character that is not white space. *)
Lemma trim_solid s :
  blank s = false ->
  exists c r, trim s = String c r /\ is_ws c = false
              /\ exists l d, list_ascii_of_string (trim s) = (l ++ [d])%list
                             /\ is_ws d = false.
Proof.
  intros Hs.
  assert (trim s <> "") as Hne.
  { intros E. pose proof (letters_trim s) as H. rewrite E in H.
    symmetry in H. apply blank_letters in H. congruence. }
  unfold trim in *.
  destruct (trim_end_split (trim_start s)) as (w & Ht & Hw).
  destruct (trim_end (trim_start s)) as [|c r] eqn:E; [done|].
  exists c, r. split; [done|]. split.
  - destruct (trim_start_solid s) as [E0|(c' & r' & E1 & Hc)].
    + rewrite E0 in Ht. discriminate.
    + rewrite E1 in Ht. simpl in Ht. by injection Ht as -> _.
  - unfold trim_end in E.
    destruct (trim_start_solid (rev_str (trim_start s) ""))
      as [E0|(d & r' & E1 & Hd)].
    + rewrite E0 in E. discriminate.
    + exists (rev (list_ascii_of_string r')), d. split; [|done].
      rewrite <- E. rewrite E1, chars_rev_str. reflexivity.
Qed.

Lemma rev_str_not_empty c r : rev_str (String c r) "" <> "".
Proof.
  intros H. apply (f_equal list_ascii_of_string) in H.
  rewrite chars_rev_str in H. simpl in H.
  by destruct (rev (list_ascii_of_string r)).
Qed.

Lemma split_ws_letters s cur in_ws :
  concat (map list_ascii_of_string (split_ws s cur in_ws))
  = (rev (list_ascii_of_string cur) ++ letters s)%list.
Proof.
  revert cur in_ws. unfold letters.
  induction s as [|c s IH]; intros cur in_ws;
    cbn [split_ws list_ascii_of_string List.filter].
  - simpl. by rewrite chars_rev_str.
  - destruct (is_ws c) eqn:Ec; cbn [negb].
    + destruct in_ws; [apply IH|].
      cbn [map concat]. by rewrite IH, chars_rev_str.
    + rewrite IH. simpl. by rewrite <- app_assoc.
Qed.

Lemma split_ws_clean s cur in_ws :
  forallb (fun c => negb (is_ws c)) (list_ascii_of_string cur) = true ->
  Forall (fun w => letters w = list_ascii_of_string w) (split_ws s cur in_ws).
Proof.
  assert (forall u,
            forallb (fun c => negb (is_ws c)) (list_ascii_of_string u) = true ->
            letters (rev_str u "") = list_ascii_of_string (rev_str u ""))
    as Hrev.
  { intros u H. unfold letters. rewrite chars_rev_str.
    apply forallb_filter_id. rewrite forallb_forall in *.
    intros c Hc. apply H. by apply in_rev. }
  revert cur in_ws. induction s as [|c s IH]; intros cur in_ws Hcur;
    cbn [split_ws].
  - constructor; [by apply Hrev|constructor].
  - destruct (is_ws c) eqn:Ec.
    + destruct in_ws; [by apply IH|].
      constructor; [by apply Hrev|]. by apply IH.
    + apply IH. cbn [list_ascii_of_string forallb]. by rewrite Ec.
Qed.

Lemma split_ws_not_empty s cur in_ws :
  in_ws = true \/ cur <> "" \/ (exists c r, s = String c r /\ is_ws c = false) ->
  (s = "" /\ cur <> "")
  \/ (exists l d, list_ascii_of_string s = (l ++ [d])%list
                  /\ is_ws d = false) ->
  Forall (fun w => w <> "") (split_ws s cur in_ws).
Proof.
  assert (forall u, u <> "" -> rev_str u "" <> "") as Hrev.
  { intros [|c r] H; [done|]. apply rev_str_not_empty. }
  revert cur in_ws. induction s as [|c s IH]; intros cur in_ws HS HE;
    cbn [split_ws].
  - destruct HE as [[_ Hc]|(l & d & Hl & _)].
    + constructor; [by apply Hrev|constructor].
    + by destruct l.
  - destruct HE as [[? _]|(l & d & Hl & Hd)]; [done|].
    assert (s = "" /\ c = d
            \/ exists l', list_ascii_of_string s = (l' ++ [d])%list) as Hs.
    { destruct l as [|c' l]; simpl in Hl.
      - injection Hl as -> Hs. left. split; [|done].
        by destruct s.
      - injection Hl as _ Hs. right. by exists l. }
    destruct (is_ws c) eqn:Ec.
    + destruct Hs as [[_ ->]|[l' Hl']]; [congruence|].
      assert (Forall (fun w => w <> "") (split_ws s
                (if in_ws then cur else "") true)) as Hrest.
      { apply IH; [by left|]. right. by exists l', d. }
      destruct in_ws; [exact Hrest|].
      constructor; [|exact Hrest].
      apply Hrev. destruct HS as [?|[?|(c0 & r0 & [= -> ->] & Hc0)]];
        [done|done|congruence].
    + apply IH; [right; by left|].
      destruct Hs as [[-> _]|[l' Hl']]; [by left|].
      right. by exists l', d.
Qed.

(** X28: [split] with the text as its only argument answers a new array
    of the words of the text: the words hold no white space, and
    together, in order, they are the characters of the text that are not
    white space.  No word is empty, unless the text has white space only:
    then the answer is the array of the empty string. *)
Theorem split_without_separator_gives_words
  (c : json -> outcome Evaluator) args evs data h s h' :
  omap c args = Ret evs ->
  mapM (fun arg : Evaluator => arg data) evs h = (Ret [VString s], h') ->
  let words := split_ws (trim s) "" false in
  exists ev,
    functions c Fsplit args = Ret ev
    /\ ev data h
       = (Ret (VRef (length h')), (h' ++ [CArray (map VString words)])%list)
    /\ Forall (fun w => letters w = list_ascii_of_string w) words
    /\ concat (map list_ascii_of_string words) = letters s
    /\ (blank s = false -> Forall (fun w => w <> "") words)
    /\ (blank s = true -> words = [""]).
Proof.
  intros Hargs Hvs words.
  destruct (buildFunction_runs c split_fn args evs data h [VString s] h'
              Hargs Hvs) as (ev & Hev & Hrun).
  exists ev. subst words.
  split; [exact Hev|]. split; [by rewrite Hrun|].
  split; [by apply split_ws_clean|].
  split; [by rewrite split_ws_letters, letters_trim|]. split.
  - intros Hs. destruct (trim_solid s Hs) as (c0 & r & E & Hc & l & d & El & Hd).
    apply split_ws_not_empty.
    + right. right. by exists c0, r.
    + right. by exists l, d.
  - intros Hs. by rewrite trim_blank.
Qed.

Lemma split_without_separator_gives_words_witness :
  exists ev,
    functions compile Fsplit [get_ []] = Ret ev
    /\ ev (VString "  a  bc ") []
       = (Ret (VRef 0), [CArray [VString "a"; VString "bc"]]).
Proof.
  destruct (split_without_separator_gives_words compile [get_ []] _
              (VString "  a  bc ") [] "  a  bc " [] eq_refl eq_refl)
    as (ev & Hev & Hrun & _).
  exists ev. split; [exact Hev | exact Hrun].
Defined.

(** ** [in] on a text, and [mapObject] *)

Lemma prefix_append p r : String.prefix p (p ++ r) = true.
Proof. induction p as [|c p IH]; simpl; [by destruct r|].
  by destruct (ascii_dec c c).
Qed.

Lemma includes_parts needle s :
  includes needle s = true
  <-> exists p q, s = (p ++ needle ++ q)%string.
Proof.
  split.
  - induction s as [|c s IH]; cbn [includes].
    + rewrite orb_false_r. intros (r & ->)%prefix_split. by exists "", r.
    + intros [(r & Hr)%prefix_split|Hs]%orb_prop.
      * exists "", r. by rewrite Hr.
      * destruct (IH Hs) as (p & q & ->). by exists (String c p), q.
  - intros (p & q & ->). induction p as [|c p IH].
    + simpl. destruct (needle ++ q)%string eqn:E; cbn [includes];
        rewrite <- E, prefix_append; done.
    + cbn [append includes]. rewrite IH. apply orb_true_r.
Qed.

(** X29: when the list is a text, [in] tells whether the text of the value
    is a part of it, and [not in] answers the opposite.  The list is
    evaluated first, then the value. *)
Theorem in_a_text_looks_for_a_part
  (c : json -> outcome Evaluator) qa qb ea eb data h s h1 x h2 :
  c qa = Ret ea -> c qb = Ret eb ->
  eb data h = (Ret (VString s), h1) -> ea data h1 = (Ret x, h2) ->
  is_primitive x = true ->
  let found := includes (primitive_text x) s in
  exists e_in e_not,
    functions c Fin [qa; qb] = Ret e_in
    /\ functions c Fnot_in [qa; qb] = Ret e_not
    /\ e_in data h = (Ret (VBool found), h2)
    /\ e_not data h = (Ret (VBool (negb found)), h2)
    /\ (found = true <-> exists p q, s = (p ++ primitive_text x ++ q)%string).
Proof.
  intros Ha Hb Eb Ea Hx found.
  assert (built (functions_in c [qa; qb]) data h = (Ret (VBool found), h2))
    as Hin.
  { unfold functions_in. simpl. rewrite Ha, Hb. simpl.
    erewrite bind_Ret by exact Eb. cbn [nullish].
    erewrite bind_Ret by exact Ea.
    unfold bind, lift, ret. by rewrite ToString_primitive_text. }
  exists (built (functions_in c [qa; qb])),
    (built (functions_not_in c [qa; qb])).
  split; [simpl; unfold functions_in; simpl; by rewrite Ha, Hb|].
  split; [simpl; unfold functions_not_in, functions_in; simpl;
          by rewrite Ha, Hb|].
  split; [exact Hin|]. split.
  - unfold functions_not_in.
    assert (functions_in c [qa; qb] = Ret (built (functions_in c [qa; qb])))
      as -> by (unfold functions_in; simpl; by rewrite Ha, Hb).
    cbn [obind built]. erewrite bind_Ret by exact Hin. reflexivity.
  - apply includes_parts.
Qed.

Lemma in_a_text_looks_for_a_part_witness :
  exists e_in e_not,
    functions compile Fin [get_ ["k"]; JString "a12b"] = Ret e_in
    /\ functions compile Fnot_in [get_ ["k"]; JString "a12b"] = Ret e_not
    /\ e_in (VRef 0) [CObject [("k", VNumber (of_Z 12))]]
       = (Ret (VBool true), [CObject [("k", VNumber (of_Z 12))]])
    /\ e_not (VRef 0) [CObject [("k", VNumber (of_Z 12))]]
       = (Ret (VBool false), [CObject [("k", VNumber (of_Z 12))]]).
Proof.
  destruct (in_a_text_looks_for_a_part compile (get_ ["k"]) (JString "a12b")
              _ _ (VRef 0) [CObject [("k", VNumber (of_Z 12))]] "a12b" _
              (VNumber (of_Z 12)) _ eq_refl eq_refl eq_refl eq_refl eq_refl)
    as (e_in & e_not & H1 & H2 & H3 & H4 & _).
  exists e_in, e_not.
  split; [exact H1|]. split; [exact H2|]. split; [exact H3 | exact H4].
Defined.

Lemma mapObject_loop h (cb : Evaluator) l props kvs outs :
  h !! l = Some (CObject props) ->
  (forall kv, In kv kvs -> props_get (fst kv) props = Some (snd kv)) ->
  Forall2 (fun kv out =>
             entry_answer h cb (fst kv) (snd kv) (fst out) (snd out))
    kvs outs ->
  Forall (fun out : string * value => fst out <> "__proto__") outs ->
  forall ps more,
  exists more',
    forM_ (fun key =>
             let* v := lift (fun h => GetV h (VRef l) key) in
             let* item := alloc (CObject [("key", VString key); ("value", v)]) in
             let* updated := cb item in
             let* k := lift (fun h => GetV h updated "key") in
             let* u := lift (fun h => GetV h updated "value") in
             let* pk := lift (fun h => ToPropertyKey h k) in
             set_property (length h) pk u)
      (map fst kvs) (h ++ CObject ps :: more)%list
    = (Ret tt,
       (h ++ CObject (fold_left (fun ps out => props_set (fst out) (snd out) ps)
                        outs ps) :: more')%list).
Proof.
  intros Hl Hget Hall Hproto.
  induction Hall as [|[k v] [k' v'] kvs outs Hkv _ IH]; intros ps more;
    cbn [map forM_ fold_left fst snd].
  - by exists more.
  - apply Forall_cons in Hproto as [Hk' Hproto]. simpl in Hk', Hkv.
    destruct (Hkv (CObject ps :: more ++
                     [CObject [("key", VString k); ("value", v)]])%list
                (length (h ++ CObject ps :: more)%list))
      as (r & extra & Hcb & Hrk & Hrv).
    { rewrite app_comm_cons, app_assoc. apply lookup_middle. }
    erewrite bind_Ret.
    2:{ erewrite bind_Ret.
        2:{ unfold lift, GetV. rewrite (lookup_app_l_Some _ _ _ _ Hl).
            pose proof (Hget (k, v) ltac:(by left)) as E. simpl in E.
            rewrite E. reflexivity. }
        erewrite bind_Ret by reflexivity.
        rewrite <- app_assoc, <- app_comm_cons.
        erewrite bind_Ret by exact Hcb.
        erewrite bind_Ret by (unfold lift; by rewrite Hrk).
        erewrite bind_Ret by (unfold lift; by rewrite Hrv).
        erewrite bind_Ret by reflexivity.
        rewrite <- !app_comm_cons.
        by apply set_property_middle. }
    destruct (IH ltac:(intros kv Hin; apply Hget; by right) Hproto
                (props_set k' v' ps)
                ((more ++ [CObject [("key", VString k); ("value", v)]])
                   ++ extra)%list) as (more' & ->).
    by exists more'.
Qed.

Lemma props_get_after_set {A} k k' (v : A) ps :
  props_get k (props_set k' v ps)
  = if (k' =? k)%string then Some v else props_get k ps.
Proof.
  induction ps as [|[k0 v0] ps IH]; simpl; [done|].
  destruct (String.eqb_spec k0 k') as [->|Hne]; simpl.
  - by destruct (k' =? k)%string.
  - rewrite IH. destruct (String.eqb_spec k0 k) as [->|]; [|done].
    by destruct (String.eqb_spec k' k) as [->|].
Qed.

Lemma props_get_assigned k (outs ps : list (string * value)) :
  props_get k
    (fold_left (fun ps out => props_set (fst out) (snd out) ps) outs ps)
  = match props_get k (rev outs) with
    | Some v => Some v
    | None => props_get k ps
    end.
Proof.
  revert ps. induction outs as [|[k' v'] outs IH]; intros ps; simpl; [done|].
  rewrite IH, props_get_app, props_get_after_set. simpl.
  destruct (props_get k (rev outs)); [done|].
  by destruct (k' =? k)%string.
Qed.

Lemma assigned_fresh (outs ps : list (string * value)) :
  NoDup (map fst (ps ++ outs)) ->
  fold_left (fun ps out => props_set (fst out) (snd out) ps) outs ps
  = (ps ++ outs)%list.
Proof.
  revert ps. induction outs as [|[k v] outs IH]; intros ps Hnd; simpl.
  - by rewrite app_nil_r.
  - replace (ps ++ (k, v) :: outs)%list with ((ps ++ [(k, v)]) ++ outs)%list
      in * by (by rewrite <- app_assoc).
    rewrite props_set_fresh; [by apply IH|].
    destruct (props_get k ps) as [x|] eqn:E; [|done].
    apply props_get_Some_In in E.
    rewrite !map_app in Hnd. apply NoDup_app in Hnd as [Hnd _].
    apply NoDup_app in Hnd as (_ & Hnd & _). destruct (Hnd k).
    + apply list_elem_of_In, in_map_iff. by exists (k, x).
    + simpl. by left.
Qed.

(** X30: on an object, when no answer of the callback has the key
    [__proto__], [mapObject] calls the callback with a new entry
    [{key, value}] for every key, in the order of [Object.keys], and
    assigns the [value] of each answer under its [key] to a new object,
    leaving the cells there were as they are.  When two answers have the
    same key, the later value stands.  When the
    keys differ, the properties of the new object are the answers, created
    in their order; [Object.entries] lists them by the rule of
    [Object.keys]: the keys that are array indices first, in ascending
    order, then the others in the order of the answers.  (The keys of an
    object are distinct; on a key [__proto__] the assignment runs the
    inherited setter and creates no property.) *)
Theorem mapObject_assigns_the_answers
  (c : json -> outcome Evaluator) q cb h l props outs :
  c q = Ret cb -> h !! l = Some (CObject props) ->
  NoDup (map fst props) ->
  Forall2 (fun kv out =>
             entry_answer h cb (fst kv) (snd kv) (fst out) (snd out))
    (ordered props) outs ->
  Forall (fun out : string * value => fst out <> "__proto__") outs ->
  exists ev more,
    let h' := (h ++ CObject (assigned outs) :: more)%list in
    functions c FmapObject [q] = Ret ev
    /\ ev (VRef l) h = (Ret (VRef (length h)), h')
    /\ (forall k, props_get k (assigned outs) = props_get k (rev outs))
    /\ own_entries h' (VRef (length h)) = Ret (ordered (assigned outs))
    /\ (NoDup (map fst outs) ->
        assigned outs = outs
        /\ own_entries h' (VRef (length h)) = Ret (ordered outs)
        /\ Object_keys (VRef (length h)) h'
           = (Ret (key_order (map fst outs)), h')).
Proof.
  intros Hc Hl Hnd Hall Hproto.
  destruct (mapObject_loop h cb l props (ordered props) outs Hl) with
    (ps := @nil (string * value)) (more := @nil cell) as (more & Hloop);
    [|done|done|].
  { intros [k v] Hin. apply props_get_In; [done|].
    eapply Permutation_in; [apply ordered_Permutation | done]. }
  exists (built (functions_mapObject c [q])), more.
  split; [simpl; unfold functions_mapObject; simpl; by rewrite Hc|].
  split; [|split; [|split]].
  - unfold functions_mapObject. simpl. rewrite Hc. simpl. unfold for_keys.
    erewrite bind_Ret;
      [|unfold Object_keys, bind, lift, ret, own_entries; by rewrite Hl].
    erewrite bind_Ret by reflexivity. cbv beta iota.
    erewrite bind_Ret by exact Hloop. reflexivity.
  - intros k. unfold assigned. rewrite props_get_assigned.
    by destruct (props_get k (rev outs)).
  - by rewrite own_entries_new.
  - intros Hk.
    assert (assigned outs = outs) as Hsame
      by (unfold assigned; by rewrite assigned_fresh).
    split; [exact Hsame|].
    by rewrite Object_keys_new, own_entries_new, Hsame.
Qed.

Lemma sample_swap_answers more a k v :
  (sample_pairs ++ more)%list !! a
  = Some (CObject [("key", VString k); ("value", VString v)]) ->
  exists r extra,
    built (compile sample_swap) (VRef a) (sample_pairs ++ more)%list
    = (Ret r, (sample_pairs ++ more ++ extra)%list)
    /\ GetV (sample_pairs ++ more ++ extra)%list r "key" = Ret (VString v)
    /\ GetV (sample_pairs ++ more ++ extra)%list r "value" = Ret (VString k).
Proof.
  intros Ha.
  exists (VRef (length (sample_pairs ++ more)%list)),
    [CObject [("key", VString v); ("value", VString k)]].
  split; [|split].
  - pose proof (build_object_settled (sample_pairs ++ more)
                  [("key", built (compile (get_ ["value"])));
                   ("value", built (compile (get_ ["key"])))]
                  (VRef a) [VString v; VString k]) as H.
    assert (settled (sample_pairs ++ more) (built (compile (get_ ["value"])))
              (VRef a) (VString v)) as Hvalue.
    { eapply (get_settled [JString "value"]); [reflexivity|].
      simpl. unfold bind, lift, optional_index, ret. simpl.
      unfold OptionalGet, GetV. pose proof Ha as Ha'. simpl in Ha' |- *.
      rewrite Ha'. reflexivity. }
    assert (settled (sample_pairs ++ more) (built (compile (get_ ["key"])))
              (VRef a) (VString k)) as Hkey.
    { eapply (get_settled [JString "key"]); [reflexivity|].
      simpl. unfold bind, lift, optional_index, ret. simpl.
      unfold OptionalGet, GetV. pose proof Ha as Ha'. simpl in Ha' |- *.
      rewrite Ha'. reflexivity. }
    specialize (H ltac:(constructor; [exact Hvalue|constructor;
                                      [exact Hkey|constructor]])
                  ltac:(simpl; distinct_strings)
                  ltac:(simpl; intros [?|[?|[]]]; discriminate) []).
    rewrite !app_nil_r in H.
    change (built (compile sample_swap))
      with (build_object [("key", built (compile (get_ ["value"])));
                          ("value", built (compile (get_ ["key"])))]).
    rewrite H. by rewrite <- app_assoc.
  - rewrite app_assoc. unfold GetV. by rewrite lookup_middle.
  - rewrite app_assoc. unfold GetV. by rewrite lookup_middle.
Qed.

Lemma mapObject_assigns_the_answers_witness :
  exists ev more,
    let h' := (sample_pairs
                 ++ CObject [("x", VString "a"); ("y", VString "b")]
                 :: more)%list in
    functions compile FmapObject [sample_swap] = Ret ev
    /\ ev (VRef 0) sample_pairs = (Ret (VRef 1), h')
    /\ own_entries h' (VRef 1) = Ret [("x", VString "a"); ("y", VString "b")].
Proof.
  destruct (mapObject_assigns_the_answers compile sample_swap
              (built (compile sample_swap)) sample_pairs 0
              [("a", VString "x"); ("b", VString "y")]
              [("x", VString "a"); ("y", VString "b")] eq_refl eq_refl)
    as (ev & more & Hev & Hrun & _ & Hentries & _).
  - simpl. distinct_strings.
  - repeat constructor; intros more a Ha; by apply sample_swap_answers.
  - repeat constructor; discriminate.
  - exists ev, more. split; [exact Hev|]. split; [exact Hrun|exact Hentries].
Defined.
